(** * Certabo sensor-board core: a shallow embedding and its properties

    The development embeds, function by function, the sensor decoder and
    calibration engine ([UsbReader]), the serial framing loop ([_usbtool]),
    the LED encoder ([LedManager]), the move inference ([get_moves]) and the
    gesture protocol ([PicoChess]) of [utils_shared.py] and [utils.py].

    Conventions of the embedding:
    - a Python [str] is a [string]; a character is a code point below 256;
    - a Python [int] is a [Z];
    - a call that may raise returns a [result]; a method that mutates its
      object is a function from the state before to the outcome and the
      state after, so that what was mutated before an exception is kept;
    - a [dict] is a [gmap], a [Counter] is an insertion-ordered association
      list (its order decides ties), a [set] is a [gset];
    - the clocks ([pygame.time.get_ticks], [time.time]) are sequences of
      readings, consumed one reading per call. *)

From Stdlib Require Import ZArith String Ascii List Lia Bool DecimalString QArith.
From stdpp Require Import base gmap strings list.

Open Scope Z_scope.

(** ** Python primitives *)

Module Py.

(** Exceptions that the embedded code can raise. *)
Inductive exn : Type :=
| IndexError
| KeyError
| ValueError
| TypeError
| AttributeError
| UnpicklingError
| InvalidMove.

Inductive result (A : Type) : Type :=
| Ok (a : A)
| Raise (e : exn).
Arguments Ok {A} a.
Arguments Raise {A} e.

Definition bind {A B : Type} (r : result A) (k : A -> result B) : result B :=
  match r with
  | Ok a => k a
  | Raise e => Raise e
  end.

(** [for x in l: acc = f(acc, x)], stopping at the first exception. *)
Fixpoint foldM {A B : Type} (f : B -> A -> result B) (acc : B) (l : list A)
  : result B :=
  match l with
  | [] => Ok acc
  | x :: l' => bind (f acc x) (fun acc' => foldM f acc' l')
  end.

(** [[f(x) for x in l]], stopping at the first exception. *)
Fixpoint mapM {A B : Type} (f : A -> result B) (l : list A) : result (list B) :=
  match l with
  | [] => Ok []
  | x :: l' => bind (f x) (fun y => bind (mapM f l') (fun ys => Ok (y :: ys)))
  end.

(** *** Sequences: indexing and slicing with Python's negative indices *)

Definition index {A : Type} (l : list A) (i : Z) : result A :=
  let len := Z.of_nat (length l) in
  let k := if i <? 0 then len + i else i in
  if (k <? 0) || (len <=? k) then Raise IndexError
  else match l !! Z.to_nat k with
       | Some x => Ok x
       | None => Raise IndexError
       end.

Definition clamp (len i : Z) : Z :=
  if i <? 0 then Z.max 0 (len + i) else Z.min i len.

(** [l[i:j]]; [None] is an omitted bound. *)
Definition slice {A : Type} (l : list A) (i j : option Z) : list A :=
  let len := Z.of_nat (length l) in
  let lo := match i with None => 0 | Some i => clamp len i end in
  let hi := match j with None => len | Some j => clamp len j end in
  take (Z.to_nat (hi - lo)) (drop (Z.to_nat lo) l).

(** [l[::2]] *)
Fixpoint every_other {A : Type} (l : list A) : list A :=
  match l with
  | x :: _ :: l' => x :: every_other l'
  | l' => l'
  end.

(** [seq.index(x)]: position of the first equal element. *)
Fixpoint index_of {A : Type} `{EqDecision A} (x : A) (l : list A) : result Z :=
  match l with
  | [] => Raise ValueError
  | y :: l' => if decide (x = y) then Ok 0
               else bind (index_of x l') (fun i => Ok (i + 1))
  end.

(** [l[i] = x] for a list, negative indices included. *)
Definition set_item {A : Type} (l : list A) (i : Z) (x : A) : result (list A) :=
  let len := Z.of_nat (length l) in
  let k := if i <? 0 then len + i else i in
  if (k <? 0) || (len <=? k) then Raise IndexError
  else Ok (<[Z.to_nat k := x]> l).

(** *** Strings *)

Definition chars (s : string) : list ascii := list_ascii_of_string s.
Definition str_of (l : list ascii) : string := string_of_list_ascii l.
Definition code (c : ascii) : Z := Z.of_N (N_of_ascii c).
Definition chr (n : Z) : ascii := ascii_of_N (Z.to_N n).

Definition len (s : string) : Z := Z.of_nat (String.length s).

(** [s[i]], a one-character string. *)
Definition str_index (s : string) (i : Z) : result string :=
  bind (index (chars s) i) (fun c => Ok (String c "")).

(** [s[i:j]] *)
Definition str_slice (s : string) (i j : option Z) : string :=
  str_of (slice (chars s) i j).

(** [s[::-1]] *)
Definition str_reverse (s : string) : string := str_of (rev (chars s)).

(** [s[::2]] *)
Definition str_every_other (s : string) : string := str_of (every_other (chars s)).

(** [c in s] for a one-character [c]. *)
Definition contains (c : ascii) (s : string) : bool :=
  bool_decide (c ∈ chars s).

(** [s.split(sep)] for a one-character separator: every separator cuts,
    so empty pieces are kept and the result is never empty. *)
Fixpoint split_on (sep : ascii) (s : string) : list string :=
  match s with
  | EmptyString => [""]
  | String c s' =>
      if Ascii.eqb c sep then "" :: split_on sep s'
      else match split_on sep s' with
           | [] => [String c ""]
           | w :: ws => String c w :: ws
           end
  end.

(** [sep.join(l)] *)
Fixpoint join (sep : string) (l : list string) : string :=
  match l with
  | [] => ""
  | [w] => w
  | w :: l' => w +:+ sep +:+ join sep l'
  end.

(** [str.isspace] on one code point below 256. *)
Definition is_space (c : ascii) : bool :=
  let n := code c in
  ((9 <=? n) && (n <=? 13)) || ((28 <=? n) && (n <=? 32))
  || (n =? 133) || (n =? 160).

(** [s.split()]: cut at runs of white space, no empty pieces. *)
Fixpoint split_ws_aux (cur : list ascii) (l : list ascii) : list string :=
  match l with
  | [] => match cur with [] => [] | _ => [str_of (rev cur)] end
  | c :: l' =>
      if is_space c
      then match cur with
           | [] => split_ws_aux [] l'
           | _ => str_of (rev cur) :: split_ws_aux [] l'
           end
      else split_ws_aux (c :: cur) l'
  end.

Definition split_ws (s : string) : list string := split_ws_aux [] (chars s).

(** [c.isdigit()] on one code point below 256: the decimal digits and the
    superscripts one, two and three. *)
Definition isdigit (c : ascii) : bool :=
  let n := code c in
  ((48 <=? n) && (n <=? 57)) || (n =? 178) || (n =? 179) || (n =? 185).

Definition is_decimal (c : ascii) : bool :=
  let n := code c in (48 <=? n) && (n <=? 57).

(** [s.lower()] on code points below 256. *)
Definition lower_char (c : ascii) : ascii :=
  let n := code c in
  if ((65 <=? n) && (n <=? 90))
     || ((192 <=? n) && (n <=? 222) && negb (n =? 215))
  then chr (n + 32) else c.

Definition lower (s : string) : string := str_of (map lower_char (chars s)).

(** [str(n)] for an [int]. *)
Definition str (n : Z) : string := NilEmpty.string_of_int (Z.to_int n).

(** [int(s)] for a [str], base ten: surrounding white space is dropped,
    one sign is allowed, and single underscores may separate digits. *)
Fixpoint strip_left (l : list ascii) : list ascii :=
  match l with
  | c :: l' => if is_space c then strip_left l' else l
  | [] => []
  end.

Definition strip (l : list ascii) : list ascii :=
  rev (strip_left (rev (strip_left l))).

(** Digits read so far in [acc]; [after_digit] tells whether the previous
    character was a digit (an underscore is legal only between digits). *)
Fixpoint int_digits (acc : Z) (after_digit : bool) (l : list ascii) : result Z :=
  match l with
  | [] => if after_digit then Ok acc else Raise ValueError
  | c :: l' =>
      if is_decimal c then int_digits (10 * acc + (code c - 48)) true l'
      else if Ascii.eqb c "_" && after_digit
           then match l' with
                | d :: _ => if is_decimal d then int_digits acc false l'
                            else Raise ValueError
                | [] => Raise ValueError
                end
           else Raise ValueError
  end.

Definition int (s : string) : result Z :=
  match strip (chars s) with
  | [] => Raise ValueError
  | c :: l' =>
      if Ascii.eqb c "-" then bind (int_digits 0 false l') (fun n => Ok (- n))
      else if Ascii.eqb c "+" then int_digits 0 false l'
      else int_digits 0 false (c :: l')
  end.

(** *** [collections.Counter]

    An insertion-ordered association list from keys to counts: [update]
    increments in place or appends a new key at the end, [most_common(1)]
    is the first entry holding the largest count. *)

Section Counter.
Context {K : Type} `{EqDecision K}.

Fixpoint counter_add (k : K) (c : list (K * nat)) : list (K * nat) :=
  match c with
  | [] => [(k, 1%nat)]
  | (k', n) :: c' =>
      if decide (k = k') then (k', S n) :: c' else (k', n) :: counter_add k c'
  end.

Definition counter_update (c : list (K * nat)) (ks : list K) : list (K * nat) :=
  foldl (fun c k => counter_add k c) c ks.

Fixpoint max_first (best : K * nat) (c : list (K * nat)) : K * nat :=
  match c with
  | [] => best
  | x :: c' => if (snd best <? snd x)%nat then max_first x c' else max_first best c'
  end.

Definition most_common_1 (c : list (K * nat)) : list (K * nat) :=
  match c with
  | [] => []
  | x :: c' => [max_first x c']
  end.

End Counter.

(** [bytes(l)] for a list of integers: every value must fit one byte. *)
Definition bytes (l : list Z) : result (list Z) :=
  if forallb (fun v => (0 <=? v) && (v <? 256)) l then Ok l else Raise ValueError.

End Py.

Import Py.

Notation "x <~ r ;; k" := (Py.bind r (fun x => k))
  (at level 100, r at next level, right associativity).

(** ** State-and-exception monad

    [M S A] is a method body over an object state [S]: it yields a value or
    raises, and in both cases hands back the state as mutated so far. *)

Module StateExn.

Definition M (S A : Type) : Type := S -> result A * S.

Definition ret {S A : Type} (a : A) : M S A := fun s => (Ok a, s).

Definition raise {S A : Type} (e : exn) : M S A := fun s => (Raise e, s).

Definition lift {S A : Type} (r : result A) : M S A := fun s => (r, s).

Definition mbind {S A B : Type} (m : M S A) (k : A -> M S B) : M S B :=
  fun s => match m s with
           | (Ok a, s') => k a s'
           | (Raise e, s') => (Raise e, s')
           end.

Definition get {S : Type} : M S S := fun s => (Ok s, s).

Definition gets {S A : Type} (f : S -> A) : M S A := fun s => (Ok (f s), s).

Definition modify {S : Type} (f : S -> S) : M S unit := fun s => (Ok tt, f s).

(** [try: m  except (handled exceptions): h] *)
Definition try_except {S A : Type} (m : M S A) (handles : exn -> bool) (h : M S A)
  : M S A :=
  fun s => match m s with
           | (Raise e, s') => if handles e then h s' else (Raise e, s')
           | r => r
           end.

(** Run a method of a component [T] of the state [S]. *)
Definition zoom {S T A : Type} (proj : S -> T) (upd : T -> S -> S) (m : M T A)
  : M S A :=
  fun s => let '(r, t') := m (proj s) in (r, upd t' s).

End StateExn.

Import StateExn.

Notation "x <- m ;; k" := (mbind m (fun x => k))
  (at level 100, m at next level, right associativity).
Notation "m ;; k" := (mbind m (fun _ => k))
  (at level 100, right associativity).

(** ** The process-wide environment: clocks and the outbound LED queue *)

(** What is passed to [set_leds]: a text (pattern name, square or move) or a
    list of squares. *)
Inductive message : Type :=
| MsgStr (s : string)
| MsgList (l : list string).

#[global] Instance message_eq_dec : EqDecision message.
Proof. solve_decision. Defined.

Definition COLUMNS_LETTERS : list string :=
  ["a"; "b"; "c"; "d"; "e"; "f"; "g"; "h"].

Definition COLUMNS_LETTERS_REVERSED : list string := rev COLUMNS_LETTERS.

(** ** [LedManager] *)

Module LedManager.

Record led_manager : Type := {
  queue_to_usbtool : list (list Z);        (* items put on QUEUE_TO_USBTOOL, oldest first *)
  default_messages : gmap string (list Z);
  last_message : option message;
  last_flash_message : option message;
  flash_frequency : Q;
  flash_clock : option Q;
  counter : Z;
}.

(** The LED manager together with the wall clock it reads: [time_time n] is
    what the [n]-th call of [time.time()] returns. *)
Record led_world : Type := {
  time_time : nat -> Q;
  time_reads : nat;
  mgr : led_manager;
}.

Definition set_mgr (m : led_manager) (w : led_world) : led_world :=
  {| time_time := time_time w; time_reads := time_reads w; mgr := m |}.

Definition time : M led_world Q :=
  fun w => (Ok (time_time w (time_reads w)),
            {| time_time := time_time w; time_reads := S (time_reads w); mgr := mgr w |}).

Definition set_last_message (v : option message) (m : led_manager) : led_manager :=
  {| queue_to_usbtool := queue_to_usbtool m; default_messages := default_messages m;
     last_message := v; last_flash_message := last_flash_message m;
     flash_frequency := flash_frequency m; flash_clock := flash_clock m;
     counter := counter m |}.

Definition put (frame : list Z) (m : led_manager) : led_manager :=
  {| queue_to_usbtool := queue_to_usbtool m ++ [frame];
     default_messages := default_messages m;
     last_message := last_message m; last_flash_message := last_flash_message m;
     flash_frequency := flash_frequency m; flash_clock := flash_clock m;
     counter := counter m |}.

Definition set_flash (msg : option message) (clock : option Q) (n : Z)
    (m : led_manager) : led_manager :=
  {| queue_to_usbtool := queue_to_usbtool m; default_messages := default_messages m;
     last_message := last_message m; last_flash_message := msg;
     flash_frequency := flash_frequency m; flash_clock := clock;
     counter := n |}.

(** [_square2certabo(square, rotate180)]: the LED row and the column weight
    of one square. The column is looked up first, then the rank is parsed. *)
Definition _square2certabo (square : string) (rotate180 : bool) : result (Z * Z) :=
  if rotate180 then
    c <~ str_index square 0 ;;
    col <~ index_of c COLUMNS_LETTERS_REVERSED ;;
    d <~ str_index square 1 ;;
    n <~ int d ;;
    let row := 9 - n in
    Ok (8 - row, 2 ^ col)
  else
    c <~ str_index square 0 ;;
    col <~ index_of c COLUMNS_LETTERS ;;
    d <~ str_index square 1 ;;
    row <~ int d ;;
    Ok (8 - row, 2 ^ col).

(** [leds[row] += col] *)
Definition add_led (leds : list Z) (pos : Z * Z) : result (list Z) :=
  let '(row, col) := pos in
  v <~ index leds row ;;
  set_item leds row (v + col).

(** The loop [for row, col in led_positions: leds[row] += col], where
    [led_positions] is a generator: each square is converted when the loop
    reaches it. *)
Definition light (rotate180 : bool) (leds : list Z) (square : string)
  : result (list Z) :=
  pos <~ _square2certabo square rotate180 ;;
  add_led leds pos.

(** [squares2led(squares, rotate180)]. A text shorter than four characters
    is one square, a longer one is a move whose first four characters are
    two squares; a list of one item is that square, any other list is
    walked through [set(squares)]. *)
Definition squares2led (squares : message) (rotate180 : bool) : result (list Z) :=
  let leds := replicate 8 0 in
  match squares with
  | MsgStr s =>
      if len s <? 4 then light rotate180 leds s
      else foldM (light rotate180) leds
             [str_slice s (Some 0) (Some 2); str_slice s (Some 2) (Some 4)]
  | MsgList l =>
      if Z.of_nat (length l) =? 1
      then sq <~ index l 0 ;; light rotate180 leds sq
      else foldM (light rotate180) leds (elements (list_to_set l : gset string))
  end.

(** [LedManager.__init__]: the table of named patterns, two of which are
    computed by [squares2led]. *)
Definition __init__ : result led_manager :=
  corners <~ squares2led (MsgList ["a1"; "a8"; "h1"; "h8"]) false ;;
  thinking <~ squares2led (MsgList ["d4"; "e4"; "d5"; "e5"]) false ;;
  Ok {| queue_to_usbtool := [];
        default_messages :=
          <["all" := replicate 8 255]>
          (<["none" := replicate 8 0]>
          (<["start" := [255; 255; 0; 0; 0; 0; 255; 255]]>
          (<["error" := [0; 0; 0; 24; 24; 0; 0; 0]]>
          (<["corners" := corners]>
          (<["thinking" := thinking]>
          (<["setup" := [255; 255; 8; 0; 0; 8; 255; 255]]> ∅))))));
        last_message := None;
        last_flash_message := None;
        flash_frequency := 1%Q;
        flash_clock := None;
        counter := 0 |}.

(** [self.default_messages[message]]: a text that is not a key raises
    [KeyError], a list is unhashable and raises [TypeError]. *)
Definition lookup_default (m : led_manager) (msg : message) : result (list Z) :=
  match msg with
  | MsgStr s => match default_messages m !! s with
                | Some f => Ok f
                | None => Raise KeyError
                end
  | MsgList _ => Raise TypeError
  end.

Definition handles_key_type (e : exn) : bool :=
  match e with
  | KeyError | TypeError => true
  | _ => false
  end.

(** [set_leds(message, rotate180)] *)
Definition set_leds (msg : message) (rotate180 : bool) : M led_manager unit :=
  m <- get ;;
  if decide (Some msg ≠ last_message m) then
    modify (set_last_message (Some msg)) ;;
    frame <- try_except (lift (lookup_default m msg)) handles_key_type
               (lift (squares2led msg rotate180)) ;;
    data <- lift (bytes frame) ;;
    modify (put data)
  else ret tt.

Definition mgr_do {A : Type} (m : M led_manager A) : M led_world A :=
  zoom mgr set_mgr m.

(** [flash_leds(message, rotate180)]. The first request of a message shows
    it steadily (with the default orientation); later requests alternate it
    with ['none'] once per [flash_frequency]. *)
Definition flash_leds (msg : message) (rotate180 : bool) : M led_world unit :=
  m <- gets mgr ;;
  if decide (last_flash_message m ≠ Some msg) then
    now <- time ;;
    mgr_do (modify (set_flash (Some msg) (Some now) 0)) ;;
    mgr_do (set_leds msg false)
  else
    elapsed_time <- time ;;
    m <- gets mgr ;;
    match flash_clock m with
    | None => raise TypeError
    | Some clock =>
        if Qlt_le_dec (flash_frequency m) (elapsed_time - clock) then
          let n := counter m + 1 in
          mgr_do (modify (set_flash (last_flash_message m) (Some elapsed_time) n)) ;;
          let shown := if n mod 2 =? 0 then msg else MsgStr "none" in
          mgr_do (set_leds shown rotate180)
        else ret tt
    end.

End LedManager.

(** Loops inside a method body. *)
Fixpoint mapM_st {S A B : Type} (f : A -> M S B) (l : list A) : M S (list B) :=
  match l with
  | [] => ret []
  | x :: l' => y <- f x ;; ys <- mapM_st f l' ;; ret (y :: ys)
  end.

Fixpoint forM_st {S A : Type} (f : A -> M S unit) (l : list A) : M S unit :=
  match l with
  | [] => ret tt
  | x :: l' => f x ;; forM_st f l'
  end.

(** [range(n)] *)
Definition range (n : nat) : list Z := map Z.of_nat (seq 0 n).

(** ** [UsbReader]: sensor decoder and calibration engine *)

Module UsbReader.

(** What [pickle.load] can find in the calibration file. The program itself
    only ever stores the empty dictionary or the list of code lists, one
    list per piece kind; anything [pickle.load] cannot read is [Unreadable]. *)
Inductive pickled : Type :=
| EmptyDict
| CalibrationData (data : list (list (list Z))).

Inductive calibration_file : Type :=
| Missing
| Unreadable
| Stored (content : pickled).

(** Keys of the shared [Counter] and entries of the decoded board: piece
    symbols in [data_to_fen], cell codes (tuples of tokens) in
    [do_calibration]. *)
Inductive pyval : Type :=
| VStr (s : string)
| VTuple (t : list string).

#[global] Instance pyval_eq_dec : EqDecision pyval.
Proof. solve_decision. Defined.

(** [chess.Board().board_fen()], the rule engine's starting position. *)
Definition STARTING_BOARD_FEN : string :=
  "rnbqkbnr/pppppppp/8/8/8/8/PPPPPPPP/RNBQKBNR".

(** Keys of [FEN_SPRITE_MAPPING], in the order of the dictionary. *)
Definition FEN_SPRITE_MAPPING_keys : list string :=
  ["b"; "k"; "n"; "p"; "q"; "r"; "B"; "K"; "N"; "P"; "Q"; "R"].

Definition code_mapping_order : list string :=
  ["p"; "r"; "n"; "b"; "k"; "q"; "P"; "R"; "N"; "B"; "K"; "Q"].

(** [[slice(cell * 5, cell * 5 + 5) for cell in range(64)]] *)
Definition cell_slice_mapping : list (Z * Z) :=
  map (fun cell => (cell * 5, cell * 5 + 5)) (range 64).

Definition apply_slice {A : Type} (l : list A) (sl : Z * Z) : list A :=
  slice l (Some (fst sl)) (Some (snd sl)).

Record usb_reader : Type := {
  queue : list string;  (* frames waiting on QUEUE_FROM_USBTOOL, oldest first *)
  disk : calibration_file;  (* the file at calibration_filepath *)
  data_history_depth : Z;
  data_history_i : Z;
  data_history : list (option string);  (* None is an empty slot *)
  board_fen : string;
  counter : list (pyval * nat);
  needs_calibration : bool;
  default_missing_piece : string;
  code_mapping : gmap (list string) string;
  calibration_samples_n : Z;
  calibration_mapping : gmap string (list (list Z));
  calibration_samples : list (option string);  (* a deque bounded by calibration_samples_n *)
  calibration_data_history_i : option Z;
}.

Definition set_queue (v : list string) (r : usb_reader) : usb_reader :=
  {| queue := v; disk := disk r; data_history_depth := data_history_depth r;
     data_history_i := data_history_i r; data_history := data_history r;
     board_fen := board_fen r; counter := counter r;
     needs_calibration := needs_calibration r;
     default_missing_piece := default_missing_piece r; code_mapping := code_mapping r;
     calibration_samples_n := calibration_samples_n r;
     calibration_mapping := calibration_mapping r;
     calibration_samples := calibration_samples r;
     calibration_data_history_i := calibration_data_history_i r |}.

Definition set_disk (v : calibration_file) (r : usb_reader) : usb_reader :=
  {| queue := queue r; disk := v; data_history_depth := data_history_depth r;
     data_history_i := data_history_i r; data_history := data_history r;
     board_fen := board_fen r; counter := counter r;
     needs_calibration := needs_calibration r;
     default_missing_piece := default_missing_piece r; code_mapping := code_mapping r;
     calibration_samples_n := calibration_samples_n r;
     calibration_mapping := calibration_mapping r;
     calibration_samples := calibration_samples r;
     calibration_data_history_i := calibration_data_history_i r |}.

Definition set_data_history_i (v : Z) (r : usb_reader) : usb_reader :=
  {| queue := queue r; disk := disk r; data_history_depth := data_history_depth r;
     data_history_i := v; data_history := data_history r; board_fen := board_fen r;
     counter := counter r; needs_calibration := needs_calibration r;
     default_missing_piece := default_missing_piece r; code_mapping := code_mapping r;
     calibration_samples_n := calibration_samples_n r;
     calibration_mapping := calibration_mapping r;
     calibration_samples := calibration_samples r;
     calibration_data_history_i := calibration_data_history_i r |}.

Definition set_data_history (v : list (option string)) (r : usb_reader) : usb_reader :=
  {| queue := queue r; disk := disk r; data_history_depth := data_history_depth r;
     data_history_i := data_history_i r; data_history := v; board_fen := board_fen r;
     counter := counter r; needs_calibration := needs_calibration r;
     default_missing_piece := default_missing_piece r; code_mapping := code_mapping r;
     calibration_samples_n := calibration_samples_n r;
     calibration_mapping := calibration_mapping r;
     calibration_samples := calibration_samples r;
     calibration_data_history_i := calibration_data_history_i r |}.

Definition set_board_fen (v : string) (r : usb_reader) : usb_reader :=
  {| queue := queue r; disk := disk r; data_history_depth := data_history_depth r;
     data_history_i := data_history_i r; data_history := data_history r;
     board_fen := v; counter := counter r; needs_calibration := needs_calibration r;
     default_missing_piece := default_missing_piece r; code_mapping := code_mapping r;
     calibration_samples_n := calibration_samples_n r;
     calibration_mapping := calibration_mapping r;
     calibration_samples := calibration_samples r;
     calibration_data_history_i := calibration_data_history_i r |}.

Definition set_counter (v : list (pyval * nat)) (r : usb_reader) : usb_reader :=
  {| queue := queue r; disk := disk r; data_history_depth := data_history_depth r;
     data_history_i := data_history_i r; data_history := data_history r;
     board_fen := board_fen r; counter := v; needs_calibration := needs_calibration r;
     default_missing_piece := default_missing_piece r; code_mapping := code_mapping r;
     calibration_samples_n := calibration_samples_n r;
     calibration_mapping := calibration_mapping r;
     calibration_samples := calibration_samples r;
     calibration_data_history_i := calibration_data_history_i r |}.

Definition set_needs_calibration (v : bool) (r : usb_reader) : usb_reader :=
  {| queue := queue r; disk := disk r; data_history_depth := data_history_depth r;
     data_history_i := data_history_i r; data_history := data_history r;
     board_fen := board_fen r; counter := counter r; needs_calibration := v;
     default_missing_piece := default_missing_piece r; code_mapping := code_mapping r;
     calibration_samples_n := calibration_samples_n r;
     calibration_mapping := calibration_mapping r;
     calibration_samples := calibration_samples r;
     calibration_data_history_i := calibration_data_history_i r |}.

Definition set_default_missing_piece (v : string) (r : usb_reader) : usb_reader :=
  {| queue := queue r; disk := disk r; data_history_depth := data_history_depth r;
     data_history_i := data_history_i r; data_history := data_history r;
     board_fen := board_fen r; counter := counter r;
     needs_calibration := needs_calibration r; default_missing_piece := v;
     code_mapping := code_mapping r; calibration_samples_n := calibration_samples_n r;
     calibration_mapping := calibration_mapping r;
     calibration_samples := calibration_samples r;
     calibration_data_history_i := calibration_data_history_i r |}.

Definition set_code_mapping (v : gmap (list string) string) (r : usb_reader) : usb_reader :=
  {| queue := queue r; disk := disk r; data_history_depth := data_history_depth r;
     data_history_i := data_history_i r; data_history := data_history r;
     board_fen := board_fen r; counter := counter r;
     needs_calibration := needs_calibration r;
     default_missing_piece := default_missing_piece r; code_mapping := v;
     calibration_samples_n := calibration_samples_n r;
     calibration_mapping := calibration_mapping r;
     calibration_samples := calibration_samples r;
     calibration_data_history_i := calibration_data_history_i r |}.

Definition set_calibration_mapping (v : gmap string (list (list Z))) (r : usb_reader) : usb_reader :=
  {| queue := queue r; disk := disk r; data_history_depth := data_history_depth r;
     data_history_i := data_history_i r; data_history := data_history r;
     board_fen := board_fen r; counter := counter r;
     needs_calibration := needs_calibration r;
     default_missing_piece := default_missing_piece r; code_mapping := code_mapping r;
     calibration_samples_n := calibration_samples_n r; calibration_mapping := v;
     calibration_samples := calibration_samples r;
     calibration_data_history_i := calibration_data_history_i r |}.

Definition set_calibration_samples (v : list (option string)) (r : usb_reader) : usb_reader :=
  {| queue := queue r; disk := disk r; data_history_depth := data_history_depth r;
     data_history_i := data_history_i r; data_history := data_history r;
     board_fen := board_fen r; counter := counter r;
     needs_calibration := needs_calibration r;
     default_missing_piece := default_missing_piece r; code_mapping := code_mapping r;
     calibration_samples_n := calibration_samples_n r;
     calibration_mapping := calibration_mapping r; calibration_samples := v;
     calibration_data_history_i := calibration_data_history_i r |}.

Definition set_calibration_data_history_i (v : option Z) (r : usb_reader) : usb_reader :=
  {| queue := queue r; disk := disk r; data_history_depth := data_history_depth r;
     data_history_i := data_history_i r; data_history := data_history r;
     board_fen := board_fen r; counter := counter r;
     needs_calibration := needs_calibration r;
     default_missing_piece := default_missing_piece r; code_mapping := code_mapping r;
     calibration_samples_n := calibration_samples_n r;
     calibration_mapping := calibration_mapping r;
     calibration_samples := calibration_samples r; calibration_data_history_i := v |}.

(** [{letter: [] for letter in FEN_SPRITE_MAPPING.keys()}] *)
Definition empty_calibration_mapping : gmap string (list (list Z)) :=
  list_to_map (map (fun letter => (letter, [])) FEN_SPRITE_MAPPING_keys).

(** [load_piece_codes]. A missing file is created holding an empty
    dictionary and flags the reader; then the file is loaded, with nothing
    guarding [pickle.load]. *)
Definition add_variation (letter : string) (mapping : gmap (list string) string)
    (piece_variation : list Z) : gmap (list string) string :=
  <[map str piece_variation := letter]> mapping.

Definition add_piece (mapping : gmap (list string) string)
    (entry : string * list (list Z)) : gmap (list string) string :=
  foldl (add_variation (fst entry)) mapping (snd entry).

Definition pickle_load (f : calibration_file) : result (list (list (list Z))) :=
  match f with
  | Missing => Raise UnpicklingError
  | Unreadable => Raise UnpicklingError
  | Stored EmptyDict => Ok []
  | Stored (CalibrationData data) => Ok data
  end.

Definition load_piece_codes : M usb_reader unit :=
  r <- get ;;
  match disk r with
  | Missing =>
      modify (set_needs_calibration true) ;;
      modify (set_disk (Stored EmptyDict))
  | _ => ret tt
  end ;;
  r <- get ;;
  data <- lift (pickle_load (disk r)) ;;
  let mapping := foldl add_piece ∅ (zip code_mapping_order data) in
  let mapping := <[["0"; "0"; "0"; "0"; "0"] := "."]> mapping in
  modify (set_code_mapping mapping).

(** [data[1:].split(' ')]; an empty slot ([None]) cannot be sliced. *)
Definition tokens (data : option string) : result (list string) :=
  match data with
  | None => Raise TypeError
  | Some d => Ok (split_on " " (str_slice d (Some 1) None))
  end.

(** One turn of the cell loop of [data_to_fen]. *)
Definition decode_cell (data_history : list (list string)) (cell_range : Z * Z)
  : M usb_reader pyval :=
  r <- get ;;
  let sample :=
    map (fun sample =>
           VStr (default (default_missing_piece r)
                         (code_mapping r !! apply_slice sample cell_range)))
        data_history in
  modify (set_counter (counter_update (counter r) sample)) ;;
  r <- get ;;
  top <- lift (index (most_common_1 (counter r)) 0) ;;
  modify (set_counter []) ;;
  ret (fst top).

(** The inner loop of the FEN conversion: one square of one row. *)
Definition fen_col (board : list pyval) (row : Z) (st : string * Z) (col : Z)
  : result (string * Z) :=
  let '(FEN, empty) := st in
  piece <~ index board (row * 8 + col) ;;
  if decide (piece = VStr ".") then Ok (FEN, empty + 1)
  else
    let '(FEN, empty) :=
      if 0 <? empty then (FEN +:+ str empty, 0) else (FEN, empty) in
    match piece with
    | VStr s => Ok (FEN +:+ s, empty)
    | VTuple _ => Raise TypeError
    end.

Definition fen_row (board : list pyval) (FEN : string) (row : Z) : result string :=
  st <~ foldM (fen_col board row) (FEN, 0) (range 8) ;;
  let '(FEN, empty) := st in
  let FEN := if 0 <? empty then FEN +:+ str empty else FEN in
  Ok (if row <? 7 then FEN +:+ "/" else FEN).

Definition board_to_fen (board : list pyval) : result string :=
  foldM (fen_row board) "" (range 8).

(** [data_to_fen] *)
Definition data_to_fen : M usb_reader unit :=
  r <- get ;;
  data_history <- lift (mapM tokens (data_history r)) ;;
  board <- mapM_st (decode_cell data_history) cell_slice_mapping ;;
  FEN <- lift (board_to_fen board) ;;
  modify (set_board_fen FEN).

(** One turn of the loop of [update]: the frame taken off the queue is
    stored only when it differs from the slot under the index, and the index
    advances in both cases. *)
Definition store_frame (data : string) (changed : bool) : M usb_reader bool :=
  r <- get ;;
  old <- lift (index (data_history r) (data_history_i r)) ;;
  changed <-
    (if decide (old ≠ Some data) then
       h <- lift (set_item (data_history r) (data_history_i r) (Some data)) ;;
       modify (set_data_history h) ;;
       ret true
     else ret changed) ;;
  r <- get ;;
  let i := data_history_i r + 1 in
  modify (set_data_history_i (if data_history_depth r <=? i then 0 else i)) ;;
  ret changed.

(** The loop of [update], which takes frames off the queue until it is
    empty. *)
Fixpoint drain (frames : list string) (changed : bool) : M usb_reader bool :=
  match frames with
  | [] => ret changed
  | data :: rest =>
      modify (set_queue rest) ;;
      changed <- store_frame data changed ;;
      drain rest changed
  end.

(** [update] *)
Definition update : M usb_reader unit :=
  r <- get ;;
  changed <- drain (queue r) false ;;
  r <- get ;;
  if changed && (0 <=? data_history_i r) then data_to_fen else ret tt.

(** [read_board(rotate180)] *)
Definition read_board (rotate180 : bool) : M usb_reader string :=
  update ;;
  r <- get ;;
  ret (if rotate180 then str_reverse (board_fen r) else board_fen r).

(** [ignore_missing] *)
Definition ignore_missing (ignore_missing_pieces : bool) : M usb_reader unit :=
  modify (set_default_missing_piece (if ignore_missing_pieces then "N" else ".")).

(** Step 1 of [do_calibration], one cell: the most common code over the
    samples. *)
Definition most_common_code (data_history : list (list string)) (cell_range : Z * Z)
  : M usb_reader pyval :=
  r <- get ;;
  let cell_readings := map (fun sample => VTuple (apply_slice sample cell_range))
                           data_history in
  modify (set_counter (counter_update (counter r) cell_readings)) ;;
  r <- get ;;
  top <- lift (index (most_common_1 (counter r)) 0) ;;
  modify (set_counter []) ;;
  ret (fst top).

(** What [list.extend] takes from a counter key: the tokens of a tuple, the
    characters of a text. *)
Definition items (v : pyval) : list string :=
  match v with
  | VTuple t => t
  | VStr s => map (fun c => String c "") (chars s)
  end.

(** [sum(code)] *)
Definition sum (code : list Z) : Z := foldl Z.add 0 code.

(** [add_mapping(key, cell_index)], acting on the mapping being built. *)
Definition add_mapping (board_reading : list Z) (key : string) (cell_index : Z)
  : M (gmap string (list (list Z))) unit :=
  sl <- lift (index cell_slice_mapping cell_index) ;;
  let code := apply_slice board_reading sl in
  entry <- gets (fun calibration_mapping : gmap string (list (list Z)) =>
                   calibration_mapping !! key) ;;
  match entry with
  | None => raise KeyError
  | Some codes =>
      if negb (sum code =? 0) && negb (bool_decide (code ∈ codes))
      then modify (<[key := codes ++ [code]]>)
      else ret tt
  end.

(** The squares whose piece is known during calibration, in the order in
    which Step 2 visits them. *)
Definition calibration_squares : list (string * Z) :=
  flat_map (fun i => [("p", 8 + i); ("P", 48 + i)]) (range 8)
  ++ [("r", 0); ("r", 7); ("R", 56); ("R", 63);
      ("n", 1); ("n", 6); ("N", 57); ("N", 62);
      ("b", 2); ("b", 5); ("B", 58); ("B", 61);
      ("q", 3); ("Q", 59); ("q", 19); ("Q", 43);
      ("k", 4); ("K", 60)].

Definition step2 (board_reading : list Z) : M (gmap string (list (list Z))) unit :=
  forM_st (fun kc => add_mapping board_reading (fst kc) (snd kc)) calibration_squares.

(** [[calibration_mapping[key] for key in self.code_mapping_order]] *)
Definition calibration_data_of (calibration_mapping : gmap string (list (list Z)))
  : result (list (list (list Z))) :=
  mapM (fun key => match calibration_mapping !! key with
                   | Some codes => Ok codes
                   | None => Raise KeyError
                   end) code_mapping_order.

(** [do_calibration(new_setup)]. With [new_setup] the mapping being built is
    a fresh one; otherwise it is the reader's own mapping, so what Step 2
    appended before an exception stays appended. *)
Definition do_calibration (new_setup : bool) : M usb_reader unit :=
  r <- get ;;
  data_history <- lift (mapM tokens (calibration_samples r)) ;;
  keys <- mapM_st (most_common_code data_history) cell_slice_mapping ;;
  board_reading <- lift (mapM int (flat_map items keys)) ;;
  r <- get ;;
  calibration_mapping <-
    (if new_setup then
       match step2 board_reading empty_calibration_mapping with
       | (Ok _, m) => ret m
       | (Raise e, _) => raise e
       end
     else
       match step2 board_reading (calibration_mapping r) with
       | (Ok _, m) => modify (set_calibration_mapping m) ;; ret m
       | (Raise e, m) => modify (set_calibration_mapping m) ;; raise e
       end) ;;
  calibration_data <- lift (calibration_data_of calibration_mapping) ;;
  modify (set_disk (Stored (CalibrationData calibration_data))) ;;
  modify (set_calibration_mapping calibration_mapping).

(** [deque.append] on a deque bounded by [maxlen]. *)
Definition deque_append {A : Type} (maxlen : Z) (d : list A) (x : A) : list A :=
  let d := d ++ [x] in
  drop (Z.to_nat (Z.of_nat (length d) - maxlen)) d.

(** [calibration(new_setup)] *)
Definition calibration (new_setup : bool) : M usb_reader bool :=
  r <- get ;;
  (if (0 <? data_history_i r)
      && negb (bool_decide (calibration_data_history_i r = Some (data_history_i r)))
   then
     sample <- lift (index (data_history r) (data_history_i r)) ;;
     modify (set_calibration_samples
               (deque_append (calibration_samples_n r) (calibration_samples r) sample)) ;;
     modify (set_calibration_data_history_i (Some (data_history_i r)))
   else ret tt) ;;
  r <- get ;;
  if calibration_samples_n r <=? Z.of_nat (length (calibration_samples r)) then
    do_calibration new_setup ;;
    modify (set_needs_calibration false) ;;
    modify (set_calibration_samples []) ;;
    modify (set_calibration_data_history_i None) ;;
    load_piece_codes ;;
    data_to_fen ;;
    ret true
  else ret false.

(** [UsbReader.__init__], given what is on the inbound queue and on disk.
    The object exists only if [load_piece_codes] does not raise. *)
Definition __init__ (inbound : list string) (file : calibration_file)
  : result usb_reader :=
  let r := {| queue := inbound; disk := file;
              data_history_depth := 3;
              data_history_i := - 3;
              data_history := replicate 3 None;
              board_fen := STARTING_BOARD_FEN;
              counter := [];
              needs_calibration := false;
              default_missing_piece := ".";
              code_mapping := ∅;
              calibration_samples_n := 15;
              calibration_mapping := empty_calibration_mapping;
              calibration_samples := [];
              calibration_data_history_i := None |} in
  match load_piece_codes r with
  | (Ok _, r') => Ok r'
  | (Raise e, _) => Raise e
  end.

End UsbReader.

(** ** [_usbtool]: framing of the inbound byte stream *)

Module Usbtool.

(** The part of the worker's state that the read loop touches.
    [input_buffer] is what the serial port holds at the time of the call. *)
Record usbtool : Type := {
  serial_ok : bool;
  message_from_board : string;
  input_buffer : list ascii;
  queue_from_usbtool : list string;   (* items put on QUEUE_FROM_USBTOOL, oldest first *)
}.

Definition newline : ascii := chr 10.

(** What the [else] branch does with a finished line: strip two characters,
    enqueue on 320 tokens, empty the message and reset the input buffer. *)
Definition end_of_line (st : usbtool) : usbtool :=
  let message := str_slice (message_from_board st) None (Some (- 2)) in
  {| serial_ok := serial_ok st;
     message_from_board := "";
     input_buffer := [];
     queue_from_usbtool :=
       if Z.of_nat (length (split_on " " message)) =? 320
       then queue_from_usbtool st ++ [message]
       else queue_from_usbtool st |}.

(** [while serial_port.inWaiting(): c = serial_port.read().decode() ...],
    by recursion on the bytes waiting. A byte that does not decode raises
    inside the [try], whose handler clears [serial_ok]. *)
Fixpoint read_loop (waiting : list ascii) (st : usbtool) : usbtool :=
  match waiting with
  | [] => st
  | c :: rest =>
      if 128 <=? code c then
        {| serial_ok := false; message_from_board := message_from_board st;
           input_buffer := rest; queue_from_usbtool := queue_from_usbtool st |}
      else if negb (Ascii.eqb c newline) then
        read_loop rest
          {| serial_ok := serial_ok st;
             message_from_board := message_from_board st +:+ String c "";
             input_buffer := rest; queue_from_usbtool := queue_from_usbtool st |}
      else
        end_of_line
          {| serial_ok := serial_ok st; message_from_board := message_from_board st;
             input_buffer := rest; queue_from_usbtool := queue_from_usbtool st |}
  end.

Definition read_messages (st : usbtool) : usbtool := read_loop (input_buffer st) st.

End Usbtool.

(** ** The rule engine, a capability the core consumes

    The chess model ([chess.Board]) is not part of the core: it is taken as
    an interface, with the one law the core relies on ([pop] undoes
    [push]). [copy] yields an equal board and is not represented. *)

Class RuleEngine : Type := {
  Board : Type;
  Move : Type;
  Square : Type;
  board_fen : Board -> string;
  fen : Board -> string;
  generate_legal_moves : Board -> list Move;
  push : Board -> Move -> Board;
  pop : Board -> Board;
  uci : Move -> string;
  king : Board -> bool -> option Square;
  remove_piece_at : Board -> Square -> Board;
  pop_push : forall (b : Board) (m : Move), pop (push b m) = b;
}.

(** ** [get_moves]: move inference *)

Module Moves.
Section WithEngine.
Context `{E : RuleEngine}.

(** The state of [get_moves] is the number of legal-move generations the
    rule engine was asked for. *)
Definition legal_moves (b : Board) : M nat (list Move) :=
  fun searches => (Ok (generate_legal_moves b), S searches).

(** First loop: push, compare, pop. *)
Fixpoint single_move (board_fen_ : string) (copy_board : Board) (moves : list Move)
  : option (list string) * Board :=
  match moves with
  | [] => (None, copy_board)
  | move :: rest =>
      let copy_board := push copy_board move in
      if decide (board_fen_ = board_fen copy_board)
      then (Some [uci move], copy_board)
      else single_move board_fen_ (pop copy_board) rest
  end.

(** Inner loop of the second pass, [move] being already pushed. *)
Fixpoint second_move (board_fen_ : string) (move : Move) (copy_board : Board)
    (legal_moves2 : list Move) : option (list string) * Board :=
  match legal_moves2 with
  | [] => (None, copy_board)
  | move2 :: rest =>
      let copy_board := push copy_board move2 in
      if decide (board_fen_ = board_fen copy_board)
      then (Some [uci move; uci move2], copy_board)
      else second_move board_fen_ move (pop copy_board) rest
  end.

(** Second loop. *)
Fixpoint double_move (board_fen_ : string) (copy_board : Board) (moves : list Move)
  : M nat (option (list string) * Board) :=
  match moves with
  | [] => ret (None, copy_board)
  | move :: rest =>
      let copy_board := push copy_board move in
      legal_moves2 <- legal_moves copy_board ;;
      match second_move board_fen_ move copy_board legal_moves2 with
      | (Some found, copy_board) => ret (Some found, copy_board)
      | (None, copy_board) => double_move board_fen_ (pop copy_board) rest
      end
  end.

(** [get_moves(board, fen)] *)
Definition get_moves (board : Board) (fen_ : string) : M nat (list string) :=
  board_fen_ <- lift (index (split_ws fen_) 0) ;;
  if decide (board_fen board = board_fen_) then ret []
  else
    let copy_board := board in
    moves <- legal_moves board ;;
    match single_move board_fen_ copy_board moves with
    | (Some found, _) => ret found
    | (None, copy_board) =>
        r <- double_move board_fen_ copy_board moves ;;
        match fst r with
        | Some found => ret found
        | None => raise InvalidMove
        end
    end.

End WithEngine.
End Moves.

(** ** [PicoChess]: the gesture protocol *)

Module PicoChess.

(** Values stored in the settings dictionary. *)
Inductive setting : Type :=
| SBool (b : bool)
| SInt (n : Z)
| SStr (s : string).

#[global] Instance setting_eq_dec : EqDecision setting.
Proof. solve_decision. Defined.

(** [a == b] on setting values: a [bool] is the integer 0 or 1. *)
Definition setting_eqb (a b : setting) : bool :=
  match a, b with
  | SBool x, SBool y => Bool.eqb x y
  | SInt x, SInt y => x =? y
  | SStr x, SStr y => bool_decide (x = y)
  | SBool x, SInt y | SInt y, SBool x => (if x then 1 else 0) =? y
  | _, _ => false
  end.

(** Truth value of a setting. *)
Definition truthy (a : setting) : bool :=
  match a with
  | SBool b => b
  | SInt n => negb (n =? 0)
  | SStr s => negb (bool_decide (s = ""))
  end.

(** [a != b] on dictionaries: different key sets, or some value differing. *)
Definition settings_differ (a b : gmap string setting) : bool :=
  negb (bool_decide (dom a = dom b)
        && forallb (fun kv => match b !! fst kv with
                              | Some v => setting_eqb (snd kv) v
                              | None => false
                              end) (map_to_list a)).

(** What [update] returns, by window. The exit state is 0, 1 or 2; the
    [False] of the early return is the integer 0. *)
Inductive outcome : Type :=
| Home (window : string) (calibrate : bool)
| NewGame (settings : option (gmap string setting)) (start : bool)
| Game (exit_state : Z) (hint_request : bool)
| Thinking (force : bool)
| NoWindow.

Record pico_chess : Type := {
  ticks : nat -> Z;  (* successive readings of pygame.time.get_ticks() *)
  ticks_read : nat;  (* readings consumed so far *)
  led : LedManager.led_world;  (* the shared LedManager and its wall clock *)
  on : bool;
  wait_between_commands : Z;
  last_command_time : Z;
  last_exit_command_time : Z;
  exit_command : gmap string bool;
  start_game : bool;
  can_calibrate : bool;
  engine_list : list string;  (* what get_engine_list() finds *)
  book_list : list string;  (* what get_book_list() finds *)
}.

Definition set_ticks_read (v : nat) (r : pico_chess) : pico_chess :=
  {| ticks := ticks r; ticks_read := v; led := led r; on := on r;
     wait_between_commands := wait_between_commands r;
     last_command_time := last_command_time r;
     last_exit_command_time := last_exit_command_time r;
     exit_command := exit_command r; start_game := start_game r;
     can_calibrate := can_calibrate r; engine_list := engine_list r;
     book_list := book_list r |}.

Definition set_led (v : LedManager.led_world) (r : pico_chess) : pico_chess :=
  {| ticks := ticks r; ticks_read := ticks_read r; led := v; on := on r;
     wait_between_commands := wait_between_commands r;
     last_command_time := last_command_time r;
     last_exit_command_time := last_exit_command_time r;
     exit_command := exit_command r; start_game := start_game r;
     can_calibrate := can_calibrate r; engine_list := engine_list r;
     book_list := book_list r |}.

Definition set_last_command_time (v : Z) (r : pico_chess) : pico_chess :=
  {| ticks := ticks r; ticks_read := ticks_read r; led := led r; on := on r;
     wait_between_commands := wait_between_commands r; last_command_time := v;
     last_exit_command_time := last_exit_command_time r;
     exit_command := exit_command r; start_game := start_game r;
     can_calibrate := can_calibrate r; engine_list := engine_list r;
     book_list := book_list r |}.

Definition set_last_exit_command_time (v : Z) (r : pico_chess) : pico_chess :=
  {| ticks := ticks r; ticks_read := ticks_read r; led := led r; on := on r;
     wait_between_commands := wait_between_commands r;
     last_command_time := last_command_time r; last_exit_command_time := v;
     exit_command := exit_command r; start_game := start_game r;
     can_calibrate := can_calibrate r; engine_list := engine_list r;
     book_list := book_list r |}.

Definition set_exit_command (v : gmap string bool) (r : pico_chess) : pico_chess :=
  {| ticks := ticks r; ticks_read := ticks_read r; led := led r; on := on r;
     wait_between_commands := wait_between_commands r;
     last_command_time := last_command_time r;
     last_exit_command_time := last_exit_command_time r; exit_command := v;
     start_game := start_game r; can_calibrate := can_calibrate r;
     engine_list := engine_list r; book_list := book_list r |}.

Definition set_start_game (v : bool) (r : pico_chess) : pico_chess :=
  {| ticks := ticks r; ticks_read := ticks_read r; led := led r; on := on r;
     wait_between_commands := wait_between_commands r;
     last_command_time := last_command_time r;
     last_exit_command_time := last_exit_command_time r;
     exit_command := exit_command r; start_game := v; can_calibrate := can_calibrate r;
     engine_list := engine_list r; book_list := book_list r |}.

Definition set_can_calibrate (v : bool) (r : pico_chess) : pico_chess :=
  {| ticks := ticks r; ticks_read := ticks_read r; led := led r; on := on r;
     wait_between_commands := wait_between_commands r;
     last_command_time := last_command_time r;
     last_exit_command_time := last_exit_command_time r;
     exit_command := exit_command r; start_game := start_game r; can_calibrate := v;
     engine_list := engine_list r; book_list := book_list r |}.

Definition get_ticks : M pico_chess Z :=
  fun p => (Ok (ticks p (ticks_read p)), set_ticks_read (S (ticks_read p)) p).

(** Calls on [self.led_manager]. *)
Definition led_manager_set_leds (msg : message) : M pico_chess unit :=
  zoom led set_led (LedManager.mgr_do (LedManager.set_leds msg false)).

Definition led_manager_flash_leds (msg : message) : M pico_chess unit :=
  zoom led set_led (LedManager.flash_leds msg false).

(** [all(f(x) for x in l)], stopping at the first false item. *)
Fixpoint all {A : Type} (f : A -> result bool) (l : list A) : result bool :=
  match l with
  | [] => Ok true
  | x :: l' => b <~ f x ;; if b then all f l' else Ok false
  end.

(** [hasNumbers] *)
Definition hasNumbers (inputString : string) : bool :=
  existsb isdigit (chars inputString).

(** The calibration test of [home_window], with the short-circuits of
    [and] and [all]. *)
Definition calibration_pattern (board_rows : list string) : result bool :=
  full <~ all (fun row => r <~ index board_rows row ;;
                          Ok ((len r =? 8) && negb (hasNumbers r))) [0; 1; 6; 7] ;;
  if negb full then Ok false else
  middle <~ all (fun row => r <~ index board_rows row ;;
                            Ok (bool_decide (r = "8"))) [3; 4] ;;
  if negb middle then Ok false else
  r2 <~ index board_rows 2 ;;
  if negb (bool_decide (str_every_other r2 = "34")) then Ok false else
  r5 <~ index board_rows 5 ;;
  Ok (bool_decide (str_every_other r5 = "34")).

(** [home_window(board_state)] *)
Definition home_window (board_state : string) : M pico_chess outcome :=
  if bool_decide (board_state ∈ ["rnbqkbnr/pppppppp/8/3q4/3Q4/8/PPPPPPPP/RNBQKBNR";
                                 "rnbqkbnr/pppppppp/8/3Q4/3q4/8/PPPPPPPP/RNBQKBNR"])
  then
    now <- get_ticks ;;
    modify (set_last_command_time now) ;;
    led_manager_set_leds (MsgStr "corners") ;;
    ret (Home "new game" false)
  else
    p <- get ;;
    if can_calibrate p then
      let board_rows := split_on "/" board_state in
      matched <- lift (calibration_pattern board_rows) ;;
      if matched then
        now <- get_ticks ;;
        modify (set_last_command_time now) ;;
        led_manager_set_leds (MsgStr "corners") ;;
        modify (set_can_calibrate false) ;;
        ret (Home "home" true)
      else ret (Home "home" false)
    else ret (Home "home" false).

(** [try: int(s)  except ValueError: fallback] *)
Definition int_or (s : string) (fallback : Z) : Z :=
  match int s with
  | Ok n => n
  | Raise _ => fallback
  end.

(** [row_0_to_71(row)] *)
Definition row_0_to_71 (row : string) : result Z :=
  if contains "Q" row && contains "q" row then
    c0 <~ str_index row 0 ;;
    let leftmost_gap := int_or c0 0 in
    let level := slice [16; 30; 42; 52; 60; 66; 70; 72]
                       (Some leftmost_gap) (Some (leftmost_gap + 2)) in
    base <~ index level 0 ;;
    l1 <~ index level 1 ;;
    l0 <~ index level 0 ;;
    let diff := (l1 - l0) / 2 in
    cl <~ str_index row (- 1) ;;
    let rightmost_gap := int_or cl 0 in
    let extra := diff - rightmost_gap in
    let qs := filter (fun c => c = "Q"%char \/ c = "q"%char) (chars row) in
    q0 <~ index qs 0 ;;
    let extra := if Ascii.eqb q0 "q" then extra + diff else extra in
    Ok (base + extra - 1)
  else
    cl <~ str_index row (- 1) ;;
    let num := match int cl with Ok n => 8 - n | Raise _ => 8 end in
    let num := if contains "q" row then num + 8 else num in
    Ok (num - 1).

(** [settings[key]] *)
Definition getitem (settings : gmap string setting) (key : string) : result setting :=
  match settings !! key with
  | Some v => Ok v
  | None => Raise KeyError
  end.

(** [try: settings[key] = l[i]  except IndexError: settings[key] = fallback] *)
Definition pick_or (l : list string) (i : Z) (fallback : string) : string :=
  match index l i with
  | Ok x => x
  | Raise _ => fallback
  end.

(** The branch "Color, Flip board and Book": a queen on [board_rows[5]]. *)
Definition row5_settings (book_list : list string) (row : string)
    (settings : gmap string setting) : result (gmap string setting) :=
  c0 <~ str_index row 0 ;;
  let settings :=
    if bool_decide (c0 = "Q") then <["play_white" := SBool true]> settings
    else if bool_decide (c0 = "q") then <["play_white" := SBool false]> settings
    else settings in
  let settings :=
    if bool_decide (lower row ∈ ["qq6"; "1q6"])
    then <["rotate180" := SBool false]> settings
    else if bool_decide (lower row ∈ ["q1q5"; "2q5"])
    then <["rotate180" := SBool true]> settings
    else settings in
  settings <~
    (if bool_decide (lower row = "3q4") then
       c1 <~ str_index row 1 ;;
       Ok (<["chess960" := SBool (bool_decide (c1 = "Q"))]> settings)
     else Ok settings) ;;
  if bool_decide (c0 ∈ ["4"; "5"; "6"; "7"]) then
    c1 <~ str_index row 1 ;;
    if bool_decide (c1 ∈ ["Q"; "q"]) then
      if contains "Q" row && contains "q" row
      then Ok (<["book" := SStr ""]> settings)
      else
        n <~ int c0 ;;
        let book_offset := n - 4 in
        let book_offset := if contains "q" row then book_offset + 4 else book_offset in
        Ok (<["book" := SStr (pick_or book_list book_offset "")]> settings)
    else Ok settings
  else Ok settings.

(** The branch "Use board position, Color to move, and default Time
    settings": a queen on [board_rows[4]]. *)
Definition row4_settings (row : string) (settings : gmap string setting)
  : result (gmap string setting) :=
  c0 <~ str_index row 0 ;;
  let settings :=
    if bool_decide (c0 = "Q")
    then <["side_to_move" := SStr "white"]>
           (<["use_board_position" := SBool false]> settings)
    else if bool_decide (c0 = "q")
    then <["use_board_position" := SBool true]> settings
    else settings in
  if bool_decide (lower row ∈ ["qq6"; "1q6"])
  then Ok (<["side_to_move" := SStr "white"]> settings)
  else if bool_decide (lower row ∈ ["q1q5"; "2q5"])
  then Ok (<["side_to_move" := SStr "black"]> settings)
  else
    match int c0 with
    | Raise _ => Ok settings
    | Ok n =>
        let index_ := 7 - n in
        if index_ <? 5 then
          tc <~ index ["classical"; "rapid"; "blitz"; "unlimited"; "custom"] index_ ;;
          Ok (<["time_constraint" := SStr tc]> settings)
        else Ok settings
    end.

(** One king of the branch "Kings out of place": the value read off the
    first of rows 5, 4, 3, 2 that holds the king [k]. The white king on
    ["K7"] selects unlimited time instead of a value. *)
Definition king_value (k : ascii) (board_rows : list string) (unlimited_on_K7 : bool)
  : result (option Z * bool) :=
  r5 <~ index board_rows 5 ;;
  if contains k r5 then
    if unlimited_on_K7 && bool_decide (r5 = "K7") then Ok (None, true)
    else cl <~ str_index r5 (- 1) ;;
         Ok (Some (match int cl with Ok n => 7 - n | Raise _ => 7 end), false)
  else
  r4 <~ index board_rows 4 ;;
  if contains k r4 then
    cl <~ str_index r4 (- 1) ;;
    Ok (Some (match int cl with Ok n => 15 - n | Raise _ => 15 end), false)
  else
  r3 <~ index board_rows 3 ;;
  if contains k r3 then
    cl <~ str_index r3 (- 1) ;;
    Ok (Some (match int cl with Ok n => 30 - n * 2 | Raise _ => 30 end), false)
  else
  r2 <~ index board_rows 2 ;;
  if contains k r2 then
    cl <~ str_index r2 (- 1) ;;
    Ok (Some (match int cl with Ok n => 110 - n * 10 | Raise _ => 120 end), false)
  else Ok (None, false).

Definition kings_settings (board_rows : list string) (settings : gmap string setting)
  : result (gmap string setting) :=
  w <~ king_value "K" board_rows true ;;
  let '(mins, unlimited) := w in
  let settings :=
    if unlimited then <["time_constraint" := SStr "unlimited"]> settings
    else settings in
  b <~ king_value "k" board_rows false ;;
  let secs := fst b in
  match mins, secs with
  | None, None => Ok settings
  | _, _ =>
      let settings := <["time_constraint" := SStr "custom"]> settings in
      let settings := match mins with
                      | Some m => <["time_total_minutes" := SInt m]> settings
                      | None => settings
                      end in
      Ok (match secs with
          | Some s => <["time_increment_seconds" := SInt s]> settings
          | None => settings
          end)
  end.

(** The part of [new_game_window] that reads the board once the debounce
    and the pending start are out of the way. It yields the settings and,
    when the start pattern is on the board, [true]. The caller's dictionary
    is mutated in place; the model hands back the mutated dictionary. *)
Definition decode_settings (p : pico_chess) (board_rows : list string)
    (settings : gmap string setting) : result (gmap string setting * bool) :=
  let static_rows := join "/" (slice board_rows (Some 0) (Some 2)
                               ++ slice board_rows (Some (- 2)) None) in
  if bool_decide (static_rows = "rnbqkbnr/pppppppp/PPPPPPPP/RNBQKBNR") then
    let middle := slice board_rows (Some 2) (Some (- 2)) in
    if Z.of_nat (length (filter (fun board_row => len board_row = 3) middle)) =? 2 then
      Ok (settings,
          bool_decide (lower (join "/" (slice board_rows (Some 3) (Some 5)))
                       = "4q3/4q3"))
    else
      r5 <~ index board_rows 5 ;;
      if contains "Q" r5 || contains "q" r5 then
        s <~ row5_settings (book_list p) r5 settings ;; Ok (s, false)
      else
      r4 <~ index board_rows 4 ;;
      if contains "Q" r4 || contains "q" r4 then
        s <~ row4_settings r4 settings ;; Ok (s, false)
      else
      r3 <~ index board_rows 3 ;;
      if contains "Q" r3 || contains "q" r3 then
        n <~ row_0_to_71 r3 ;;
        Ok (<["difficulty" := SInt n]> settings, false)
      else
      r2 <~ index board_rows 2 ;;
      if contains "Q" r2 || contains "q" r2 then
        engine_index <~ row_0_to_71 r2 ;;
        Ok (<["engine" := SStr (pick_or (engine_list p) engine_index "stockfish")]>
              settings, false)
      else Ok (settings, false)
  else if bool_decide (static_rows ∈ ["rnbq1bnr/pppppppp/PPPPPPPP/RNBQKBNR";
                                      "rnbqkbnr/pppppppp/PPPPPPPP/RNBQ1BNR";
                                      "rnbq1bnr/pppppppp/PPPPPPPP/RNBQ1BNR"])
  then s <~ kings_settings board_rows settings ;; Ok (s, false)
  else Ok (settings, false).

(** [settings[key]] when [settings] may be [None]. *)
Definition subscript (settings : option (gmap string setting)) (key : string)
  : result setting :=
  match settings with
  | None => Raise TypeError
  | Some d => getitem d key
  end.

(** [new_game_window(board_state, settings)] *)
Definition new_game_window (board_state : string)
    (settings : option (gmap string setting)) : M pico_chess outcome :=
  now <- get_ticks ;;
  p <- get ;;
  if now - last_command_time p <? wait_between_commands p then
    (if negb (start_game p) then led_manager_set_leds (MsgStr "corners")
     else led_manager_flash_leds (MsgStr "corners")) ;;
    ret (NewGame settings false)
  else if start_game p then
    use_board <- lift (subscript settings "use_board_position") ;;
    if negb (truthy use_board) || (contains "k" board_state && contains "K" board_state)
    then
      modify (set_start_game false) ;;
      ret (NewGame settings true)
    else
      now <- get_ticks ;;
      modify (set_last_command_time now) ;;
      ret (NewGame settings false)
  else
    led_manager_set_leds (MsgStr "none") ;;
    match settings with
    | None => raise AttributeError
    | Some old_settings =>
        let board_rows := split_on "/" board_state in
        p <- get ;;
        decoded <- lift (decode_settings p board_rows old_settings) ;;
        let '(settings, start) := decoded in
        (if start then
           modify (set_start_game true) ;;
           now <- get_ticks ;;
           modify (set_last_command_time now) ;;
           use_board <- lift (getitem settings "use_board_position") ;;
           if truthy use_board then
             p <- get ;;
             modify (set_last_command_time
                       (last_command_time p + (20000 - wait_between_commands p)))
           else ret tt
         else ret tt) ;;
        (if settings_differ settings old_settings then
           now <- get_ticks ;;
           modify (set_last_command_time now)
         else ret tt) ;;
        ret (NewGame (Some settings) false)
    end.

(** [check_exit(board_state, type_)] *)
Definition check_exit (board_state : string) (type_ : string) : M pico_chess Z :=
  p <- get ;;
  if negb (on p) then ret 0 else
  let central := lower (join "/" (slice (split_on "/" board_state) (Some 3) (Some 5))) in
  let kings_in_exit_position :=
    if bool_decide (type_ = "game")
    then bool_decide (central ∈ ["4k3/3k4"; "3k4/4k3"])
    else bool_decide (central ∈ ["4k3/4k3"; "3k4/3k4"]) in
  now <- get_ticks ;;
  let in_window := now - last_exit_command_time p <? wait_between_commands p in
  pending <-
    (if in_window then lift (match exit_command p !! type_ with
                             | Some b => Ok b
                             | None => Raise KeyError
                             end)
     else ret false) ;;
  if in_window && pending then
    (if kings_in_exit_position then led_manager_flash_leds (MsgStr "all")
     else
       led_manager_set_leds (MsgStr "none") ;;
       p <- get ;;
       modify (set_exit_command (<[type_ := false]> (exit_command p)))) ;;
    ret 1
  else
    p <- get ;;
    match exit_command p !! type_ with
    | None => raise KeyError
    | Some true =>
        modify (set_exit_command (<[type_ := false]> (exit_command p))) ;;
        ret 2
    | Some false =>
        if kings_in_exit_position then
          modify (set_exit_command (<[type_ := true]> (exit_command p))) ;;
          now <- get_ticks ;;
          p <- get ;;
          modify (set_last_exit_command_time (now + (5000 - wait_between_commands p))) ;;
          ret 1
        else ret 0
    end.

Section WithEngine.
Context `{E : RuleEngine}.

(** [temp_board.remove_piece_at(virtual_board.king(color))]; without a king
    there is no square to index with. *)
Definition remove_king (virtual_board temp_board : Board) (color : bool)
  : result Board :=
  match king virtual_board color with
  | Some sq => Ok (remove_piece_at temp_board sq)
  | None => Raise TypeError
  end.

(** [game_window(physical_board_fen, settings, virtual_board)] *)
Definition game_window (physical_board_fen : string)
    (settings : option (gmap string setting)) (virtual_board : option Board)
  : M pico_chess outcome :=
  exit_state <- check_exit physical_board_fen "game" ;;
  match virtual_board with
  | None => raise AttributeError
  | Some virtual_board =>
      if bool_decide (physical_board_fen = fen virtual_board)
      then ret (Game exit_state false)
      else
        now <- get_ticks ;;
        p <- get ;;
        if now - last_command_time p <? wait_between_commands p
        then ret (Game exit_state false)
        else
          human_game <- lift (subscript settings "human_game") ;;
          if negb (truthy human_game) then
            temp_board <- lift (remove_king virtual_board virtual_board false) ;;
            temp_board <- lift (remove_king virtual_board temp_board true) ;;
            if bool_decide (board_fen temp_board = physical_board_fen) then
              now <- get_ticks ;;
              modify (set_last_command_time (now + 2000)) ;;
              ret (Game exit_state true)
            else ret (Game exit_state false)
          else ret (Game exit_state false)
  end.

(** One turn of the loop of [thinking_window]. *)
Definition king_removed (physical_board_fen : string) (virtual_board : Board)
    (i : bool) : result bool :=
  temp_board <~ remove_king virtual_board virtual_board i ;;
  Ok (bool_decide (board_fen temp_board = physical_board_fen)).

(** [thinking_window(physical_board_fen, virtual_board)] *)
Definition thinking_window (physical_board_fen : string) (virtual_board : option Board)
  : M pico_chess outcome :=
  now <- get_ticks ;;
  p <- get ;;
  if now - last_command_time p <? wait_between_commands p then ret (Thinking false)
  else
    match virtual_board with
    | None => raise AttributeError
    | Some virtual_board =>
        black <- lift (king_removed physical_board_fen virtual_board false) ;;
        if black then
          now <- get_ticks ;;
          modify (set_last_command_time now) ;;
          ret (Thinking true)
        else
          white <- lift (king_removed physical_board_fen virtual_board true) ;;
          if white then
            now <- get_ticks ;;
            modify (set_last_command_time now) ;;
            ret (Thinking true)
          else ret (Thinking false)
    end.

(** [update(window, board_state, settings, virtual_board)] *)
Definition update (window : string) (board_state : string)
    (settings : option (gmap string setting)) (virtual_board : option Board)
  : M pico_chess outcome :=
  p <- get ;;
  let disabled :=
    match exit_command p !! "application" with
    | Some b => Ok (b || negb (on p))
    | None => Raise KeyError
    end in
  disabled <- lift disabled ;;
  if disabled && bool_decide (window ∈ ["home"; "new game"; "game"; "thinking"]) then
    if bool_decide (window = "home") then ret (Home "home" false)
    else if bool_decide (window = "new game") then ret (NewGame settings false)
    else if bool_decide (window = "game") then ret (Game 0 false)
    else ret (Thinking false)
  else if bool_decide (window = "home") then home_window board_state
  else if bool_decide (window = "new game") then new_game_window board_state settings
  else if bool_decide (window = "game") then game_window board_state settings virtual_board
  else if bool_decide (window = "thinking") then thinking_window board_state virtual_board
  else ret NoWindow.

End WithEngine.

(** [PicoChess.__init__(led_manager, on)], in an environment that supplies
    the clock and the directory listings. *)
Definition __init__ (clock : nat -> Z) (engines books : list string)
    (led_manager : LedManager.led_world) (on_ : bool) : pico_chess :=
  let wait := 3000 in
  {| ticks := clock; ticks_read := 0%nat; led := led_manager;
     on := on_;
     wait_between_commands := wait;
     last_command_time := - wait;
     last_exit_command_time := - wait;
     exit_command := <["application" := false]> (<["game" := false]> ∅);
     start_game := false;
     can_calibrate := true;
     engine_list := engines; book_list := books |}.

End PicoChess.


(** ** Vocabulary of the LED properties *)

Module LedSpec.

Definition ranks : list string := ["1"; "2"; "3"; "4"; "5"; "6"; "7"; "8"].

(** The 64 algebraic squares, ["a1"] to ["h8"]. *)
Definition all_squares : list string :=
  flat_map (fun f => map (fun r => f +:+ r) ranks) COLUMNS_LETTERS.

Definition algebraic (sq : string) : Prop := sq ∈ all_squares.

(** The LED addressed by a square: row 0 is the far rank and column 0 the
    a-file on an unrotated board; a rotated board is addressed from the
    opposite corner. *)
Definition square_at (rotate180 : bool) (cell : Z * Z) : string :=
  let '(row, col) := cell in
  let file := if rotate180 then 7 - col else col in
  let rank := if rotate180 then row + 1 else 8 - row in
  String (chr (file + 97)) (String (chr (rank + 48)) "").

Definition led_cell (rotate180 : bool) (sq : string) : Z * Z :=
  match chars sq with
  | f :: r :: _ =>
      let file := code f - 97 in
      let rank := code r - 48 in
      if rotate180 then (rank - 1, 7 - file) else (8 - rank, file)
  | _ => (0, 0)
  end.

(** [frame] is the LED frame that lights exactly the squares [sqs]: eight
    byte values, bit [c] of row [r] set if and only if some requested square
    sits at row [r], column [c]. *)
Definition lights (rotate180 : bool) (sqs : list string) (frame : list Z) : Prop :=
  length frame = 8%nat
  /\ Forall (fun v => 0 <= v <= 255) frame
  /\ forall (r : nat) (c v : Z), 0 <= c < 8 ->
       frame !! r = Some v ->
       (Z.testbit v c = true
        <-> exists sq, sq ∈ sqs /\ led_cell rotate180 sq = (Z.of_nat r, c)).

(** Invariant of the loop [for row, col in led_positions: leds[row] += col]:
    the squares [done] are lit and nothing else is. *)
Definition lit (rotate180 : bool) (done : list string) (leds : list Z) : Prop :=
  length leds = 8%nat
  /\ forall (r : nat) (v : Z), leds !! r = Some v ->
       0 <= v
       /\ forall c, 0 <= c ->
            (Z.testbit v c = true
             <-> c < 8 /\ exists sq, sq ∈ done /\ led_cell rotate180 sq = (Z.of_nat r, c)).

(** The frame [set_leds] computes for a message before queueing it. *)
Definition encode (m : LedManager.led_manager) (msg : message) (rotate180 : bool)
  : result (list Z) :=
  frame <~ match LedManager.lookup_default m msg with
           | Ok f => Ok f
           | Raise e => if LedManager.handles_key_type e
                        then LedManager.squares2led msg rotate180
                        else Raise e
           end ;;
  bytes frame.

(** The table of named patterns, as [LedManager.__init__] fills it. *)
Definition named_pattern (name : string) : option (list Z) :=
  if decide (name = "all") then Some (replicate 8 255)
  else if decide (name = "none") then Some (replicate 8 0)
  else if decide (name = "start") then Some [255; 255; 0; 0; 0; 0; 255; 255]
  else if decide (name = "error") then Some [0; 0; 0; 24; 24; 0; 0; 0]
  else if decide (name = "corners") then Some [129; 0; 0; 0; 0; 0; 0; 129]
  else if decide (name = "thinking") then Some [0; 0; 0; 24; 24; 0; 0; 0]
  else if decide (name = "setup") then Some [255; 255; 8; 0; 0; 8; 255; 255]
  else None.

(** The requests the encoder is meant for, each with the squares it names
    (none for a named pattern): a pattern name, a list of algebraic squares,
    one algebraic square as a text, or a move text made of two different
    algebraic squares. *)
Inductive request : message -> option (list string) -> Prop :=
| request_named (name : string) :
    is_Some (named_pattern name) -> request (MsgStr name) None
| request_squares (l : list string) :
    Forall algebraic l -> request (MsgList l) (Some l)
| request_square (sq : string) :
    algebraic sq -> request (MsgStr sq) (Some [sq])
| request_move (a b : string) :
    algebraic a -> algebraic b -> a <> b -> request (MsgStr (a +:+ b)) (Some [a; b]).

(** [set_leds(msg, rotate180)] on [m] records [msg] and queues [frame]. *)
Definition sends (m : LedManager.led_manager) (msg : message) (rotate180 : bool)
    (frame : list Z) : Prop :=
  LedManager.set_leds msg rotate180 m
  = (Ok tt, LedManager.put frame (LedManager.set_last_message (Some msg) m)).

(** A manager whose pattern table is the one [LedManager.__init__] builds
    and whose flash clock is set whenever a flash target is. *)
Definition table_of_init (m : LedManager.led_manager) : Prop :=
  exists m0, LedManager.__init__ = Ok m0
             /\ LedManager.default_messages m = LedManager.default_messages m0.

Definition well_formed (w : LedManager.led_world) : Prop :=
  table_of_init (LedManager.mgr w)
  /\ (LedManager.last_flash_message (LedManager.mgr w) <> None ->
      LedManager.flash_clock (LedManager.mgr w) <> None).

(** A freshly constructed manager, alone and on a wall clock. *)
Definition fresh_manager : LedManager.led_manager :=
  match LedManager.__init__ with
  | Ok m => m
  | Raise _ =>
      {| LedManager.queue_to_usbtool := []; LedManager.default_messages := ∅;
         LedManager.last_message := None; LedManager.last_flash_message := None;
         LedManager.flash_frequency := 1%Q; LedManager.flash_clock := None;
         LedManager.counter := 0 |}
  end.

Definition fresh_world (clock : nat -> Q) : LedManager.led_world :=
  {| LedManager.time_time := clock;
     LedManager.time_reads := 0%nat;
     LedManager.mgr := fresh_manager |}.

(** The four corner squares, as a set. *)
Definition corner_squares : gset string := list_to_set ["a1"; "a8"; "h1"; "h8"].




End LedSpec.

(** ** Vocabulary of the move-inference properties *)

Module MoveSpec.

(** A board field is a non-empty text without white space, so that it is
    the first field of itself. *)
Definition board_field (F : string) : Prop :=
  F <> "" /\ Forall (fun c => is_space c = false) (chars F).

(** [x] is the first element of [l] that satisfies [P]. *)
Definition first_such {A : Type} (P : A -> Prop) (l : list A) (x : A) : Prop :=
  exists pre post, l = pre ++ x :: post /\ P x /\ Forall (fun y => ~ P y) pre.

Section WithEngine.
Context `{E : RuleEngine}.

(** Playing [m] on [B] reproduces the board field [F]. *)
Definition one_ply (B : Board) (F : string) (m : Move) : Prop :=
  board_fen (push B m) = F.

(** The two-ply sequences that start with one of [moves], in generation
    order: the replies to the first of them, then those to the second, and
    so on. *)
Definition replies_to (B : Board) (moves : list Move) : list (Move * Move) :=
  flat_map (fun m1 => map (pair m1) (generate_legal_moves (push B m1))) moves.

(** The legal two-ply sequences from [B]. *)
Definition two_plies (B : Board) : list (Move * Move) :=
  replies_to B (generate_legal_moves B).

Definition two_ply (B : Board) (F : string) (p : Move * Move) : Prop :=
  board_fen (push (push B (fst p)) (snd p)) = F.

End WithEngine.
End MoveSpec.

(** A counting game standing in for a rule engine: a position is the stack
    of the moves played, the moves 1 and 2 are always legal, and the board
    field shows the total played. The position has no kings. *)
Module ToyEngine.

Definition total (b : list Z) : Z := foldr Z.add 0 b.

Definition toy_board_fen (b : list Z) : string := "t" +:+ str (total b).

#[global] Instance toy : RuleEngine :=
  {| Board := list Z;
     Move := Z;
     Square := unit;
     board_fen := toy_board_fen;
     fen := fun b => toy_board_fen b +:+ " w - - 0 1";
     generate_legal_moves := fun _ => [1; 2];
     push := fun b m => m :: b;
     pop := fun b => tail b;
     uci := str;
     king := fun _ _ => None;
     remove_piece_at := fun b _ => b;
     pop_push := fun b m => eq_refl |}.

(** The position before any move. *)
Definition nothing_played : @Board toy := [].

End ToyEngine.

(** ** Vocabulary of the decoder properties *)

Module DecoderSpec.
Import UsbReader.

(** The code of a cell in a stored frame: five tokens of the frame with its
    leading character dropped. *)
Definition cell_code (frame : string) (cell : nat) : list string :=
  apply_slice (split_on " " (str_slice frame (Some 1) None))
              (Z.of_nat cell * 5, Z.of_nat cell * 5 + 5).

(** The symbol the reader gives a code: its entry in the code mapping, or
    the configured marker for a code that has none. *)
Definition symbol_of (r : usb_reader) (code : list string) : string :=
  default (default_missing_piece r) (code_mapping r !! code).

(** The vote among the symbols of one cell, as the [Counter] resolves it. *)
Definition vote (symbols : list string) : string :=
  match most_common_1 (counter_update [] (map VStr symbols)) with
  | (VStr s, _) :: _ => s
  | _ => ""
  end.

(** The 64 symbols decoded from the three frames of the history. *)
Definition decoded_board (r : usb_reader) (frames : list string) : list string :=
  map (fun cell => vote (map (fun frame => symbol_of r (cell_code frame cell)) frames))
      (seq 0 64).

(** The FEN board field of 64 symbols, said directly: each rank is written
    left to right, a run of empty squares becoming its length, and the
    eight ranks are joined by slashes. *)
Definition run_digits (n : nat) : string :=
  match n with
  | O => ""
  | _ => str (Z.of_nat n)
  end.

Fixpoint rank_field (empties : nat) (rank : list string) : string :=
  match rank with
  | [] => run_digits empties
  | piece :: rank' =>
      if decide (piece = ".") then rank_field (S empties) rank'
      else run_digits empties +:+ piece +:+ rank_field 0 rank'
  end.

Fixpoint ranks_of (n : nat) (board : list string) : list (list string) :=
  match n with
  | O => []
  | S n' => take 8 board :: ranks_of n' (drop 8 board)
  end.

Definition board_field_of (board : list string) : string :=
  join "/" (map (rank_field 0) (ranks_of 8 board)).

(** Reading a rank field back: a digit stands for that many empty squares,
    any other character for itself. *)
Fixpoint expand (l : list ascii) : list string :=
  match l with
  | [] => []
  | c :: l' =>
      if is_decimal c then replicate (Z.to_nat (code c - 48)) "." ++ expand l'
      else String c "" :: expand l'
  end.

(** The symbols the decoder can produce: the twelve piece letters and the
    empty-square dot. *)
Definition piece_symbol (s : string) : Prop :=
  s ∈ "." :: code_mapping_order.

End DecoderSpec.

(** ** Frame rules for method bodies

    [keeps R m]: running [m] relates the state before to the state after
    by [R], whether [m] returns or raises. *)

Definition keeps {S A : Type} (R : S -> S -> Prop) (m : M S A) : Prop :=
  forall s, R s (snd (m s)).

(** ** Vocabulary of the reader's life cycle *)

Module ReaderSpec.
Import UsbReader.

(** The slot index after one more frame. *)
Definition next_index (depth i : Z) : Z :=
  if depth <=? i + 1 then 0 else i + 1.

(** Every frame of [frames] equals the slot it would replace, the index
    starting at [i]. *)
Fixpoint repeats (history : list (option string)) (depth i : Z) (frames : list string)
  : Prop :=
  match frames with
  | [] => True
  | data :: rest =>
      index history i = Ok (Some data) /\ repeats history depth (next_index depth i) rest
  end.

(** What can happen to a reader between its construction and now: frames
    arrive on the queue, and its methods are called. An exception leaves
    the reader as the method had mutated it. *)
Inductive event : Type :=
| Arrive (frames : list string)
| ReadBoard (rotate180 : bool)
| Calibration (new_setup : bool)
| DoCalibration (new_setup : bool)
| IgnoreMissing (ignore_missing_pieces : bool).

Definition after (e : event) (r : usb_reader) : usb_reader :=
  match e with
  | Arrive frames => set_queue (queue r ++ frames) r
  | ReadBoard rotate180 => snd (read_board rotate180 r)
  | Calibration new_setup => snd (calibration new_setup r)
  | DoCalibration new_setup => snd (do_calibration new_setup r)
  | IgnoreMissing b => snd (ignore_missing b r)
  end.

Definition after_all (events : list event) (r : usb_reader) : usb_reader :=
  foldl (fun r e => after e r) r events.

(** Number of frames that arrived during [events]. *)
Definition arrived (events : list event) : nat :=
  foldr (fun e n => match e with
                    | Arrive frames => (length frames + n)%nat
                    | _ => n
                    end) 0%nat events.

(** A code is recorded properly in a mapping when it is not all zeros and
    sits once in its list. *)
Definition all_zero (code : list Z) : Prop := Forall (fun v => v = 0) code.

Definition clean (calibration_mapping : gmap string (list (list Z))) : Prop :=
  forall key codes, calibration_mapping !! key = Some codes ->
                    NoDup codes /\ Forall (fun code => ~ all_zero code) codes.

(** [r'] differs from [r] at most in the queue, the history and its index. *)
Definition frame_only (r r' : usb_reader) : Prop :=
  data_history_depth r' = data_history_depth r
  /\ board_fen r' = board_fen r
  /\ counter r' = counter r
  /\ disk r' = disk r
  /\ needs_calibration r' = needs_calibration r
  /\ default_missing_piece r' = default_missing_piece r
  /\ code_mapping r' = code_mapping r
  /\ calibration_samples_n r' = calibration_samples_n r
  /\ calibration_mapping r' = calibration_mapping r
  /\ calibration_samples r' = calibration_samples r
  /\ calibration_data_history_i r' = calibration_data_history_i r.

(** Before the third frame: the history is being filled for the first
    time, [n] frames have arrived, and nothing was decoded or sampled. *)
Definition early (n : nat) (r : usb_reader) : Prop :=
  data_history_depth r = 3
  /\ length (data_history r) = 3%nat
  /\ counter r = []
  /\ calibration_samples r = []
  /\ calibration_samples_n r = 15
  /\ board_fen r = STARTING_BOARD_FEN
  /\ data_history_i r = Z.of_nat n - 3 - Z.of_nat (length (queue r))
  /\ (length (queue r) <= n < 3)%nat.

(** Position of index [i] in a list of length [len]. *)
Definition position (len : nat) (i : Z) : nat :=
  Z.to_nat (if i <? 0 then Z.of_nat len + i else i).

(** Relations between the reader before and after a method: the learned
    mapping is untouched, or it is still clean if it was. *)
Definition same_mapping (r r' : usb_reader) : Prop :=
  calibration_mapping r' = calibration_mapping r.

Definition stays_clean (r r' : usb_reader) : Prop :=
  clean (calibration_mapping r) -> clean (calibration_mapping r').

Definition grows_clean (m m' : gmap string (list (list Z))) : Prop :=
  clean m -> clean m'.

(** The all-zero code, as a key of the code mapping. *)
Definition zero_code : list string := ["0"; "0"; "0"; "0"; "0"].

End ReaderSpec.

(** ** Sample sensor data *)

Module Sample.
Import UsbReader.

(** A frame in which cell [k] reads [n 0 0 0 0] for the [k]-th [n] of
    [cells], behind a one-character marker. *)
Definition frame_of (cells : list Z) : string :=
  ":" +:+ join " " (map (fun n => str n +:+ " 0 0 0 0") cells).

(** Piece kind [k] of [code_mapping_order] reads [k+1 0 0 0 0]. *)
Definition calibration_data : list (list (list Z)) :=
  map (fun n => [[n; 0; 0; 0; 0]]) [1; 2; 3; 4; 5; 6; 7; 8; 9; 10; 11; 12].

Definition start_cells : list Z :=
  [2; 3; 4; 6; 5; 4; 3; 2] ++ replicate 8 1 ++ replicate 32 0
  ++ replicate 8 7 ++ [8; 9; 10; 12; 11; 10; 9; 8].

Definition start_frame : string := frame_of start_cells.

(** The starting position after the king's pawn went two squares. *)
Definition e4_frame : string :=
  frame_of (<[36%nat := 7]> (<[52%nat := 0]> start_cells)).

(** An object that was never constructed. *)
Definition blank : usb_reader :=
  {| queue := []; disk := Missing; data_history_depth := 3; data_history_i := - 3;
     data_history := replicate 3 None; board_fen := STARTING_BOARD_FEN; counter := [];
     needs_calibration := false; default_missing_piece := "."; code_mapping := ∅;
     calibration_samples_n := 15; calibration_mapping := empty_calibration_mapping;
     calibration_samples := []; calibration_data_history_i := None |}.

Definition constructed (r : result usb_reader) : usb_reader :=
  match r with
  | Ok r => r
  | Raise _ => blank
  end.

(** A calibrated reader that has polled the starting position three times
    and the pawn move twice. *)
Definition calibrated_reader : usb_reader :=
  snd (update (constructed (__init__ [start_frame; start_frame; start_frame;
                                      e4_frame; e4_frame]
                                     (Stored (CalibrationData calibration_data))))).

(** The calibration position: the starting position with the spare queens
    on d6 and d3. *)
Definition setup_frame : string :=
  frame_of (<[19%nat := 6]> (<[43%nat := 12]> start_cells)).

(** One round of the calibration screen: a frame arrives, the board is
    polled, a sample is taken. *)
Definition calibration_rounds (n : nat) : list ReaderSpec.event :=
  concat (replicate n [ReaderSpec.Arrive [setup_frame]; ReaderSpec.ReadBoard false;
                       ReaderSpec.Calibration true]).

(** A reader constructed with one frame waiting. *)
Definition one_frame_reader : usb_reader :=
  constructed (__init__ [start_frame] Missing).

(** A reader constructed without a calibration file. *)
Definition uncalibrated_reader : usb_reader := constructed (__init__ [] Missing).

End Sample.

(** ** Vocabulary of the gesture protocol properties *)

Module GestureSpec.
Import PicoChess.

(** The next reading of the clock falls inside the debounce window that
    the last command opened. *)
Definition debounced (p : pico_chess) : Prop :=
  ticks p (ticks_read p) - last_command_time p < wait_between_commands p.

(** The next reading of the clock falls inside the window of the exit
    countdown. *)
Definition counting_down (p : pico_chess) : Prop :=
  ticks p (ticks_read p) - last_exit_command_time p < wait_between_commands p.

(** The two middle ranks of a board field, in lower case. *)
Definition central_ranks (board_state : string) : string :=
  lower (join "/" (slice (split_on "/" board_state) (Some 3) (Some 5))).

(** Both kings stand in the exit pattern of a kind of exit: on a diagonal
    of the centre to leave the game, on a file of the centre to leave the
    application. *)
Definition exit_pattern (type_ : string) (board_state : string) : Prop :=
  if decide (type_ = "game")
  then central_ranks board_state ∈ ["4k3/3k4"; "3k4/4k3"]
  else central_ranks board_state ∈ ["4k3/4k3"; "3k4/3k4"].

#[global] Instance exit_pattern_dec (type_ board_state : string) :
  Decision (exit_pattern type_ board_state).
Proof. unfold exit_pattern. destruct (decide (type_ = "game")); apply _. Defined.

(** The LEDs are off and the transport was told so: the last message is
    ['none'], and the all-zero frame was queued unless ['none'] was already
    the last message. *)
Definition leds_cleared (before after : LedManager.led_manager) : Prop :=
  LedManager.last_message after = Some (MsgStr "none")
  /\ LedManager.queue_to_usbtool after
     = if decide (LedManager.last_message before = Some (MsgStr "none"))
       then LedManager.queue_to_usbtool before
       else LedManager.queue_to_usbtool before ++ [replicate 8 0].

(** The command time of [p'] is a reading that the clock gave between [p]
    and [p'], plus [extra] milliseconds. *)
Definition recorded_during (p p' : pico_chess) (extra : Z) : Prop :=
  exists n, (ticks_read p <= n < ticks_read p')%nat
            /\ last_command_time p' = ticks p n + extra.

(** [p'] differs from [p] at most in the exit countdown, the LEDs and the
    number of clock readings, which did not decrease. *)
Definition exit_only (p p' : pico_chess) : Prop :=
  ticks p' = ticks p
  /\ (ticks_read p <= ticks_read p')%nat
  /\ on p' = on p
  /\ wait_between_commands p' = wait_between_commands p
  /\ last_command_time p' = last_command_time p
  /\ start_game p' = start_game p
  /\ can_calibrate p' = can_calibrate p.

(** A gesture object as constructed, switched on, with a fresh LED manager
    and no engines or books installed. *)
Definition fresh (clock : nat -> Z) : pico_chess :=
  __init__ clock [] [] (LedSpec.fresh_world (fun _ => 0%Q)) true.

(** A clock that advances one millisecond per reading. *)
Definition millisecond_clock (n : nat) : Z := Z.of_nat n.

(** A clock that reads 0 twice and 6000 from then on. *)
Definition late_clock (n : nat) : Z := if (n <? 2)%nat then 0 else 6000.

(** Boards used in the examples. *)
Definition calibration_board : string := "rnbqkbnr/pppppppp/3q4/8/8/3Q4/PPPPPPPP/RNBQKBNR".
Definition new_game_board : string := "rnbqkbnr/pppppppp/8/3q4/3Q4/8/PPPPPPPP/RNBQKBNR".
Definition exit_game_board : string := "rnbq1bnr/pppppppp/8/4k3/3K4/8/PPPPPPPP/RNBQ1BNR".
Definition kings_home_board : string := "rnbqkbnr/pppppppp/8/8/8/8/PPPPPPPP/RNBQKBNR".

(** The program after the calibration gesture, shown to it at the first
    reading of the millisecond clock. *)
Definition after_calibration : pico_chess :=
  snd (update (E := ToyEngine.toy) "home" calibration_board None None
         (fresh millisecond_clock)).

End GestureSpec.


(** ** [run.py]: drawing the board *)

Module Display.

(** [FEN_SPRITE_MAPPING] *)
Definition FEN_SPRITE_MAPPING : gmap string string :=
  list_to_map [("b", "black_bishop"); ("k", "black_king"); ("n", "black_knight");
               ("p", "black_pawn"); ("q", "black_queen"); ("r", "black_rook");
               ("B", "white_bishop"); ("K", "white_king"); ("N", "white_knight");
               ("P", "white_pawn"); ("Q", "white_queen"); ("R", "white_rook")].

(** A screen coordinate as the code writes it: a number, or
    [origin + offset + 31.8 * count] for the [count]-th file or rank of the
    board. The floating-point product is kept as written. *)
Inductive coordinate : Type :=
| Px (v : Z)
| Cell (origin offset count : Z).

(** What was blitted on the screen, oldest first. *)
Definition screen : Type := list (string * coordinate * coordinate).

(** [show_sprite(name, x, y)] *)
Definition show_sprite (name : string) (x y : coordinate) : M screen unit :=
  modify (fun scr => scr ++ [(name, x, y)]).

(** The loop [for c in FEN_string] of [show_board]: a piece letter is drawn
    where the counters stand, a slash starts the next rank, a space ends
    the loop, and anything else must be a number of squares to skip. *)
Fixpoint place_pieces (x0 y0 : Z) (FEN_string : list ascii) (x y : Z) : M screen unit :=
  match FEN_string with
  | [] => ret tt
  | c :: rest =>
      match FEN_SPRITE_MAPPING !! String c "" with
      | Some name =>
          show_sprite name (Cell x0 26 x) (Cell y0 23 y) ;;
          place_pieces x0 y0 rest (x + 1) y
      | None =>
          if Ascii.eqb c "/" then place_pieces x0 y0 rest 0 (y + 1)
          else if Ascii.eqb c " " then ret tt
          else n <- lift (int (String c "")) ;; place_pieces x0 y0 rest (x + n) y
      end
  end.

(** ["/".join(row[::-1] for row in reversed(FEN_string.split(" ")[0].split("/")))] *)
Definition rotated (FEN_string : string) : result string :=
  field <~ index (split_on " " FEN_string) 0 ;;
  Ok (join "/" (map str_reverse (rev (split_on "/" field)))).

(** [show_board(FEN_string, x0, y0)], with [game_settings['rotate180']] as
    an argument. *)
Definition show_board (rotate180 : bool) (FEN_string : string) (x0 y0 : Z)
  : M screen unit :=
  show_sprite "chessboard_xy" (Px x0) (Px y0) ;;
  FEN_string <- lift (if rotate180 then rotated FEN_string else Ok FEN_string) ;;
  place_pieces x0 y0 (chars FEN_string) 0 0.

End Display.

(** ** Vocabulary of the board-field properties *)

Module FieldSpec.
Import UsbReader DecoderSpec Display.

(** One square of a rank, as the FEN loop treats it: the text written so
    far and the empty squares not yet written. *)
Definition rank_scan (st : string * nat) (piece : string) : string * nat :=
  if decide (piece = ".") then (fst st, S (snd st))
  else (fst st +:+ run_digits (snd st) +:+ piece, 0%nat).

(** A symbol of one character. *)
Definition one_char (s : string) : Prop := String.length s = 1%nat.

(** A text that ends a board field: nothing, or a space and the other
    fields of a FEN record. *)
Definition field_end (tail : string) : Prop :=
  tail = "" \/ exists rest, tail = String " " rest.

(** The sprites of the pieces of a board of 64 symbols, each at the file and
    rank of its square, in board order from the square [first]. *)
Fixpoint placed (x0 y0 : Z) (first : nat) (board : list string)
  : list (string * coordinate * coordinate) :=
  match board with
  | [] => []
  | s :: board' =>
      match FEN_SPRITE_MAPPING !! s with
      | Some name =>
          [(name, Cell x0 26 (Z.of_nat (first mod 8)), Cell y0 23 (Z.of_nat (first / 8)))]
      | None => []
      end ++ placed x0 y0 (S first) board'
  end.

End FieldSpec.


(** ** Vocabulary of the settings gestures *)

Module SettingsSpec.
Import PicoChess.

(** Equality of outcomes of calls is decidable. *)
#[global] Instance exn_eq_dec : EqDecision exn.
Proof. solve_decision. Defined.

#[global] Instance result_eq_dec {A : Type} `{EqDecision A} : EqDecision (result A).
Proof. solve_decision. Defined.

(** The text of a rank that holds a white queen on file [w] and a black
    queen on file [b], files counted from 0; a file of 8 means that the
    queen is not on the rank. *)
Definition queens_rank (w b : nat) : string :=
  DecoderSpec.rank_field 0
    (map (fun file => if decide (file = w) then "Q"
                      else if decide (file = b) then "q" else ".")
         (seq 0 8)).

(** One or two queens on a rank, on different files. *)
Definition placement (w b : nat) : Prop := (w <= 8)%nat /\ (b <= 8)%nat /\ w <> b.

End SettingsSpec.


(** ** Vocabulary of the code mapping and the calibration *)

Module CalibrationSpec.
Import UsbReader.

(** [key] is the text form of one of the codes of [codes]. *)
Definition listed (key : list string) (codes : list (list Z)) : Prop :=
  key ∈ map (map str) codes.

#[global] Instance listed_dec (key : list string) (codes : list (list Z)) :
  Decision (listed key codes).
Proof. unfold listed. apply _. Defined.

(** A frame as the board sends it for the readings [readings]: a marker
    character, then the readings in decimal, separated by single spaces. *)
Definition frame_with (marker : ascii) (readings : list Z) : string :=
  String marker (join " " (map str readings)).

(** The five readings of a cell. *)
Definition reading_at (readings : list Z) (cell : Z) : list Z :=
  apply_slice readings (cell * 5, cell * 5 + 5).

(** The readings tell the piece kinds apart: two calibration squares that
    hold different kinds never read the same code. *)
Definition told_apart (readings : list Z) : Prop :=
  forall k1 c1 k2 c2,
    (k1, c1) ∈ calibration_squares -> (k2, c2) ∈ calibration_squares -> k1 <> k2 ->
    reading_at readings c1 <> reading_at readings c2.

End CalibrationSpec.

(** A reader that has taken its fifteen calibration samples, all of them
    the frame of the calibration position. *)
Module CalibrationSample.
Import UsbReader.

Definition setup_readings : list Z :=
  flat_map (fun n => [n; 0; 0; 0; 0])
           (<[19%nat := 6]> (<[43%nat := 12]> Sample.start_cells)).

Definition sampled_reader : usb_reader :=
  set_calibration_samples (replicate 15 (Some Sample.setup_frame))
                          Sample.uncalibrated_reader.

End CalibrationSample.


(** ** Vocabulary of the frame history and of the sampling *)

Module RingSpec.
Import UsbReader ReaderSpec.

(** The history is a ring of three slots and its index is in range. *)
Definition ring (r : usb_reader) : Prop :=
  data_history_depth r = 3
  /\ length (data_history r) = 3%nat
  /\ - 3 <= data_history_i r < 3.

(** [r'] has the calibration samples, the calibration file and the code
    mapping of [r], and its history is a ring if that of [r] is. *)
Definition waiting (r r' : usb_reader) : Prop :=
  calibration_samples_n r' = calibration_samples_n r
  /\ calibration_samples r' = calibration_samples r
  /\ disk r' = disk r
  /\ code_mapping r' = code_mapping r
  /\ (ring r -> ring r').

(** Number of calls of [calibration] during [events]. *)
Definition calibration_calls (events : list event) : nat :=
  foldr (fun e n => match e with
                    | Calibration _ => S n
                    | _ => n
                    end) 0%nat events.

(** [do_calibration] is called by [calibration] only. *)
Definition through_calibration (events : list event) : Prop :=
  Forall (fun e => match e with
                   | DoCalibration _ => False
                   | _ => True
                   end) events.

(** The slots after the frames [frames] have been stored, the first of
    them being frame number [first] since construction: frame number [k]
    goes to slot [k mod 3], so that each slot holds the last frame stored
    into it. *)
Fixpoint stored (slots : list (option string)) (first : nat) (frames : list string)
  : list (option string) :=
  match frames with
  | [] => slots
  | data :: rest => stored (<[(first mod 3)%nat := Some data]> slots) (S first) rest
  end.

Definition ring_of (frames : list string) : list (option string) :=
  stored [None; None; None] 0 frames.

(** The history index after [n] frames. *)
Definition index_after (n : nat) : Z :=
  if (n <? 3)%nat then Z.of_nat n - 3 else Z.of_nat (n mod 3).

(** The frames that arrive during [events], in order. *)
Definition arrivals (events : list event) : list string :=
  flat_map (fun e => match e with
                     | Arrive frames => frames
                     | _ => []
                     end) events.

(** Nothing happens but frames arriving and the board being polled. *)
Definition polling (events : list event) : Prop :=
  Forall (fun e => match e with
                   | Arrive _ | ReadBoard _ => True
                   | _ => False
                   end) events.

(** The reader between two calls, after polls and arrivals only: the
    frames [done] have gone through the ring, the frames [pending] wait on
    the queue, and from the third frame on the snapshot is the decoding of
    the ring. *)
Definition polled (r0 : usb_reader) (done pending : list string) (r : usb_reader) : Prop :=
  data_history_depth r = 3 /\ counter r = []
  /\ code_mapping r = code_mapping r0
  /\ default_missing_piece r = default_missing_piece r0
  /\ queue r = pending
  /\ data_history r = ring_of done
  /\ data_history_i r = index_after (length done)
  /\ ((3 <= length done)%nat ->
      exists f0 f1 f2,
        ring_of done = [Some f0; Some f1; Some f2]
        /\ board_fen r = DecoderSpec.board_field_of (DecoderSpec.decoded_board r0 [f0; f1; f2])).

End RingSpec.


(** ** Vocabulary of the flashing of the LEDs *)

Module FlashSpec.
Import LedManager LedSpec.

(** [flash_leds(message, rotate180)] called [n] times in a row, as the
    loops that wait for the engine or for the player do. *)
Fixpoint flash_run (msg : message) (rotate180 : bool) (n : nat) : M led_world unit :=
  match n with
  | O => ret tt
  | S n' => flash_leds msg rotate180 ;; flash_run msg rotate180 n'
  end.

(** The number of readings of the wall clock, among [times], that come
    more than [frequency] after the reading that last counted ([last] at
    first). *)
Fixpoint toggles (frequency last : Q) (times : list Q) : nat :=
  match times with
  | [] => 0%nat
  | t :: times' =>
      if Qlt_le_dec frequency (t - last)
      then S (toggles frequency t times')
      else toggles frequency last times'
  end.

(** What the LEDs show after [k] toggles: the message after an even number
    of them, nothing after an odd number. *)
Definition shown (msg : message) (k : nat) : message :=
  if Nat.even k then msg else MsgStr "none".

(** The frames of the toggles [k + 1], ..., [k + j]: the dark frame and
    the frame [on] in turn. *)
Fixpoint blink (on : list Z) (k j : nat) : list (list Z) :=
  match j with
  | O => []
  | S j' => (if Nat.even (S k) then on else replicate 8 0) :: blink on (S k) j'
  end.

(** The next [n] readings of the wall clock. *)
Definition readings (w : led_world) (n : nat) : list Q :=
  map (time_time w) (seq (time_reads w) n).

(** A reading of the wall clock as [time.time()] gives it in the current
    epoch: a whole number of steps of 2^-22 seconds, below 2^31 seconds.
    Such readings are doubles, and so is the difference of any two of
    them, so that the subtraction of [flash_leds] is exact on them. *)
Definition clock_reading (t : Q) : Prop :=
  exists steps : Z, 0 <= steps < 2 ^ 53 /\ (t == Qmake steps (2 ^ 22))%Q.

(** A wall clock read once per second. *)
Definition second_clock (n : nat) : Q := inject_Z (Z.of_nat n).

End FlashSpec.


(** ** Vocabulary of the serial line *)

Module WireSpec.
Import Usbtool UsbReader CalibrationSpec.

Definition carriage_return : ascii := chr 13.

(** The characters of one line as the board sends it: the frame, a space,
    a carriage return and the newline. *)
Definition wire_line (marker : ascii) (readings : list Z) : list ascii :=
  chars (frame_with marker readings) ++ [" "%char; carriage_return; newline].

End WireSpec.


(** ** Vocabulary of the time gesture *)

Module TimeSpec.
Import PicoChess DecoderSpec.

(** Where a king stands when it is off its home square: its rank (as on
    the board, 3 to 6) and its file (0 for the a-file), or [None] when the
    king is at home. *)
Definition king_square : Type := option (nat * nat).

(** The eight ranks of the board field, from rank 8 down to rank 1: every
    piece at home but the kings that are out, and nothing on ranks 3 to 6
    but those kings. *)
Definition kings_rows (white black : king_square) : list string :=
  [match black with Some _ => "rnbq1bnr" | None => "rnbqkbnr" end; "pppppppp"]
  ++ map (fun rank =>
            rank_field 0
              (map (fun file => if decide (white = Some (rank, file)) then "K"
                                else if decide (black = Some (rank, file)) then "k"
                                else ".")
                   (seq 0 8)))
         [6; 5; 4; 3]%nat
  ++ ["PPPPPPPP"; match white with Some _ => "RNBQ1BNR" | None => "RNBQKBNR" end].

(** The ranks on which the pieces stay during the gestures of the new
    game window: ranks 8 and 7, then ranks 2 and 1. *)
Definition static_rows (board_rows : list string) : string :=
  join "/" (slice board_rows (Some 0) (Some 2) ++ slice board_rows (Some (- 2)) None).

(** The number a king selects: 0 to 7 along rank 3, 8 to 15 along rank 4,
    16 to 30 in steps of two along rank 5, and 40 to 100 in steps of ten
    along rank 6, where the h-file gives 120. *)
Definition king_time (square : nat * nat) : Z :=
  let '(rank, file) := square in
  match rank with
  | 3%nat => Z.of_nat file
  | 4%nat => 8 + Z.of_nat file
  | 5%nat => 16 + 2 * Z.of_nat file
  | _ => if decide (file = 7%nat) then 120 else 40 + 10 * Z.of_nat file
  end.

Definition on_time_square (k : king_square) : Prop :=
  match k with
  | Some (rank, file) => (3 <= rank <= 6)%nat /\ (file < 8)%nat
  | None => True
  end.

#[global] Instance on_time_square_dec (k : king_square) : Decision (on_time_square k).
Proof. destruct k as [[rank file]|]; apply _. Defined.

(** At least one king is out, each king that is out stands on ranks 3
    to 6, and two kings that are out stand on different ranks. *)
Definition time_gesture (white black : king_square) : Prop :=
  on_time_square white /\ on_time_square black
  /\ match white, black with
     | Some w, Some b => fst w <> fst b
     | None, None => False
     | _, _ => True
     end.

#[global] Instance time_gesture_dec (white black : king_square) :
  Decision (time_gesture white black).
Proof. unfold time_gesture. destruct white, black; apply _. Defined.

(** The settings after the gesture: the white king on a3 asks for
    unlimited time and gives no minutes; any other king that is out gives
    its number, the white king as minutes and the black king as seconds,
    and the time constraint becomes ['custom']. *)
Definition time_settings (white black : king_square) (settings : gmap string setting)
  : gmap string setting :=
  let unlimited := bool_decide (white = Some (3, 0)%nat) in
  let mins := if unlimited then None else king_time <$> white in
  let secs := king_time <$> black in
  let settings :=
    if unlimited then <["time_constraint" := SStr "unlimited"]> settings
    else settings in
  match mins, secs with
  | None, None => settings
  | _, _ =>
      let settings := <["time_constraint" := SStr "custom"]> settings in
      let settings := match mins with
                      | Some m => <["time_total_minutes" := SInt m]> settings
                      | None => settings
                      end in
      match secs with
      | Some s => <["time_increment_seconds" := SInt s]> settings
      | None => settings
      end
  end.

(** The squares a king can stand on for the gesture, and its home. *)
Definition king_squares : list king_square :=
  None :: (rank ← [3; 4; 5; 6]%nat; file ← seq 0 8; [Some (rank, file)]).

End TimeSpec.


(** ** Vocabulary of the gestures made with one spare queen *)

Module QueenSpec.
Import PicoChess DecoderSpec.

(** The eight ranks of the board field, from rank 8 down to rank 1: every
    piece at home, and one spare queen (white or black) on the given
    rank (as on the board) and file (0 for the a-file). *)
Definition queen_rows (white : bool) (rank file : nat) : list string :=
  ["rnbqkbnr"; "pppppppp"]
  ++ map (fun r =>
            rank_field 0
              (map (fun f => if decide ((r, f) = (rank, file))
                             then (if white then "Q" else "q")
                             else ".")
                   (seq 0 8)))
         [6; 5; 4; 3]%nat
  ++ ["PPPPPPPP"; "RNBQKBNR"].

(** What one spare queen sets, square by square. On rank 3: the colour
    to play on the a-file, the orientation on the b- and c-files, Chess960
    on the d-file, and a book on the files e to h (the first four books for
    the white queen, the next four for the black queen, no book when the
    list is too short). On rank 4: the use of the board position (and, for
    the white queen, white to move) on the a-file, the side to move on the
    b- and c-files, and a time constraint on the files d to h. On rank 5:
    the difficulty, the file for the white queen and the file plus eight
    for the black queen. On rank 6: the engine of that number, or
    ['stockfish'] when the list is too short. *)
Definition queen_setting (books engines : list string) (white : bool) (rank file : nat)
    (settings : gmap string setting) : gmap string setting :=
  let number := (file + if white then 0 else 8)%nat in
  match rank with
  | 3%nat =>
      match file with
      | 0%nat => <["play_white" := SBool white]> settings
      | 1%nat => <["rotate180" := SBool false]> settings
      | 2%nat => <["rotate180" := SBool true]> settings
      | 3%nat => <["chess960" := SBool white]> settings
      | _ =>
          let book_offset := (file - 4 + if white then 0 else 4)%nat in
          <["book" := SStr (default "" (books !! book_offset))]> settings
      end
  | 4%nat =>
      match file with
      | 0%nat =>
          if white
          then <["side_to_move" := SStr "white"]>
                 (<["use_board_position" := SBool false]> settings)
          else <["use_board_position" := SBool true]> settings
      | 1%nat => <["side_to_move" := SStr "white"]> settings
      | 2%nat => <["side_to_move" := SStr "black"]> settings
      | 3%nat => <["time_constraint" := SStr "custom"]> settings
      | 4%nat => <["time_constraint" := SStr "unlimited"]> settings
      | 5%nat => <["time_constraint" := SStr "blitz"]> settings
      | 6%nat => <["time_constraint" := SStr "rapid"]> settings
      | _ => <["time_constraint" := SStr "classical"]> settings
      end
  | 5%nat => <["difficulty" := SInt (Z.of_nat number)]> settings
  | _ => <["engine" := SStr (default "stockfish" (engines !! number))]> settings
  end.

End QueenSpec.


(** ** Vocabulary of the start of a game *)

Module StartSpec.
Import PicoChess TimeSpec.

(** The start gesture on a board field: every piece at home, exactly two
    of ranks 6 to 3 written in three characters, and a queen of either
    colour on e5 and on e4 with nothing else on these ranks. *)
Definition start_gesture (board_state : string) : Prop :=
  let board_rows := split_on "/" board_state in
  static_rows board_rows = "rnbqkbnr/pppppppp/PPPPPPPP/RNBQKBNR"
  /\ length (filter (fun board_row => len board_row = 3)
               (slice board_rows (Some 2) (Some (- 2)))) = 2%nat
  /\ lower (join "/" (slice board_rows (Some 3) (Some 5))) = "4q3/4q3".

#[global] Instance start_gesture_dec (board_state : string) :
  Decision (start_gesture board_state).
Proof. unfold start_gesture. apply _. Defined.

(** The new game window polled once for each board and settings of
    [polls], in turn. *)
Definition new_game_polls (polls : list (string * option (gmap string setting)))
  : M pico_chess (list outcome) :=
  mapM_st (fun poll => new_game_window (fst poll) (snd poll)) polls.

(** The program is waiting to start the game: the start gesture was
    seen, and the command time is [since]. *)
Definition armed (p : pico_chess) (since : Z) : Prop :=
  start_game p = true /\ last_command_time p = since.

(** A clock that advances one second per reading. *)
Definition second_ticks (n : nat) : Z := 1000 * Z.of_nat n.

Definition start_board : string := "rnbqkbnr/pppppppp/8/4q3/4Q3/8/PPPPPPPP/RNBQKBNR".

End StartSpec.


(** ** Vocabulary of a session of the gesture protocol *)

Module SessionSpec.
Import PicoChess.

Section WithEngine.
Context `{E : RuleEngine}.

(** One call of [update]: the window that is shown, the board field read
    from the board, and the settings and the position of the game. *)
Record poll : Type := {
  window : string;
  board_state : string;
  settings : option (gmap string setting);
  virtual_board : option Board;
}.

(** The calls of [update] of a session, in turn; the session ends with
    the first call that raises. *)
Definition session (polls : list poll) : M pico_chess (list outcome) :=
  mapM_st (fun q => update (window q) (board_state q) (settings q) (virtual_board q))
          polls.

End WithEngine.

(** The outcome tells the main loop to start the game. *)
Definition starts (out : outcome) : Prop :=
  match out with
  | NewGame _ true => True
  | _ => False
  end.

(** The outcome tells the main loop to calibrate the board. *)
Definition calibrates (out : outcome) : Prop :=
  match out with
  | Home _ true => True
  | _ => False
  end.

(** [p'] has the pending start of [p], and has used up the calibration
    if [p] has. *)
Definition flags_kept (p p' : pico_chess) : Prop :=
  start_game p' = start_game p
  /\ (can_calibrate p = false -> can_calibrate p' = false).

(** A session on the new game window: the start gesture, then the board
    with the spare queens taken away, polled once per second. *)
Definition board_not_used : gmap string setting :=
  <["use_board_position" := SBool false]> ∅.

Definition start_session : list (poll (E := ToyEngine.toy)) :=
  {| window := "new game"; board_state := StartSpec.start_board;
     settings := Some board_not_used; virtual_board := None |}
  :: replicate 3 {| window := "new game"; board_state := GestureSpec.kings_home_board;
                    settings := Some board_not_used; virtual_board := None |}.

Definition start_outcomes : list outcome :=
  replicate 3 (NewGame (Some board_not_used) false)
  ++ [NewGame (Some board_not_used) true].

(** A session on the home window: the calibration gesture, left on the
    board for a second poll. *)
Definition calibration_polls : list (poll (E := ToyEngine.toy)) :=
  replicate 2 {| window := "home"; board_state := GestureSpec.calibration_board;
                 settings := None; virtual_board := None |}.

End SessionSpec.


(** ** [find_port]: the choice of the serial port *)

Module Ports.

(** [needle in hay] for two texts. *)
Fixpoint str_in (needle hay : string) : bool :=
  String.prefix needle hay
  || match hay with
     | EmptyString => false
     | String _ hay' => str_in needle hay'
     end.

(** The serial ports of the machine: [available device] tells whether
    [serial.Serial(device)] opens the port, and [opened] lists the devices
    that were tried, oldest first. *)
Record port_world : Type := {
  available : string -> bool;
  opened : list string;
}.

(** [test_availability(device, description)]: the port is opened, and
    closed again if that worked; a busy port raises
    [serial.SerialException], which is caught. *)
Definition test_availability (device description : string) : M port_world bool :=
  fun w => (Ok (available w device),
            {| available := available w; opened := opened w ++ [device] |}).

(** The loop over [comports()], each port a pair of a device and a
    description, and the statements after it; [None] is the value of a
    function that ends without [return]. *)
Fixpoint scan (strict : bool) (ports : list (string * string))
    (devices_wrong_description : list string) : M port_world (option string) :=
  match ports with
  | [] =>
      match devices_wrong_description with
      | device :: _ => ret (Some device)
      | [] => ret None
      end
  | (device, description) :: ports' =>
      if str_in "cp210" (lower description) then
        ok <- test_availability device description ;;
        if ok then ret (Some device)
        else scan strict ports' devices_wrong_description
      else if negb strict then
        if str_in "bluetooth" (lower device)
        then scan strict ports' devices_wrong_description
        else
          ok <- test_availability device description ;;
          if ok then scan strict ports' (devices_wrong_description ++ [device])
          else scan strict ports' devices_wrong_description
      else scan strict ports' devices_wrong_description
  end.

(** [find_port(strict)], given what [comports()] lists. *)
Definition find_port (strict : bool) (comports : list (string * string))
  : M port_world (option string) :=
  scan strict comports [].

End Ports.

(** ** Vocabulary of the choice of the port *)

Module PortSpec.
Import Ports.

(** The description names the CP210x driver. *)
Definition right_driver (port : string * string) : bool :=
  str_in "cp210" (lower (snd port)).

(** The device is a Bluetooth port. *)
Definition bluetooth (port : string * string) : bool :=
  str_in "bluetooth" (lower (fst port)).

(** A port with the right driver that opens. *)
Definition usable (w : port_world) (port : string * string) : bool :=
  right_driver port && available w (fst port).

(** A port without the right driver that is no Bluetooth port and opens. *)
Definition fallback (w : port_world) (port : string * string) : bool :=
  negb (right_driver port) && negb (bluetooth port) && available w (fst port).

(** The port that should be chosen: the first usable port; without one,
    nothing in strict mode and the first fallback port otherwise. *)
Definition choice (strict : bool) (w : port_world) (ports : list (string * string))
  : option string :=
  match find (usable w) ports with
  | Some port => Some (fst port)
  | None => if strict then None else fst <$> find (fallback w) ports
  end.

(** A machine on which only the listed devices open. *)
Definition only_open (devices : list string) : port_world :=
  {| available := fun device => bool_decide (device ∈ devices); opened := [] |}.

Definition sample_ports : list (string * string) :=
  [("COM1", "Communications Port");
   ("COM7", "Standard Serial over Bluetooth link");
   ("/dev/cu.Bluetooth-Incoming-Port", "n/a");
   ("COM3", "Silicon Labs CP210x USB to UART Bridge");
   ("COM4", "Silicon Labs CP210x USB to UART Bridge")].

End PortSpec.


(** ** [LedManager.highlight_misplaced_pieces] *)

(** What the method asks of [chess.Board] besides the rule engine: the
    piece on a square (squares are numbered from a1 = 0 along the ranks to
    h8 = 63), and the position that [chess.Board().set_board_fen(fen)]
    sets up, [None] when it raises [ValueError]. *)
Class BoardView `{E : RuleEngine} : Type := {
  Piece : Type;
  Piece_eq_dec :: EqDecision Piece;
  piece_at : Board -> Z -> option Piece;
  set_board_fen : string -> option Board;
}.

Module Misplaced.
Import LedManager.

(** [chess.SQUARE_NAMES]: ["a1"], ["b1"], ... ["h8"]. *)
Definition SQUARE_NAMES : list string :=
  flat_map (fun r => map (fun f => f +:+ r) COLUMNS_LETTERS) LedSpec.ranks.

(** The LED manager with the fields of the misplaced-piece check. *)
Record misplaced_world : Type := {
  leds : led_world;
  last_misplaced_comparison : option string;
  last_misplaced_message : option (list string);
  misplaced_wait_time : Q;
  misplaced_clock : option Q;
}.

Definition set_leds_world (v : led_world) (w : misplaced_world) : misplaced_world :=
  {| leds := v; last_misplaced_comparison := last_misplaced_comparison w;
     last_misplaced_message := last_misplaced_message w;
     misplaced_wait_time := misplaced_wait_time w;
     misplaced_clock := misplaced_clock w |}.

Definition record_comparison (comparison : string) (message : list string) (clock : Q)
    (w : misplaced_world) : misplaced_world :=
  {| leds := leds w; last_misplaced_comparison := Some comparison;
     last_misplaced_message := Some message;
     misplaced_wait_time := misplaced_wait_time w;
     misplaced_clock := Some clock |}.

(** The fields as [LedManager.__init__] sets them. *)
Definition init (w : led_world) : misplaced_world :=
  {| leds := w; last_misplaced_comparison := None; last_misplaced_message := None;
     misplaced_wait_time := 3; misplaced_clock := None |}.

Section WithBoards.
Context `{V : BoardView}.

(** [[chess.SQUARE_NAMES[square] for square in range(64)
      if virtual_board.piece_at(square) != temp_board.piece_at(square)]] *)
Definition differences (virtual_board temp_board : Board) : list string :=
  flat_map (fun square =>
              if decide (piece_at virtual_board square ≠ piece_at temp_board square)
              then match index SQUARE_NAMES square with
                   | Ok name => [name]
                   | Raise _ => []
                   end
              else [])
           (range 64).

(** [highlight_misplaced_pieces(physical_board_fen, virtual_board,
    rotate180)]: [Some true] for [True], [None] for the end of the method
    without [return]. *)
Definition highlight_misplaced_pieces (physical_board_fen : string)
    (virtual_board : Board) (rotate180 : bool) : M misplaced_world (option bool) :=
  let boards_fens := physical_board_fen +:+ fen virtual_board in
  w <- get ;;
  if decide (Some boards_fens = last_misplaced_comparison w) then
    now <- zoom leds set_leds_world time ;;
    match misplaced_clock w with
    | None => raise TypeError
    | Some clock =>
        if Qlt_le_dec (misplaced_wait_time w) (now - clock) then
          match last_misplaced_message w with
          | None => raise TypeError
          | Some message =>
              zoom leds set_leds_world (mgr_do (set_leds (MsgList message) rotate180)) ;;
              ret (Some true)
          end
        else ret None
    end
  else
    match set_board_fen physical_board_fen with
    | None => ret None
    | Some temp_board =>
        let diffs := differences virtual_board temp_board in
        match diffs with
        | [] => ret None
        | _ =>
            now <- zoom leds set_leds_world time ;;
            modify (record_comparison boards_fens diffs now) ;;
            ret None
        end
    end.

End WithBoards.

End Misplaced.

(** ** Vocabulary of the misplaced-piece check *)

Module MisplacedSpec.
Import LedManager Misplaced.

(** A board view on the toy engine: a position shows its moves as
    pieces, the move [k] of the stack on square [k]; a board field sets up
    the position with the one move that is its length, unless it is
    empty. *)
#[global] Instance toy_view : BoardView (E := ToyEngine.toy) :=
  {| Piece := Z;
     piece_at := fun (b : @Board ToyEngine.toy) square => (b : list Z) !! Z.to_nat square;
     set_board_fen := fun field => if decide (field = "") then None
                                   else Some ([len field] : @Board ToyEngine.toy) |}.

(** A wall clock that advances four seconds per reading. *)
Definition slow_clock (n : nat) : Q := inject_Z (4 * Z.of_nat n).

(** A fresh manager on the slow clock. *)
Definition slow_world : misplaced_world := init (LedSpec.fresh_world slow_clock).

End MisplacedSpec.


(** ** [_usbtool]: the way of a message to the board *)

Module UsbtoolWriter.

(** The part of the worker's state that the writing touches, with its
    surroundings: [connects n] tells whether the [n]-th attempt to open
    the port works, [write_fails n] whether the [n]-th write raises,
    [time_time n] is the [n]-th reading of [time.time()], and [wire] lists
    what was written to the port, oldest first. *)
Record writer : Type := {
  queue_to_usbtool : list (list Z);   (* QUEUE_TO_USBTOOL, oldest first *)
  message_to_board : list (list Z);   (* deque(maxlen=1) *)
  time_last_message_to_board : Q;
  buffer : Q;
  serial_ok : bool;
  connects : nat -> bool;
  connections_tried : nat;
  write_fails : nat -> bool;
  writes_tried : nat;
  wire : list (list Z);
  time_time : nat -> Q;
  time_reads : nat;
}.

(** "Try to (re)connect to board": the flag tells whether the turn goes
    on ([false] stands for [continue]). *)
Definition connect (st : writer) : writer * bool :=
  if serial_ok st then (st, true)
  else
    let connected := connects st (connections_tried st) in
    ({| queue_to_usbtool := queue_to_usbtool st;
        message_to_board := message_to_board st;
        time_last_message_to_board := time_last_message_to_board st;
        buffer := buffer st;
        serial_ok := connected;
        connects := connects st; connections_tried := S (connections_tried st);
        write_fails := write_fails st; writes_tried := writes_tried st;
        wire := wire st; time_time := time_time st; time_reads := time_reads st |},
     connected).

(** "Store message to board": one message is taken off the queue, if
    there is one, and appended to the deque. *)
Definition store_message (st : writer) : writer :=
  match queue_to_usbtool st with
  | [] => st
  | new_message :: rest =>
      {| queue_to_usbtool := rest;
         message_to_board :=
           UsbReader.deque_append 1 (message_to_board st) new_message;
         time_last_message_to_board := time_last_message_to_board st;
         buffer := buffer st; serial_ok := serial_ok st;
         connects := connects st; connections_tried := connections_tried st;
         write_fails := write_fails st; writes_tried := writes_tried st;
         wire := wire st; time_time := time_time st; time_reads := time_reads st |}
  end.

(** "Send message to board": the clock is read only when a message is
    held; a write that raises clears [serial_ok] after the message was
    popped, and ends the turn (the flag is [false], for [continue]). *)
Definition send_message (st : writer) : writer * bool :=
  match message_to_board st with
  | [] => (st, true)
  | first :: others =>
      let now := time_time st (time_reads st) in
      if Qlt_le_dec now (time_last_message_to_board st + buffer st) then
        ({| queue_to_usbtool := queue_to_usbtool st;
            message_to_board := message_to_board st;
            time_last_message_to_board := time_last_message_to_board st;
            buffer := buffer st; serial_ok := serial_ok st;
            connects := connects st; connections_tried := connections_tried st;
            write_fails := write_fails st; writes_tried := writes_tried st;
            wire := wire st; time_time := time_time st;
            time_reads := S (time_reads st) |}, true)
      else
        let data := List.last others first in
        let held := removelast (first :: others) in
        if write_fails st (writes_tried st) then
          ({| queue_to_usbtool := queue_to_usbtool st;
              message_to_board := held;
              time_last_message_to_board := time_last_message_to_board st;
              buffer := buffer st; serial_ok := false;
              connects := connects st; connections_tried := connections_tried st;
              write_fails := write_fails st; writes_tried := S (writes_tried st);
              wire := wire st; time_time := time_time st;
              time_reads := S (time_reads st) |}, false)
        else
          ({| queue_to_usbtool := queue_to_usbtool st;
              message_to_board := held;
              time_last_message_to_board := time_time st (S (time_reads st));
              buffer := buffer st; serial_ok := serial_ok st;
              connects := connects st; connections_tried := connections_tried st;
              write_fails := write_fails st; writes_tried := S (writes_tried st);
              wire := wire st ++ [data]; time_time := time_time st;
              time_reads := S (S (time_reads st)) |}, true)
  end.

(** One turn of the loop up to the reading of the messages from the
    board; the flag tells whether the reading is reached. *)
Definition write_pass (st : writer) : writer * bool :=
  let '(st', goes_on) := connect st in
  if goes_on then send_message (store_message st') else (st', false).

Definition set_serial_ok (ok : bool) (st : writer) : writer :=
  {| queue_to_usbtool := queue_to_usbtool st;
     message_to_board := message_to_board st;
     time_last_message_to_board := time_last_message_to_board st;
     buffer := buffer st; serial_ok := ok;
     connects := connects st; connections_tried := connections_tried st;
     write_fails := write_fails st; writes_tried := writes_tried st;
     wire := wire st; time_time := time_time st; time_reads := time_reads st |}.

(** The worker: the writing, the line that is being read and the frames
    passed on; [waiting n] is what the port holds when the reading is
    reached for the [n]-th time. *)
Record worker : Type := {
  writing : writer;
  message_from_board : string;
  queue_from_usbtool : list string;
  waiting : nat -> list ascii;
  readings : nat;
}.

(** "Read messages from board", by the read loop of [Usbtool]: a
    character that does not decode clears [serial_ok]. *)
Definition read_part (w : writer) (st : worker) : worker :=
  let u := Usbtool.read_messages
             {| Usbtool.serial_ok := serial_ok w;
                Usbtool.message_from_board := message_from_board st;
                Usbtool.input_buffer := waiting st (readings st);
                Usbtool.queue_from_usbtool := queue_from_usbtool st |} in
  {| writing := set_serial_ok (Usbtool.serial_ok u) w;
     message_from_board := Usbtool.message_from_board u;
     queue_from_usbtool := Usbtool.queue_from_usbtool u;
     waiting := waiting st; readings := S (readings st) |}.

(** One turn of the [while True] loop. *)
Definition turn (st : worker) : worker :=
  let '(w, goes_on) := write_pass (writing st) in
  if goes_on then read_part w st
  else {| writing := w; message_from_board := message_from_board st;
          queue_from_usbtool := queue_from_usbtool st;
          waiting := waiting st; readings := readings st |}.

(** [n] turns of the loop. *)
Fixpoint turns (n : nat) (st : worker) : worker :=
  match n with
  | O => st
  | S n' => turns n' (turn st)
  end.

End UsbtoolWriter.

(** ** Vocabulary of the writing *)

Module WriterSpec.
Import UsbtoolWriter.

(** A connected worker that holds no message, with the given queue and
    clock, a buffer of 750 ms, a port that never fails, and the start of a
    line waiting at each reading. *)
Definition connected (queue : list (list Z)) (clock : nat -> Q) : worker :=
  {| writing :=
       {| queue_to_usbtool := queue; message_to_board := [];
          time_last_message_to_board := 0; buffer := 750 # 1000;
          serial_ok := true; connects := fun _ => true; connections_tried := 1;
          write_fails := fun _ => false; writes_tried := 0; wire := [];
          time_time := clock; time_reads := 0 |};
     message_from_board := ""; queue_from_usbtool := [];
     waiting := fun _ => [":"; "1"; " "]%char; readings := 0 |}.

(** Every character decodes on its own. *)
Definition decodes (waiting : list ascii) : Prop :=
  Forall (fun c => code c < 128) waiting.

(** A clock that reads a quarter of a second more each time. *)
Definition quarter_clock (n : nat) : Q := inject_Z (Z.of_nat n) / 4.

End WriterSpec.


(** ** Vocabulary of the calibration gesture *)

Module HomeSpec.
Import PicoChess DecoderSpec.

(** A character of a board field: a digit of a run or a piece letter. *)
Definition field_char (c : ascii) : Prop :=
  is_decimal c = true \/ String c "" ∈ UsbReader.code_mapping_order.

(** No square of the rank is empty. *)
Definition full_rank (rank : list string) : Prop := "." ∉ rank.

(** Every square of the rank is empty. *)
Definition empty_rank (rank : list string) : Prop := rank = replicate 8 ".".

(** The rank holds one piece, on the d-file. *)
Definition piece_on_d_only (rank : list string) : Prop :=
  exists piece, piece <> "." /\ rank = ["."; "."; "."; piece; "."; "."; "."; "."].

(** The calibration gesture on a board of 64 squares, given from a8 to
    h1: ranks 8, 7, 2 and 1 are full (of whatever pieces), ranks 5 and 4
    are empty, and ranks 6 and 3 hold one piece each, on d6 and on d3. *)
Definition calibration_gesture (board : list string) : Prop :=
  match ranks_of 8 board with
  | [rank8; rank7; rank6; rank5; rank4; rank3; rank2; rank1] =>
      full_rank rank8 /\ full_rank rank7 /\ full_rank rank2 /\ full_rank rank1
      /\ empty_rank rank5 /\ empty_rank rank4
      /\ piece_on_d_only rank6 /\ piece_on_d_only rank3
  | _ => False
  end.

(** The board of the sample calibration: the starting position with the
    spare queens on d6 and d3. *)
Definition gesture_squares : list string :=
  expand (chars "rnbqkbnrpppppppp3q4883Q4PPPPPPPPRNBQKBNR").

End HomeSpec.


(** * Properties *)

(** ** Python sequences *)

Lemma index_lookup {A : Type} (l : list A) (n : nat) (x : A) :
  l !! n = Some x -> index l (Z.of_nat n) = Ok x.
Proof.
  intros H. unfold index.
  pose proof (lookup_lt_Some _ _ _ H) as Hlt.
  destruct (Z.of_nat n <? 0) eqn:Hneg; [lia|].
  destruct (Z.of_nat n <? 0) eqn:Hneg'; [lia|].
  destruct (Z.of_nat (length l) <=? Z.of_nat n) eqn:Hge; [lia|].
  simpl. rewrite Nat2Z.id, H. reflexivity.
Qed.

Lemma set_item_insert {A : Type} (l : list A) (n : nat) (x : A) :
  (n < length l)%nat -> set_item l (Z.of_nat n) x = Ok (<[n := x]> l).
Proof.
  intros Hlt. unfold set_item.
  destruct (Z.of_nat n <? 0) eqn:Hneg; [lia|].
  destruct (Z.of_nat n <? 0) eqn:Hneg'; [lia|].
  destruct (Z.of_nat (length l) <=? Z.of_nat n) eqn:Hge; [lia|].
  simpl. rewrite Nat2Z.id. reflexivity.
Qed.

Lemma foldM_single {A B : Type} (f : B -> A -> result B) (acc : B) (x : A) :
  foldM f acc [x] = f acc x.
Proof. simpl. destruct (f acc x); reflexivity. Qed.

(** ** The LED encoder *)

Section LedEncoder.
Import LedManager LedSpec.

Lemma algebraic_cases (P : string -> Prop) :
  Forall P all_squares -> forall sq, algebraic sq -> P sq.
Proof. intros H sq Hsq. rewrite Forall_forall in H. apply H, Hsq. Qed.

(** On an algebraic square the code computes the LED of [led_cell]. *)
Lemma square2certabo_cell (rotate180 : bool) (sq : string) :
  algebraic sq ->
  _square2certabo sq rotate180
    = Ok (fst (led_cell rotate180 sq), 2 ^ snd (led_cell rotate180 sq))
  /\ 0 <= fst (led_cell rotate180 sq) < 8
  /\ 0 <= snd (led_cell rotate180 sq) < 8
  /\ square_at rotate180 (led_cell rotate180 sq) = sq.
Proof.
  revert sq. apply algebraic_cases.
  destruct rotate180; repeat constructor; vm_compute; congruence.
Qed.

Lemma led_cell_inj (rotate180 : bool) (a b : string) :
  algebraic a -> algebraic b ->
  led_cell rotate180 a = led_cell rotate180 b -> a = b.
Proof.
  intros Ha Hb Heq.
  destruct (square2certabo_cell rotate180 a Ha) as (_ & _ & _ & <-).
  destruct (square2certabo_cell rotate180 b Hb) as (_ & _ & _ & <-).
  rewrite Heq. reflexivity.
Qed.

(** Adding a power of two whose bit is clear sets that bit only. *)
Lemma testbit_add_pow2 (v c k : Z) :
  0 <= v -> 0 <= c -> 0 <= k -> Z.testbit v c = false ->
  Z.testbit (v + 2 ^ c) k = Z.testbit v k || (k =? c).
Proof.
  intros Hv Hc Hk Hclear.
  assert (Hland : Z.land v (2 ^ c) = 0).
  { apply Z.bits_inj'. intros n Hn.
    rewrite Z.land_spec, Z.bits_0, Z.pow2_bits_eqb by lia.
    destruct (Z.eqb_spec c n) as [->|]; [rewrite Hclear|]; auto using andb_false_r. }
  rewrite Z.add_nocarry_lxor, Z.lxor_lor, Z.lor_spec, Z.pow2_bits_eqb by auto.
  f_equal. rewrite Z.eqb_sym. reflexivity.
Qed.

Lemma below_256 (v : Z) :
  0 <= v -> (forall c, 8 <= c -> Z.testbit v c = false) -> v <= 255.
Proof.
  intros Hv Hbits.
  destruct (Z_lt_ge_dec v 256) as [|Hge]; [lia|].
  assert (Hpos : 0 < v) by lia.
  pose proof (Z.bit_log2 v Hpos) as Hset.
  assert (8 <= Z.log2 v) by (apply Z.log2_le_pow2; [lia | change (2 ^ 8) with 256; lia]).
  rewrite Hbits in Hset by assumption. discriminate.
Qed.

Lemma lit_nothing (rotate180 : bool) : lit rotate180 [] (replicate 8 0).
Proof.
  split; [reflexivity|]. intros r v Hr.
  apply lookup_replicate in Hr as [-> _]. split; [lia|].
  intros c Hc. rewrite Z.bits_0. split; [discriminate|].
  intros (_ & sq & Hsq & _). inversion Hsq.
Qed.

Lemma light_step (rotate180 : bool) (done : list string) (leds : list Z) (sq : string) :
  lit rotate180 done leds -> Forall algebraic done -> algebraic sq -> sq ∉ done ->
  exists leds', light rotate180 leds sq = Ok leds' /\ lit rotate180 (sq :: done) leds'.
Proof.
  intros [Hlen Hinv] Hdone Hsq Hnew.
  destruct (square2certabo_cell rotate180 sq Hsq) as (Hcode & Hrow & Hcol & _).
  destruct (led_cell rotate180 sq) as [row col] eqn:Hcell. simpl in *.
  set (n := Z.to_nat row).
  assert (Hn : row = Z.of_nat n) by (unfold n; lia).
  assert (Hlt : (n < length leds)%nat) by (unfold n; lia).
  destruct (lookup_lt_is_Some_2 leds n Hlt) as [v Hv].
  destruct (Hinv n v Hv) as [Hv0 Hbits].
  assert (Hclear : Z.testbit v col = false).
  { destruct (Z.testbit v col) eqn:Hb; [|reflexivity].
    apply Hbits in Hb as (_ & sq' & Hin & Hcell'); [|lia].
    exfalso. apply Hnew.
    rewrite Forall_forall in Hdone.
    rewrite <- (led_cell_inj rotate180 sq' sq); auto.
    rewrite Hcell, Hcell', Hn. reflexivity. }
  exists (<[n := v + 2 ^ col]> leds). split.
  - unfold light. rewrite Hcode. simpl. rewrite Hn.
    rewrite (index_lookup _ _ _ Hv). simpl. apply set_item_insert, Hlt.
  - split; [rewrite length_insert; exact Hlen|].
    intros r w Hr. destruct (decide (r = n)) as [->|Hne].
    + rewrite list_lookup_insert_eq in Hr by exact Hlt. injection Hr as <-.
      split; [pose proof (Z.pow_nonneg 2 col); lia|].
      intros c Hc. rewrite testbit_add_pow2 by (auto; lia).
      rewrite orb_true_iff, (Hbits c Hc), Z.eqb_eq. split.
      * intros [(Hc8 & sq' & Hin & Hcell')| ->].
        -- split; [exact Hc8|]. exists sq'. split; [right; exact Hin | exact Hcell'].
        -- split; [lia|]. exists sq. split; [left | rewrite Hcell, Hn]; reflexivity.
      * intros (Hc8 & sq' & Hin & Hcell').
        apply elem_of_cons in Hin as [->|Hin].
        -- right. rewrite Hcell in Hcell'. congruence.
        -- left. eauto.
    + rewrite list_lookup_insert_ne in Hr by auto.
      destruct (Hinv r w Hr) as [Hw0 Hw]. split; [exact Hw0|].
      intros c Hc. rewrite (Hw c Hc). split.
      * intros (Hc8 & sq' & Hin & Hcell'). split; [exact Hc8|].
        exists sq'. split; [right; exact Hin | exact Hcell'].
      * intros (Hc8 & sq' & Hin & Hcell'). split; [exact Hc8|].
        apply elem_of_cons in Hin as [->|Hin]; [|eauto].
        rewrite Hcell in Hcell'. exfalso. apply Hne.
        injection Hcell' as Hrn _. lia.
Qed.

Lemma light_loop (rotate180 : bool) (sqs done : list string) (leds : list Z) :
  lit rotate180 done leds -> Forall algebraic done ->
  Forall algebraic sqs -> NoDup (sqs ++ done) ->
  exists leds', foldM (light rotate180) leds sqs = Ok leds'
                /\ lit rotate180 (rev sqs ++ done) leds'.
Proof.
  revert done leds. induction sqs as [|sq sqs IH]; intros done leds Hlit Hdone Hsqs Hnd.
  - exists leds. split; [reflexivity | exact Hlit].
  - apply Forall_cons in Hsqs as [Hsq Hsqs].
    simpl in Hnd. apply NoDup_cons in Hnd as [Hnotin Hnd].
    destruct (light_step rotate180 done leds sq Hlit Hdone Hsq) as (leds1 & Hstep & Hlit1).
    { intros Hin. apply Hnotin, elem_of_app. right. exact Hin. }
    destruct (IH (sq :: done) leds1 Hlit1) as (leds' & Hfold & Hlit').
    + apply Forall_cons. split; assumption.
    + exact Hsqs.
    + apply NoDup_app. apply NoDup_app in Hnd as (Hnd1 & Hdisj & Hnd2).
      split; [exact Hnd1|]. split.
      * intros x Hx Hx'. apply elem_of_cons in Hx' as [->|Hx'].
        -- apply Hnotin, elem_of_app. left. exact Hx.
        -- exact (Hdisj x Hx Hx').
      * apply NoDup_cons. split; [|exact Hnd2].
        intros Hin. apply Hnotin, elem_of_app. right. exact Hin.
    + exists leds'. split.
      * simpl. rewrite Hstep. exact Hfold.
      * simpl. rewrite <- app_assoc. exact Hlit'.
Qed.

(** A loop over distinct algebraic squares yields the frame that lights
    them, whatever the order in which it meets them. *)
Lemma light_all (rotate180 : bool) (sqs requested : list string) :
  NoDup sqs -> Forall algebraic sqs -> (forall sq, sq ∈ sqs <-> sq ∈ requested) ->
  exists frame, foldM (light rotate180) (replicate 8 0) sqs = Ok frame
                /\ lights rotate180 requested frame.
Proof.
  intros Hnd Halg Hsame.
  destruct (light_loop rotate180 sqs [] (replicate 8 0)) as (frame & Hfold & Hlen & Hinv).
  - apply lit_nothing.
  - constructor.
  - exact Halg.
  - rewrite app_nil_r. exact Hnd.
  - exists frame. split; [exact Hfold|].
    assert (Hmem : forall sq, sq ∈ rev sqs ++ [] <-> sq ∈ requested).
    { intros sq. rewrite app_nil_r, <- Hsame, !list_elem_of_In. symmetry. apply in_rev. }
    split; [exact Hlen|]. split.
    + apply Forall_forall. intros v Hv.
      apply list_elem_of_lookup in Hv as [r Hr].
      destruct (Hinv r v Hr) as [Hv0 Hbits]. split; [exact Hv0|].
      apply below_256; [exact Hv0|]. intros c Hc.
      destruct (Z.testbit v c) eqn:Hb; [|reflexivity].
      apply Hbits in Hb; lia.
    + intros r c v Hc Hr. destruct (Hinv r v Hr) as [_ Hbits].
      rewrite (Hbits c) by lia. split.
      * intros (_ & sq & Hin & Hcell). exists sq. split; [apply Hmem, Hin | exact Hcell].
      * intros (sq & Hin & Hcell). split; [lia|].
        exists sq. split; [apply Hmem, Hin | exact Hcell].
Qed.

End LedEncoder.

Section LedManagerFacts.
Import LedManager LedSpec.

Lemma init_table :
  exists m0, __init__ = Ok m0
             /\ last_message m0 = None
             /\ queue_to_usbtool m0 = []
             /\ (forall name, default_messages m0 !! name = named_pattern name)
             /\ last_flash_message m0 = None.
Proof.
  unfold __init__.
  assert (H1 : squares2led (MsgList ["a1"; "a8"; "h1"; "h8"]) false
               = Ok [129; 0; 0; 0; 0; 0; 0; 129]) by (vm_compute; reflexivity).
  assert (H2 : squares2led (MsgList ["d4"; "e4"; "d5"; "e5"]) false
               = Ok [0; 0; 0; 24; 24; 0; 0; 0]) by (vm_compute; reflexivity).
  rewrite H1, H2. simpl. eexists. split; [reflexivity|]. simpl.
  split; [reflexivity|]. split; [reflexivity|]. split; [|reflexivity].
  intros name. unfold named_pattern.
  repeat (rewrite lookup_insert; destruct (decide (_ = name)) as [<-|];
          [reflexivity | destruct (decide (name = _)); [congruence|]]).
  apply lookup_empty.
Qed.

Lemma table_lookup (m : led_manager) (name : string) :
  table_of_init m -> default_messages m !! name = named_pattern name.
Proof.
  intros (m0 & H0 & ->). destruct init_table as (m0' & H0' & _ & _ & Htab & _).
  rewrite H0 in H0'. injection H0' as <-. apply Htab.
Qed.

Lemma named_pattern_frame (name : string) (frame : list Z) :
  named_pattern name = Some frame ->
  length frame = 8%nat /\ Forall (fun v => 0 <= v <= 255) frame.
Proof.
  unfold named_pattern. intros H.
  repeat (destruct (decide _) in H;
          [injection H as <-; split; [reflexivity | repeat constructor; lia]|]).
  discriminate.
Qed.

Lemma bytes_in_range (frame : list Z) :
  Forall (fun v => 0 <= v <= 255) frame -> bytes frame = Ok frame.
Proof.
  intros H. unfold bytes.
  replace (forallb _ frame) with true; [reflexivity|].
  symmetry. apply forallb_forall. intros v Hv.
  rewrite Forall_forall in H. apply list_elem_of_In in Hv. apply H in Hv. lia.
Qed.

Lemma set_leds_unfold (msg : message) (rotate180 : bool) (m : led_manager) :
  set_leds msg rotate180 m
  = if decide (Some msg ≠ last_message m)
    then match encode m msg rotate180 with
         | Ok frame => (Ok tt, put frame (set_last_message (Some msg) m))
         | Raise e => (Raise e, set_last_message (Some msg) m)
         end
    else (Ok tt, m).
Proof.
  unfold set_leds, encode, mbind, get, modify, try_except, lift, ret. simpl.
  destruct (decide (Some msg ≠ last_message m)); [|reflexivity].
  destruct (lookup_default m msg) as [f|e]; simpl.
  - destruct (bytes f); reflexivity.
  - destruct (handles_key_type e); [|reflexivity].
    destruct (squares2led msg rotate180) as [f|e']; [|reflexivity].
    simpl. destruct (bytes f); reflexivity.
Qed.

(** No algebraic square and no move text is the name of a pattern. *)
Lemma algebraic_shape (sq : string) :
  algebraic sq ->
  exists f r, sq = String f (String r "") /\ 97 <= code f <= 104.
Proof.
  revert sq. apply algebraic_cases.
  repeat constructor; (do 2 eexists; split; [reflexivity | vm_compute; split; discriminate]).
Qed.

Lemma square_not_named (sq rest : string) :
  algebraic sq -> rest = "" \/ algebraic rest -> named_pattern (sq +:+ rest) = None.
Proof.
  intros Hsq Hrest. destruct (algebraic_shape sq Hsq) as (f & r & -> & Hf).
  assert (Hrest' : rest = "" \/ exists f' r', rest = String f' (String r' "")).
  { destruct Hrest as [->|H]; [left; reflexivity|].
    right. destruct (algebraic_shape rest H) as (f' & r' & -> & _). eauto. }
  unfold named_pattern.
  repeat (destruct (decide _) as [Heq|_];
          [exfalso; simpl in Heq;
           destruct Hrest' as [->|(f' & r' & ->)]; simpl in Heq;
           try discriminate Heq;
           injection Heq as -> _; vm_compute in Hf; destruct Hf as [H1 H2];
           try (apply H1; reflexivity); try (apply H2; reflexivity)|]).
  reflexivity.
Qed.

Lemma squares2led_list (rotate180 : bool) (l : list string) :
  Forall algebraic l ->
  exists frame, squares2led (MsgList l) rotate180 = Ok frame /\ lights rotate180 l frame.
Proof.
  intros Halg. unfold squares2led.
  destruct (Z.eqb_spec (Z.of_nat (length l)) 1) as [Hone|Hmany].
  - destruct l as [|sq [|? ?]]; simpl in Hone; try lia.
    simpl. rewrite <- foldM_single.
    apply (light_all rotate180 [sq] [sq]); auto.
    apply NoDup_singleton.
  - apply light_all.
    + apply NoDup_elements.
    + apply Forall_forall. intros sq Hsq.
      apply elem_of_elements, elem_of_list_to_set in Hsq.
      rewrite Forall_forall in Halg. auto.
    + intros sq. rewrite elem_of_elements, elem_of_list_to_set. reflexivity.
Qed.

Lemma squares2led_square (rotate180 : bool) (sq : string) :
  algebraic sq ->
  exists frame, squares2led (MsgStr sq) rotate180 = Ok frame /\ lights rotate180 [sq] frame.
Proof.
  intros Hsq. destruct (algebraic_shape sq Hsq) as (f & r & Heq & _).
  unfold squares2led.
  replace (len sq <? 4) with true by (subst; reflexivity).
  rewrite <- foldM_single.
  apply (light_all rotate180 [sq] [sq]); auto.
  apply NoDup_singleton.
Qed.

Lemma squares2led_move (rotate180 : bool) (a b : string) :
  algebraic a -> algebraic b -> a <> b ->
  exists frame, squares2led (MsgStr (a +:+ b)) rotate180 = Ok frame
                /\ lights rotate180 [a; b] frame.
Proof.
  intros Ha Hb Hne.
  destruct (algebraic_shape a Ha) as (f & r & Heqa & _).
  destruct (algebraic_shape b Hb) as (f' & r' & Heqb & _).
  unfold squares2led.
  replace (len (a +:+ b) <? 4) with false by (subst; reflexivity).
  replace (str_slice (a +:+ b) (Some 0) (Some 2)) with a by (subst; reflexivity).
  replace (str_slice (a +:+ b) (Some 2) (Some 4)) with b by (subst; reflexivity).
  apply light_all; auto.
  apply NoDup_cons. split; [|apply NoDup_singleton].
  intros Hin. apply list_elem_of_singleton in Hin. contradiction.
Qed.

Lemma encode_list (m : led_manager) (l : list string) (rotate180 : bool) :
  encode m (MsgList l) rotate180 = Py.bind (squares2led (MsgList l) rotate180) bytes.
Proof. reflexivity. Qed.

Lemma encode_text (m : led_manager) (s : string) (rotate180 : bool) :
  encode m (MsgStr s) rotate180
  = match default_messages m !! s with
    | Some frame => bytes frame
    | None => Py.bind (squares2led (MsgStr s) rotate180) bytes
    end.
Proof. unfold encode, lookup_default. destruct (default_messages m !! s); reflexivity. Qed.

(** What [set_leds] queues for each kind of request. *)
Lemma set_leds_request (m : led_manager) (rotate180 : bool) (msg : message)
    (sqs : option (list string)) :
  table_of_init m -> request msg sqs -> last_message m <> Some msg ->
  exists frame,
    sends m msg rotate180 frame
    /\ length frame = 8%nat
    /\ Forall (fun v => 0 <= v <= 255) frame
    /\ forall l, sqs = Some l -> lights rotate180 l frame.
Proof.
  intros Htab Hreq Hnew. unfold sends. rewrite set_leds_unfold.
  destruct (decide (Some msg ≠ last_message m)) as [_|Hsame]; [|exfalso; apply Hsame; congruence].
  destruct Hreq as [name [frame Hname] | l Halg | sq Hsq | a b Ha Hb Hne].
  - rewrite encode_text, (table_lookup m name Htab), Hname.
    destruct (named_pattern_frame name frame Hname) as [Hlen Hrange].
    rewrite (bytes_in_range frame Hrange). exists frame.
    split; [reflexivity|]. split; [exact Hlen|]. split; [exact Hrange|]. discriminate.
  - rewrite encode_list.
    destruct (squares2led_list rotate180 l Halg) as (frame & -> & Hl).
    pose proof Hl as (Hlen & Hrange & _). simpl.
    rewrite (bytes_in_range frame Hrange). exists frame.
    split; [reflexivity|]. split; [exact Hlen|]. split; [exact Hrange|].
    intros l' [= <-]. exact Hl.
  - rewrite encode_text, (table_lookup m sq Htab).
    replace (named_pattern sq) with (named_pattern (sq +:+ ""))
      by (destruct (algebraic_shape sq Hsq) as (f & r & -> & _); reflexivity).
    rewrite (square_not_named sq "" Hsq) by (left; reflexivity).
    destruct (squares2led_square rotate180 sq Hsq) as (frame & -> & Hl).
    pose proof Hl as (Hlen & Hrange & _). simpl.
    rewrite (bytes_in_range frame Hrange). exists frame.
    split; [reflexivity|]. split; [exact Hlen|]. split; [exact Hrange|].
    intros l' [= <-]. exact Hl.
  - rewrite encode_text, (table_lookup m _ Htab).
    rewrite (square_not_named a b Ha) by (right; exact Hb).
    destruct (squares2led_move rotate180 a b Ha Hb Hne) as (frame & -> & Hl).
    pose proof Hl as (Hlen & Hrange & _). simpl.
    rewrite (bytes_in_range frame Hrange). exists frame.
    split; [reflexivity|]. split; [exact Hlen|]. split; [exact Hrange|].
    intros l' [= <-]. exact Hl.
Qed.

End LedManagerFacts.

Section LedClaims.
Import LedManager LedSpec.

Lemma fresh_manager_init : __init__ = Ok fresh_manager.
Proof.
  unfold fresh_manager. destruct init_table as (m0 & -> & _). reflexivity.
Qed.

Lemma fresh_manager_table : table_of_init fresh_manager.
Proof. exists fresh_manager. split; [exact fresh_manager_init | reflexivity]. Qed.

Lemma fresh_manager_last_message : last_message fresh_manager = None.
Proof.
  unfold fresh_manager. destruct init_table as (m0 & -> & Hlast & _). exact Hlast.
Qed.

(** A list holding exactly the four corners is not a one-item list, so it
    is walked as a set. *)
Lemma corners_as_set (l : list string) (rotate180 : bool) :
  list_to_set l = corner_squares ->
  squares2led (MsgList l) rotate180 = Ok [129; 0; 0; 0; 0; 0; 0; 129].
Proof.
  intros Hset. unfold squares2led.
  destruct (Z.eqb_spec (Z.of_nat (length l)) 1) as [Hone|_].
  - destruct l as [|sq [|? ?]]; simpl in Hone; try lia.
    exfalso. assert (Hin : "a1" ∈ corner_squares ∧ "a8" ∈ corner_squares).
    { split; apply (bool_decide_unpack _); vm_compute; exact I. }
    rewrite <- Hset in Hin. destruct Hin as [H1 H8].
    apply elem_of_list_to_set, list_elem_of_singleton in H1.
    apply elem_of_list_to_set, list_elem_of_singleton in H8.
    congruence.
  - rewrite Hset. destruct rotate180; vm_compute; reflexivity.
Qed.




Lemma e2_algebraic : algebraic "e2".
Proof. apply (bool_decide_unpack _). vm_compute. exact I. Qed.

Lemma e4_algebraic : algebraic "e4".
Proof. apply (bool_decide_unpack _). vm_compute. exact I. Qed.



(** A move text that names one square twice is no move. The text path
    adds the column weights of its two squares without the deduplication
    of the list path: for ["e2e2"] the frame lights f2 (bit 5 of row 6)
    and not e2 (bit 4), and for ["h1h1"] the value 256 is computed, which
    is no byte. *)
Example move_text_same_square_twice :
  sends fresh_manager (MsgStr "e2e2") false [0; 0; 0; 0; 0; 0; 32; 0]
  /\ ~ lights false ["e2"; "e2"] [0; 0; 0; 0; 0; 0; 32; 0]
  /\ squares2led (MsgStr "h1h1") false = Ok [0; 0; 0; 0; 0; 0; 0; 256].
Proof.
  split; [|split].
  - unfold sends. rewrite set_leds_unfold.
    destruct (decide _) as [_|Hsame].
    + assert (He : encode fresh_manager (MsgStr "e2e2") false
                   = Ok [0; 0; 0; 0; 0; 0; 32; 0]).
      { rewrite encode_text, (table_lookup _ _ fresh_manager_table). reflexivity. }
      rewrite He. reflexivity.
    + exfalso. apply Hsame. rewrite fresh_manager_last_message. discriminate.
  - intros (_ & _ & Hbits).
    specialize (Hbits 6%nat 4 32 ltac:(lia) eq_refl).
    assert (Hset : Z.testbit 32 4 = true).
    { apply Hbits. exists "e2". split; [left | reflexivity]. }
    discriminate Hset.
  - reflexivity.
Qed.

(** C7: a list holding exactly the squares a1, a8, h1 and h8 yields the
    frame of the named pattern ["corners"], in either orientation; and of
    two calls of [set_leds] in a row with the same message the second does
    nothing, so that together they queue exactly one frame when the first
    is a new request that is accepted (and none otherwise). *)
Theorem corners_and_repeated_request (m : led_manager) (l : list string)
    (msg : message) (rotate180 rotate180' : bool) :
  table_of_init m -> list_to_set l = corner_squares ->
  (exists frame,
     default_messages m !! "corners" = Some frame
     /\ squares2led (MsgList l) rotate180 = Ok frame
     /\ (last_message m <> Some (MsgList l) -> sends m (MsgList l) rotate180 frame)
     /\ (last_message m <> Some (MsgStr "corners") ->
         sends m (MsgStr "corners") rotate180' frame))
  /\ let first := set_leds msg rotate180 m in
     let second := set_leds msg rotate180' (snd first) in
     second = (Ok tt, snd first)
     /\ (last_message m <> Some msg -> fst first = Ok tt ->
         exists frame,
           queue_to_usbtool (snd second) = queue_to_usbtool m ++ [frame])
     /\ (last_message m = Some msg \/ fst first <> Ok tt ->
         queue_to_usbtool (snd second) = queue_to_usbtool m).
Proof.
  intros Htab Hset. split.
  - exists [129; 0; 0; 0; 0; 0; 0; 129].
    assert (Hrange : Forall (fun v => 0 <= v <= 255) [129; 0; 0; 0; 0; 0; 0; 129])
      by (repeat constructor; lia).
    split; [rewrite (table_lookup m _ Htab); reflexivity|].
    split; [apply corners_as_set, Hset|]. split.
    + intros Hnew. unfold sends. rewrite set_leds_unfold.
      destruct (decide _) as [_|Hsame]; [|exfalso; apply Hsame; congruence].
      rewrite encode_list, (corners_as_set l rotate180 Hset). reflexivity.
    + intros Hnew. unfold sends. rewrite set_leds_unfold.
      destruct (decide _) as [_|Hsame]; [|exfalso; apply Hsame; congruence].
      rewrite encode_text, (table_lookup m _ Htab). reflexivity.
  - cbv zeta.
    assert (Hlast : last_message (snd (set_leds msg rotate180 m)) = Some msg).
    { rewrite set_leds_unfold. destruct (decide _) as [Hnew|Hsame].
      - destruct (encode m msg rotate180); reflexivity.
      - simpl. destruct (decide (Some msg = last_message m)); [congruence | contradiction]. }
    assert (Hsecond : set_leds msg rotate180' (snd (set_leds msg rotate180 m))
                      = (Ok tt, snd (set_leds msg rotate180 m))).
    { rewrite (set_leds_unfold msg rotate180').
      destruct (decide _) as [Hnew|_]; [|reflexivity].
      exfalso. apply Hnew. rewrite Hlast. reflexivity. }
    split; [exact Hsecond|]. rewrite Hsecond. simpl.
    rewrite set_leds_unfold. split.
    + intros Hnew Hok.
      destruct (decide _) as [_|Hsame]; [|exfalso; apply Hsame; congruence].
      destruct (encode m msg rotate180) as [frame|e]; [|discriminate Hok].
      exists frame. reflexivity.
    + intros Hcase. destruct (decide _) as [Hnew|_]; [|reflexivity].
      destruct (encode m msg rotate180) as [frame|e]; [|reflexivity].
      exfalso. destruct Hcase as [Hsame|Hfail]; [congruence|].
      apply Hfail. reflexivity.
Qed.

Lemma corners_and_repeated_request_witness :
  (exists frame,
     default_messages fresh_manager !! "corners" = Some frame
     /\ squares2led (MsgList ["h8"; "a1"; "h1"; "a8"; "a1"]) true = Ok frame
     /\ (last_message fresh_manager <> Some (MsgList ["h8"; "a1"; "h1"; "a8"; "a1"]) ->
         sends fresh_manager (MsgList ["h8"; "a1"; "h1"; "a8"; "a1"]) true frame)
     /\ (last_message fresh_manager <> Some (MsgStr "corners") ->
         sends fresh_manager (MsgStr "corners") false frame))
  /\ let first := set_leds (MsgStr "corners") true fresh_manager in
     let second := set_leds (MsgStr "corners") false (snd first) in
     second = (Ok tt, snd first)
     /\ (last_message fresh_manager <> Some (MsgStr "corners") -> fst first = Ok tt ->
         exists frame,
           queue_to_usbtool (snd second) = queue_to_usbtool fresh_manager ++ [frame])
     /\ (last_message fresh_manager = Some (MsgStr "corners") \/ fst first <> Ok tt ->
         queue_to_usbtool (snd second) = queue_to_usbtool fresh_manager).
Proof.
  apply (corners_and_repeated_request fresh_manager ["h8"; "a1"; "h1"; "a8"; "a1"]
           (MsgStr "corners") true false).
  - exact fresh_manager_table.
  - vm_compute. reflexivity.
Defined.

End LedClaims.

(** ** Move inference *)

Section MoveInference.
Import Moves MoveSpec.
Context `{E : RuleEngine}.

Lemma first_such_cons {A : Type} (P : A -> Prop) (y : A) (l : list A) (x : A) :
  first_such P (y :: l) x <-> (y = x /\ P x) \/ (~ P y /\ first_such P l x).
Proof.
  split.
  - intros (pre & post & Heq & HP & Hpre). destruct pre as [|z pre]; simpl in Heq.
    + injection Heq as -> _. left. auto.
    + injection Heq as <- ->. apply Forall_cons in Hpre as [Hy Hpre].
      right. split; [exact Hy|]. exists pre, post. auto.
  - intros [[-> HP] | [Hy (pre & post & -> & HP & Hpre)]].
    + exists [], l. repeat split; auto.
    + exists (y :: pre), post. repeat split; auto.
Qed.

Lemma first_such_app {A : Type} (P : A -> Prop) (l1 l2 : list A) (x : A) :
  first_such P (l1 ++ l2) x
  <-> first_such P l1 x \/ (Forall (fun y => ~ P y) l1 /\ first_such P l2 x).
Proof.
  induction l1 as [|y l1 IH]; simpl.
  - split; [intros H; right; split; [constructor | exact H]|].
    intros [(pre & post & Heq & _) | [_ H]]; [|exact H].
    destruct pre; discriminate Heq.
  - rewrite !first_such_cons, IH, Forall_cons. tauto.
Qed.

Lemma first_such_holds {A : Type} (P : A -> Prop) (l : list A) (x : A) :
  first_such P l x -> x ∈ l /\ P x.
Proof.
  intros (pre & post & -> & HP & _). split; [|exact HP].
  apply elem_of_app. right. left.
Qed.

(** With a decidable test, either some element is the first to pass or
    none passes. *)
Lemma first_such_or_none {A : Type} (P : A -> Prop) `{forall x, Decision (P x)}
    (l : list A) :
  (exists x, first_such P l x) \/ Forall (fun y => ~ P y) l.
Proof.
  induction l as [|y l IH].
  - right. constructor.
  - destruct (decide (P y)) as [Hy|Hy].
    + left. exists y. apply first_such_cons. auto.
    + destruct IH as [[x Hx]|Hnone].
      * left. exists x. apply first_such_cons. auto.
      * right. constructor; assumption.
Qed.

(** The first loop, with the pops undone by the law of the engine. *)
Lemma single_move_none (F : string) (B : Board) (moves : list Move) :
  Forall (fun m => ~ one_ply B F m) moves -> single_move F B moves = (None, B).
Proof.
  induction moves as [|m moves IH]; intros Hnone; [reflexivity|].
  apply Forall_cons in Hnone as [Hm Hnone]. simpl.
  destruct (decide (F = board_fen (push B m))) as [Heq|_].
  - exfalso. apply Hm. unfold one_ply. congruence.
  - rewrite pop_push. apply IH, Hnone.
Qed.

Lemma single_move_first (F : string) (B : Board) (moves : list Move) (m : Move) :
  first_such (one_ply B F) moves m ->
  single_move F B moves = (Some [uci m], push B m).
Proof.
  induction moves as [|y moves IH]; intros Hfirst.
  - destruct Hfirst as (pre & post & Heq & _). destruct pre; discriminate Heq.
  - apply first_such_cons in Hfirst as [[-> Hm] | [Hy Hfirst]]; simpl.
    + destruct (decide (F = board_fen (push B m))) as [_|Hne]; [reflexivity|].
      exfalso. apply Hne. symmetry. exact Hm.
    + destruct (decide (F = board_fen (push B y))) as [Heq|_].
      * exfalso. apply Hy. unfold one_ply. congruence.
      * rewrite pop_push. apply IH, Hfirst.
Qed.

(** The inner loop of the second pass is the first loop one ply deeper. *)
Lemma second_move_none (F : string) (m1 : Move) (B1 : Board) (replies : list Move) :
  Forall (fun m2 => board_fen (push B1 m2) <> F) replies ->
  second_move F m1 B1 replies = (None, B1).
Proof.
  induction replies as [|m2 replies IH]; intros Hnone; [reflexivity|].
  apply Forall_cons in Hnone as [Hm Hnone]. simpl.
  destruct (decide (F = board_fen (push B1 m2))) as [Heq|_]; [congruence|].
  rewrite pop_push. apply IH, Hnone.
Qed.

Lemma second_move_first (F : string) (m1 : Move) (B1 : Board) (replies : list Move)
    (m2 : Move) :
  first_such (fun m => board_fen (push B1 m) = F) replies m2 ->
  second_move F m1 B1 replies = (Some [uci m1; uci m2], push B1 m2).
Proof.
  induction replies as [|y replies IH]; intros Hfirst.
  - destruct Hfirst as (pre & post & Heq & _). destruct pre; discriminate Heq.
  - apply first_such_cons in Hfirst as [[-> Hm] | [Hy Hfirst]]; simpl.
    + destruct (decide (F = board_fen (push B1 m2))) as [_|Hne]; [reflexivity|].
      congruence.
    + destruct (decide (F = board_fen (push B1 y))) as [Heq|_]; [congruence|].
      rewrite pop_push. apply IH, Hfirst.
Qed.

Lemma first_such_replies (F : string) (B : Board) (m1 : Move) (p : Move * Move) :
  first_such (two_ply B F) (map (pair m1) (generate_legal_moves (push B m1))) p ->
  fst p = m1
  /\ first_such (fun m => board_fen (push (push B m1) m) = F)
                (generate_legal_moves (push B m1)) (snd p).
Proof.
  generalize (generate_legal_moves (push B m1)). intros replies.
  induction replies as [|y replies IH]; intros Hfirst.
  - destruct Hfirst as (pre & post & Heq & _). destruct pre; discriminate Heq.
  - simpl in Hfirst. apply first_such_cons in Hfirst as [[<- Hm] | [Hy Hfirst]].
    + split; [reflexivity|]. apply first_such_cons. left. auto.
    + destruct (IH Hfirst) as [Hfst Hsnd]. split; [exact Hfst|].
      apply first_such_cons. right. auto.
Qed.

Lemma none_replies (F : string) (B : Board) (m1 : Move) :
  Forall (fun p => ~ two_ply B F p) (map (pair m1) (generate_legal_moves (push B m1))) ->
  Forall (fun m2 => board_fen (push (push B m1) m2) <> F)
         (generate_legal_moves (push B m1)).
Proof.
  rewrite Forall_map. intros H. eapply Forall_impl; [exact H|].
  intros m2 H2. exact H2.
Qed.

Lemma double_move_none (F : string) (B : Board) (moves : list Move) (searches : nat) :
  Forall (fun p => ~ two_ply B F p) (replies_to B moves) ->
  double_move F B moves searches = (Ok (None, B), (searches + length moves)%nat).
Proof.
  revert searches. induction moves as [|m1 moves IH]; intros searches Hnone.
  - simpl. unfold ret. f_equal. lia.
  - unfold replies_to in Hnone. simpl in Hnone.
    apply Forall_app in Hnone as [Hm1 Hnone].
    simpl. unfold mbind, legal_moves.
    rewrite (second_move_none F m1 (push B m1)) by (apply none_replies, Hm1).
    rewrite pop_push, (IH (S searches) Hnone). f_equal. simpl. lia.
Qed.

Lemma double_move_first (F : string) (B : Board) (moves : list Move)
    (p : Move * Move) (searches : nat) :
  first_such (two_ply B F) (replies_to B moves) p ->
  exists B' searches',
    double_move F B moves searches = (Ok (Some [uci (fst p); uci (snd p)], B'), searches').
Proof.
  revert searches. induction moves as [|m1 moves IH]; intros searches Hfirst.
  - destruct Hfirst as (pre & post & Heq & _). destruct pre; discriminate Heq.
  - unfold replies_to in Hfirst. simpl in Hfirst.
    apply first_such_app in Hfirst as [Hhere | [Hm1 Hlater]];
      simpl; unfold mbind, legal_moves.
    + apply first_such_replies in Hhere as [<- Hsnd].
      rewrite (second_move_first F (fst p) (push B (fst p)) _ (snd p) Hsnd).
      unfold ret. eauto.
    + rewrite (second_move_none F m1 (push B m1)) by (apply none_replies, Hm1).
      rewrite pop_push. apply IH, Hlater.
Qed.

(** A board field is the first field of itself. *)
Lemma split_ws_aux_no_space (cur l : list ascii) :
  Forall (fun c => is_space c = false) l -> cur <> [] \/ l <> [] ->
  split_ws_aux cur l = [str_of (rev cur ++ l)].
Proof.
  revert cur. induction l as [|c l IH]; intros cur Hl Hne; simpl.
  - destruct cur; [destruct Hne; contradiction|]. rewrite app_nil_r. reflexivity.
  - apply Forall_cons in Hl as [-> Hl].
    rewrite (IH _ Hl) by (left; discriminate).
    simpl. rewrite <- app_assoc. reflexivity.
Qed.

Lemma board_field_first (F : string) :
  board_field F -> index (split_ws F) 0 = Ok F.
Proof.
  intros [Hne Hns]. unfold split_ws. rewrite (split_ws_aux_no_space _ _ Hns).
  - simpl. unfold str_of, chars. rewrite string_of_list_ascii_of_string. reflexivity.
  - right. intros Hnil. apply Hne.
    rewrite <- (string_of_list_ascii_of_string F). unfold chars in Hnil.
    rewrite Hnil. reflexivity.
Qed.

(** C1: [get_moves] on a board [B] and a board field [F]. If the fields are
    equal the answer is the empty list and no legal moves are generated.
    Otherwise the answer is the first legal move that reproduces [F], if one
    does; failing that, the first legal two-ply sequence that reproduces
    [F]; and [InvalidMove] is raised exactly when neither exists. *)
Theorem get_moves_spec (B : Board) (F : string) (searches : nat) :
  board_field F ->
  (board_fen B = F -> get_moves B F searches = (Ok [], searches))
  /\ (board_fen B <> F ->
      (forall m, first_such (one_ply B F) (generate_legal_moves B) m ->
                 fst (get_moves B F searches) = Ok [uci m])
      /\ (Forall (fun m => ~ one_ply B F m) (generate_legal_moves B) ->
          forall m1 m2, first_such (two_ply B F) (two_plies B) (m1, m2) ->
                        fst (get_moves B F searches) = Ok [uci m1; uci m2])
      /\ (fst (get_moves B F searches) = Raise InvalidMove
          <-> Forall (fun m => ~ one_ply B F m) (generate_legal_moves B)
              /\ Forall (fun p => ~ two_ply B F p) (two_plies B))).
Proof.
  intros HF. unfold get_moves, mbind, lift. rewrite (board_field_first F HF).
  split.
  - intros Heq. destruct (decide (board_fen B = F)); [reflexivity | contradiction].
  - intros Hne. destruct (decide (board_fen B = F)) as [|_]; [contradiction|].
    unfold legal_moves. split; [|split].
    + intros m Hm. rewrite (single_move_first F B _ m Hm). reflexivity.
    + intros Hnone m1 m2 Hp. rewrite (single_move_none F B _ Hnone).
      destruct (double_move_first F B _ (m1, m2) (S searches) Hp) as (B' & s' & ->).
      reflexivity.
    + assert (Hdec1 : forall m, Decision (one_ply B F m))
        by (intros m; unfold one_ply; apply _).
      assert (Hdec2 : forall p, Decision (two_ply B F p))
        by (intros p; unfold two_ply; apply _).
      destruct (first_such_or_none (one_ply B F) (generate_legal_moves B))
        as [[m Hm]|Hnone].
      * rewrite (single_move_first F B _ m Hm). simpl. split; [discriminate|].
        intros [Hnone _]. apply first_such_holds in Hm as [Hin Hm].
        rewrite Forall_forall in Hnone. exfalso. exact (Hnone m Hin Hm).
      * rewrite (single_move_none F B _ Hnone).
        destruct (first_such_or_none (two_ply B F) (two_plies B)) as [[p Hp]|Hnone2].
        -- destruct (double_move_first F B _ p (S searches) Hp) as (B' & s' & ->).
           simpl. split; [discriminate|].
           intros [_ Hnone2]. apply first_such_holds in Hp as [Hin Hp].
           rewrite Forall_forall in Hnone2. exfalso. exact (Hnone2 p Hin Hp).
        -- rewrite (double_move_none F B _ (S searches) Hnone2). simpl. tauto.
Qed.

End MoveInference.

Section MoveInferenceExamples.
Import Moves MoveSpec ToyEngine.

Lemma get_moves_spec_witness :
  (board_fen nothing_played = "t3" -> get_moves nothing_played "t3" 0%nat = (Ok [], 0%nat))
  /\ (board_fen nothing_played <> "t3" ->
      (forall m, first_such (one_ply nothing_played "t3") (generate_legal_moves nothing_played) m ->
                 fst (get_moves nothing_played "t3" 0%nat) = Ok [uci m])
      /\ (Forall (fun m => ~ one_ply nothing_played "t3" m) (generate_legal_moves nothing_played) ->
          forall m1 m2, first_such (two_ply nothing_played "t3") (two_plies nothing_played) (m1, m2) ->
                        fst (get_moves nothing_played "t3" 0%nat) = Ok [uci m1; uci m2])
      /\ (fst (get_moves nothing_played "t3" 0%nat) = Raise InvalidMove
          <-> Forall (fun m => ~ one_ply nothing_played "t3" m) (generate_legal_moves nothing_played)
              /\ Forall (fun p => ~ two_ply nothing_played "t3" p) (two_plies nothing_played))).
Proof.
  apply (get_moves_spec nothing_played "t3" 0%nat).
  split; [discriminate | repeat constructor].
Defined.

(** In the counting game: no move from equal fields, one move to reach 2,
    the pair (1, 2) to reach 3, and no explanation for 7. *)
Example get_moves_toy :
  get_moves nothing_played "t0" 0%nat = (Ok [], 0%nat)
  /\ get_moves nothing_played "t2" 0%nat = (Ok ["2"], 1%nat)
  /\ get_moves nothing_played "t3" 0%nat = (Ok ["1"; "2"], 2%nat)
  /\ get_moves nothing_played "t7" 0%nat = (Raise InvalidMove, 3%nat)
  /\ fst (get_moves nothing_played "  " 0%nat) = Raise IndexError.
Proof. repeat split. Qed.

End MoveInferenceExamples.

(** ** Strings *)

Lemma append_cons (x : ascii) (a b : string) : String x a +:+ b = String x (a +:+ b).
Proof. reflexivity. Qed.

Lemma append_assoc (a b c : string) : (a +:+ b) +:+ c = a +:+ (b +:+ c).
Proof.
  induction a as [|x a IH]; [reflexivity|]. rewrite !append_cons, IH. reflexivity.
Qed.

Lemma append_empty_r (a : string) : a +:+ "" = a.
Proof.
  induction a as [|x a IH]; [reflexivity|]. rewrite append_cons, IH. reflexivity.
Qed.

(** ** The state-and-exception monad *)

(** A loop whose body leaves the state alone collects its values. *)
Lemma mapM_st_pure {S A B : Type} (f : A -> M S B) (g : A -> B) (l : list A) (s : S) :
  (forall x, x ∈ l -> f x s = (Ok (g x), s)) ->
  mapM_st f l s = (Ok (map g l), s).
Proof.
  induction l as [|x l IH]; intros Hf; [reflexivity|].
  simpl. unfold mbind. rewrite (Hf x) by left.
  rewrite IH by (intros y Hy; apply Hf; right; exact Hy). reflexivity.
Qed.

(** ** The sensor decoder *)

Section Decoder.
Import UsbReader DecoderSpec.

Lemma set_counter_empty (r : usb_reader) : counter r = [] -> set_counter [] r = r.
Proof. destruct r. simpl. intros ->. reflexivity. Qed.

(** The vote among three symbols goes to a symbol that two of them share. *)
Lemma vote_majority (a b c x : string) :
  (a = x /\ b = x) \/ (a = x /\ c = x) \/ (b = x /\ c = x) ->
  vote [a; b; c] = x.
Proof.
  intros H. unfold vote, counter_update. simpl.
  destruct H as [[<- <-]|[[<- <-]|[<- <-]]];
    repeat (match goal with
            | |- context [decide ?P] => destruct (decide P) as [?|?]; simpl
            end; try congruence).
Qed.

Lemma vote_top (a b c : string) :
  exists n, most_common_1 (counter_update [] (map VStr [a; b; c]))
            = [(VStr (vote [a; b; c]), n)].
Proof.
  unfold vote, counter_update. simpl.
  repeat (destruct (decide _); simpl); eauto.
Qed.

(** One turn of the cell loop: the vote of the three frames, and the
    counter left empty as it was found. *)
Lemma decode_cell_vote (r : usb_reader) (t0 t1 t2 : list string) (sl : Z * Z) :
  counter r = [] ->
  decode_cell [t0; t1; t2] sl r
  = (Ok (VStr (vote (map (fun t => symbol_of r (apply_slice t sl)) [t0; t1; t2]))), r).
Proof.
  intros Hc. unfold decode_cell, mbind, get, modify, lift, ret.
  change (counter (set_counter ?v r)) with v. rewrite Hc.
  destruct (vote_top (symbol_of r (apply_slice t0 sl)) (symbol_of r (apply_slice t1 sl))
                     (symbol_of r (apply_slice t2 sl))) as [n Htop].
  unfold symbol_of in *. simpl map in *. rewrite Htop.
  change (index [?x] 0) with (Ok x). cbv beta iota.
  change (set_counter [] (set_counter ?v r)) with (set_counter [] r).
  rewrite (set_counter_empty r Hc). reflexivity.
Qed.

(** *** The FEN conversion refines [board_field_of] *)

Lemma run_digits_flush (FEN : string) (e : nat) :
  (if 0 <? Z.of_nat e then FEN +:+ str (Z.of_nat e) else FEN) = FEN +:+ run_digits e.
Proof.
  destruct e as [|e]; [symmetry; apply append_empty_r|].
  destruct (Z.ltb_spec 0 (Z.of_nat (S e))); [reflexivity | lia].
Qed.

(** The inner loop over the squares [k], [k+1], ... of a row holding the
    symbols [ps], entered with [e] empty squares pending. *)
Lemma fen_cols (ps : list string) (board : list pyval) (row k e : nat) (FEN : string) :
  (forall i p, ps !! i = Some p -> board !! (row * 8 + k + i)%nat = Some (VStr p)) ->
  exists FEN' e',
    foldM (fen_col board (Z.of_nat row)) (FEN, Z.of_nat e)
          (map Z.of_nat (seq k (length ps)))
    = Ok (FEN', Z.of_nat e')
    /\ FEN' +:+ run_digits e' = FEN +:+ rank_field e ps.
Proof.
  revert k e FEN. induction ps as [|p ps IH]; intros k e FEN Hat.
  - exists FEN, e. split; reflexivity.
  - assert (Hidx : index board (Z.of_nat row * 8 + Z.of_nat k) = Ok (VStr p)).
    { replace (Z.of_nat row * 8 + Z.of_nat k) with (Z.of_nat (row * 8 + k + 0)) by lia.
      apply index_lookup, Hat. reflexivity. }
    assert (Hrest : forall i q, ps !! i = Some q ->
                                board !! (row * 8 + S k + i)%nat = Some (VStr q)).
    { intros i q Hq. replace (row * 8 + S k + i)%nat with (row * 8 + k + S i)%nat by lia.
      apply Hat. exact Hq. }
    simpl length. simpl seq. simpl map. simpl foldM.
    unfold fen_col at 1. rewrite Hidx. simpl Py.bind.
    destruct (decide (VStr p = VStr ".")) as [Hdot|Hpiece].
    + injection Hdot as ->.
      replace (Z.of_nat e + 1) with (Z.of_nat (S e)) by lia.
      destruct (IH (S k) (S e) FEN Hrest) as (FEN' & e' & Hfold & Heq).
      exists FEN', e'. split; [exact Hfold|].
      rewrite Heq. simpl. destruct (decide ("." = ".")); [reflexivity | contradiction].
    + assert (Hstate : (if 0 <? Z.of_nat e then (FEN +:+ str (Z.of_nat e), 0)
                        else (FEN, Z.of_nat e))
                       = (FEN +:+ run_digits e, Z.of_nat 0)).
      { destruct e as [|e]; [rewrite append_empty_r; reflexivity|].
        destruct (Z.ltb_spec 0 (Z.of_nat (S e))); [reflexivity | lia]. }
      rewrite Hstate.
      destruct (IH (S k) 0%nat ((FEN +:+ run_digits e) +:+ p) Hrest)
        as (FEN' & e' & Hfold & Heq).
      exists FEN', e'. split; [exact Hfold|].
      rewrite Heq. simpl rank_field.
      destruct (decide (p = ".")) as [->|_]; [contradiction|].
      rewrite !append_assoc. reflexivity.
Qed.

Lemma fen_row_rank (ps : list string) (board : list pyval) (row : nat) (FEN : string) :
  length ps = 8%nat ->
  (forall i p, ps !! i = Some p -> board !! (row * 8 + i)%nat = Some (VStr p)) ->
  fen_row board FEN (Z.of_nat row)
  = Ok ((FEN +:+ rank_field 0 ps) +:+ (if Z.of_nat row <? 7 then "/" else "")).
Proof.
  intros Hlen Hat. unfold fen_row.
  destruct (fen_cols ps board row 0 0 FEN) as (FEN' & e' & Hfold & Heq).
  { intros i p Hp. rewrite Nat.add_0_r. apply Hat, Hp. }
  rewrite Hlen in Hfold. unfold range. change (Z.of_nat 0) with 0 in Hfold.
  rewrite Hfold. simpl Py.bind. rewrite run_digits_flush, Heq.
  destruct (Z.of_nat row <? 7); [reflexivity | rewrite append_empty_r; reflexivity].
Qed.

Lemma join_cons (sep w : string) (l : list string) :
  join sep (w :: l) = w +:+ (match l with [] => "" | _ => sep +:+ join sep l end).
Proof. destruct l; simpl; [rewrite append_empty_r|]; reflexivity. Qed.

(** The outer loop over the rows [k], [k+1], ..., 7. *)
Lemma fen_rows (syms : list string) (n k : nat) (FEN : string) :
  length syms = 64%nat -> (k + n = 8)%nat ->
  foldM (fen_row (map VStr syms)) FEN (map Z.of_nat (seq k n))
  = Ok (FEN +:+ join "/" (map (rank_field 0) (ranks_of n (drop (k * 8) syms)))).
Proof.
  intros Hlen. revert k FEN. induction n as [|n IH]; intros k FEN Hk.
  - simpl. rewrite append_empty_r. reflexivity.
  - simpl seq. simpl map. simpl foldM.
    rewrite (fen_row_rank (take 8 (drop (k * 8) syms))).
    + simpl Py.bind. rewrite (IH (S k)) by lia.
      simpl ranks_of. simpl map. rewrite join_cons, drop_drop.
      replace (k * 8 + 8)%nat with (S k * 8)%nat by lia.
      rewrite !append_assoc. do 2 f_equal.
      destruct n as [|n].
      * destruct (Z.ltb_spec (Z.of_nat k) 7); [lia | reflexivity].
      * destruct (Z.ltb_spec (Z.of_nat k) 7); [reflexivity | lia].
    + rewrite length_take, length_drop. lia.
    + intros i p Hp. apply lookup_take_Some in Hp as [Hp _].
      rewrite lookup_drop in Hp. rewrite list_lookup_fmap.
      replace (k * 8 + i)%nat with (k * 8 + i)%nat by lia. rewrite Hp. reflexivity.
Qed.

Lemma board_to_fen_field (syms : list string) :
  length syms = 64%nat -> board_to_fen (map VStr syms) = Ok (board_field_of syms).
Proof.
  intros Hlen. unfold board_to_fen, range.
  rewrite (fen_rows syms 8 0 "" Hlen eq_refl). reflexivity.
Qed.

End Decoder.

Section DecoderClaims.
Import UsbReader DecoderSpec.

Lemma chars_append (a b : string) : chars (a +:+ b) = chars a ++ chars b.
Proof.
  induction a as [|x a IH]; [reflexivity|].
  rewrite append_cons. unfold chars in *. simpl. rewrite IH. reflexivity.
Qed.

(** Reading a rank field back gives the rank: the digits stand for the runs
    of empty squares and for nothing else. *)
Lemma expand_rank_field (rank : list string) (e : nat) :
  Forall piece_symbol rank -> (e + length rank <= 9)%nat ->
  expand (chars (rank_field e rank)) = replicate e "." ++ rank.
Proof.
  revert e. induction rank as [|p rank IH]; intros e Hsym Hlen.
  - rewrite app_nil_r. simpl in *.
    do 10 (destruct e as [|e]; [reflexivity|]). lia.
  - apply Forall_cons in Hsym as [Hp Hsym]. simpl in Hlen. simpl rank_field.
    destruct (decide (p = ".")) as [->|Hpiece].
    + rewrite IH by (auto; lia).
      change (replicate (S e) ".") with ("." :: replicate e ".").
      replace ("." :: replicate e ".") with (replicate e "." ++ ["."]).
      * rewrite <- app_assoc. reflexivity.
      * clear. induction e as [|e IHe]; [reflexivity|]. simpl. rewrite IHe. reflexivity.
    + rewrite !chars_append.
      assert (Hhead : forall rest, expand (chars (run_digits e) ++ rest)
                                   = replicate e "." ++ expand rest).
      { intros rest. do 10 (destruct e as [|e]; [reflexivity|]). lia. }
      rewrite Hhead. f_equal.
      assert (Hone : expand (chars p ++ chars (rank_field 0 rank))
                     = p :: expand (chars (rank_field 0 rank))).
      { unfold piece_symbol in Hp. apply elem_of_cons in Hp as [->|Hp]; [contradiction|].
        clear Hpiece. revert p Hp. apply (proj1 (Forall_forall _ _)).
        repeat (constructor; [reflexivity|]). constructor. }
      rewrite Hone, IH by (auto; lia). reflexivity.
Qed.

Lemma ranks_of_full (n : nat) (board : list string) :
  length board = (n * 8)%nat -> Forall piece_symbol board ->
  Forall (fun rank => length rank = 8%nat /\ Forall piece_symbol rank) (ranks_of n board).
Proof.
  revert board. induction n as [|n IH]; intros board Hlen Hsym; [constructor|].
  simpl. constructor.
  - split; [rewrite length_take; lia | apply Forall_take, Hsym].
  - apply IH; [rewrite length_drop; lia | apply Forall_drop, Hsym].
Qed.

(** C2: with three frames in the history, [data_to_fen] stores the board
    field of the 64 decoded symbols: eight ranks joined by slashes, each
    run of empty squares written as its length. In every cell where two of
    the three frames carry the same code, whichever slots hold them, the
    decoded symbol is the one the code mapping gives that code, or the
    configured missing-piece marker when the code is not mapped. *)
Theorem data_to_fen_majority (r : usb_reader) (f0 f1 f2 : string) :
  counter r = [] ->
  data_history r = [Some f0; Some f1; Some f2] ->
  let board := decoded_board r [f0; f1; f2] in
  data_to_fen r = (Ok tt, set_board_fen (board_field_of board) r)
  /\ length board = 64%nat
  /\ length (ranks_of 8 board) = 8%nat
  /\ (Forall piece_symbol board ->
      forall rank, rank ∈ ranks_of 8 board ->
                   expand (chars (rank_field 0 rank)) = rank)
  /\ forall (cell : nat) (code : list string),
       (cell < 64)%nat ->
       (cell_code f0 cell = code /\ cell_code f1 cell = code)
       \/ (cell_code f0 cell = code /\ cell_code f2 cell = code)
       \/ (cell_code f1 cell = code /\ cell_code f2 cell = code) ->
       board !! cell = Some (symbol_of r code).
Proof.
  intros Hc Hhist board.
  assert (Hlen : length board = 64%nat) by reflexivity.
  split; [|split; [exact Hlen|split; [reflexivity|split]]].
  - unfold data_to_fen, mbind, get, lift. rewrite Hhist. simpl mapM. cbv beta iota.
    set (t0 := split_on " " (str_slice f0 (Some 1) None)).
    set (t1 := split_on " " (str_slice f1 (Some 1) None)).
    set (t2 := split_on " " (str_slice f2 (Some 1) None)).
    rewrite (mapM_st_pure (decode_cell [t0; t1; t2])
               (fun sl => VStr (vote (map (fun t => symbol_of r (apply_slice t sl))
                                          [t0; t1; t2])))
               cell_slice_mapping r)
      by (intros sl _; apply decode_cell_vote, Hc).
    assert (Hboard : map (fun sl => VStr (vote (map (fun t => symbol_of r (apply_slice t sl))
                                                    [t0; t1; t2])))
                         cell_slice_mapping
                     = map VStr board).
    { unfold cell_slice_mapping, range, board, decoded_board. rewrite !map_map.
      apply map_ext. intros cell. reflexivity. }
    rewrite Hboard, (board_to_fen_field board Hlen). reflexivity.
  - intros Hsym rank Hrank.
    assert (Hranks : Forall (fun rank => length rank = 8%nat /\ Forall piece_symbol rank)
                            (ranks_of 8 board)).
    { apply ranks_of_full; [exact Hlen | exact Hsym]. }
    rewrite Forall_forall in Hranks. destruct (Hranks rank Hrank) as [Hl8 Hs8].
    rewrite (expand_rank_field rank 0 Hs8) by lia. reflexivity.
  - intros cell code Hcell Hagree.
    unfold board, decoded_board. rewrite list_lookup_fmap, lookup_seq_lt by exact Hcell.
    simpl. f_equal. apply vote_majority.
    destruct Hagree as [[<- <-]|[[<- <-]|[<- <-]]]; auto.
Qed.

End DecoderClaims.

Section DecoderExamples.
Import UsbReader DecoderSpec Sample.

Lemma data_to_fen_majority_witness :
  counter calibrated_reader = []
  /\ data_history calibrated_reader = [Some e4_frame; Some e4_frame; Some start_frame]
  /\ data_to_fen calibrated_reader
     = (Ok tt,
        set_board_fen
          (board_field_of (decoded_board calibrated_reader
                                         [e4_frame; e4_frame; start_frame]))
          calibrated_reader)
  /\ decoded_board calibrated_reader [e4_frame; e4_frame; start_frame] !! 36%nat
     = Some (symbol_of calibrated_reader ["7"; "0"; "0"; "0"; "0"]).
Proof.
  assert (H1 : counter calibrated_reader = []) by (vm_compute; reflexivity).
  assert (H2 : data_history calibrated_reader
               = [Some e4_frame; Some e4_frame; Some start_frame])
    by (vm_compute; reflexivity).
  destruct (data_to_fen_majority calibrated_reader e4_frame e4_frame start_frame H1 H2)
    as (Hfen & _ & _ & _ & Hcell).
  split; [exact H1|]. split; [exact H2|]. split; [exact Hfen|].
  apply Hcell; [lia|]. left. split; vm_compute; reflexivity.
Defined.

(** The decoder on the sample frames: the pawn stands on e4. *)
Example decoded_e4 :
  board_fen calibrated_reader = "rnbqkbnr/pppppppp/8/8/4P3/8/PPPP1PPP/RNBQKBNR"
  /\ board_field_of (decoded_board calibrated_reader [e4_frame; e4_frame; start_frame])
     = "rnbqkbnr/pppppppp/8/8/4P3/8/PPPP1PPP/RNBQKBNR".
Proof. split; vm_compute; reflexivity. Qed.

End DecoderExamples.

(** ** Frame rules *)

Section Keeps.
Context {S : Type} (R : S -> S -> Prop) `{!Reflexive R} `{!Transitive R}.

Lemma keeps_ret {A : Type} (a : A) : keeps R (ret a).
Proof. intros s. simpl. reflexivity. Qed.

Lemma keeps_raise {A : Type} (e : exn) : keeps R (@raise S A e).
Proof. intros s. simpl. reflexivity. Qed.

Lemma keeps_lift {A : Type} (r : result A) : keeps R (lift r).
Proof. intros s. simpl. reflexivity. Qed.

Lemma keeps_get : keeps R get.
Proof. intros s. simpl. reflexivity. Qed.

Lemma keeps_gets {A : Type} (f : S -> A) : keeps R (gets f).
Proof. intros s. simpl. reflexivity. Qed.

Lemma keeps_modify (f : S -> S) : (forall s, R s (f s)) -> keeps R (modify f).
Proof. intros H s. simpl. apply H. Qed.

Lemma keeps_bind {A B : Type} (m : M S A) (k : A -> M S B) :
  keeps R m -> (forall a, keeps R (k a)) -> keeps R (mbind m k).
Proof.
  intros Hm Hk s. unfold mbind. specialize (Hm s).
  destruct (m s) as [[a|e] s']; simpl in *; [|exact Hm].
  transitivity s'; [exact Hm | apply Hk].
Qed.

Lemma keeps_mapM_st {A B : Type} (f : A -> M S B) (l : list A) :
  (forall x, keeps R (f x)) -> keeps R (mapM_st f l).
Proof.
  intros Hf. induction l as [|x l IH]; simpl; [apply keeps_ret|].
  apply keeps_bind; [apply Hf|]. intros y.
  apply keeps_bind; [exact IH|]. intros ys. apply keeps_ret.
Qed.

Lemma keeps_forM_st {A : Type} (f : A -> M S unit) (l : list A) :
  (forall x, keeps R (f x)) -> keeps R (forM_st f l).
Proof.
  intros Hf. induction l as [|x l IH]; simpl; [apply keeps_ret|].
  apply keeps_bind; [apply Hf | intros _; exact IH].
Qed.

End Keeps.

(** Takes a method body apart along its binds and branches, leaving the
    assignments as goals. *)
Ltac keeps_step :=
  lazymatch goal with
  | |- keeps _ (ret _) => apply keeps_ret; typeclasses eauto
  | |- keeps _ (raise _) => apply keeps_raise; typeclasses eauto
  | |- keeps _ (lift _) => apply keeps_lift; typeclasses eauto
  | |- keeps _ get => apply keeps_get; typeclasses eauto
  | |- keeps _ (gets _) => apply keeps_gets; typeclasses eauto
  | |- keeps _ (mbind _ _) => apply keeps_bind; [typeclasses eauto .. | | intros ?]
  | |- keeps _ (mapM_st _ _) => apply keeps_mapM_st; [typeclasses eauto .. | intros ?]
  | |- keeps _ (forM_st _ _) => apply keeps_forM_st; [typeclasses eauto .. | intros ?]
  | |- keeps _ (if ?b then _ else _) => destruct b
  | |- keeps _ (match ?x with _ => _ end) => destruct x
  end.

Ltac keeps_body := repeat keeps_step.

(** An assignment whose setter visibly respects the relation. *)
Ltac keeps_assign := apply keeps_modify; intros ?; repeat split.

(** ** Framing of the inbound stream *)

Section Framing.
Import Usbtool.

(** Reading one line, from its first waiting character to its newline. *)
Lemma read_loop_line (line rest : list ascii) (st : usbtool) :
  Forall (fun c => code c < 128 /\ c <> newline) line ->
  read_loop (line ++ newline :: rest) st
  = end_of_line {| serial_ok := serial_ok st;
                   message_from_board := message_from_board st +:+ str_of line;
                   input_buffer := rest;
                   queue_from_usbtool := queue_from_usbtool st |}.
Proof.
  revert st. induction line as [|c line IH]; intros st Hline.
  - simpl. rewrite append_empty_r. reflexivity.
  - apply Forall_cons in Hline as [[Hc Hnl] Hline].
    simpl app. simpl read_loop.
    destruct (Z.leb_spec 128 (code c)); [lia|].
    destruct (Ascii.eqb_spec c newline) as [|_]; [contradiction|].
    simpl negb. cbv iota. rewrite (IH _ Hline). simpl.
    rewrite append_assoc. reflexivity.
Qed.

(** Reading up to a character that does not decode: the read stops there,
    with the characters read so far kept and the rest left waiting. *)
Lemma read_loop_undecodable (line rest : list ascii) (c : ascii) (st : usbtool) :
  Forall (fun c => code c < 128 /\ c <> newline) line -> 128 <= code c ->
  read_loop (line ++ c :: rest) st
  = {| serial_ok := false;
       message_from_board := message_from_board st +:+ str_of line;
       input_buffer := rest;
       queue_from_usbtool := queue_from_usbtool st |}.
Proof.
  revert st. induction line as [|c' line IH]; intros st Hline Hc.
  - simpl. destruct (Z.leb_spec 128 (code c)); [|lia].
    rewrite append_empty_r. reflexivity.
  - apply Forall_cons in Hline as [[Hc' Hnl] Hline].
    simpl app. simpl read_loop.
    destruct (Z.leb_spec 128 (code c')); [lia|].
    destruct (Ascii.eqb_spec c' newline) as [|_]; [contradiction|].
    simpl negb. cbv iota. rewrite (IH _ Hline Hc). simpl.
    rewrite append_assoc. reflexivity.
Qed.

End Framing.

(** ** The frame history *)

Section History.
Import UsbReader ReaderSpec.

#[global] Instance frame_only_refl : Reflexive frame_only.
Proof. intros r. repeat split. Qed.

#[global] Instance frame_only_trans : Transitive frame_only.
Proof.
  intros a b c Hab Hbc. unfold frame_only in *.
  repeat match goal with H : _ /\ _ |- _ => destruct H end.
  repeat split; congruence.
Qed.

Lemma index_set_item {A : Type} (l : list A) (i : Z) (x y : A) :
  index l i = Ok x -> set_item l i y = Ok (<[position (length l) i := y]> l).
Proof.
  unfold index, set_item, position.
  destruct ((_ <? 0) || (_ <=? _)); [discriminate | reflexivity].
Qed.

(** One frame taken off the queue: stored if it differs from its slot,
    skipped otherwise; the index advances either way. *)
Lemma store_frame_run (r : usb_reader) (data : string) (changed : bool)
    (old : option string) :
  index (data_history r) (data_history_i r) = Ok old ->
  store_frame data changed r
  = if decide (old ≠ Some data)
    then (Ok true,
          set_data_history_i (next_index (data_history_depth r) (data_history_i r))
            (set_data_history
               (<[position (length (data_history r)) (data_history_i r) := Some data]>
                  (data_history r)) r))
    else (Ok changed,
          set_data_history_i (next_index (data_history_depth r) (data_history_i r)) r).
Proof.
  intros Hidx. unfold store_frame, mbind, get, lift, modify, ret. rewrite Hidx.
  destruct (decide (old ≠ Some data)); [|reflexivity].
  rewrite (index_set_item _ _ _ (Some data) Hidx). reflexivity.
Qed.

Lemma store_frame_frame_only (data : string) (changed : bool) :
  keeps frame_only (store_frame data changed).
Proof.
  unfold store_frame. keeps_body; keeps_assign.
Qed.

Lemma drain_frame_only (frames : list string) (changed : bool) :
  keeps frame_only (drain frames changed).
Proof.
  revert changed. induction frames as [|data rest IH]; intros changed; simpl.
  - keeps_step.
  - keeps_step; [keeps_assign|]. keeps_step; [apply store_frame_frame_only | apply IH].
Qed.

Lemma drain_cons (data : string) (rest : list string) (changed : bool) (r : usb_reader) :
  drain (data :: rest) changed r
  = match store_frame data changed (set_queue rest r) with
    | (Ok c, r') => drain rest c r'
    | (Raise e, r') => (Raise e, r')
    end.
Proof. reflexivity. Qed.

Lemma update_unfold (r : usb_reader) :
  update r
  = match drain (queue r) false r with
    | (Ok changed, r1) =>
        if changed && (0 <=? data_history_i r1) then data_to_fen r1 else (Ok tt, r1)
    | (Raise e, r1) => (Raise e, r1)
    end.
Proof.
  unfold update, mbind, get. destruct (drain (queue r) false r) as [[c|e] r1]; [|reflexivity].
  destruct (c && (0 <=? data_history_i r1)); reflexivity.
Qed.

(** Frames that repeat their slots pass through [drain] without a trace in
    the history and without raising the change flag. *)
Lemma drain_repeats (frames : list string) (r : usb_reader) (changed : bool) :
  repeats (data_history r) (data_history_depth r) (data_history_i r) frames ->
  exists r', drain frames changed r = (Ok changed, r')
             /\ data_history r' = data_history r
             /\ (frames <> [] -> queue r' = [])
             /\ frame_only r r'.
Proof.
  revert r. induction frames as [|data rest IH]; intros r Hrep.
  - exists r. repeat split. intros H. contradiction.
  - destruct Hrep as [Hslot Hrep]. rewrite drain_cons.
    rewrite (store_frame_run (set_queue rest r) data changed (Some data)) by exact Hslot.
    destruct (decide (Some data ≠ Some data)) as [Hne|_]; [contradiction|].
    destruct (IH (set_data_history_i
                    (next_index (data_history_depth r) (data_history_i r))
                    (set_queue rest r)) Hrep) as (r' & Hrun & Hhist & Hq & Hfo).
    exists r'. split; [exact Hrun|]. split; [exact Hhist|]. split.
    + intros _. destruct rest as [|d rest'].
      * simpl in Hrun. injection Hrun as <-. reflexivity.
      * apply Hq. discriminate.
    + etransitivity; [|exact Hfo]. repeat split.
Qed.

(** A poll that drains only repeats does not recompute the snapshot: it
    ends in the state in which the draining left the reader. *)
Lemma update_repeats (r : usb_reader) :
  repeats (data_history r) (data_history_depth r) (data_history_i r) (queue r) ->
  exists r', drain (queue r) false r = (Ok false, r')
             /\ update r = (Ok tt, r')
             /\ data_history r' = data_history r
             /\ board_fen r' = board_fen r
             /\ queue r' = [].
Proof.
  intros Hrep. rewrite update_unfold.
  destruct (drain_repeats (queue r) r false Hrep) as (r' & Hrun & Hhist & Hq & Hfo).
  rewrite Hrun. simpl andb. cbv iota.
  exists r'. split; [reflexivity|]. split; [reflexivity|]. split; [exact Hhist|].
  split; [apply Hfo|].
  destruct (queue r) as [|d q] eqn:Hqueue.
  - simpl in Hrun. injection Hrun as <-. exact Hqueue.
  - apply Hq. discriminate.
Qed.

End History.

Section FramingClaims.
Import Usbtool UsbReader ReaderSpec Sample.

(** C3 (amended): a line whose characters all decode reaches the queue
    only if, its last two characters stripped, it splits on spaces into
    exactly 320 tokens; any other such line is dropped, and in both cases
    the message is emptied and the input buffer reset. A character that
    does not decode ends the read instead: nothing is queued, the
    connection is marked broken, and the characters read so far and what
    waits behind the character are kept. A frame equal to the slot it
    would replace leaves the history as it is and does not raise the
    change flag, so that a poll which drains only such frames ends where
    the draining left it, with the snapshot not recomputed. *)
Theorem malformed_and_repeated_frames :
  (forall (st : usbtool) (line rest : list ascii),
     Forall (fun c => code c < 128 /\ c <> newline) line ->
     let message := str_slice (message_from_board st +:+ str_of line) None (Some (- 2)) in
     let st' := read_loop (line ++ newline :: rest) st in
     queue_from_usbtool st'
     = (if decide (length (split_on " " message) = 320%nat)
        then queue_from_usbtool st ++ [message]
        else queue_from_usbtool st)
     /\ message_from_board st' = ""
     /\ input_buffer st' = []
     /\ serial_ok st' = serial_ok st)
  /\ (forall (st : usbtool) (line rest : list ascii) (c : ascii),
       Forall (fun c => code c < 128 /\ c <> newline) line -> 128 <= code c ->
       let st' := read_loop (line ++ c :: rest) st in
       queue_from_usbtool st' = queue_from_usbtool st
       /\ message_from_board st' = message_from_board st +:+ str_of line
       /\ input_buffer st' = rest
       /\ serial_ok st' = false)
  /\ (forall (r : usb_reader) (data : string) (changed : bool),
       index (data_history r) (data_history_i r) = Ok (Some data) ->
       exists r', store_frame data changed r = (Ok changed, r')
                  /\ data_history r' = data_history r
                  /\ board_fen r' = board_fen r)
  /\ (forall r : usb_reader,
       repeats (data_history r) (data_history_depth r) (data_history_i r) (queue r) ->
       exists r', drain (queue r) false r = (Ok false, r')
                  /\ update r = (Ok tt, r')
                  /\ data_history r' = data_history r
                  /\ board_fen r' = board_fen r
                  /\ queue r' = []).
Proof.
  split; [|split; [|split]].
  - intros st line rest Hline message st'. unfold st'.
    rewrite (read_loop_line line rest st Hline). unfold end_of_line. simpl.
    fold message. repeat split.
    destruct (Z.eqb_spec (Z.of_nat (length (split_on " " message))) 320) as [Heq|Hne];
      destruct (decide (length (split_on " " message) = 320%nat)) as [Heq'|Hne'];
      try reflexivity; lia.
  - intros st line rest c Hline Hc st'. unfold st'.
    rewrite (read_loop_undecodable line rest c st Hline Hc). repeat split.
  - intros r data changed Hslot.
    rewrite (store_frame_run r data changed (Some data) Hslot).
    destruct (decide (Some data ≠ Some data)) as [Hne|_]; [contradiction|].
    eexists. repeat split.
  - exact update_repeats.
Qed.

Lemma malformed_and_repeated_frames_witness :
  let st := {| serial_ok := true; message_from_board := ""; input_buffer := [];
               queue_from_usbtool := [] |} in
  queue_from_usbtool
    (read_loop ((chars (start_frame +:+ " ") ++ [chr 13]) ++ newline :: []) st)
  = [start_frame]
  /\ queue_from_usbtool
       (read_loop ((chars "0 0 0 0 0 " ++ [chr 13]) ++ newline :: []) st) = []
  /\ exists r',
       update (after (Arrive [start_frame; e4_frame]) calibrated_reader) = (Ok tt, r')
       /\ board_fen r' = board_fen (after (Arrive [start_frame; e4_frame]) calibrated_reader).
Proof.
  intros st. destruct malformed_and_repeated_frames as (Hline & _ & _ & Hpoll).
  split; [|split].
  - pose proof (Hline st (chars (start_frame +:+ " ") ++ [chr 13]) []) as H.
    cbv zeta in H. destruct H as (Hq & _).
    + apply (bool_decide_unpack _). vm_compute. exact I.
    + rewrite Hq. vm_compute. reflexivity.
  - pose proof (Hline st (chars "0 0 0 0 0 " ++ [chr 13]) []) as H.
    cbv zeta in H. destruct H as (Hq & _).
    + apply (bool_decide_unpack _). vm_compute. exact I.
    + rewrite Hq. vm_compute. reflexivity.
  - destruct (Hpoll (after (Arrive [start_frame; e4_frame]) calibrated_reader))
      as (r' & _ & Hrun & _ & Hfen & _).
    + vm_compute. repeat split.
    + exists r'. split; [exact Hrun | exact Hfen].
Defined.

(** C3, counterexample: a line with a byte that does not decode is
    neither dropped nor is the input buffer reset. Of the waiting line
    ["1 2"], the byte 200, [" 3 "], a carriage return and the newline, the
    read loop keeps ["1 2"] as the message, leaves what follows the byte
    in the buffer, and marks the connection broken; characters read
    later are appended to the message that was kept. *)
Lemma undecodable_byte_keeps_line :
  let st := {| serial_ok := true; message_from_board := "";
               input_buffer := chars "1 2" ++ chr 200 :: chars " 3 " ++ [chr 13; newline];
               queue_from_usbtool := [] |} in
  read_messages st
  = {| serial_ok := false; message_from_board := "1 2";
       input_buffer := chars " 3 " ++ [chr 13; newline];
       queue_from_usbtool := [] |}
  /\ message_from_board (read_messages st) <> ""
  /\ input_buffer (read_messages st) <> []
  /\ message_from_board (read_loop (chars " 3") (read_messages st)) = "1 2 3".
Proof.
  intros st.
  assert (Hrun : read_messages st
                 = {| serial_ok := false; message_from_board := "1 2";
                      input_buffer := chars " 3 " ++ [chr 13; newline];
                      queue_from_usbtool := [] |})
    by (vm_compute; reflexivity).
  split; [exact Hrun|]. rewrite Hrun. simpl message_from_board. simpl input_buffer.
  split; [discriminate|]. split; [discriminate|]. vm_compute. reflexivity.
Qed.

End FramingClaims.

(** ** The reader before its third frame *)

Section Early.
Import UsbReader ReaderSpec.

Lemma index_in_range {A : Type} (l : list A) (i : Z) :
  - Z.of_nat (length l) <= i < Z.of_nat (length l) -> exists x, index l i = Ok x.
Proof.
  intros Hi. unfold index.
  set (k := if i <? 0 then Z.of_nat (length l) + i else i).
  assert (Hk : 0 <= k < Z.of_nat (length l)).
  { unfold k. destruct (Z.ltb_spec i 0); lia. }
  destruct (Z.ltb_spec k 0); [lia|].
  destruct (Z.leb_spec (Z.of_nat (length l)) k); [lia|]. simpl.
  destruct (lookup_lt_is_Some_2 l (Z.to_nat k)) as [x Hx]; [lia|].
  rewrite Hx. eauto.
Qed.

(** While the index is negative every frame advances it by one, and
    nothing but the queue, the history and the index moves. *)
Lemma drain_early (frames : list string) (r : usb_reader) (changed : bool) :
  data_history_depth r = 3 -> length (data_history r) = 3%nat ->
  - 3 <= data_history_i r -> data_history_i r + Z.of_nat (length frames) < 0 ->
  exists changed' r',
    drain frames changed r = (Ok changed', r')
    /\ data_history_i r' = data_history_i r + Z.of_nat (length frames)
    /\ length (data_history r') = 3%nat
    /\ (frames <> [] -> queue r' = [])
    /\ frame_only r r'.
Proof.
  revert r changed. induction frames as [|data rest IH]; intros r changed Hd Hl Hlo Hhi.
  - exists changed, r. simpl. repeat split; [lia | exact Hl | contradiction].
  - simpl length in Hhi. rewrite drain_cons.
    destruct (index_in_range (data_history (set_queue rest r))
                             (data_history_i (set_queue rest r))) as [old Hold].
    { simpl. rewrite Hl. lia. }
    rewrite (store_frame_run _ data changed old Hold).
    assert (Hnext : next_index (data_history_depth r) (data_history_i r)
                    = data_history_i r + 1).
    { unfold next_index. rewrite Hd.
      destruct (Z.leb_spec 3 (data_history_i r + 1)); [lia | reflexivity]. }
    simpl data_history_depth. simpl data_history_i. simpl data_history.
    rewrite Hnext.
    destruct (decide (old ≠ Some data)) as [Hnew|Hsame].
    + edestruct (IH (set_data_history_i (data_history_i r + 1)
                       (set_data_history
                          (<[position (length (data_history r)) (data_history_i r)
                             := Some data]> (data_history r))
                          (set_queue rest r))) true)
        as (c' & r' & Hrun & Hi & Hlen & Hq & Hfo).
      * exact Hd.
      * simpl. rewrite length_insert. exact Hl.
      * simpl. lia.
      * simpl. lia.
      * exists c', r'. split; [exact Hrun|]. simpl in Hi. simpl length. split; [lia|].
        split; [exact Hlen|]. split.
        -- intros _. destruct rest as [|d rest'].
           ++ simpl in Hrun. injection Hrun as _ <-. reflexivity.
           ++ apply Hq. discriminate.
        -- etransitivity; [|exact Hfo]. repeat split.
    + edestruct (IH (set_data_history_i (data_history_i r + 1) (set_queue rest r)) changed)
        as (c' & r' & Hrun & Hi & Hlen & Hq & Hfo).
      * exact Hd.
      * exact Hl.
      * simpl. lia.
      * simpl. lia.
      * exists c', r'. split; [exact Hrun|]. simpl in Hi. simpl length. split; [lia|].
        split; [exact Hlen|]. split.
        -- intros _. destruct rest as [|d rest'].
           ++ simpl in Hrun. injection Hrun as _ <-. reflexivity.
           ++ apply Hq. discriminate.
        -- etransitivity; [|exact Hfo]. repeat split.
Qed.

Lemma update_early (n : nat) (r : usb_reader) :
  early n r -> exists r', update r = (Ok tt, r') /\ early n r' /\ queue r' = [].
Proof.
  intros (Hd & Hl & Hc & Hs & Hsn & Hfen & Hi & Hq).
  rewrite update_unfold.
  destruct (drain_early (queue r) r false Hd Hl) as (c' & r' & Hrun & Hi' & Hl' & Hq' & Hfo);
    [lia | lia |].
  rewrite Hrun.
  assert (Hempty : queue r' = []).
  { destruct (queue r) as [|d q] eqn:Hqueue.
    - simpl in Hrun. injection Hrun as _ <-. exact Hqueue.
    - apply Hq'. discriminate. }
  destruct (Z.leb_spec 0 (data_history_i r')); [lia|].
  rewrite andb_false_r.
  exists r'. split; [reflexivity|]. split; [|exact Hempty].
  destruct Hfo as (Hd' & Hfen' & Hc' & _ & _ & _ & _ & Hsn' & _ & Hs' & _).
  unfold early. rewrite Hempty. simpl.
  repeat split; try congruence; lia.
Qed.

Lemma read_board_early (n : nat) (r : usb_reader) (rotate180 : bool) :
  early n r ->
  exists r', read_board rotate180 r
             = (Ok (if rotate180 then str_reverse STARTING_BOARD_FEN
                    else STARTING_BOARD_FEN), r')
             /\ early n r'.
Proof.
  intros He. destruct (update_early n r He) as (r' & Hrun & He' & _).
  unfold read_board, mbind, get, ret. rewrite Hrun.
  exists r'. split; [|exact He'].
  destruct He' as (_ & _ & _ & _ & _ & -> & _). reflexivity.
Qed.

Lemma calibration_early (n : nat) (r : usb_reader) (new_setup : bool) :
  early n r -> calibration new_setup r = (Ok false, r).
Proof.
  intros (Hd & Hl & Hc & Hs & Hsn & Hfen & Hi & Hq).
  unfold calibration, mbind, get, ret.
  destruct (Z.ltb_spec 0 (data_history_i r)); [lia|]. simpl.
  rewrite Hsn, Hs. reflexivity.
Qed.

Lemma do_calibration_early (n : nat) (r : usb_reader) (new_setup : bool) :
  early n r -> snd (do_calibration new_setup r) = r.
Proof.
  intros (Hd & Hl & Hc & Hs & Hsn & Hfen & Hi & Hq).
  assert (Hcell : forall sl, most_common_code [] sl r = (Raise IndexError, r)).
  { intros sl. unfold most_common_code, mbind, get, modify, lift. simpl.
    rewrite Hc. simpl. rewrite (set_counter_empty r Hc). reflexivity. }
  assert (Hkeys : mapM_st (most_common_code []) cell_slice_mapping r
                  = (Raise IndexError, r)).
  { destruct cell_slice_mapping as [|sl cells] eqn:Hcells; [discriminate Hcells|].
    simpl. unfold mbind. rewrite Hcell. reflexivity. }
  unfold do_calibration, mbind, get, lift. rewrite Hs. simpl mapM. cbv beta iota.
  rewrite Hkeys. reflexivity.
Qed.

Lemma after_early (e : event) (n : nat) (r : usb_reader) :
  early n r ->
  (match e with Arrive frames => n + length frames | _ => n end < 3)%nat ->
  early (match e with Arrive frames => n + length frames | _ => n end) (after e r).
Proof.
  intros He Hn. destruct e as [frames|rot|ns|ns|b]; simpl in Hn |- *.
  - destruct He as (Hd & Hl & Hc & Hs & Hsn & Hfen & Hi & Hq).
    unfold early. simpl. rewrite length_app. repeat split; auto; lia.
  - destruct (read_board_early n r rot He) as (r' & -> & He'). exact He'.
  - rewrite (calibration_early n r ns He). exact He.
  - rewrite (do_calibration_early n r ns He). exact He.
  - destruct He as (Hd & Hl & Hc & Hs & Hsn & Hfen & Hi & Hq).
    unfold early. simpl. repeat split; auto; lia.
Qed.

Lemma after_all_early (events : list event) (n : nat) (r : usb_reader) :
  early n r -> (n + arrived events < 3)%nat ->
  early (n + arrived events) (after_all events r).
Proof.
  revert n r. induction events as [|e events IH]; intros n r He Hn.
  - simpl. rewrite Nat.add_0_r. exact He.
  - simpl after_all.
    pose proof (after_early e n r He) as Hstep.
    destruct e as [frames|rot|ns|ns|b]; simpl in Hn, Hstep |- *;
      try (apply IH; [apply Hstep; lia | exact Hn]).
    replace (n + (length frames + arrived events))%nat
      with (n + length frames + arrived events)%nat by lia.
    apply IH; [apply Hstep; lia | lia].
Qed.

(** Construction leaves the reader at the start of its first fill. *)
Lemma init_early (inbound : list string) (file : calibration_file) (r : usb_reader) :
  __init__ inbound file = Ok r -> (length inbound < 3)%nat -> early (length inbound) r.
Proof.
  unfold __init__, load_piece_codes, mbind, get, modify, lift. simpl.
  intros Hinit Hn.
  destruct file as [| |[|data]]; simpl in Hinit; try discriminate Hinit;
    injection Hinit as <-; unfold early; simpl; repeat split; auto; lia.
Qed.

End Early.

Section SnapshotClaims.
Import UsbReader ReaderSpec Sample.

(** C10: as long as fewer than three frames have arrived since the reader
    was constructed, whatever was called in between, [read_board] returns
    the starting position (reversed when mirrored); and at any time a poll
    whose drained frames all equal the slots they would replace ends in the
    state the draining left, the snapshot not recomputed. *)
Theorem snapshot_needs_three_frames :
  (forall (inbound : list string) (file : calibration_file) (r0 : usb_reader)
          (events : list event) (rotate180 : bool),
     __init__ inbound file = Ok r0 ->
     (length inbound + arrived events < 3)%nat ->
     exists r',
       read_board rotate180 (after_all events r0)
       = (Ok (if rotate180 then str_reverse STARTING_BOARD_FEN else STARTING_BOARD_FEN),
          r'))
  /\ (forall (r : usb_reader) (rotate180 : bool),
       repeats (data_history r) (data_history_depth r) (data_history_i r) (queue r) ->
       exists r',
         drain (queue r) false r = (Ok false, r')
         /\ read_board rotate180 r
            = (Ok (if rotate180 then str_reverse (board_fen r) else board_fen r), r')
         /\ board_fen r' = board_fen r).
Proof.
  split.
  - intros inbound file r0 events rot Hinit Hn.
    assert (He : early (length inbound + arrived events) (after_all events r0)).
    { apply after_all_early; [|exact Hn]. apply (init_early inbound file); [exact Hinit | lia]. }
    destruct (read_board_early _ _ rot He) as (r' & Hrun & _). eauto.
  - intros r rot Hrep.
    destruct (update_repeats r Hrep) as (r' & Hdrain & Hrun & _ & Hfen & _).
    exists r'. split; [exact Hdrain|]. split; [|exact Hfen].
    unfold read_board, mbind, get, ret. rewrite Hrun, Hfen. reflexivity.
Qed.

Lemma snapshot_needs_three_frames_witness :
  __init__ [start_frame] Missing = Ok one_frame_reader
  /\ exists r',
       read_board true
         (after_all [ReadBoard false; Arrive [e4_frame]; Calibration true; DoCalibration false]
                    one_frame_reader)
       = (Ok (str_reverse STARTING_BOARD_FEN), r').
Proof.
  assert (Hinit : __init__ [start_frame] Missing = Ok one_frame_reader)
    by (vm_compute; reflexivity).
  split; [exact Hinit|].
  destruct snapshot_needs_three_frames as [Hearly _].
  apply (Hearly [start_frame] Missing one_frame_reader
           [ReadBoard false; Arrive [e4_frame]; Calibration true; DoCalibration false]
           true Hinit).
  simpl. lia.
Defined.

(** With a third frame the snapshot is computed, by majority over the three
    slots: one frame with the pawn on e4 against two of the starting
    position reads the starting position, two against one read the pawn on
    e4. *)
Example third_frame_decodes :
  fst (read_board false
         (after_all [ReadBoard false; Arrive [start_frame; e4_frame]]
                    (constructed (__init__ [start_frame]
                                    (Stored (CalibrationData calibration_data))))))
  = Ok "rnbqkbnr/pppppppp/8/8/8/8/PPPPPPPP/RNBQKBNR"
  /\ fst (read_board false
            (after_all [ReadBoard false; Arrive [e4_frame; e4_frame]]
                       (constructed (__init__ [start_frame]
                                       (Stored (CalibrationData calibration_data))))))
     = Ok "rnbqkbnr/pppppppp/8/8/4P3/8/PPPP1PPP/RNBQKBNR".
Proof. split; vm_compute; reflexivity. Qed.

End SnapshotClaims.

(** ** Calibration *)

Section CalibrationFacts.
Import UsbReader ReaderSpec.

#[local] Instance same_mapping_refl : Reflexive same_mapping.
Proof. intros r. reflexivity. Qed.

#[local] Instance same_mapping_trans : Transitive same_mapping.
Proof. intros a b c Hab Hbc. unfold same_mapping in *. congruence. Qed.

#[local] Instance stays_clean_refl : Reflexive stays_clean.
Proof. intros r H. exact H. Qed.

#[local] Instance stays_clean_trans : Transitive stays_clean.
Proof. intros a b c Hab Hbc H. apply Hbc, Hab, H. Qed.

#[local] Instance grows_clean_refl : Reflexive grows_clean.
Proof. intros m H. exact H. Qed.

#[local] Instance grows_clean_trans : Transitive grows_clean.
Proof. intros a b c Hab Hbc H. apply Hbc, Hab, H. Qed.

Lemma keeps_weaken {S A : Type} (R R' : S -> S -> Prop) (m : M S A) :
  (forall s s', R s s' -> R' s s') -> keeps R m -> keeps R' m.
Proof. intros Himp Hm s. apply Himp, Hm. Qed.

Lemma same_mapping_stays_clean {A : Type} (m : M usb_reader A) :
  keeps same_mapping m -> keeps stays_clean m.
Proof.
  apply keeps_weaken. intros s s' Hsame Hclean. unfold same_mapping in Hsame.
  rewrite Hsame. exact Hclean.
Qed.

(** The methods that have no business with the learned mapping. *)
Lemma store_frame_same_mapping (data : string) (changed : bool) :
  keeps same_mapping (store_frame data changed).
Proof. unfold store_frame. keeps_body; keeps_assign. Qed.

Lemma drain_same_mapping (frames : list string) (changed : bool) :
  keeps same_mapping (drain frames changed).
Proof.
  revert changed. induction frames as [|data rest IH]; intros changed; simpl.
  - keeps_step.
  - keeps_step; [keeps_assign|]. keeps_step; [apply store_frame_same_mapping | apply IH].
Qed.

Lemma data_to_fen_same_mapping : keeps same_mapping data_to_fen.
Proof. unfold data_to_fen, decode_cell. keeps_body; keeps_assign. Qed.

Lemma update_same_mapping : keeps same_mapping update.
Proof.
  unfold update. keeps_body;
    first [apply drain_same_mapping | apply data_to_fen_same_mapping].
Qed.

Lemma read_board_same_mapping (rotate180 : bool) : keeps same_mapping (read_board rotate180).
Proof. unfold read_board. keeps_body. apply update_same_mapping. Qed.

Lemma load_piece_codes_same_mapping : keeps same_mapping load_piece_codes.
Proof. unfold load_piece_codes. keeps_body; keeps_assign. Qed.

Lemma most_common_code_same_mapping (data_history : list (list string)) (sl : Z * Z) :
  keeps same_mapping (most_common_code data_history sl).
Proof. unfold most_common_code. keeps_body; keeps_assign. Qed.

(** A code made of zeros sums to zero. *)
Lemma sum_all_zero (code : list Z) : all_zero code -> sum code = 0.
Proof.
  intros Hz. unfold sum. generalize 0 as acc.
  induction code as [|v code IH]; intros acc; [reflexivity|].
  apply Forall_cons in Hz as [-> Hz]. simpl. rewrite Z.add_0_r. apply IH, Hz.
Qed.

Lemma add_mapping_run (board_reading : list Z) (key : string) (cell_index : Z)
    (m : gmap string (list (list Z))) :
  add_mapping board_reading key cell_index m
  = match index cell_slice_mapping cell_index with
    | Raise e => (Raise e, m)
    | Ok sl =>
        let code := apply_slice board_reading sl in
        match m !! key with
        | None => (Raise KeyError, m)
        | Some codes =>
            if negb (sum code =? 0) && negb (bool_decide (code ∈ codes))
            then (Ok tt, <[key := codes ++ [code]]> m)
            else (Ok tt, m)
        end
    end.
Proof.
  unfold add_mapping, mbind, lift, gets, raise, modify, ret.
  destruct (index cell_slice_mapping cell_index) as [sl|e]; [|reflexivity].
  simpl. destruct (m !! key) as [codes|]; [|reflexivity].
  destruct (negb _ && negb _); reflexivity.
Qed.

Lemma add_mapping_grows_clean (board_reading : list Z) (key : string) (cell_index : Z) :
  keeps grows_clean (add_mapping board_reading key cell_index).
Proof.
  intros m Hclean. rewrite add_mapping_run.
  destruct (index cell_slice_mapping cell_index) as [sl|e]; [|exact Hclean].
  cbv zeta. destruct (m !! key) as [codes|] eqn:Hkey; [|exact Hclean].
  destruct (Z.eqb_spec (sum (apply_slice board_reading sl)) 0) as [|Hsum];
    [exact Hclean|].
  destruct (bool_decide_reflect (apply_slice board_reading sl ∈ codes)) as [|Hnew];
    [exact Hclean|].
  simpl. intros key' codes' Hlookup.
  destruct (decide (key = key')) as [<-|Hother].
  - rewrite lookup_insert_eq in Hlookup. injection Hlookup as <-.
    destruct (Hclean key codes Hkey) as [Hnd Hnz]. split.
    + apply NoDup_app. split; [exact Hnd|]. split; [|apply NoDup_singleton].
      intros x Hx Hx'. apply list_elem_of_singleton in Hx'. subst x. contradiction.
    + apply Forall_app. split; [exact Hnz|]. constructor; [|constructor].
      intros Hzero. apply Hsum, sum_all_zero, Hzero.
  - rewrite lookup_insert_ne in Hlookup by exact Hother. apply (Hclean _ _ Hlookup).
Qed.

Lemma step2_grows_clean (board_reading : list Z) : keeps grows_clean (step2 board_reading).
Proof.
  unfold step2. keeps_step. apply add_mapping_grows_clean.
Qed.

Lemma empty_calibration_mapping_clean : clean empty_calibration_mapping.
Proof.
  intros key codes Hlookup.
  assert (Hnil : codes = []).
  { unfold empty_calibration_mapping in Hlookup.
    apply elem_of_list_to_map_2, list_elem_of_fmap in Hlookup as (letter & Heq & _).
    injection Heq as _ ->. reflexivity. }
  subst codes. split; constructor.
Qed.

(** A pass leaves a clean mapping clean, whether it ends or raises. *)
Lemma do_calibration_stays_clean (new_setup : bool) :
  keeps stays_clean (do_calibration new_setup).
Proof.
  intros r Hclean. unfold do_calibration, mbind, get, lift.
  destruct (mapM tokens (calibration_samples r)) as [data_history|e]; [|exact Hclean].
  pose proof (keeps_mapM_st same_mapping (most_common_code data_history)
                cell_slice_mapping (most_common_code_same_mapping data_history) r) as Hkeys.
  destruct (mapM_st (most_common_code data_history) cell_slice_mapping r)
    as [[keys|e] r1]; simpl in Hkeys; unfold same_mapping in Hkeys;
    [|simpl; rewrite Hkeys; exact Hclean].
  destruct (mapM int (flat_map items keys)) as [board_reading|e];
    [|simpl; rewrite Hkeys; exact Hclean].
  destruct new_setup.
  - pose proof (step2_grows_clean board_reading empty_calibration_mapping
                  empty_calibration_mapping_clean) as Hstep.
    destruct (step2 board_reading empty_calibration_mapping) as [[u|e] m];
      simpl in Hstep |- *; [|rewrite Hkeys; exact Hclean].
    destruct (calibration_data_of m); simpl; [exact Hstep | rewrite Hkeys; exact Hclean].
  - rewrite <- Hkeys in Hclean.
    pose proof (step2_grows_clean board_reading (calibration_mapping r1) Hclean) as Hstep.
    destruct (step2 board_reading (calibration_mapping r1)) as [[u|e] m];
      simpl in Hstep |- *; [|exact Hstep].
    destruct (calibration_data_of m); simpl; exact Hstep.
Qed.

Lemma calibration_stays_clean (new_setup : bool) :
  keeps stays_clean (calibration new_setup).
Proof.
  unfold calibration. keeps_body;
    first [ apply do_calibration_stays_clean
          | apply same_mapping_stays_clean, load_piece_codes_same_mapping
          | apply same_mapping_stays_clean, data_to_fen_same_mapping
          | apply keeps_modify; intros ? H; exact H ].
Qed.

Lemma after_stays_clean (e : event) (r : usb_reader) : stays_clean r (after e r).
Proof.
  destruct e as [frames|rot|ns|ns|b]; simpl.
  - intros H. exact H.
  - apply (same_mapping_stays_clean _ (read_board_same_mapping rot)).
  - apply calibration_stays_clean.
  - apply do_calibration_stays_clean.
  - intros H. exact H.
Qed.

Lemma after_all_stays_clean (events : list event) (r : usb_reader) :
  stays_clean r (after_all events r).
Proof.
  revert r. induction events as [|e events IH]; intros r H; [exact H|].
  simpl. apply IH, after_stays_clean, H.
Qed.

Lemma init_mapping (inbound : list string) (file : calibration_file) (r : usb_reader) :
  __init__ inbound file = Ok r -> calibration_mapping r = empty_calibration_mapping.
Proof.
  unfold __init__, load_piece_codes, mbind, get, modify, lift. simpl.
  destruct file as [| |[|data]]; simpl; intros Hinit; try discriminate Hinit;
    injection Hinit as <-; reflexivity.
Qed.

End CalibrationFacts.

Section CalibrationClaims.
Import UsbReader ReaderSpec Sample.

(** C5: at a calibration square, a code that is all zeros or already in the
    list of the piece is not appended; every step of a pass keeps the
    mapping clean; and after any sequence of frames, polls and calibration
    passes since construction every recorded code is not all zeros and
    occurs once in its list. *)
Theorem calibration_records_clean_codes :
  (forall (board_reading : list Z) (key : string) (cell_index : Z)
          (m : gmap string (list (list Z))) (sl : Z * Z) (codes : list (list Z)),
     index cell_slice_mapping cell_index = Ok sl ->
     m !! key = Some codes ->
     all_zero (apply_slice board_reading sl) \/ apply_slice board_reading sl ∈ codes ->
     add_mapping board_reading key cell_index m = (Ok tt, m))
  /\ (forall (board_reading : list Z) (key : string) (cell_index : Z)
             (m : gmap string (list (list Z))),
       clean m -> clean (snd (add_mapping board_reading key cell_index m)))
  /\ (forall (new_setup : bool) (r : usb_reader),
       clean (calibration_mapping r) ->
       clean (calibration_mapping (snd (do_calibration new_setup r))))
  /\ (forall (inbound : list string) (file : calibration_file) (r0 : usb_reader)
             (events : list event),
       __init__ inbound file = Ok r0 ->
       clean (calibration_mapping (after_all events r0))).
Proof.
  split; [|split; [|split]].
  - intros board_reading key cell_index m sl codes Hsl Hkey Hskip.
    rewrite add_mapping_run, Hsl. cbv zeta. rewrite Hkey.
    destruct Hskip as [Hzero|Hdup].
    + rewrite (sum_all_zero _ Hzero). reflexivity.
    + rewrite (bool_decide_eq_true_2 _ Hdup), andb_false_r. reflexivity.
  - intros board_reading key cell_index m. apply add_mapping_grows_clean.
  - intros new_setup r. apply do_calibration_stays_clean.
  - intros inbound file r0 events Hinit.
    assert (H0 : clean (calibration_mapping r0)).
    { rewrite (init_mapping inbound file r0 Hinit). apply empty_calibration_mapping_clean. }
    apply after_all_stays_clean, H0.
Qed.

Lemma calibration_records_clean_codes_witness :
  __init__ [] Missing = Ok uncalibrated_reader
  /\ clean (calibration_mapping (after_all (calibration_rounds 30) uncalibrated_reader)).
Proof.
  assert (Hinit : __init__ [] Missing = Ok uncalibrated_reader) by (vm_compute; reflexivity).
  split; [exact Hinit|].
  destruct calibration_records_clean_codes as (_ & _ & _ & Hall).
  apply (Hall [] Missing uncalibrated_reader (calibration_rounds 30) Hinit).
Defined.

(** A calibration session on the sample board: after enough rounds the
    pass has run, each piece kind has learned its one code, and the
    snapshot shows the calibration position. *)
Example calibration_session :
  let r := after_all (calibration_rounds 30) uncalibrated_reader in
  map (fun key => calibration_mapping r !! key) code_mapping_order
  = map (fun n => Some [[n; 0; 0; 0; 0]]) [1; 2; 3; 4; 5; 6; 7; 8; 9; 10; 11; 12]
  /\ disk r = Stored (CalibrationData calibration_data)
  /\ needs_calibration r = false
  /\ board_fen r = "rnbqkbnr/pppppppp/3q4/8/8/3Q4/PPPPPPPP/RNBQKBNR".
Proof. vm_compute. repeat split. Qed.

End CalibrationClaims.

Section LoadingClaims.
Import UsbReader ReaderSpec Sample.

(** C4 (amended): loading tolerates a missing calibration file: the file is
    created, the reader marks itself as needing calibration and its mapping
    holds the all-zero code alone, mapped to the empty square. A stored file
    is loaded, the all-zero code added, the flag untouched. A file that
    [pickle.load] cannot read makes loading raise, leaving mapping and flag
    as they were, and the constructor fails with it. *)
Theorem load_piece_codes_by_file :
  (forall r : usb_reader,
     disk r = Missing ->
     load_piece_codes r
     = (Ok tt, set_code_mapping (<[zero_code := "."]> ∅)
                 (set_disk (Stored EmptyDict) (set_needs_calibration true r))))
  /\ (forall (r : usb_reader) (content : pickled),
       disk r = Stored content ->
       exists mapping,
         load_piece_codes r = (Ok tt, set_code_mapping mapping r)
         /\ mapping !! zero_code = Some ".")
  /\ (forall r : usb_reader,
       disk r = Unreadable -> load_piece_codes r = (Raise UnpicklingError, r))
  /\ (forall inbound : list string,
       __init__ inbound Unreadable = Raise UnpicklingError
       /\ exists r, __init__ inbound Missing = Ok r
                    /\ needs_calibration r = true
                    /\ code_mapping r = <[zero_code := "."]> ∅).
Proof.
  split; [|split; [|split]].
  - intros r Hdisk. unfold load_piece_codes, mbind, get, modify, lift.
    rewrite Hdisk. reflexivity.
  - intros r content Hdisk. unfold load_piece_codes, mbind, get, modify, lift.
    rewrite Hdisk. simpl. rewrite Hdisk.
    destruct content as [|data]; simpl; eexists; (split; [reflexivity|]);
      apply lookup_insert_eq.
  - intros r Hdisk. unfold load_piece_codes, mbind, get, modify, lift.
    rewrite Hdisk. simpl. rewrite Hdisk. reflexivity.
  - intros inbound. split; [reflexivity|]. eexists. split; [reflexivity|].
    split; reflexivity.
Qed.

Lemma load_piece_codes_by_file_witness :
  disk uncalibrated_reader = Stored EmptyDict
  /\ exists mapping,
       load_piece_codes uncalibrated_reader
       = (Ok tt, set_code_mapping mapping uncalibrated_reader)
       /\ mapping !! zero_code = Some ".".
Proof.
  assert (Hdisk : disk uncalibrated_reader = Stored EmptyDict) by reflexivity.
  split; [exact Hdisk|].
  destruct load_piece_codes_by_file as (_ & Hstored & _).
  apply (Hstored uncalibrated_reader EmptyDict Hdisk).
Defined.

(** C4, counterexample: with an unreadable file the constructor raises; and
    a calibrated reader whose file has become unreadable fails to reload,
    keeping its mapping (where the code 7 still means a white pawn) and
    not asking for calibration. *)
Lemma unreadable_file_is_fatal :
  __init__ [] Unreadable = Raise UnpicklingError
  /\ load_piece_codes (set_disk Unreadable calibrated_reader)
     = (Raise UnpicklingError, set_disk Unreadable calibrated_reader)
  /\ needs_calibration (set_disk Unreadable calibrated_reader) = false
  /\ code_mapping (set_disk Unreadable calibrated_reader) !! ["7"; "0"; "0"; "0"; "0"]
     = Some "P".
Proof.
  split; [reflexivity|]. split; [|split; vm_compute; reflexivity].
  unfold load_piece_codes, mbind, get, modify, lift. reflexivity.
Qed.

End LoadingClaims.

(** ** LED calls made by the gesture protocol *)

Section NamedPatterns.
Import LedManager LedSpec.

(** [set_leds] with the name of a pattern never raises. *)
Lemma set_leds_named (m : led_manager) (name : string) (frame : list Z) (rotate180 : bool) :
  table_of_init m -> named_pattern name = Some frame ->
  set_leds (MsgStr name) rotate180 m
  = (Ok tt, if decide (Some (MsgStr name) ≠ last_message m)
            then put frame (set_last_message (Some (MsgStr name)) m)
            else m).
Proof.
  intros Htab Hname. rewrite set_leds_unfold.
  destruct (decide (Some (MsgStr name) ≠ last_message m)); [|reflexivity].
  rewrite encode_text, (table_lookup m name Htab), Hname.
  destruct (named_pattern_frame name frame Hname) as [_ Hrange].
  rewrite (bytes_in_range frame Hrange). reflexivity.
Qed.

Lemma set_leds_named_ok (m : led_manager) (name : string) (frame : list Z)
    (rotate180 : bool) :
  table_of_init m -> named_pattern name = Some frame ->
  exists m', set_leds (MsgStr name) rotate180 m = (Ok tt, m')
             /\ table_of_init m'
             /\ last_flash_message m' = last_flash_message m
             /\ flash_clock m' = flash_clock m.
Proof.
  intros Htab Hname. rewrite (set_leds_named m name frame rotate180 Htab Hname).
  eexists. split; [reflexivity|]. destruct (decide _); simpl; auto.
Qed.

(** [flash_leds] with the name of a pattern never raises on a well-formed
    manager, and leaves it well formed. *)
Lemma flash_leds_named (w : led_world) (name : string) (frame : list Z) (rotate180 : bool) :
  well_formed w -> named_pattern name = Some frame ->
  exists w', flash_leds (MsgStr name) rotate180 w = (Ok tt, w') /\ well_formed w'.
Proof.
  intros [Htab Hclock] Hname.
  assert (Hnone : named_pattern "none" = Some (replicate 8 0)) by reflexivity.
  unfold flash_leds, mbind, gets, time, mgr_do, zoom, modify, raise, ret. simpl.
  destruct (decide (last_flash_message (mgr w) ≠ Some (MsgStr name))) as [Hnew|Hsame].
  - simpl.
    destruct (set_leds_named_ok (set_flash (Some (MsgStr name))
                                   (Some (time_time w (time_reads w))) 0 (mgr w))
                name frame false Htab Hname) as (m' & Hrun & Htab' & Hflash & Hclock').
    rewrite Hrun. eexists. split; [reflexivity|].
    split; simpl; [exact Htab'|]. rewrite Hclock'. discriminate.
  - destruct (flash_clock (mgr w)) as [clock|] eqn:Hfc.
    + destruct (Qlt_le_dec (flash_frequency (mgr w)) (time_time w (time_reads w) - clock)).
      * simpl.
        set (m1 := set_flash (last_flash_message (mgr w))
                     (Some (time_time w (time_reads w))) (counter (mgr w) + 1) (mgr w)).
        assert (Htab1 : table_of_init m1) by exact Htab.
        destruct ((counter (mgr w) + 1) mod 2 =? 0).
        -- destruct (set_leds_named_ok m1 name frame rotate180 Htab1 Hname)
             as (m' & Hrun & Htab' & Hflash & Hclock').
           rewrite Hrun. eexists. split; [reflexivity|].
           split; simpl; [exact Htab'|]. rewrite Hclock'. discriminate.
        -- destruct (set_leds_named_ok m1 "none" _ rotate180 Htab1 Hnone)
             as (m' & Hrun & Htab' & Hflash & Hclock').
           rewrite Hrun. eexists. split; [reflexivity|].
           split; simpl; [exact Htab'|]. rewrite Hclock'. discriminate.
      * eexists. split; [reflexivity|]. split; simpl; [exact Htab|].
        rewrite Hfc. discriminate.
    + exfalso. apply Hclock; [|reflexivity].
      destruct (decide (last_flash_message (mgr w) = Some (MsgStr name))) as [->|Hne];
        [discriminate | contradiction].
Qed.

End NamedPatterns.

(** ** The gesture protocol *)

Section Gestures.
Import PicoChess GestureSpec LedSpec.

#[global] Instance exit_only_refl : Reflexive exit_only.
Proof. intros p. repeat split. apply Nat.le_refl. Qed.

#[global] Instance exit_only_trans : Transitive exit_only.
Proof.
  intros a b c Hab Hbc. unfold exit_only in *.
  repeat match goal with H : _ /\ _ |- _ => destruct H end.
  repeat split; try congruence. etransitivity; eassumption.
Qed.

Lemma pico_set_leds_named (p : pico_chess) (name : string) (frame : list Z) :
  well_formed (led p) -> named_pattern name = Some frame ->
  exists w',
    led_manager_set_leds (MsgStr name) p = (Ok tt, set_led w' p)
    /\ well_formed w'
    /\ LedManager.mgr w'
       = (if decide (Some (MsgStr name) ≠ LedManager.last_message (LedManager.mgr (led p)))
          then LedManager.put frame
                 (LedManager.set_last_message (Some (MsgStr name)) (LedManager.mgr (led p)))
          else LedManager.mgr (led p)).
Proof.
  intros [Htab Hclock] Hname.
  unfold led_manager_set_leds, LedManager.mgr_do, zoom.
  rewrite (set_leds_named _ name frame false Htab Hname).
  eexists. split; [reflexivity|]. split; [|reflexivity].
  split; simpl; destruct (decide _); simpl; auto.
Qed.

Lemma pico_flash_leds_named (p : pico_chess) (name : string) (frame : list Z) :
  well_formed (led p) -> named_pattern name = Some frame ->
  exists w', led_manager_flash_leds (MsgStr name) p = (Ok tt, set_led w' p)
             /\ well_formed w'.
Proof.
  intros Hwf Hname. unfold led_manager_flash_leds, zoom.
  destruct (flash_leds_named (led p) name frame false Hwf Hname) as (w' & -> & Hwf').
  exists w'. split; [reflexivity | exact Hwf'].
Qed.

Lemma led_call_exit_only {A : Type} (m : M LedManager.led_world A) :
  keeps exit_only (zoom led set_led m).
Proof.
  intros p. unfold zoom. destruct (m (led p)) as [r w']. simpl.
  repeat split. apply Nat.le_refl.
Qed.

Lemma get_ticks_exit_only : keeps exit_only get_ticks.
Proof. intros p. unfold exit_only, get_ticks. simpl. repeat split; lia. Qed.

Lemma check_exit_exit_only (board_state type_ : string) :
  keeps exit_only (check_exit board_state type_).
Proof.
  unfold check_exit, led_manager_set_leds, led_manager_flash_leds.
  keeps_body;
    first [ apply get_ticks_exit_only
          | apply led_call_exit_only
          | apply keeps_modify; intros ?; repeat split; apply Nat.le_refl ].
Qed.

(** The test the code makes on the kings is the exit pattern. *)
Lemma exit_pattern_test (type_ board_state : string) :
  (if bool_decide (type_ = "game")
   then bool_decide (central_ranks board_state ∈ ["4k3/3k4"; "3k4/4k3"])
   else bool_decide (central_ranks board_state ∈ ["4k3/4k3"; "3k4/3k4"]))
  = true <-> exit_pattern type_ board_state.
Proof.
  unfold exit_pattern.
  destruct (bool_decide_reflect (type_ = "game")) as [Hg|Hg];
    destruct (decide (type_ = "game")); try contradiction;
    rewrite bool_decide_eq_true; reflexivity.
Qed.

(** [check_exit], case by case. *)
Lemma check_exit_switched_off (board_state type_ : string) (p : pico_chess) :
  on p = false -> check_exit board_state type_ p = (Ok 0, p).
Proof. intros Hon. unfold check_exit, mbind, get, ret. rewrite Hon. reflexivity. Qed.

Lemma check_exit_idle (board_state type_ : string) (p : pico_chess) :
  on p = true -> exit_command p !! type_ = Some false ->
  ~ exit_pattern type_ board_state ->
  check_exit board_state type_ p = (Ok 0, set_ticks_read (S (ticks_read p)) p).
Proof.
  intros Hon Hflag Hpat.
  assert (Hkings : (if bool_decide (type_ = "game")
                    then bool_decide (central_ranks board_state ∈ ["4k3/3k4"; "3k4/4k3"])
                    else bool_decide (central_ranks board_state ∈ ["4k3/4k3"; "3k4/3k4"]))
                   = false)
    by (apply not_true_is_false; intros H; apply Hpat, exit_pattern_test, H).
  unfold check_exit, mbind, get, get_ticks, lift, ret, modify, raise. rewrite Hon.
  simpl. rewrite Hflag. fold (central_ranks board_state). rewrite Hkings.
  destruct (_ <? _); simpl; rewrite Hflag; reflexivity.
Qed.

Lemma check_exit_initiate (board_state type_ : string) (p : pico_chess) :
  on p = true -> exit_command p !! type_ = Some false ->
  exit_pattern type_ board_state ->
  exists p',
    check_exit board_state type_ p = (Ok 1, p')
    /\ exit_command p' !! type_ = Some true
    /\ last_exit_command_time p'
       = ticks p (S (ticks_read p)) + (5000 - wait_between_commands p)
    /\ led p' = led p.
Proof.
  intros Hon Hflag Hpat. apply exit_pattern_test in Hpat as Hkings.
  unfold check_exit, mbind, get, get_ticks, lift, ret, modify, raise. rewrite Hon.
  simpl. rewrite Hflag. fold (central_ranks board_state). rewrite Hkings.
  destruct (_ <? _); simpl; rewrite Hflag; simpl;
    (eexists; split; [reflexivity|]; simpl; split; [apply lookup_insert_eq|];
     split; reflexivity).
Qed.

Lemma check_exit_hold (board_state type_ : string) (p : pico_chess) :
  on p = true -> well_formed (led p) -> exit_command p !! type_ = Some true ->
  counting_down p -> exit_pattern type_ board_state ->
  exists p',
    check_exit board_state type_ p = (Ok 1, p')
    /\ exit_command p' !! type_ = Some true
    /\ last_exit_command_time p' = last_exit_command_time p
    /\ well_formed (led p').
Proof.
  intros Hon Hwf Hflag Hwin Hpat. apply exit_pattern_test in Hpat as Hkings.
  unfold counting_down in Hwin. apply Z.ltb_lt in Hwin.
  unfold check_exit, mbind, get, get_ticks, lift, ret, modify, raise. rewrite Hon.
  simpl. rewrite Hwin. simpl. rewrite Hflag. simpl.
  fold (central_ranks board_state). rewrite Hkings.
  destruct (pico_flash_leds_named (set_ticks_read (S (ticks_read p)) p) "all"
              (replicate 8 255) Hwf eq_refl) as (w' & -> & Hwf').
  eexists. split; [reflexivity|]. simpl. auto.
Qed.

Lemma check_exit_abort (board_state type_ : string) (p : pico_chess) :
  on p = true -> well_formed (led p) -> exit_command p !! type_ = Some true ->
  counting_down p -> ~ exit_pattern type_ board_state ->
  exists p',
    check_exit board_state type_ p = (Ok 1, p')
    /\ exit_command p' !! type_ = Some false
    /\ leds_cleared (LedManager.mgr (led p)) (LedManager.mgr (led p'))
    /\ well_formed (led p').
Proof.
  intros Hon Hwf Hflag Hwin Hpat.
  assert (Hkings : (if bool_decide (type_ = "game")
                    then bool_decide (central_ranks board_state ∈ ["4k3/3k4"; "3k4/4k3"])
                    else bool_decide (central_ranks board_state ∈ ["4k3/4k3"; "3k4/3k4"]))
                   = false)
    by (apply not_true_is_false; intros H; apply Hpat, exit_pattern_test, H).
  unfold counting_down in Hwin. apply Z.ltb_lt in Hwin.
  unfold check_exit, mbind, get, get_ticks, lift, ret, modify, raise. rewrite Hon.
  simpl. rewrite Hwin. simpl. rewrite Hflag. simpl.
  fold (central_ranks board_state). rewrite Hkings.
  destruct (pico_set_leds_named (set_ticks_read (S (ticks_read p)) p) "none"
              (replicate 8 0) Hwf eq_refl) as (w' & -> & Hwf' & Hmgr).
  eexists. split; [reflexivity|]. simpl.
  split; [apply lookup_insert_eq|]. split; [|exact Hwf'].
  rewrite Hmgr. simpl. unfold leds_cleared.
  destruct (decide (Some (MsgStr "none") ≠ LedManager.last_message (LedManager.mgr (led p))))
    as [Hnew|Hsame];
    destruct (decide (LedManager.last_message (LedManager.mgr (led p)) = Some (MsgStr "none")))
    as [Heq|Hne]; simpl; try (split; reflexivity); try congruence.
  - split; [symmetry|reflexivity].
    destruct (decide (Some (MsgStr "none") = LedManager.last_message (LedManager.mgr (led p))));
      [assumption | contradiction].
  - exfalso. apply Hsame. congruence.
Qed.

Lemma check_exit_confirm (board_state type_ : string) (p : pico_chess) :
  on p = true -> exit_command p !! type_ = Some true -> ~ counting_down p ->
  exists p',
    check_exit board_state type_ p = (Ok 2, p')
    /\ exit_command p' !! type_ = Some false.
Proof.
  intros Hon Hflag Hwin.
  unfold counting_down in Hwin. apply Z.ltb_nlt in Hwin.
  unfold check_exit, mbind, get, get_ticks, lift, ret, modify, raise. rewrite Hon.
  simpl. rewrite Hwin. simpl. rewrite Hflag. simpl.
  eexists. split; [reflexivity|]. apply lookup_insert_eq.
Qed.

(** An exit is reported only when the flag was set and the countdown is
    over. *)
Lemma check_exit_confirms_only (board_state type_ : string) (p p' : pico_chess) :
  check_exit board_state type_ p = (Ok 2, p') ->
  exit_command p !! type_ = Some true /\ ~ counting_down p.
Proof.
  destruct (on p) eqn:Hon;
    [|rewrite (check_exit_switched_off _ _ _ Hon); intros H; discriminate H].
  unfold counting_down.
  destruct (Z.ltb_spec (ticks p (ticks_read p) - last_exit_command_time p)
                       (wait_between_commands p)) as [Hin|Hout];
    [apply Z.ltb_lt in Hin as Hwin | apply Z.ltb_ge in Hout as Hwin];
    destruct (exit_command p !! type_) as [[|]|] eqn:Hflag;
    unfold check_exit, mbind, get, get_ticks, lift, ret, modify, raise;
    rewrite Hon; simpl; rewrite Hwin; simpl; rewrite ?Hflag; simpl; rewrite ?Hflag; simpl;
    try (intros H; discriminate H).
  - destruct (if bool_decide (type_ = "game") then _ else _).
    + destruct (led_manager_flash_leds _ _) as [[u|e] q]; intros H; discriminate H.
    + destruct (led_manager_set_leds _ _) as [[u|e] q]; intros H; discriminate H.
  - destruct (if bool_decide (type_ = "game") then _ else _); intros H; discriminate H.
  - intros _. split; [reflexivity | lia].
  - destruct (if bool_decide (type_ = "game") then _ else _); intros H; discriminate H.
Qed.

End Gestures.

Section ExitClaims.
Import PicoChess GestureSpec LedSpec.

(** C9 (amended): with both kings in the exit pattern and no exit pending,
    [check_exit] starts a countdown. While it runs, a poll that finds the
    pattern in place keeps it running, and a poll that finds it broken
    aborts it: the flag is cleared and the LEDs are cleared. The first poll
    after the countdown, with the flag still set, reports the exit without
    looking at the board; and an exit is reported in no other case. *)
Theorem exit_countdown (p : pico_chess) (board_state type_ : string) :
  on p = true -> well_formed (led p) ->
  (exit_command p !! type_ = Some false -> exit_pattern type_ board_state ->
   exists p',
     check_exit board_state type_ p = (Ok 1, p')
     /\ exit_command p' !! type_ = Some true
     /\ last_exit_command_time p'
        = ticks p (S (ticks_read p)) + (5000 - wait_between_commands p))
  /\ (exit_command p !! type_ = Some true -> counting_down p ->
      exit_pattern type_ board_state ->
      exists p',
        check_exit board_state type_ p = (Ok 1, p')
        /\ exit_command p' !! type_ = Some true
        /\ last_exit_command_time p' = last_exit_command_time p)
  /\ (exit_command p !! type_ = Some true -> counting_down p ->
      ~ exit_pattern type_ board_state ->
      exists p',
        check_exit board_state type_ p = (Ok 1, p')
        /\ exit_command p' !! type_ = Some false
        /\ leds_cleared (LedManager.mgr (led p)) (LedManager.mgr (led p')))
  /\ (exit_command p !! type_ = Some true -> ~ counting_down p ->
      exists p',
        check_exit board_state type_ p = (Ok 2, p')
        /\ exit_command p' !! type_ = Some false)
  /\ (forall p', check_exit board_state type_ p = (Ok 2, p') ->
                 exit_command p !! type_ = Some true /\ ~ counting_down p).
Proof.
  intros Hon Hwf. split; [|split; [|split; [|split]]].
  - intros Hflag Hpat.
    destruct (check_exit_initiate board_state type_ p Hon Hflag Hpat)
      as (p' & Hrun & Hset & Htime & _). eauto.
  - intros Hflag Hwin Hpat.
    destruct (check_exit_hold board_state type_ p Hon Hwf Hflag Hwin Hpat)
      as (p' & Hrun & Hset & Htime & _). eauto.
  - intros Hflag Hwin Hpat.
    destruct (check_exit_abort board_state type_ p Hon Hwf Hflag Hwin Hpat)
      as (p' & Hrun & Hset & Hleds & _). eauto.
  - intros Hflag Hwin. apply (check_exit_confirm board_state type_ p Hon Hflag Hwin).
  - intros p'. apply check_exit_confirms_only.
Qed.

Lemma fresh_world_well_formed (clock : nat -> Q) : well_formed (fresh_world clock).
Proof.
  split; simpl; [exact fresh_manager_table|].
  unfold fresh_manager. destruct init_table as (m0 & -> & _ & _ & _ & Hflash).
  rewrite Hflash. intros H. contradiction.
Qed.

Lemma exit_countdown_witness :
  on (fresh late_clock) = true
  /\ exit_command (fresh late_clock) !! "game" = Some false
  /\ exit_pattern "game" exit_game_board
  /\ exists p',
       check_exit exit_game_board "game" (fresh late_clock) = (Ok 1, p')
       /\ exit_command p' !! "game" = Some true
       /\ last_exit_command_time p'
          = ticks (fresh late_clock) (S (ticks_read (fresh late_clock)))
            + (5000 - wait_between_commands (fresh late_clock)).
Proof.
  assert (Hpat : exit_pattern "game" exit_game_board)
    by (apply (bool_decide_unpack _); vm_compute; exact I).
  split; [reflexivity|]. split; [reflexivity|]. split; [exact Hpat|].
  destruct (exit_countdown (fresh late_clock) exit_game_board "game" eq_refl
              (fresh_world_well_formed _)) as (Hstart & _).
  apply Hstart; [reflexivity | exact Hpat].
Defined.

(** C9, counterexample: the kings are put in the exit pattern and the game
    exit is initiated; the next poll comes after the countdown and finds
    the kings back home, and it reports the exit all the same. *)
Lemma exit_confirmed_on_broken_pattern :
  fst (check_exit exit_game_board "game" (fresh late_clock)) = Ok 1
  /\ fst (check_exit kings_home_board "game"
            (snd (check_exit exit_game_board "game" (fresh late_clock)))) = Ok 2
  /\ ~ exit_pattern "game" kings_home_board.
Proof.
  split; [vm_compute; reflexivity|]. split; [vm_compute; reflexivity|].
  apply (bool_decide_eq_false_1 _). vm_compute. reflexivity.
Qed.

End ExitClaims.

Section Debounce.
Import PicoChess GestureSpec LedSpec.
Context `{E : RuleEngine}.

Lemma led_call_state {A : Type} (m : M LedManager.led_world A) (p : pico_chess) :
  snd (zoom led set_led m p) = set_led (snd (m (led p))) p.
Proof. unfold zoom. destruct (m (led p)). reflexivity. Qed.

(** Inside the window the new game screen only looks after its LEDs. *)
Lemma new_game_window_debounced (board_state : string)
    (settings : option (gmap string setting)) (p : pico_chess) :
  well_formed (led p) -> debounced p ->
  exists p',
    new_game_window board_state settings p = (Ok (NewGame settings false), p')
    /\ last_command_time p' = last_command_time p
    /\ start_game p' = start_game p.
Proof.
  intros Hwf Hdeb. unfold debounced in Hdeb. apply Z.ltb_lt in Hdeb.
  unfold new_game_window, mbind, get_ticks, get, ret. simpl. rewrite Hdeb.
  destruct (start_game p) eqn:Hstart; simpl.
  - destruct (pico_flash_leds_named (set_ticks_read (S (ticks_read p)) p) "corners"
                [129; 0; 0; 0; 0; 0; 0; 129] Hwf eq_refl) as (w' & -> & _).
    eexists. split; [reflexivity|]. simpl. auto.
  - destruct (pico_set_leds_named (set_ticks_read (S (ticks_read p)) p) "corners"
                [129; 0; 0; 0; 0; 0; 0; 129] Hwf eq_refl) as (w' & -> & _).
    eexists. split; [reflexivity|]. simpl. auto.
Qed.

(** Inside the window no force move is recognized. *)
Lemma thinking_window_debounced (physical_board_fen : string)
    (virtual_board : option Board) (p : pico_chess) :
  debounced p ->
  thinking_window physical_board_fen virtual_board p
  = (Ok (Thinking false), set_ticks_read (S (ticks_read p)) p).
Proof.
  intros Hdeb. unfold debounced in Hdeb. apply Z.ltb_lt in Hdeb.
  unfold thinking_window, mbind, get_ticks, get, ret. simpl. rewrite Hdeb. reflexivity.
Qed.

(** Inside the window no hint request is recognized; the exit countdown,
    which comes first, runs on its own clock. *)
Lemma game_window_debounced (physical_board_fen : string)
    (settings : option (gmap string setting)) (virtual_board : Board)
    (p p1 : pico_chess) (exit_state : Z) :
  check_exit physical_board_fen "game" p = (Ok exit_state, p1) -> debounced p1 ->
  exists p',
    game_window physical_board_fen settings (Some virtual_board) p
    = (Ok (Game exit_state false), p')
    /\ last_command_time p' = last_command_time p1.
Proof.
  intros Hexit Hdeb. unfold debounced in Hdeb. apply Z.ltb_lt in Hdeb.
  unfold game_window, mbind. rewrite Hexit.
  destruct (bool_decide (physical_board_fen = fen virtual_board)).
  - eexists. split; reflexivity.
  - unfold get_ticks, get, ret. simpl. rewrite Hdeb.
    eexists. split; reflexivity.
Qed.

(** The commands of the home screen record the reading of the clock. *)
Lemma home_window_records (board_state : string) (p p' : pico_chess) (out : outcome) :
  home_window board_state p = (Ok out, p') -> out <> Home "home" false ->
  recorded_during p p' 0.
Proof.
  unfold home_window, recorded_during.
  destruct (bool_decide (board_state ∈ _)).
  - unfold mbind, get_ticks, modify, ret. simpl.
    pose proof (led_call_state (LedManager.mgr_do (LedManager.set_leds (MsgStr "corners") false))
                  (set_last_command_time (ticks p (ticks_read p))
                     (set_ticks_read (S (ticks_read p)) p))) as Hled.
    unfold led_manager_set_leds.
    destruct (zoom led set_led _ _) as [[u|e] q]; simpl in Hled;
      intros H Hout; [|discriminate H].
    injection H as _ <-. subst q. exists (ticks_read p). simpl. split; lia.
  - unfold mbind, get. simpl. destruct (can_calibrate p); [|intros [= <- _]; contradiction].
    unfold lift. destruct (calibration_pattern _) as [[|]|e];
      [| intros [= <- _]; contradiction | intros H; discriminate H].
    unfold get_ticks, modify, ret. simpl.
    pose proof (led_call_state (LedManager.mgr_do (LedManager.set_leds (MsgStr "corners") false))
                  (set_last_command_time (ticks p (ticks_read p))
                     (set_ticks_read (S (ticks_read p)) p))) as Hled.
    unfold led_manager_set_leds.
    destruct (zoom led set_led _ _) as [[u|e] q]; simpl in Hled;
      intros H Hout; [|discriminate H].
    injection H as _ <-. subst q. exists (ticks_read p). simpl. split; lia.
Qed.

(** A recognized force move records the reading of the clock. *)
Lemma thinking_window_records (physical_board_fen : string)
    (virtual_board : option Board) (p p' : pico_chess) :
  thinking_window physical_board_fen virtual_board p = (Ok (Thinking true), p') ->
  recorded_during p p' 0.
Proof.
  unfold thinking_window, recorded_during, mbind, get_ticks, get, lift, modify, ret, raise.
  simpl. destruct (_ <? _); [intros H; discriminate H|].
  destruct virtual_board as [vb|]; [|intros H; discriminate H].
  destruct (king_removed physical_board_fen vb false) as [[|]|e]; simpl;
    [| |intros H; discriminate H].
  - intros [= <-]. exists (S (ticks_read p)). simpl. split; lia.
  - destruct (king_removed physical_board_fen vb true) as [[|]|e]; simpl;
      [| intros H; discriminate H | intros H; discriminate H].
    intros [= <-]. exists (S (ticks_read p)). simpl. split; lia.
Qed.

(** A recognized hint request records a reading of the clock, two seconds
    added. *)
Lemma game_window_records (physical_board_fen : string)
    (settings : option (gmap string setting)) (virtual_board : option Board)
    (p p' : pico_chess) (exit_state : Z) :
  game_window physical_board_fen settings virtual_board p
  = (Ok (Game exit_state true), p') ->
  recorded_during p p' 2000.
Proof.
  unfold game_window, recorded_during. unfold mbind at 1.
  pose proof (check_exit_exit_only physical_board_fen "game" p) as Hex.
  destruct (check_exit physical_board_fen "game" p) as [[es|e] p1]; simpl in Hex;
    [|intros H; discriminate H].
  destruct Hex as (Hticks & Hreads & _).
  destruct virtual_board as [vb|]; [|intros H; discriminate H].
  destruct (bool_decide (physical_board_fen = fen vb)); [intros H; discriminate H|].
  unfold mbind, get_ticks, get, lift, modify, ret, raise. simpl.
  destruct (_ <? _); [intros H; discriminate H|].
  destruct (subscript settings "human_game") as [human|e]; [|intros H; discriminate H].
  destruct (negb (truthy human)); [|intros H; discriminate H].
  destruct (remove_king vb vb false) as [t1|e]; [|intros H; discriminate H].
  destruct (remove_king vb t1 true) as [t2|e]; [|intros H; discriminate H].
  destruct (bool_decide (board_fen t2 = physical_board_fen)); [|intros H; discriminate H].
  intros [= _ <-]. exists (S (ticks_read p1)). simpl. rewrite Hticks. split; [lia | reflexivity].
Qed.

End Debounce.

Section Dispatch.
Import PicoChess GestureSpec LedSpec.
Context `{E : RuleEngine}.

(** [update] on each of its four windows: nothing happens when the program
    is switched off or the application is exiting. *)
Lemma update_windows (board_state : string) (settings : option (gmap string setting))
    (virtual_board : option Board) (p : pico_chess) :
  let guarded (idle : outcome) (window : M pico_chess outcome) :=
    match exit_command p !! "application" with
    | Some b => if b || negb (on p) then (Ok idle, p) else window p
    | None => (Raise KeyError, p)
    end in
  update "home" board_state settings virtual_board p
  = guarded (Home "home" false) (home_window board_state)
  /\ update "new game" board_state settings virtual_board p
     = guarded (NewGame settings false) (new_game_window board_state settings)
  /\ update "game" board_state settings virtual_board p
     = guarded (Game 0 false) (game_window board_state settings virtual_board)
  /\ update "thinking" board_state settings virtual_board p
     = guarded (Thinking false) (thinking_window board_state virtual_board).
Proof.
  unfold update, mbind, get, lift. simpl.
  destruct (exit_command p !! "application") as [b|]; [|repeat split; reflexivity].
  destruct (b || negb (on p)); repeat split; reflexivity.
Qed.

End Dispatch.

Section DebounceClaims.
Import PicoChess GestureSpec LedSpec.

(** C8 (amended): a command committed by the home window (new game,
    calibration), a force move and a hint request record the reading of the
    clock as the command time, the hint request two seconds later. While the
    clock reads less than the debounce window after the command time, the
    new game, game and thinking windows commit nothing: [update] gives back
    the settings unchanged without starting, no hint request and no force
    move, and leaves the command time as it is. *)
Theorem commands_inside_window `{E : RuleEngine} (p : pico_chess) (board_state : string)
    (settings : option (gmap string setting)) (virtual_board : Board) :
  on p = true -> exit_command p !! "application" = Some false ->
  well_formed (led p) -> debounced p ->
  (forall q board settings0 vb out,
      update "home" board settings0 vb q = (Ok out, p) -> out <> Home "home" false ->
      recorded_during q p 0)
  /\ (forall q board settings0 vb,
         update "thinking" board settings0 vb q = (Ok (Thinking true), p) ->
         recorded_during q p 0)
  /\ (forall q board settings0 vb exit_state,
         update "game" board settings0 vb q = (Ok (Game exit_state true), p) ->
         recorded_during q p 2000)
  /\ (exists p',
         update "new game" board_state settings (Some virtual_board) p
         = (Ok (NewGame settings false), p')
         /\ last_command_time p' = last_command_time p
         /\ start_game p' = start_game p)
  /\ (exists p',
         update "thinking" board_state settings (Some virtual_board) p
         = (Ok (Thinking false), p')
         /\ last_command_time p' = last_command_time p)
  /\ (forall exit_state p1,
         check_exit board_state "game" p = (Ok exit_state, p1) -> debounced p1 ->
         exists p',
           update "game" board_state settings (Some virtual_board) p
           = (Ok (Game exit_state false), p')
           /\ last_command_time p' = last_command_time p).
Proof.
  intros Hon Happ Hwf Hdeb.
  split; [|split; [|split; [|split; [|split]]]].
  - intros q board settings0 vb out.
    destruct (update_windows board settings0 vb q) as (-> & _).
    destruct (exit_command q !! "application") as [b|]; [|intros H; discriminate H].
    destruct (b || negb (on q)); [intros [= <- _] Hout; contradiction|].
    apply home_window_records.
  - intros q board settings0 vb.
    destruct (update_windows board settings0 vb q) as (_ & _ & _ & ->).
    destruct (exit_command q !! "application") as [b|]; [|intros H; discriminate H].
    destruct (b || negb (on q)); [intros H; discriminate H|].
    apply thinking_window_records.
  - intros q board settings0 vb exit_state.
    destruct (update_windows board settings0 vb q) as (_ & _ & -> & _).
    destruct (exit_command q !! "application") as [b|]; [|intros H; discriminate H].
    destruct (b || negb (on q)); [intros H; discriminate H|].
    apply game_window_records.
  - destruct (update_windows board_state settings (Some virtual_board) p) as (_ & -> & _).
    rewrite Happ, Hon. simpl.
    apply new_game_window_debounced; assumption.
  - destruct (update_windows board_state settings (Some virtual_board) p) as (_ & _ & _ & ->).
    rewrite Happ, Hon. simpl.
    rewrite (thinking_window_debounced _ _ _ Hdeb). eexists. split; reflexivity.
  - intros exit_state p1 Hexit Hdeb1.
    destruct (update_windows board_state settings (Some virtual_board) p) as (_ & _ & -> & _).
    rewrite Happ, Hon. simpl.
    destruct (game_window_debounced board_state settings virtual_board p p1 exit_state
                Hexit Hdeb1) as (p' & Hrun & Htime).
    exists p'. split; [exact Hrun|]. rewrite Htime.
    pose proof (check_exit_exit_only board_state "game" p) as Hex.
    rewrite Hexit in Hex. simpl in Hex. apply Hex.
Qed.

Lemma calibration_commanded :
  update (E := ToyEngine.toy) "home" calibration_board None None (fresh millisecond_clock)
  = (Ok (Home "home" true), after_calibration).
Proof. vm_compute. reflexivity. Qed.

Lemma after_calibration_well_formed : well_formed (led after_calibration).
Proof.
  split.
  - exists fresh_manager. split; [exact fresh_manager_init | vm_compute; reflexivity].
  - intros H. vm_compute in H. contradiction.
Qed.

Lemma commands_inside_window_witness :
  debounced after_calibration
  /\ recorded_during (fresh millisecond_clock) after_calibration 0
  /\ exists p',
       update (E := ToyEngine.toy) "new game" new_game_board None
         (Some ToyEngine.nothing_played) after_calibration
       = (Ok (NewGame None false), p')
       /\ last_command_time p' = last_command_time after_calibration
       /\ start_game p' = start_game after_calibration.
Proof.
  assert (Hdeb : debounced after_calibration) by (unfold debounced; vm_compute; reflexivity).
  destruct (commands_inside_window (E := ToyEngine.toy) after_calibration new_game_board None
              ToyEngine.nothing_played eq_refl eq_refl after_calibration_well_formed Hdeb)
    as (Hhome & _ & _ & Hnew & _).
  split; [exact Hdeb|]. split; [|exact Hnew].
  apply (Hhome (fresh millisecond_clock) calibration_board None None (Home "home" true)).
  - exact calibration_commanded.
  - intros H. discriminate H.
Defined.

(** C8, counterexample: the home window does not look at the command time.
    The calibration gesture is committed at reading 0 of the clock, and the
    new game gesture, shown one millisecond later and well inside the
    window, is committed as well. *)
Lemma home_window_commits_twice :
  fst (update (E := ToyEngine.toy) "home" calibration_board None None
         (fresh millisecond_clock)) = Ok (Home "home" true)
  /\ last_command_time after_calibration = 0
  /\ debounced after_calibration
  /\ fst (update (E := ToyEngine.toy) "home" new_game_board None None after_calibration)
     = Ok (Home "new game" false)
  /\ last_command_time
       (snd (update (E := ToyEngine.toy) "home" new_game_board None None after_calibration))
     = 1.
Proof.
  split; [vm_compute; reflexivity|]. split; [vm_compute; reflexivity|].
  split; [unfold debounced; vm_compute; reflexivity|].
  split; vm_compute; reflexivity.
Qed.

End DebounceClaims.


(** * Further properties *)

(** ** Texts and their reversal *)

Lemma str_of_app (a b : list ascii) : str_of (a ++ b) = str_of a +:+ str_of b.
Proof. induction a as [|x a IH]; simpl; [reflexivity|]. rewrite IH. reflexivity. Qed.

Lemma chars_str_of (l : list ascii) : chars (str_of l) = l.
Proof. apply list_ascii_of_string_of_list_ascii. Qed.

Lemma str_of_chars (s : string) : str_of (chars s) = s.
Proof. apply string_of_list_ascii_of_string. Qed.

Lemma str_reverse_app (a b : string) :
  str_reverse (a +:+ b) = str_reverse b +:+ str_reverse a.
Proof. unfold str_reverse. rewrite chars_append, rev_app_distr, str_of_app. reflexivity. Qed.

Lemma str_reverse_involutive (s : string) : str_reverse (str_reverse s) = s.
Proof. unfold str_reverse. rewrite chars_str_of, rev_involutive. apply str_of_chars. Qed.

Lemma str_reverse_one_char (s : string) : FieldSpec.one_char s -> str_reverse s = s.
Proof.
  unfold FieldSpec.one_char. destruct s as [|c [|d s]]; simpl; try discriminate. reflexivity.
Qed.

Lemma join_snoc (sep w : string) (l : list string) :
  join sep (l ++ [w]) = match l with [] => w | _ => join sep l +:+ sep +:+ w end.
Proof.
  induction l as [|x l IH]; [reflexivity|].
  change ((x :: l) ++ [w]) with (x :: (l ++ [w])). rewrite join_cons, IH.
  destruct l as [|y l]; [reflexivity|].
  change ((y :: l) ++ [w]) with (y :: (l ++ [w])).
  rewrite (join_cons sep x (y :: l)), !append_assoc. reflexivity.
Qed.

Lemma str_reverse_join (sep : string) (l : list string) :
  str_reverse (join sep l) = join (str_reverse sep) (rev (map str_reverse l)).
Proof.
  induction l as [|w l IH]; [reflexivity|].
  rewrite join_cons. simpl map. simpl rev. rewrite join_snoc.
  destruct l as [|x l]; [simpl; rewrite append_empty_r; reflexivity|].
  rewrite !str_reverse_app, IH.
  destruct (rev (map str_reverse (x :: l))) as [|y r] eqn:Hr.
  - apply (f_equal length) in Hr. rewrite length_rev, length_map in Hr. discriminate Hr.
  - rewrite append_assoc. reflexivity.
Qed.

Lemma join_split_on (sep : ascii) (s : string) :
  join (String sep "") (split_on sep s) = s.
Proof.
  induction s as [|c s IH]; [reflexivity|]. simpl split_on.
  destruct (Ascii.eqb_spec c sep) as [->|Hne].
  - rewrite join_cons. destruct (split_on sep s) as [|w ws] eqn:Hs.
    + simpl in IH. subst s. simpl in Hs.  discriminate Hs.
    + rewrite IH. reflexivity.
  - destruct (split_on sep s) as [|w ws] eqn:Hs.
    + simpl in IH. subst s. discriminate Hs.
    + rewrite join_cons. rewrite join_cons in IH. rewrite append_cons, IH. reflexivity.
Qed.

Lemma split_on_nonempty (sep : ascii) (s : string) : split_on sep s <> [].
Proof.
  destruct s as [|c s]; simpl; [discriminate|].
  destruct (Ascii.eqb c sep); [discriminate|]. destruct (split_on sep s); discriminate.
Qed.

(** ** The board field and the board turned by 180 degrees *)

Section FieldRotation.
Import UsbReader DecoderSpec FieldSpec.

Lemma rank_field_scan (rank : list string) (t : string) (n : nat) :
  t +:+ rank_field n rank
  = fst (foldl rank_scan (t, n) rank) +:+ run_digits (snd (foldl rank_scan (t, n) rank)).
Proof.
  revert t n. induction rank as [|p rank IH]; intros t n; [reflexivity|].
  simpl foldl. simpl rank_field. unfold rank_scan at 2 4.
  destruct (decide (p = ".")); simpl fst; simpl snd.
  - apply IH.
  - rewrite <- IH, !append_assoc. reflexivity.
Qed.

Lemma run_digits_reverse (n : nat) : (n <= 9)%nat -> str_reverse (run_digits n) = run_digits n.
Proof.
  intros Hn. do 10 (destruct n as [|n]; [reflexivity|]). lia.
Qed.

(** Reading a rank from the other end: the field of the reversed rank is
    the reversed field of the rank. *)
Lemma rank_field_rev_gen (rank : list string) (e : nat) :
  Forall one_char rank -> (e + length rank <= 9)%nat ->
  str_reverse (rank_field e rank)
  = fst (foldl rank_scan ("", 0%nat) (rev rank))
    +:+ run_digits (snd (foldl rank_scan ("", 0%nat) (rev rank)) + e).
Proof.
  revert e. induction rank as [|p rank IH]; intros e Hone Hlen.
  - simpl. apply run_digits_reverse. simpl in Hlen. lia.
  - apply Forall_cons in Hone as [Hp Hone]. simpl length in Hlen.
    simpl rev. rewrite foldl_app. simpl foldl. simpl rank_field.
    unfold rank_scan at 1 3. destruct (decide (p = ".")); simpl fst; simpl snd.
    + rewrite (IH (S e) Hone) by lia. do 2 f_equal. lia.
    + rewrite !str_reverse_app, (IH 0%nat Hone) by lia.
      rewrite (str_reverse_one_char p Hp), run_digits_reverse by lia.
      rewrite Nat.add_0_r, !append_assoc. reflexivity.
Qed.

Lemma rank_field_rev (rank : list string) :
  Forall one_char rank -> (length rank <= 9)%nat ->
  rank_field 0 (rev rank) = str_reverse (rank_field 0 rank).
Proof.
  intros Hone Hlen. rewrite (rank_field_rev_gen rank 0 Hone) by lia.
  rewrite Nat.add_0_r. rewrite <- rank_field_scan. reflexivity.
Qed.

Lemma ranks_of_concat (ranks : list (list string)) :
  Forall (fun rank => length rank = 8%nat) ranks ->
  ranks_of (length ranks) (concat ranks) = ranks.
Proof.
  induction ranks as [|rank ranks IH]; intros Hlen; [reflexivity|].
  apply Forall_cons in Hlen as [Hrank Hlen]. simpl.
  rewrite take_app_length' by (symmetry; exact Hrank).
  rewrite drop_app_length' by (symmetry; exact Hrank).
  rewrite (IH Hlen). reflexivity.
Qed.

Lemma concat_ranks_of (n : nat) (board : list string) :
  length board = (n * 8)%nat ->
  concat (ranks_of n board) = board
  /\ length (ranks_of n board) = n
  /\ Forall (fun rank => length rank = 8%nat) (ranks_of n board).
Proof.
  revert board. induction n as [|n IH]; intros board Hlen.
  - destruct board; [|discriminate Hlen]. repeat split. constructor.
  - simpl ranks_of. destruct (IH (drop 8 board)) as (Hc & Hl & Hf).
    { rewrite length_drop. lia. }
    simpl. rewrite Hc, Hl, take_drop. repeat split.
    constructor; [|exact Hf]. rewrite length_take. lia.
Qed.

Lemma rev_concat (ranks : list (list string)) :
  rev (concat ranks) = concat (rev (map (@rev string) ranks)).
Proof.
  induction ranks as [|rank ranks IH]; [reflexivity|].
  simpl. rewrite rev_app_distr, IH, concat_app. simpl. rewrite app_nil_r. reflexivity.
Qed.

Lemma ranks_of_rev (n : nat) (board : list string) :
  length board = (n * 8)%nat ->
  ranks_of n (rev board) = rev (map (@rev string) (ranks_of n board)).
Proof.
  intros Hlen. destruct (concat_ranks_of n board Hlen) as (Hc & Hl & Hf).
  rewrite <- Hc at 1. rewrite rev_concat.
  replace n with (length (rev (map (@rev string) (ranks_of n board)))) at 1
    by (rewrite length_rev, length_map; exact Hl).
  apply ranks_of_concat. apply Forall_rev, Forall_map.
  eapply Forall_impl; [exact Hf|]. intros rank Hr. simpl. rewrite length_rev. exact Hr.
Qed.

Lemma board_field_of_rev (board : list string) :
  length board = 64%nat -> Forall one_char board ->
  board_field_of (rev board) = str_reverse (board_field_of board).
Proof.
  intros Hlen Hone. unfold board_field_of.
  destruct (concat_ranks_of 8 board Hlen) as (Hc & Hl & Hf).
  rewrite (ranks_of_rev 8 board Hlen), str_reverse_join.
  change (str_reverse "/") with "/". rewrite map_rev, !map_map. do 2 f_equal.
  apply map_ext_in. intros rank Hin. apply list_elem_of_In in Hin.
  rewrite <- Hc in Hone. rewrite Forall_concat in Hone.
  rewrite Forall_forall in Hone, Hf.
  apply rank_field_rev; [apply Hone, Hin | rewrite (Hf rank Hin); lia].
Qed.

End FieldRotation.

Section ReaderRotation.
Import UsbReader DecoderSpec FieldSpec.

Lemma decoded_board_length (r : usb_reader) (frames : list string) :
  length (decoded_board r frames) = 64%nat.
Proof. unfold decoded_board. rewrite length_map, length_seq. reflexivity. Qed.

(** [data_to_fen] on a full history. *)
Lemma data_to_fen_run (r : usb_reader) (f0 f1 f2 : string) :
  counter r = [] ->
  data_history r = [Some f0; Some f1; Some f2] ->
  data_to_fen r
  = (Ok tt, set_board_fen (board_field_of (decoded_board r [f0; f1; f2])) r).
Proof.
  intros Hc Hhist.
  unfold data_to_fen, mbind, get, lift. rewrite Hhist. simpl mapM. cbv beta iota.
  set (t0 := split_on " " (str_slice f0 (Some 1) None)).
  set (t1 := split_on " " (str_slice f1 (Some 1) None)).
  set (t2 := split_on " " (str_slice f2 (Some 1) None)).
  rewrite (mapM_st_pure (decode_cell [t0; t1; t2])
             (fun sl => VStr (vote (map (fun t => symbol_of r (apply_slice t sl))
                                        [t0; t1; t2])))
             cell_slice_mapping r)
    by (intros sl _; apply decode_cell_vote, Hc).
  assert (Hboard : map (fun sl => VStr (vote (map (fun t => symbol_of r (apply_slice t sl))
                                                  [t0; t1; t2])))
                       cell_slice_mapping
                   = map VStr (decoded_board r [f0; f1; f2])).
  { unfold cell_slice_mapping, range, decoded_board. rewrite !map_map.
    apply map_ext. intros cell. reflexivity. }
  rewrite Hboard, (board_to_fen_field _ (decoded_board_length r _)). reflexivity.
Qed.

(** The vote elects one of the candidates. *)
Lemma vote_candidate (a b c : string) : vote [a; b; c] ∈ [a; b; c].
Proof.
  unfold vote. simpl.
  repeat (destruct (decide _); simpl); set_solver.
Qed.

Lemma symbol_of_one_char (r : usb_reader) (code : list string) :
  one_char (default_missing_piece r) ->
  (forall code s, code_mapping r !! code = Some s -> one_char s) ->
  one_char (symbol_of r code).
Proof.
  intros Hd Hm. unfold symbol_of. destruct (code_mapping r !! code) as [s|] eqn:Hs; simpl.
  - exact (Hm code s Hs).
  - exact Hd.
Qed.

Lemma decoded_board_one_char (r : usb_reader) (f0 f1 f2 : string) :
  one_char (default_missing_piece r) ->
  (forall code s, code_mapping r !! code = Some s -> one_char s) ->
  Forall one_char (decoded_board r [f0; f1; f2]).
Proof.
  intros Hd Hm. unfold decoded_board. apply Forall_map, Forall_forall. intros cell _.
  simpl. pose proof (vote_candidate (symbol_of r (cell_code f0 cell))
                       (symbol_of r (cell_code f1 cell))
                       (symbol_of r (cell_code f2 cell))) as Hv.
  rewrite !elem_of_cons in Hv.
  destruct Hv as [->|[->|[->|Hv]]]; try (apply symbol_of_one_char; assumption).
  apply elem_of_nil in Hv. contradiction.
Qed.

(** With nothing waiting on the queue, [read_board] hands out the stored
    snapshot. *)
Lemma read_board_idle (r : usb_reader) (rotate180 : bool) :
  queue r = [] ->
  read_board rotate180 r
  = (Ok (if rotate180 then str_reverse (board_fen r) else board_fen r), r).
Proof.
  intros Hq. unfold read_board, mbind. rewrite update_unfold, Hq. reflexivity.
Qed.

(** X1: the text that [read_board(rotate180=True)] returns after a decode
    is the board field of the decoded squares taken in the opposite order,
    that is, of the board turned by 180 degrees: reversing the text and
    turning the board come to the same, as long as every symbol of the code
    mapping is one character. *)
Theorem read_board_rotated (r : usb_reader) (f0 f1 f2 : string) :
  counter r = [] -> queue r = [] ->
  data_history r = [Some f0; Some f1; Some f2] ->
  one_char (default_missing_piece r) ->
  (forall code s, code_mapping r !! code = Some s -> one_char s) ->
  exists r' FEN,
    data_to_fen r = (Ok tt, r')
    /\ read_board true r' = (Ok FEN, r')
    /\ board_to_fen (map VStr (rev (decoded_board r [f0; f1; f2]))) = Ok FEN
    /\ read_board false r' = (Ok (str_reverse FEN), r').
Proof.
  intros Hc Hq Hhist Hd Hm.
  exists (set_board_fen (board_field_of (decoded_board r [f0; f1; f2])) r).
  exists (str_reverse (board_field_of (decoded_board r [f0; f1; f2]))).
  split; [apply data_to_fen_run; assumption|].
  split; [apply read_board_idle; exact Hq|].
  split.
  - rewrite board_to_fen_field by (rewrite length_rev; apply decoded_board_length).
    rewrite board_field_of_rev;
      [reflexivity | apply decoded_board_length | apply decoded_board_one_char; assumption].
  - rewrite str_reverse_involutive. apply read_board_idle. exact Hq.
Qed.

End ReaderRotation.

Section ReaderRotationExamples.
Import UsbReader DecoderSpec FieldSpec Sample.

Lemma calibrated_reader_one_char :
  forall code s, code_mapping calibrated_reader !! code = Some s -> one_char s.
Proof.
  assert (H : map_Forall (fun _ s => String.length s = 1%nat) (code_mapping calibrated_reader)).
  { apply (bool_decide_unpack _). vm_compute. exact I. }
  intros code s Hs. exact (H code s Hs).
Qed.

Lemma read_board_rotated_witness :
  exists r' FEN,
    data_to_fen calibrated_reader = (Ok tt, r')
    /\ read_board true r' = (Ok FEN, r')
    /\ board_to_fen (map VStr (rev (decoded_board calibrated_reader
                                      [e4_frame; e4_frame; start_frame]))) = Ok FEN
    /\ read_board false r' = (Ok (str_reverse FEN), r').
Proof.
  apply (read_board_rotated calibrated_reader e4_frame e4_frame start_frame).
  - reflexivity.
  - reflexivity.
  - vm_compute. reflexivity.
  - reflexivity.
  - exact calibrated_reader_one_char.
Defined.

(** The physical board after 1. e4, seen from the other side. *)
Example rotated_e4 :
  fst (read_board true calibrated_reader) = Ok "RNBKQBNR/PPP1PPPP/8/3P4/8/8/pppppppp/rnbkqbnr".
Proof. vm_compute. reflexivity. Qed.

End ReaderRotationExamples.


(** ** The board display draws what the decoder decoded *)

Section BoardDisplay.
Import UsbReader DecoderSpec FieldSpec Display.

Lemma split_on_app_sep (sep : ascii) (a b : string) :
  sep ∉ chars a -> split_on sep (a +:+ String sep b) = a :: split_on sep b.
Proof.
  induction a as [|c a IH]; intros Hno.
  - simpl. rewrite Ascii.eqb_refl. reflexivity.
  - rewrite append_cons. simpl split_on.
    assert (Hc : c <> sep) by (intros ->; apply Hno; left).
    apply Ascii.eqb_neq in Hc. rewrite Hc.
    rewrite IH; [reflexivity|]. intros Hin. apply Hno. right. exact Hin.
Qed.

Lemma split_on_no_sep (sep : ascii) (a : string) :
  sep ∉ chars a -> split_on sep a = [a].
Proof.
  induction a as [|c a IH]; intros Hno; [reflexivity|]. simpl split_on.
  assert (Hc : c <> sep) by (intros ->; apply Hno; left).
  apply Ascii.eqb_neq in Hc. rewrite Hc.
  rewrite IH; [reflexivity|]. intros Hin. apply Hno. right. exact Hin.
Qed.

Lemma index_head {A : Type} (x : A) (l : list A) : index (x :: l) 0 = Ok x.
Proof.
  unfold index. simpl length.
  destruct (Z.ltb_spec 0 0); [lia|]. destruct (Z.leb_spec (Z.of_nat (S (length l))) 0); [lia|].
  reflexivity.
Qed.

Lemma rotate_field (F : string) :
  join "/" (map str_reverse (rev (split_on "/" F))) = str_reverse F.
Proof.
  rewrite map_rev. change (join "/") with (join (str_reverse "/")).
  rewrite <- str_reverse_join, (join_split_on "/"). reflexivity.
Qed.

Lemma rotated_reverse (F tail : string) :
  " "%char ∉ chars F -> field_end tail -> rotated (F +:+ tail) = Ok (str_reverse F).
Proof.
  intros Hno [->|[rest ->]]; unfold rotated.
  - rewrite append_empty_r, (split_on_no_sep _ _ Hno), index_head.
    unfold bind. rewrite rotate_field. reflexivity.
  - rewrite (split_on_app_sep _ _ _ Hno), index_head.
    unfold bind. rewrite rotate_field. reflexivity.
Qed.

Lemma place_digit (x0 y0 : Z) (e : nat) (rest : list ascii) (x y : Z) (scr : screen) :
  (e <= 9)%nat ->
  place_pieces x0 y0 (chars (run_digits e) ++ rest) x y scr
  = place_pieces x0 y0 rest (x + Z.of_nat e) y scr.
Proof.
  intros He. destruct e as [|e]; [simpl; rewrite Z.add_0_r; reflexivity|].
  do 9 (destruct e as [|e]; [reflexivity|]). lia.
Qed.

Lemma place_piece (x0 y0 : Z) (p : string) :
  p ∈ code_mapping_order ->
  exists name,
    FEN_SPRITE_MAPPING !! p = Some name
    /\ forall (rest : list ascii) (x y : Z) (scr : screen),
         place_pieces x0 y0 (chars p ++ rest) x y scr
         = place_pieces x0 y0 rest (x + 1) y
             (scr ++ [(name, Cell x0 26 x, Cell y0 23 y)]).
Proof.
  unfold code_mapping_order. rewrite !elem_of_cons.
  intros [->|[->|[->|[->|[->|[->|[->|[->|[->|[->|[->|[->|H]]]]]]]]]]]];
    [eexists; split; [reflexivity | intros; reflexivity] ..|].
  apply elem_of_nil in H. contradiction.
Qed.

Lemma placed_cons (x0 y0 : Z) (first : nat) (s : string) (board : list string) :
  placed x0 y0 first (s :: board)
  = match FEN_SPRITE_MAPPING !! s with
    | Some name =>
        [(name, Cell x0 26 (Z.of_nat (first mod 8)), Cell y0 23 (Z.of_nat (first / 8)))]
    | None => []
    end ++ placed x0 y0 (S first) board.
Proof. reflexivity. Qed.

Lemma placed_app (x0 y0 : Z) (first : nat) (a b : list string) :
  placed x0 y0 first (a ++ b) = placed x0 y0 first a ++ placed x0 y0 (first + length a) b.
Proof.
  revert first. induction a as [|s a IH]; intros first.
  - simpl. rewrite Nat.add_0_r. reflexivity.
  - rewrite <- app_comm_cons, !placed_cons, IH, <- app_assoc. simpl length.
    replace (first + S (length a))%nat with (S first + length a)%nat by lia. reflexivity.
Qed.

(** One rank of the board field: the pieces of the rank are drawn on their
    files, and the file counter ends behind the rank. *)
Lemma place_rank (x0 y0 : Z) (rank : list string) (e x y : nat) (rest : list ascii)
    (scr : screen) :
  Forall piece_symbol rank -> (x + e + length rank <= 8)%nat ->
  place_pieces x0 y0 (chars (rank_field e rank) ++ rest) (Z.of_nat x) (Z.of_nat y) scr
  = place_pieces x0 y0 rest (Z.of_nat (x + e + length rank)) (Z.of_nat y)
      (scr ++ placed x0 y0 (y * 8 + x + e) rank).
Proof.
  revert e x scr. induction rank as [|p rank IH]; intros e x scr Hsym Hlen.
  - simpl rank_field. rewrite place_digit by (simpl in Hlen; lia).
    simpl. rewrite app_nil_r. do 2 f_equal. lia.
  - apply Forall_cons in Hsym as [Hp Hsym]. simpl length in Hlen. simpl rank_field.
    unfold piece_symbol in Hp. apply elem_of_cons in Hp.
    destruct (decide (p = ".")) as [->|Hne].
    + rewrite (IH (S e) x scr Hsym) by lia. rewrite placed_cons.
      change (FEN_SPRITE_MAPPING !! ".") with (@None string). cbn [app length].
      replace (x + S e + length rank)%nat with (x + e + S (length rank))%nat by lia.
      replace (y * 8 + x + S e)%nat with (S (y * 8 + x + e)) by lia.
      reflexivity.
    + destruct Hp as [Hp|Hp]; [contradiction|].
      destruct (place_piece x0 y0 p Hp) as (name & Hname & Hstep).
      rewrite !chars_append, <- !app_assoc, place_digit by lia.
      rewrite Hstep.
      replace (Z.of_nat x + Z.of_nat e + 1) with (Z.of_nat (x + e + 1)) by lia.
      rewrite (IH 0%nat (x + e + 1)%nat _ Hsym) by lia.
      rewrite placed_cons, Hname, <- app_assoc. cbn [app length].
      replace (Z.of_nat x + Z.of_nat e) with (Z.of_nat (x + e)) by lia.
      replace ((y * 8 + x + e) mod 8)%nat with (x + e)%nat
        by (apply (Nat.mod_unique _ 8 y); lia).
      replace ((y * 8 + x + e) / 8)%nat with y
        by (apply (Nat.div_unique _ 8 y (x + e)); lia).
      replace (x + e + 1 + 0 + length rank)%nat with (x + e + S (length rank))%nat by lia.
      replace (y * 8 + (x + e + 1) + 0)%nat with (S (y * 8 + x + e)) by lia.
      reflexivity.
Qed.

Lemma place_slash (x0 y0 : Z) (rest : list ascii) (x y : Z) (scr : screen) :
  place_pieces x0 y0 ("/"%char :: rest) x y scr = place_pieces x0 y0 rest 0 (y + 1) scr.
Proof. reflexivity. Qed.

Lemma place_end (x0 y0 : Z) (tail : string) (x y : Z) (scr : screen) :
  field_end tail -> place_pieces x0 y0 (chars tail) x y scr = (Ok tt, scr).
Proof. intros [->|[rest ->]]; reflexivity. Qed.

Lemma place_ranks (x0 y0 : Z) (ranks : list (list string)) (tail : string) (y : nat)
    (scr : screen) :
  ranks <> [] ->
  Forall (fun rank => length rank = 8%nat /\ Forall piece_symbol rank) ranks ->
  field_end tail ->
  place_pieces x0 y0 (chars (join "/" (map (rank_field 0) ranks) +:+ tail)) 0 (Z.of_nat y) scr
  = (Ok tt, scr ++ placed x0 y0 (y * 8) (concat ranks)).
Proof.
  intros Hne Hranks Htail. revert y scr.
  induction ranks as [|rank ranks IH]; intros y scr; [contradiction|].
  apply Forall_cons in Hranks as [[Hlen Hsym] Hranks].
  destruct ranks as [|rank2 ranks].
  - cbn [map join]. rewrite chars_append.
    pose proof (place_rank x0 y0 rank 0 0 y (chars tail) scr Hsym ltac:(lia)) as Hr.
    change (Z.of_nat 0) with 0 in Hr. rewrite Hr.
    rewrite place_end by exact Htail. simpl concat. rewrite app_nil_r.
    do 3 f_equal. lia.
  - specialize (IH ltac:(discriminate) Hranks). cbn [map] in IH. cbn [map].
    rewrite join_cons. cbv iota.
    change ("/" +:+ ?x) with (String "/"%char x).
    rewrite append_assoc, chars_append, append_cons.
    change (chars (String "/" ?s)) with ("/"%char :: chars s).
    pose proof (place_rank x0 y0 rank 0 0 y
                  ("/"%char :: chars (join "/" (rank_field 0 rank2 :: map (rank_field 0) ranks)
                                      +:+ tail))
                  scr Hsym ltac:(lia)) as Hr.
    change (Z.of_nat 0) with 0 in Hr. rewrite Hr.
    rewrite place_slash.
    replace (Z.of_nat y + 1) with (Z.of_nat (S y)) by lia.
    rewrite IH.
    change (concat (rank :: rank2 :: ranks)) with (rank ++ concat (rank2 :: ranks)).
    rewrite placed_app, Hlen, <- app_assoc.
    replace (y * 8 + 0 + 0)%nat with (y * 8)%nat by lia.
    replace (S y * 8)%nat with (y * 8 + 8)%nat by lia. reflexivity.
Qed.

Lemma run_digits_no_space (e : nat) : (e <= 9)%nat -> " "%char ∉ chars (run_digits e).
Proof.
  intros He. do 10 (destruct e as [|e]; [apply (bool_decide_unpack _); vm_compute; exact I|]). lia.
Qed.

Lemma piece_symbol_one_char (p : string) : piece_symbol p -> one_char p.
Proof.
  unfold piece_symbol, code_mapping_order. rewrite !elem_of_cons.
  intros [->|[->|[->|[->|[->|[->|[->|[->|[->|[->|[->|[->|[->|H]]]]]]]]]]]]];
    [reflexivity ..|].
  apply elem_of_nil in H. contradiction.
Qed.

Lemma piece_symbol_no_space (p : string) : piece_symbol p -> " "%char ∉ chars p.
Proof.
  unfold piece_symbol, code_mapping_order. rewrite !elem_of_cons.
  intros [->|[->|[->|[->|[->|[->|[->|[->|[->|[->|[->|[->|[->|H]]]]]]]]]]]]];
    [apply (bool_decide_unpack _); vm_compute; exact I ..|].
  apply elem_of_nil in H. contradiction.
Qed.

Lemma rank_field_no_space (rank : list string) (e : nat) :
  Forall piece_symbol rank -> (e + length rank <= 9)%nat ->
  " "%char ∉ chars (rank_field e rank).
Proof.
  revert e. induction rank as [|p rank IH]; intros e Hsym Hlen.
  - apply run_digits_no_space. simpl in Hlen. lia.
  - apply Forall_cons in Hsym as [Hp Hsym]. simpl length in Hlen. simpl rank_field.
    destruct (decide (p = ".")); [apply IH; [exact Hsym | lia]|].
    rewrite !chars_append, !elem_of_app. intros [H|[H|H]].
    + revert H. apply run_digits_no_space. lia.
    + revert H. apply piece_symbol_no_space, Hp.
    + revert H. apply IH; [exact Hsym | lia].
Qed.

Lemma join_no_space (l : list string) :
  Forall (fun s => " "%char ∉ chars s) l -> " "%char ∉ chars (join "/" l).
Proof.
  induction l as [|w l IH]; intros Hl; [apply (bool_decide_unpack _); vm_compute; exact I|].
  apply Forall_cons in Hl as [Hw Hl]. rewrite join_cons.
  destruct l as [|w2 l]; [rewrite append_empty_r; exact Hw|].
  rewrite !chars_append, !elem_of_app. intros [H|[H|H]].
  - exact (Hw H).
  - revert H. apply (bool_decide_unpack _). vm_compute. exact I.
  - exact (IH Hl H).
Qed.

Lemma board_field_no_space (board : list string) :
  length board = 64%nat -> Forall piece_symbol board ->
  " "%char ∉ chars (board_field_of board).
Proof.
  intros Hlen Hsym. unfold board_field_of. apply join_no_space, Forall_map.
  pose proof (ranks_of_full 8 board Hlen Hsym) as Hranks.
  eapply Forall_impl; [exact Hranks|]. intros rank [Hl Hs]. simpl.
  apply rank_field_no_space; [exact Hs | lia].
Qed.

(** X2: [show_board] draws the board sprite and then, for a board field
    written from 64 piece symbols, exactly the pieces of the board, each on
    the file and rank of its square and in board order; with
    [rotate180] it draws the board turned by 180 degrees. What follows the
    first space of the FEN record is not looked at. The display so undoes
    the FEN conversion of the decoder. *)
Theorem show_board_draws_board (rotate180 : bool) (board : list string) (tail : string)
    (x0 y0 : Z) (scr : screen) :
  length board = 64%nat -> Forall piece_symbol board -> field_end tail ->
  show_board rotate180 (board_field_of board +:+ tail) x0 y0 scr
  = (Ok tt,
     scr ++ ("chessboard_xy", Px x0, Px y0)
         :: placed x0 y0 0 (if rotate180 then rev board else board)).
Proof.
  intros Hlen Hsym Htail.
  assert (Hdraw : forall (b : list string) (t : string) (s : screen),
             length b = 64%nat -> Forall piece_symbol b -> field_end t ->
             place_pieces x0 y0 (chars (board_field_of b +:+ t)) 0 0 s
             = (Ok tt, s ++ placed x0 y0 0 b)).
  { intros b t s Hl Hs Ht. unfold board_field_of.
    destruct (concat_ranks_of 8 b Hl) as (Hc & Hn & _).
    assert (Hne : ranks_of 8 b <> [])
      by (intros Hnil; rewrite Hnil in Hn; discriminate Hn).
    pose proof (place_ranks x0 y0 (ranks_of 8 b) t 0 s Hne (ranks_of_full 8 b Hl Hs) Ht)
      as Hrun.
    rewrite Hc in Hrun. exact Hrun. }
  unfold show_board, show_sprite, mbind, modify, lift. destruct rotate180.
  - rewrite (rotated_reverse _ tail (board_field_no_space board Hlen Hsym) Htail).
    assert (Hone : Forall one_char board)
      by (eapply Forall_impl; [exact Hsym | apply piece_symbol_one_char]).
    rewrite <- (board_field_of_rev board Hlen Hone).
    rewrite <- (append_empty_r (board_field_of (rev board))).
    rewrite Hdraw; [rewrite <- app_assoc; reflexivity | rewrite length_rev; exact Hlen
                    | apply Forall_rev; exact Hsym | left; reflexivity].
  - rewrite Hdraw by assumption. rewrite <- app_assoc. reflexivity.
Qed.

Lemma show_board_draws_board_witness :
  show_board true ("rnbqkbnr/pppppppp/8/8/4P3/8/PPPP1PPP/RNBQKBNR" +:+ " b KQkq - 0 1")
    178 40 []
  = (Ok tt,
     ("chessboard_xy", Px 178, Px 40)
       :: placed 178 40 0
            (rev (decoded_board Sample.calibrated_reader
                    [Sample.e4_frame; Sample.e4_frame; Sample.start_frame]))).
Proof.
  apply (show_board_draws_board true
           (decoded_board Sample.calibrated_reader
              [Sample.e4_frame; Sample.e4_frame; Sample.start_frame])
           " b KQkq - 0 1" 178 40 []).
  - reflexivity.
  - apply (bool_decide_unpack _). vm_compute. exact I.
  - right. eexists. reflexivity.
Defined.

End BoardDisplay.


(** ** Settings read off the queens *)

Section QueenLevels.
Import PicoChess SettingsSpec.

Lemma Forall_upto (P : nat -> Prop) (n : nat) :
  Forall P (seq 0 n) -> forall i, (i < n)%nat -> P i.
Proof.
  intros H i Hi. rewrite Forall_forall in H. apply H, elem_of_seq. lia.
Qed.

Lemma Exists_upto (P : nat -> Prop) (n : nat) :
  Exists P (seq 0 n) -> exists i, (i < n)%nat /\ P i.
Proof.
  intros H. apply Exists_exists in H as (i & Hi & HP). apply elem_of_seq in Hi.
  exists i. split; [lia | exact HP].
Qed.

(** X3: [row_0_to_71] numbers the placements of one or two queens on a
    rank. A white queen alone gives its file (0 to 7), a black queen alone
    its file plus 8 (8 to 15), and the 56 placements of both queens give
    the numbers 16 to 71: every placement gives a number from 0 to 71, two
    different placements give different numbers, and every number from 0
    to 71 is given by a placement. *)
Theorem row_0_to_71_numbers_placements :
  (forall w, (w < 8)%nat -> row_0_to_71 (queens_rank w 8) = Ok (Z.of_nat w))
  /\ (forall b, (b < 8)%nat -> row_0_to_71 (queens_rank 8 b) = Ok (8 + Z.of_nat b))
  /\ (forall w b, (w < 8)%nat -> (b < 8)%nat -> w <> b ->
        exists n, row_0_to_71 (queens_rank w b) = Ok n /\ 16 <= n < 72)
  /\ (forall w b w' b', placement w b -> placement w' b' ->
        row_0_to_71 (queens_rank w b) = row_0_to_71 (queens_rank w' b') ->
        w = w' /\ b = b')
  /\ (forall n, 0 <= n < 72 ->
        exists w b, placement w b /\ row_0_to_71 (queens_rank w b) = Ok n).
Proof.
  split; [|split; [|split; [|split]]].
  - apply Forall_upto. apply (bool_decide_unpack _). vm_compute. exact I.
  - apply Forall_upto. apply (bool_decide_unpack _). vm_compute. exact I.
  - assert (H : Forall (fun w => Forall (fun b => w <> b ->
                 row_0_to_71 (queens_rank w b)
                 ∈ map (fun n => Ok (Z.of_nat n)) (seq 16 56)) (seq 0 8)) (seq 0 8))
      by (apply (bool_decide_unpack _); vm_compute; exact I).
    intros w b Hw Hb Hne.
    pose proof (Forall_upto _ _ (Forall_upto _ _ H w Hw) b Hb Hne) as Hn.
    apply list_elem_of_fmap in Hn as (n & Hrow & Hn). apply elem_of_seq in Hn.
    exists (Z.of_nat n). split; [exact Hrow | lia].
  - assert (H : Forall (fun w => Forall (fun b => Forall (fun w' => Forall (fun b' =>
                 w <> b -> w' <> b' ->
                 row_0_to_71 (queens_rank w b) = row_0_to_71 (queens_rank w' b') ->
                 w = w' /\ b = b') (seq 0 9)) (seq 0 9)) (seq 0 9)) (seq 0 9))
      by (apply (bool_decide_unpack _); vm_compute; exact I).
    intros w b w' b' (Hw & Hb & Hne) (Hw' & Hb' & Hne').
    apply (Forall_upto _ _ (Forall_upto _ _ (Forall_upto _ _ (Forall_upto _ _ H w
             ltac:(lia)) b ltac:(lia)) w' ltac:(lia)) b' ltac:(lia)); assumption.
  - assert (H : Forall (fun n => Exists (fun w => Exists (fun b =>
                 w <> b /\ row_0_to_71 (queens_rank w b) = Ok (Z.of_nat n))
                 (seq 0 9)) (seq 0 9)) (seq 0 72))
      by (apply (bool_decide_unpack _); vm_compute; exact I).
    intros n Hn. pose proof (Forall_upto _ _ H (Z.to_nat n) ltac:(lia)) as Hex.
    apply Exists_upto in Hex as (w & Hw & Hex).
    apply Exists_upto in Hex as (b & Hb & Hne & Hrow).
    exists w, b. rewrite Z2Nat.id in Hrow by lia.
    split; [split; [lia | split; [lia | exact Hne]] | exact Hrow].
Qed.

End QueenLevels.


(** ** Decimal texts *)

From Stdlib Require DecimalPos DecimalZ.

Section Decimal.

Ltac digit_code :=
  match goal with
  | |- context [code ?c] => let v := eval vm_compute in (code c) in change (code c) with v
  end.

Lemma int_digits_acc (d : Decimal.uint) (acc : positive) :
  int_digits (Z.pos acc) true (chars (NilEmpty.string_of_uint d))
  = Ok (Z.pos (Pos.of_uint_acc d acc)).
Proof.
  revert acc. induction d; intros acc; simpl; try reflexivity;
    digit_code; rewrite <- IHd; f_equal; lia.
Qed.

Lemma int_digits_uint (d : Decimal.uint) :
  int_digits 0 true (chars (NilEmpty.string_of_uint d)) = Ok (Z.of_N (Pos.of_uint d)).
Proof.
  induction d; simpl; try reflexivity; try exact IHd;
    digit_code; rewrite <- int_digits_acc; reflexivity.
Qed.

Lemma string_of_uint_digits (d : Decimal.uint) :
  Forall (fun c => is_decimal c = true) (chars (NilEmpty.string_of_uint d)).
Proof. induction d; simpl; constructor; try reflexivity; exact IHd. Qed.

Lemma strip_left_head (c : ascii) (l : list ascii) :
  is_space c = false -> strip_left (c :: l) = c :: l.
Proof. intros H. simpl. rewrite H. reflexivity. Qed.

Lemma strip_no_space (l : list ascii) :
  Forall (fun c => is_space c = false) l -> strip l = l.
Proof.
  intros Hl. unfold strip.
  assert (Hs : forall k, Forall (fun c => is_space c = false) k -> strip_left k = k).
  { intros [|c k] Hk; [reflexivity|]. apply Forall_cons in Hk as [Hc _].
    apply strip_left_head, Hc. }
  rewrite (Hs l Hl), (Hs (rev l)) by (apply Forall_rev; exact Hl).
  apply rev_involutive.
Qed.

Lemma decimal_not_space (c : ascii) : is_decimal c = true -> is_space c = false.
Proof.
  unfold is_decimal, is_space. intros H. apply andb_true_iff in H as [H1 H2].
  apply Z.leb_le in H1. apply Z.leb_le in H2.
  repeat match goal with
         | |- context [?a <=? ?b] => destruct (Z.leb_spec a b); try lia
         | |- context [?a =? ?b] => destruct (Z.eqb_spec a b); try lia
         end; reflexivity.
Qed.

Lemma pos_to_uint_cons (p : positive) :
  exists c l, chars (NilEmpty.string_of_uint (Pos.to_uint p)) = c :: l
              /\ is_decimal c = true.
Proof.
  pose proof (string_of_uint_digits (Pos.to_uint p)) as Hd.
  destruct (chars (NilEmpty.string_of_uint (Pos.to_uint p))) as [|c l] eqn:Hc.
  - exfalso. pose proof (DecimalPos.Unsigned.to_uint_nonnil p) as Hnil.
    destruct (Pos.to_uint p); try discriminate Hc. apply Hnil. reflexivity.
  - apply Forall_cons in Hd as [Hd _]. exists c, l. split; [reflexivity | exact Hd].
Qed.

(** [int(str(n)) == n] *)
Lemma int_str (n : Z) : int (str n) = Ok n.
Proof.
  unfold int, str.
  assert (Hround : Z.of_int (Z.to_int n) = n) by apply DecimalZ.of_to.
  destruct n as [|p|p]; simpl Z.to_int in *; simpl NilEmpty.string_of_int.
  - reflexivity.
  - destruct (pos_to_uint_cons p) as (c & l & Hc & Hdec).
    pose proof (string_of_uint_digits (Pos.to_uint p)) as Hall.
    rewrite strip_no_space
      by (eapply Forall_impl; [exact Hall | apply decimal_not_space]).
    rewrite Hc.
    assert (Hminus : Ascii.eqb c "-" = false)
      by (apply Ascii.eqb_neq; intros ->; discriminate Hdec).
    assert (Hplus : Ascii.eqb c "+" = false)
      by (apply Ascii.eqb_neq; intros ->; discriminate Hdec).
    rewrite Hminus, Hplus, <- Hc.
    assert (Hstart : forall k, k = chars (NilEmpty.string_of_uint (Pos.to_uint p)) ->
                               int_digits 0 false k = int_digits 0 true k).
    { intros k ->. rewrite Hc. simpl. rewrite Hdec. reflexivity. }
    rewrite (Hstart _ eq_refl), int_digits_uint. simpl in Hround.
    unfold Z.of_uint in Hround. rewrite Hround. reflexivity.
  - change (chars (String "-" ?s)) with ("-"%char :: chars s).
    pose proof (string_of_uint_digits (Pos.to_uint p)) as Hall.
    rewrite strip_no_space.
    2:{ constructor; [reflexivity|].
        eapply Forall_impl; [exact Hall | apply decimal_not_space]. }
    change (Ascii.eqb "-" "-") with true. cbv iota.
    destruct (pos_to_uint_cons p) as (c & l & Hc & Hdec).
    assert (Hstart : int_digits 0 false (chars (NilEmpty.string_of_uint (Pos.to_uint p)))
                     = int_digits 0 true (chars (NilEmpty.string_of_uint (Pos.to_uint p)))).
    { rewrite Hc. simpl. rewrite Hdec. reflexivity. }
    rewrite Hstart, int_digits_uint. simpl in Hround. unfold Z.of_uint in Hround.
    unfold bind. f_equal. lia.
Qed.

Lemma str_inj (a b : Z) : str a = str b -> a = b.
Proof.
  intros H. pose proof (int_str a) as Ha. rewrite H, int_str in Ha. congruence.
Qed.

Lemma str_no_space (n : Z) : " "%char ∉ chars (str n).
Proof.
  unfold str. intros Hin.
  assert (Hd : forall d, " "%char ∉ chars (NilEmpty.string_of_uint d)).
  { intros d H. pose proof (string_of_uint_digits d) as Hall.
    rewrite Forall_forall in Hall. specialize (Hall _ H). discriminate Hall. }
  destruct (Z.to_int n) as [d|d]; simpl in Hin.
  - exact (Hd d Hin).
  - apply elem_of_cons in Hin as [Hin|Hin]; [discriminate Hin | exact (Hd d Hin)].
Qed.

End Decimal.

(** ** The code mapping that [load_piece_codes] builds *)

Section CodeMapping.
Import UsbReader ReaderSpec CalibrationSpec.

Lemma listed_cons (key : list string) (c : list Z) (codes : list (list Z)) :
  listed key (c :: codes) <-> key = map str c \/ listed key codes.
Proof. unfold listed. simpl. apply elem_of_cons. Qed.

Lemma add_piece_lookup (m : gmap (list string) string) (letter : string)
    (codes : list (list Z)) (key : list string) :
  add_piece m (letter, codes) !! key
  = if decide (listed key codes) then Some letter else m !! key.
Proof.
  unfold add_piece. simpl. revert m.
  induction codes as [|c codes IH]; intros m; simpl foldl.
  - destruct (decide (listed key [])) as [H|_]; [|reflexivity].
    apply elem_of_nil in H. contradiction.
  - rewrite IH. pose proof (listed_cons key c codes) as Hcons.
    destruct (decide (listed key codes)) as [Hin|Hout];
      destruct (decide (listed key (c :: codes))) as [Hin'|Hout']; try reflexivity.
    + exfalso. apply Hout', Hcons. right. exact Hin.
    + apply Hcons in Hin' as [->|Hin']; [|contradiction].
      unfold add_variation. apply lookup_insert_eq.
    + unfold add_variation. apply lookup_insert_ne. intros Heq. apply Hout', Hcons.
      left. symmetry. exact Heq.
Qed.

Lemma add_pieces_miss (entries : list (string * list (list Z)))
    (m : gmap (list string) string) (key : list string) :
  Forall (fun e => ~ listed key (snd e)) entries ->
  foldl add_piece m entries !! key = m !! key.
Proof.
  revert m. induction entries as [|[letter codes] entries IH]; intros m Hmiss; [reflexivity|].
  apply Forall_cons in Hmiss as [Hhere Hmiss]. simpl foldl.
  rewrite (IH _ Hmiss), add_piece_lookup.
  destruct (decide _) as [H|_]; [contradiction | reflexivity].
Qed.

Lemma add_pieces_hit (pre post : list (string * list (list Z))) (letter : string)
    (codes : list (list Z)) (m : gmap (list string) string) (key : list string) :
  listed key codes ->
  Forall (fun e => ~ listed key (snd e)) post ->
  foldl add_piece m (pre ++ (letter, codes) :: post) !! key = Some letter.
Proof.
  intros Hin Hpost. rewrite foldl_app. simpl foldl.
  rewrite (add_pieces_miss post _ key Hpost), add_piece_lookup.
  destruct (decide _) as [_|H]; [reflexivity | contradiction].
Qed.

Lemma load_piece_codes_stored (r : usb_reader) (data : list (list (list Z))) :
  disk r = Stored (CalibrationData data) ->
  load_piece_codes r
  = (Ok tt, set_code_mapping
              (<[zero_code := "."]> (foldl add_piece ∅ (zip code_mapping_order data))) r).
Proof.
  intros Hdisk. unfold load_piece_codes, mbind, get, ret, lift, modify.
  rewrite Hdisk. simpl. rewrite Hdisk. reflexivity.
Qed.

Lemma zip_lookup {A B : Type} (l : list A) (k : list B) (i : nat) (x : A) (y : B) :
  zip l k !! i = Some (x, y) <-> l !! i = Some x /\ k !! i = Some y.
Proof.
  revert k i. induction l as [|a l IH]; intros [|b k] [|i]; simpl;
    try (split; [discriminate | intros [H1 H2]; discriminate]).
  - split; [intros [= -> ->]; auto | intros [[= ->] [= ->]]; reflexivity].
  - apply IH.
Qed.

Lemma zip_order_lookup (data : list (list (list Z))) (j : nat)
    (e : string * list (list Z)) :
  zip code_mapping_order data !! j = Some e ->
  code_mapping_order !! j = Some (fst e) /\ data !! j = Some (snd e) /\ (j < 12)%nat.
Proof.
  destruct e as [l c]. intros He. apply zip_lookup in He as [Ho Hd].
  split; [exact Ho|]. split; [exact Hd|]. apply lookup_lt_Some in Ho. simpl in Ho. lia.
Qed.

Lemma loaded_hit (data : list (list (list Z))) (key : list string) (i : nat)
    (letter : string) (codes : list (list Z)) :
  key <> zero_code ->
  code_mapping_order !! i = Some letter -> data !! i = Some codes ->
  listed key codes ->
  (forall (j : nat) (codes' : list (list Z)),
     (i < j < 12)%nat -> data !! j = Some codes' -> ~ listed key codes') ->
  (<[zero_code := "."]> (foldl add_piece ∅ (zip code_mapping_order data))) !! key
  = Some letter.
Proof.
  intros Hne Ho Hd Hin Hlater. rewrite lookup_insert_ne by congruence.
  assert (He : zip code_mapping_order data !! i = Some (letter, codes))
    by (apply zip_lookup; auto).
  rewrite <- (take_drop_middle _ i _ He).
  apply add_pieces_hit; [exact Hin|].
  apply Forall_lookup. intros k e Hk. rewrite lookup_drop in Hk.
  destruct (zip_order_lookup _ _ _ Hk) as (_ & Hd' & Hj).
  apply (Hlater (S i + k)%nat); [lia | exact Hd'].
Qed.

Lemma loaded_miss (data : list (list (list Z))) (key : list string) :
  key <> zero_code ->
  (forall (j : nat) (codes' : list (list Z)),
     (j < 12)%nat -> data !! j = Some codes' -> ~ listed key codes') ->
  (<[zero_code := "."]> (foldl add_piece ∅ (zip code_mapping_order data))) !! key = None.
Proof.
  intros Hne Hnone. rewrite lookup_insert_ne by congruence.
  rewrite add_pieces_miss; [apply lookup_empty|].
  apply Forall_lookup. intros k e Hk.
  destruct (zip_order_lookup _ _ _ Hk) as (_ & Hd' & Hj).
  apply (Hnone k); assumption.
Qed.

(** X4: what a code decodes to after [load_piece_codes] has read the
    calibration file. The all-zero code is the empty square, whatever the
    file says. Any other code stands for the piece letter under which the
    file lists it, the last such letter in the order p r n b k q P R N B K Q
    if there are several; a code that the file lists under none of the
    twelve letters is not in the mapping, even if it was before. *)
Theorem code_mapping_after_load (r : usb_reader) (data : list (list (list Z))) :
  disk r = Stored (CalibrationData data) ->
  exists mapping,
    load_piece_codes r = (Ok tt, set_code_mapping mapping r)
    /\ mapping !! zero_code = Some "."
    /\ (forall (key : list string) (i : nat) (letter : string) (codes : list (list Z)),
          key <> zero_code ->
          code_mapping_order !! i = Some letter -> data !! i = Some codes ->
          listed key codes ->
          (forall (j : nat) (codes' : list (list Z)),
             (i < j < 12)%nat -> data !! j = Some codes' -> ~ listed key codes') ->
          mapping !! key = Some letter)
    /\ (forall key : list string,
          key <> zero_code ->
          (forall (j : nat) (codes' : list (list Z)),
             (j < 12)%nat -> data !! j = Some codes' -> ~ listed key codes') ->
          mapping !! key = None).
Proof.
  intros Hdisk. eexists. split; [apply load_piece_codes_stored, Hdisk|].
  split; [apply lookup_insert_eq|]. split.
  - intros key i letter codes. apply loaded_hit.
  - intros key. apply loaded_miss.
Qed.

Lemma code_mapping_after_load_witness :
  exists mapping,
    load_piece_codes Sample.calibrated_reader
    = (Ok tt, set_code_mapping mapping Sample.calibrated_reader)
    /\ mapping !! zero_code = Some "."
    /\ mapping !! ["7"; "0"; "0"; "0"; "0"] = Some "P".
Proof.
  assert (Hdisk : disk Sample.calibrated_reader
                  = Stored (CalibrationData Sample.calibration_data))
    by (vm_compute; reflexivity).
  destruct (code_mapping_after_load Sample.calibrated_reader Sample.calibration_data Hdisk)
    as (mapping & Hrun & Hzero & Hhit & _).
  exists mapping. split; [exact Hrun|]. split; [exact Hzero|].
  apply (Hhit _ 6%nat "P" [[7; 0; 0; 0; 0]]).
  - discriminate.
  - reflexivity.
  - reflexivity.
  - apply (bool_decide_unpack _). vm_compute. exact I.
  - intros j codes' Hj Hd.
    do 12 (destruct j as [|j];
           [try lia; injection Hd as <-; apply (bool_decide_unpack _); vm_compute; exact I|]).
    lia.
Defined.

End CodeMapping.


(** ** Calibration and decoding are inverse to each other *)

Section Frames.
Import UsbReader DecoderSpec CalibrationSpec.

Lemma str_slice_tail (c : ascii) (s : string) : str_slice (String c s) (Some 1) None = s.
Proof.
  unfold str_slice, slice, chars. cbn [list_ascii_of_string length].
  rewrite Nat2Z.inj_succ. unfold clamp. destruct (Z.ltb_spec 1 0); [lia|].
  rewrite Z.min_l by lia. change (Z.to_nat 1) with 1%nat. cbn [drop].
  rewrite drop_0, take_ge by lia. apply str_of_chars.
Qed.

Lemma split_on_join (sep : ascii) (l : list string) :
  l <> [] -> Forall (fun w => sep ∉ chars w) l ->
  split_on sep (join (String sep "") l) = l.
Proof.
  induction l as [|w l IH]; intros Hne Hl; [contradiction|].
  apply Forall_cons in Hl as [Hw Hl]. rewrite join_cons.
  destruct l as [|w2 l].
  - rewrite append_empty_r. apply split_on_no_sep, Hw.
  - change (String sep "" +:+ ?x) with (String sep x).
    rewrite (split_on_app_sep _ _ _ Hw), IH; [reflexivity | discriminate | exact Hl].
Qed.

Lemma tokens_frame (marker : ascii) (readings : list Z) :
  readings <> [] ->
  tokens (Some (frame_with marker readings)) = Ok (map str readings).
Proof.
  intros Hne. unfold tokens, frame_with. rewrite str_slice_tail.
  rewrite (split_on_join " "); [reflexivity | |].
  - destruct readings; [contradiction | discriminate].
  - apply Forall_map, Forall_forall. intros n _. apply str_no_space.
Qed.

Lemma slice_take_drop {A : Type} (l : list A) (a b : Z) :
  0 <= a <= b -> b <= Z.of_nat (length l) ->
  slice l (Some a) (Some b) = take (Z.to_nat (b - a)) (drop (Z.to_nat a) l).
Proof.
  intros Hab Hb. unfold slice, clamp.
  destruct (Z.ltb_spec a 0); [lia|]. destruct (Z.ltb_spec b 0); [lia|].
  rewrite !Z.min_l by lia. reflexivity.
Qed.

Lemma apply_slice_map {A B : Type} (f : A -> B) (l : list A) (sl : Z * Z) :
  apply_slice (map f l) sl = map f (apply_slice l sl).
Proof.
  unfold apply_slice, slice. rewrite length_map, skipn_map, firstn_map. reflexivity.
Qed.

Lemma cell_slices_concat {A : Type} (l : list A) (n : nat) :
  (5 * n <= length l)%nat ->
  concat (map (fun cell => apply_slice l (cell * 5, cell * 5 + 5)) (range n))
  = take (5 * n) l.
Proof.
  unfold range. induction n as [|n IH]; intros Hlen; [reflexivity|].
  rewrite seq_S, !map_app, concat_app, IH by lia. cbn [map concat].
  rewrite app_nil_r. unfold apply_slice. cbn [fst snd].
  rewrite slice_take_drop by lia.
  replace (Z.to_nat (Z.of_nat (0 + n) * 5 + 5 - Z.of_nat (0 + n) * 5)) with 5%nat by lia.
  replace (Z.to_nat (Z.of_nat (0 + n) * 5)) with (5 * n)%nat by lia.
  rewrite take_take_drop. f_equal. lia.
Qed.

Lemma mapM_int_str (l : list Z) : mapM int (map str l) = Ok l.
Proof.
  induction l as [|n l IH]; [reflexivity|]. simpl. rewrite int_str, IH. reflexivity.
Qed.

End Frames.

Section Unanimous.
Import UsbReader DecoderSpec ReaderSpec CalibrationSpec.

Lemma counter_update_same {K : Type} `{EqDecision K} (v : K) (n k : nat) :
  counter_update [(v, n)] (replicate k v) = [(v, (n + k)%nat)].
Proof.
  unfold counter_update. revert n. induction k as [|k IH]; intros n; simpl.
  - rewrite Nat.add_0_r. reflexivity.
  - destruct (decide (v = v)); [|contradiction]. rewrite IH. do 2 f_equal. lia.
Qed.

Lemma map_replicate {A B : Type} (f : A -> B) (x : A) (n : nat) :
  map f (replicate n x) = replicate n (f x).
Proof. induction n as [|n IH]; simpl; [reflexivity|]. rewrite IH. reflexivity. Qed.

(** Step 1 of [do_calibration] on samples that all agree. *)
Lemma most_common_code_unanimous (toks : list string) (k : nat) (sl : Z * Z)
    (r : usb_reader) :
  counter r = [] ->
  most_common_code (replicate (S k) toks) sl r = (Ok (VTuple (apply_slice toks sl)), r).
Proof.
  intros Hc. unfold most_common_code, mbind, get, modify, lift, ret. simpl.
  rewrite Hc. unfold counter_update at 1. simpl foldl.
  fold (counter_update [(VTuple (apply_slice toks sl), 1%nat)]
          (map (fun sample => VTuple (apply_slice sample sl)) (replicate k toks))).
  rewrite map_replicate, counter_update_same. simpl. f_equal. destruct r. simpl in Hc. subst. reflexivity.
Qed.

Lemma mapM_replicate {A B : Type} (f : A -> result B) (x : A) (y : B) (n : nat) :
  f x = Ok y -> mapM f (replicate n x) = Ok (replicate n y).
Proof. intros H. induction n as [|n IH]; simpl; [reflexivity|]. rewrite H, IH. reflexivity. Qed.

Lemma cell_slice_index (cell : Z) :
  0 <= cell < 64 -> index cell_slice_mapping cell = Ok (cell * 5, cell * 5 + 5).
Proof.
  intros Hc. rewrite <- (Z2Nat.id cell) at 1 by lia. apply index_lookup.
  unfold cell_slice_mapping, range. rewrite !list_lookup_fmap, lookup_seq_lt by lia.
  simpl. rewrite Z2Nat.id by lia. reflexivity.
Qed.

End Unanimous.

Section RoundTrip.
Import UsbReader DecoderSpec ReaderSpec CalibrationSpec.

(** One call of [add_mapping]: the code of the square joins the list of
    its piece if its sum is not zero, unless it is there already. *)
Lemma add_mapping_records (readings : list Z) (key : string) (cell : Z)
    (m : gmap string (list (list Z))) (codes : list (list Z)) :
  0 <= cell < 64 -> m !! key = Some codes ->
  exists m1,
    add_mapping readings key cell m = (Ok tt, m1)
    /\ (forall k, is_Some (m !! k) -> is_Some (m1 !! k))
    /\ (forall k cs cs1, m !! k = Some cs -> m1 !! k = Some cs1 ->
          forall code, code ∈ cs1
                       <-> code ∈ cs \/ (k = key /\ code = reading_at readings cell
                                         /\ sum code <> 0)).
Proof.
  intros Hcell Hkey. rewrite add_mapping_run, (cell_slice_index cell Hcell), Hkey.
  cbv zeta. fold (reading_at readings cell).
  destruct (Z.eqb_spec (sum (reading_at readings cell)) 0) as [Hz|Hnz]; simpl negb; simpl andb.
  - exists m. split; [reflexivity|]. split; [auto|].
    intros k cs cs1 Hk Hk1 code. rewrite Hk in Hk1. injection Hk1 as <-.
    split; [auto|]. intros [H|(_ & -> & H)]; [exact H | contradiction].
  - destruct (bool_decide_reflect (reading_at readings cell ∈ codes)) as [Hin|Hout]; simpl negb.
    + exists m. split; [reflexivity|]. split; [auto|].
      intros k cs cs1 Hk Hk1 code. rewrite Hk in Hk1. injection Hk1 as <-.
      split; [auto|]. intros [H|[-> [-> _]]]; [exact H|].
      rewrite Hkey in Hk. injection Hk as <-. exact Hin.
    + eexists. split; [reflexivity|]. split.
      * intros k Hk. destruct (decide (k = key)) as [->|Hne].
        -- rewrite lookup_insert_eq. eexists. reflexivity.
        -- rewrite lookup_insert_ne by congruence. exact Hk.
      * intros k cs cs1 Hk Hk1 code. destruct (decide (k = key)) as [->|Hne].
        -- rewrite lookup_insert_eq in Hk1. injection Hk1 as <-.
           rewrite Hkey in Hk. injection Hk as <-.
           rewrite elem_of_app, list_elem_of_singleton. split.
           ++ intros [H | ->]; [left; exact H | right; auto].
           ++ intros [H|(_ & -> & _)]; [left; exact H | right; reflexivity].
        -- rewrite lookup_insert_ne in Hk1 by congruence. rewrite Hk in Hk1.
           injection Hk1 as <-. split; [auto|].
           intros [H|[-> _]]; [exact H | contradiction].
Qed.

(** Step 2 of [do_calibration] over a list of squares. *)
Lemma record_squares (readings : list Z) (sqs : list (string * Z))
    (m : gmap string (list (list Z))) :
  (forall kc, kc ∈ sqs -> is_Some (m !! fst kc) /\ 0 <= snd kc < 64) ->
  exists m',
    forM_st (fun kc => add_mapping readings (fst kc) (snd kc)) sqs m = (Ok tt, m')
    /\ (forall k, is_Some (m !! k) -> is_Some (m' !! k))
    /\ (forall k cs cs', m !! k = Some cs -> m' !! k = Some cs' ->
          forall code, code ∈ cs'
                       <-> code ∈ cs \/ exists c, (k, c) ∈ sqs
                                                  /\ code = reading_at readings c
                                                  /\ sum code <> 0).
Proof.
  revert m. induction sqs as [|[key cell] sqs IH]; intros m Hok.
  - exists m. split; [reflexivity|]. split; [auto|].
    intros k cs cs' Hk Hk' code. rewrite Hk in Hk'. injection Hk' as <-.
    split; [auto|]. intros [H|(c & Hc & _)]; [exact H|].
    apply elem_of_nil in Hc. contradiction.
  - destruct (Hok (key, cell) ltac:(left)) as [[codes Hkey] Hcell]. simpl in Hkey, Hcell.
    destruct (add_mapping_records readings key cell m codes Hcell Hkey)
      as (m1 & Hrun & Hkeep & Hrec).
    destruct (IH m1) as (m' & Hrun' & Hkeep' & Hrec').
    { intros kc Hkc. destruct (Hok kc ltac:(right; exact Hkc)) as [Hs Hc].
      split; [apply Hkeep, Hs | exact Hc]. }
    exists m'. split.
    { simpl forM_st. unfold mbind. simpl fst. simpl snd. rewrite Hrun. exact Hrun'. }
    split; [intros k Hk; apply Hkeep', Hkeep, Hk|].
    intros k cs cs' Hk Hk' code.
    destruct (Hkeep k ltac:(eexists; exact Hk)) as [cs1 Hk1].
    rewrite (Hrec' k cs1 cs' Hk1 Hk' code), (Hrec k cs cs1 Hk Hk1 code). split.
    + intros [[H|[-> [-> Hs]]]|(c & Hc & -> & Hs)].
      * left. exact H.
      * right. exists cell. split; [left | auto].
      * right. exists c. split; [right; exact Hc | auto].
    + intros [H|(c & Hc & -> & Hs)]; [left; left; exact H|].
      apply elem_of_cons in Hc as [[= -> ->]|Hc].
      * left. right. auto.
      * right. exists c. auto.
Qed.

Lemma mapM_ok {A B : Type} (f : A -> result B) (g : A -> B) (l : list A) :
  (forall x, x ∈ l -> f x = Ok (g x)) -> mapM f l = Ok (map g l).
Proof.
  induction l as [|x l IH]; intros H; [reflexivity|]. simpl.
  rewrite (H x ltac:(left)), IH; [reflexivity|]. intros y Hy. apply H. right. exact Hy.
Qed.

Lemma calibration_squares_known :
  forall kc, kc ∈ calibration_squares ->
             is_Some (empty_calibration_mapping !! fst kc) /\ 0 <= snd kc < 64.
Proof.
  apply (proj1 (Forall_forall _ _)). apply (bool_decide_unpack _). vm_compute. exact I.
Qed.

Lemma code_mapping_order_known :
  forall key, key ∈ code_mapping_order -> is_Some (empty_calibration_mapping !! key).
Proof.
  apply (proj1 (Forall_forall _ _)). apply (bool_decide_unpack _). vm_compute. exact I.
Qed.

(** [do_calibration(new_setup=True)] on samples that all show the same
    frame of 320 readings. *)
Lemma do_calibration_unanimous (r : usb_reader) (marker : ascii) (readings : list Z)
    (k : nat) :
  counter r = [] ->
  calibration_samples r = replicate (S k) (Some (frame_with marker readings)) ->
  length readings = 320%nat ->
  exists m',
    do_calibration true r
    = (Ok tt,
       set_calibration_mapping m'
         (set_disk (Stored (CalibrationData
                              (map (fun key => default [] (m' !! key)) code_mapping_order)))
                   r))
    /\ (forall key, key ∈ code_mapping_order -> is_Some (m' !! key))
    /\ (forall key codes, m' !! key = Some codes ->
          forall code, code ∈ codes
                       <-> exists c, (key, c) ∈ calibration_squares
                                     /\ code = reading_at readings c /\ sum code <> 0).
Proof.
  intros Hc Hsamples Hlen.
  assert (Hne : readings <> []) by (intros ->; discriminate Hlen).
  destruct (record_squares readings calibration_squares empty_calibration_mapping
              calibration_squares_known) as (m' & Hrun & Hkeep & Hrec).
  exists m'.
  assert (Hkeys : forall key, key ∈ code_mapping_order -> is_Some (m' !! key))
    by (intros key Hkey; apply Hkeep, code_mapping_order_known, Hkey).
  split; [|split; [exact Hkeys|]].
  - unfold do_calibration, mbind, get, lift. rewrite Hsamples.
    rewrite (mapM_replicate tokens _ _ _ (tokens_frame marker readings Hne)).
    rewrite (mapM_st_pure (most_common_code (replicate (S k) (map str readings)))
               (fun sl => VTuple (apply_slice (map str readings) sl))
               cell_slice_mapping r)
      by (intros sl _; apply most_common_code_unanimous, Hc).
    rewrite flat_map_concat_map, map_map. cbn [items].
    unfold cell_slice_mapping at 1. rewrite map_map.
    rewrite (cell_slices_concat (map str readings) 64)
      by (rewrite length_map, Hlen; lia).
    rewrite take_ge by (rewrite length_map, Hlen; lia).
    rewrite mapM_int_str. unfold step2. rewrite Hrun. unfold ret, modify.
    unfold calibration_data_of.
    rewrite (mapM_ok _ (fun key => default [] (m' !! key))); [reflexivity|].
    intros key Hkey. destruct (Hkeys key Hkey) as [codes ->]. reflexivity.
  - intros key codes Hk code.
    destruct (empty_calibration_mapping !! key) as [cs|] eqn:Hempty.
    + assert (Hcs : cs = []).
      { unfold empty_calibration_mapping in Hempty.
        apply elem_of_list_to_map_2 in Hempty. apply list_elem_of_fmap in Hempty.
        destruct Hempty as (letter & [= _ ->] & _). reflexivity. }
      subst cs. rewrite (Hrec key [] codes Hempty Hk code). split.
      * intros [H|H]; [apply elem_of_nil in H; contradiction | exact H].
      * intros H. right. exact H.
    + exfalso. clear Hrec.
      (* a key of the result is a key of the start *)
      revert Hk. 
      assert (Hdom : forall m sqs m1,
                 forM_st (fun kc => add_mapping readings (fst kc) (snd kc)) sqs m = (Ok tt, m1) ->
                 m !! key = None -> m1 !! key = None).
      { intros m sqs. revert m. induction sqs as [|[k0 c0] sqs IH]; intros m m1 Hr Hn.
        - injection Hr as <-. exact Hn.
        - simpl forM_st in Hr. unfold mbind in Hr. rewrite add_mapping_run in Hr. simpl in Hr.
          destruct (index cell_slice_mapping c0) as [sl|e]; [|discriminate Hr].
          destruct (m !! k0) as [cs0|] eqn:Hk0; [|discriminate Hr].
          destruct (negb _ && negb _).
          + apply (IH _ _ Hr). rewrite lookup_insert_ne; [exact Hn|].
            intros ->. rewrite Hn in Hk0. discriminate Hk0.
          + apply (IH _ _ Hr Hn). }
      rewrite (Hdom _ _ _ Hrun Hempty). discriminate.
Qed.

Lemma cell_code_frame (marker : ascii) (readings : list Z) (cell : Z) :
  readings <> [] -> 0 <= cell ->
  cell_code (frame_with marker readings) (Z.to_nat cell)
  = map str (reading_at readings cell).
Proof.
  intros Hne Hcell. unfold cell_code, frame_with, reading_at.
  rewrite str_slice_tail, (split_on_join " ").
  - rewrite Z2Nat.id by lia. apply apply_slice_map.
  - destruct readings; [contradiction | discriminate].
  - apply Forall_map, Forall_forall. intros n _. apply str_no_space.
Qed.

Lemma map_str_inj (a b : list Z) : map str a = map str b -> a = b.
Proof.
  revert b. induction a as [|x a IH]; intros [|y b] H; try discriminate H; [reflexivity|].
  injection H as Hx Hab. f_equal; [apply str_inj, Hx | apply IH, Hab].
Qed.

Lemma code_mapping_order_NoDup : NoDup code_mapping_order.
Proof. apply (bool_decide_unpack _). vm_compute. exact I. Qed.

Lemma calibration_squares_kinds :
  forall kc, kc ∈ calibration_squares -> fst kc ∈ code_mapping_order.
Proof.
  apply (proj1 (Forall_forall _ _)). apply (bool_decide_unpack _). vm_compute. exact I.
Qed.

(** X5: calibration followed by loading is inverse to decoding. When
    every calibration sample shows the same frame of 320 readings in
    decimal, and the readings tell the piece kinds apart, then after
    [do_calibration(new_setup=True)] and [load_piece_codes] each
    calibration square whose five readings do not sum to zero decodes, in
    that frame, to the piece that stands on it during calibration; and a
    cell that reads five zeros decodes to the empty square. *)
Theorem calibrated_squares_decode (r : usb_reader) (marker : ascii) (readings : list Z)
    (k : nat) :
  counter r = [] ->
  calibration_samples r = replicate (S k) (Some (frame_with marker readings)) ->
  length readings = 320%nat ->
  told_apart readings ->
  exists r1 r2,
    do_calibration true r = (Ok tt, r1)
    /\ load_piece_codes r1 = (Ok tt, r2)
    /\ (forall key cell,
          (key, cell) ∈ calibration_squares -> sum (reading_at readings cell) <> 0 ->
          symbol_of r2 (cell_code (frame_with marker readings) (Z.to_nat cell)) = key)
    /\ (forall cell,
          0 <= cell < 64 -> reading_at readings cell = [0; 0; 0; 0; 0] ->
          symbol_of r2 (cell_code (frame_with marker readings) (Z.to_nat cell)) = ".").
Proof.
  intros Hc Hsamples Hlen Hapart.
  assert (Hne : readings <> []) by (intros ->; discriminate Hlen).
  destruct (do_calibration_unanimous r marker readings k Hc Hsamples Hlen)
    as (m' & Hrun & Hkeys & Hrec).
  set (data := map (fun key => default [] (m' !! key)) code_mapping_order) in *.
  eexists. eexists. split; [exact Hrun|].
  split; [apply load_piece_codes_stored; reflexivity|].
  assert (Hdata : forall i letter, code_mapping_order !! i = Some letter ->
                    exists codes, data !! i = Some codes /\ m' !! letter = Some codes).
  { intros i letter Ho. destruct (Hkeys letter (list_elem_of_lookup_2 _ _ _ Ho)) as [codes Hm].
    exists codes. split; [|exact Hm]. unfold data.
    rewrite list_lookup_fmap, Ho. simpl. rewrite Hm. reflexivity. }
  split.
  - intros key cell Hsq Hsum. unfold symbol_of. simpl code_mapping.
    pose proof (calibration_squares_known _ Hsq) as [_ Hcell]. simpl in Hcell.
    rewrite (cell_code_frame marker readings cell Hne) by lia.
    pose proof (calibration_squares_kinds _ Hsq) as Hkind. simpl in Hkind.
    apply list_elem_of_lookup_1 in Hkind as [i Ho].
    destruct (Hdata i key Ho) as (codes & Hd & Hm).
    rewrite (loaded_hit data _ i key codes); [reflexivity | | exact Ho | exact Hd | |].
    + intros Hz. change zero_code with (map str [0; 0; 0; 0; 0]) in Hz.
      apply map_str_inj in Hz. rewrite Hz in Hsum. apply Hsum. reflexivity.
    + unfold listed. apply list_elem_of_fmap. exists (reading_at readings cell).
      split; [reflexivity|]. apply (Hrec key codes Hm). exists cell. auto.
    + intros j codes' Hj Hd' Hlisted.
      assert (Hoj : is_Some (code_mapping_order !! j))
        by (apply lookup_lt_is_Some_2; simpl; lia).
      destruct Hoj as [letter' Hoj].
      destruct (Hdata j letter' Hoj) as (codes2 & Hd2 & Hm2).
      rewrite Hd' in Hd2. injection Hd2 as <-.
      unfold listed in Hlisted. apply list_elem_of_fmap in Hlisted as (code' & Heq & Hin).
      apply map_str_inj in Heq.
      destruct (proj1 (Hrec letter' codes' Hm2 code') Hin) as (c' & Hsq' & Hcode' & _).
      apply (Hapart key cell letter' c' Hsq Hsq').
      * intros ->. pose proof (NoDup_lookup _ _ _ _ code_mapping_order_NoDup Ho Hoj). lia.
      * congruence.
  - intros cell Hcell Hzero. unfold symbol_of. simpl code_mapping.
    rewrite (cell_code_frame marker readings cell Hne) by lia. rewrite Hzero.
    change (map str [0; 0; 0; 0; 0]) with zero_code. rewrite lookup_insert_eq. reflexivity.
Qed.

Lemma setup_readings_told_apart : told_apart CalibrationSample.setup_readings.
Proof.
  assert (H : Forall (fun p1 : string * Z => Forall (fun p2 : string * Z =>
                fst p1 <> fst p2 ->
                reading_at CalibrationSample.setup_readings (snd p1)
                <> reading_at CalibrationSample.setup_readings (snd p2))
                calibration_squares) calibration_squares)
    by (apply (bool_decide_unpack _); vm_compute; exact I).
  intros k1 c1 k2 c2 H1 H2. rewrite Forall_forall in H. specialize (H _ H1).
  rewrite Forall_forall in H. exact (H _ H2).
Qed.

Lemma calibrated_squares_decode_witness :
  exists r1 r2,
    do_calibration true CalibrationSample.sampled_reader = (Ok tt, r1)
    /\ load_piece_codes r1 = (Ok tt, r2)
    /\ symbol_of r2 (cell_code (frame_with ":" CalibrationSample.setup_readings) 19) = "q"
    /\ symbol_of r2 (cell_code (frame_with ":" CalibrationSample.setup_readings) 20) = ".".
Proof.
  destruct (calibrated_squares_decode CalibrationSample.sampled_reader ":"
              CalibrationSample.setup_readings 14)
    as (r1 & r2 & Hr1 & Hr2 & Hsq & Hzero).
  - reflexivity.
  - vm_compute. reflexivity.
  - reflexivity.
  - exact setup_readings_told_apart.
  - exists r1, r2. split; [exact Hr1|]. split; [exact Hr2|]. split.
    + apply (Hsq "q" 19).
      * apply (bool_decide_unpack _). vm_compute. exact I.
      * vm_compute. discriminate.
    + apply (Hzero 20); [lia | reflexivity].
Defined.

End RoundTrip.


(** ** Calibration waits for its fifteen samples *)

Section Sampling.
Import UsbReader ReaderSpec RingSpec.

#[local] Instance waiting_refl : Reflexive waiting.
Proof. intros r. unfold waiting. auto. Qed.

#[local] Instance waiting_trans : Transitive waiting.
Proof.
  intros a b c (H1 & H2 & H3 & H4 & H5) (K1 & K2 & K3 & K4 & K5).
  unfold waiting. repeat split; try congruence. 
  all: try (apply K5, H5; assumption).
Qed.

Ltac waiting_assign :=
  apply keeps_modify; intros ?; unfold waiting;
  (split; [reflexivity|]); (split; [reflexivity|]); (split; [reflexivity|]);
  (split; [reflexivity|]); intros Hring; exact Hring.

Lemma store_frame_ring (data : string) (changed : bool) (r : usb_reader) :
  ring r -> ring (snd (store_frame data changed r)).
Proof.
  intros (Hd & Hl & Hi).
  destruct (index_in_range (data_history r) (data_history_i r) ltac:(lia)) as [old Hold].
  rewrite (store_frame_run r data changed old Hold).
  unfold next_index. rewrite Hd.
  destruct (decide (old ≠ Some data)); simpl; unfold ring; simpl;
    rewrite ?length_insert; (split; [exact Hd|]); (split; [exact Hl|]);
    destruct (Z.leb_spec 3 (data_history_i r + 1)); lia.
Qed.

Lemma store_frame_waiting (data : string) (changed : bool) :
  keeps waiting (store_frame data changed).
Proof.
  intros r. pose proof (store_frame_frame_only data changed r) as Hf.
  unfold frame_only in Hf. destruct Hf as (_ & _ & _ & Hdisk & _ & _ & Hmap & Hn & _ & Hs & _).
  unfold waiting. split; [exact Hn|]. split; [exact Hs|]. split; [exact Hdisk|].
  split; [exact Hmap | apply store_frame_ring].
Qed.

Lemma drain_waiting (frames : list string) (changed : bool) :
  keeps waiting (drain frames changed).
Proof.
  revert changed. induction frames as [|data rest IH]; intros changed; simpl.
  - keeps_step.
  - keeps_step; [waiting_assign|]. keeps_step; [apply store_frame_waiting | apply IH].
Qed.

Lemma data_to_fen_waiting : keeps waiting data_to_fen.
Proof. unfold data_to_fen, decode_cell. keeps_body; waiting_assign. Qed.

Lemma update_waiting : keeps waiting update.
Proof.
  unfold update. keeps_body;
    first [apply drain_waiting | apply data_to_fen_waiting].
Qed.

Lemma read_board_waiting (rotate180 : bool) : keeps waiting (read_board rotate180).
Proof. unfold read_board. keeps_body. apply update_waiting. Qed.

Lemma deque_append_length {A : Type} (maxlen : Z) (d : list A) (x : A) :
  (length (deque_append maxlen d x) <= S (length d))%nat.
Proof.
  unfold deque_append. rewrite length_drop, length_app. simpl. lia.
Qed.

(** A call of [calibration] that finds fewer than fourteen samples takes
    at most one more and gives up for now. *)
Lemma calibration_waits (r : usb_reader) (n : nat) (new_setup : bool) :
  calibration_samples_n r = 15 -> ring r ->
  (length (calibration_samples r) <= n)%nat -> (n < 14)%nat ->
  exists r',
    calibration new_setup r = (Ok false, r')
    /\ calibration_samples_n r' = 15 /\ ring r'
    /\ (length (calibration_samples r') <= S n)%nat
    /\ disk r' = disk r /\ code_mapping r' = code_mapping r.
Proof.
  intros Hn Hring Hlen Hlt. pose proof Hring as (Hd & Hl & Hi).
  unfold calibration, mbind, get.
  destruct ((0 <? data_history_i r)
            && negb (bool_decide (calibration_data_history_i r = Some (data_history_i r)))).
  - destruct (index_in_range (data_history r) (data_history_i r) ltac:(lia)) as [sample Hs].
    rewrite Hs. unfold lift, modify, ret. simpl. rewrite Hn.
    pose proof (deque_append_length 15 (calibration_samples r) sample) as Hq.
    destruct (Z.leb_spec 15 (Z.of_nat (length (deque_append 15 (calibration_samples r) sample))));
      [lia|].
    eexists. split; [reflexivity|].
    unfold ring.
    cbn [calibration_samples_n calibration_samples disk code_mapping data_history_depth
         data_history data_history_i set_calibration_samples
         set_calibration_data_history_i].
    repeat split; try assumption; lia.
  - unfold ret. simpl. rewrite Hn.
    destruct (Z.leb_spec 15 (Z.of_nat (length (calibration_samples r)))); [lia|].
    eexists. split; [reflexivity|]. repeat split; try assumption; lia.
Qed.

Lemma init_ring (inbound : list string) (file : calibration_file) (r : usb_reader) :
  __init__ inbound file = Ok r ->
  calibration_samples_n r = 15 /\ ring r /\ calibration_samples r = [].
Proof.
  unfold __init__, load_piece_codes, mbind, get, modify, lift. simpl.
  intros Hinit.
  destruct file as [| |[|data]]; simpl in Hinit; try discriminate Hinit;
    injection Hinit as <-; unfold ring; simpl; repeat split; auto; lia.
Qed.

(** The invariant of a reader that is collecting samples: at most [n] are
    held, and the file and the code mapping are those of [r0]. *)
Lemma after_all_waiting (events : list event) (r0 r : usb_reader) (n : nat) :
  through_calibration events -> (n + calibration_calls events <= 14)%nat ->
  calibration_samples_n r = 15 -> ring r ->
  (length (calibration_samples r) <= n)%nat ->
  disk r = disk r0 -> code_mapping r = code_mapping r0 ->
  let r' := after_all events r in
  calibration_samples_n r' = 15 /\ ring r'
  /\ (length (calibration_samples r') <= n + calibration_calls events)%nat
  /\ disk r' = disk r0 /\ code_mapping r' = code_mapping r0.
Proof.
  revert r n. induction events as [|e events IH]; intros r n Hthrough Hcalls Hn Hring Hlen Hdisk Hmap.
  - simpl. repeat split; try assumption; try apply Hring. lia.
  - apply Forall_cons in Hthrough as [He Hthrough].
    unfold after_all. simpl foldl. fold (after_all events (after e r)).
    destruct e as [frames|rot|ns|ns|b]; simpl in He, Hcalls |- *.
    + apply IH; try assumption.
    + pose proof (read_board_waiting rot r) as (K1 & K2 & K3 & K4 & K5).
      apply IH; try assumption; try congruence. apply K5, Hring.
    + destruct (calibration_waits r n ns Hn Hring Hlen ltac:(lia))
        as (r' & Hrun & Hn' & Hring' & Hlen' & Hdisk' & Hmap').
      rewrite Hrun. simpl.
      replace (n + S (calibration_calls events))%nat
        with (S n + calibration_calls events)%nat by lia.
      apply IH; try assumption; try congruence. lia.
    + contradiction.
    + apply IH; try assumption.
Qed.

(** X6: a calibration is never completed on fewer than fifteen samples.
    From the construction of the reader on, whatever frames arrive and
    whatever is polled in between, each of the first fourteen calls of
    [calibration] returns [False], and up to then neither the calibration
    file nor the code mapping in use has changed. *)
Theorem calibration_needs_fifteen_samples (inbound : list string) (file : calibration_file)
    (r0 : usb_reader) (events : list event) (new_setup : bool) :
  __init__ inbound file = Ok r0 ->
  through_calibration events -> (calibration_calls events < 14)%nat ->
  exists r',
    calibration new_setup (after_all events r0) = (Ok false, r')
    /\ disk r' = disk r0
    /\ code_mapping r' = code_mapping r0.
Proof.
  intros Hinit Hthrough Hcalls.
  destruct (init_ring inbound file r0 Hinit) as (Hn & Hring & Hs).
  destruct (after_all_waiting events r0 r0 0 Hthrough ltac:(simpl; lia) Hn Hring
              ltac:(rewrite Hs; simpl; lia) eq_refl eq_refl)
    as (Hn' & Hring' & Hlen' & Hdisk' & Hmap').
  destruct (calibration_waits (after_all events r0) (calibration_calls events) new_setup
              Hn' Hring' Hlen' Hcalls)
    as (r' & Hrun & _ & _ & _ & Hdisk & Hmap).
  exists r'. split; [exact Hrun|]. split; congruence.
Qed.

Lemma calibration_needs_fifteen_samples_witness :
  exists r',
    calibration true (after_all (Sample.calibration_rounds 13) Sample.uncalibrated_reader)
    = (Ok false, r')
    /\ disk r' = disk Sample.uncalibrated_reader
    /\ code_mapping r' = code_mapping Sample.uncalibrated_reader.
Proof.
  apply (calibration_needs_fifteen_samples [] Missing Sample.uncalibrated_reader
           (Sample.calibration_rounds 13) true).
  - reflexivity.
  - unfold through_calibration, Sample.calibration_rounds. simpl.
    repeat (constructor; [exact I|]). constructor.
  - vm_compute. lia.
Defined.

End Sampling.


(** ** The snapshot follows the last three frames *)

Section Freshness.
Import UsbReader DecoderSpec ReaderSpec RingSpec.

Lemma stored_app (slots : list (option string)) (first : nat) (a b : list string) :
  stored slots first (a ++ b) = stored (stored slots first a) (first + length a) b.
Proof.
  revert slots first. induction a as [|x a IH]; intros slots first; simpl.
  - rewrite Nat.add_0_r. reflexivity.
  - rewrite IH. f_equal. lia.
Qed.

Lemma stored_length (slots : list (option string)) (first : nat) (frames : list string) :
  length (stored slots first frames) = length slots.
Proof.
  revert slots first. induction frames as [|x frames IH]; intros slots first; simpl;
    [reflexivity|]. rewrite IH. apply length_insert.
Qed.

Lemma index_after_next (n : nat) : next_index 3 (index_after n) = index_after (S n).
Proof.
  destruct (Nat.ltb_spec n 3) as [Hn|Hn].
  - destruct n as [|[|[|n]]]; [reflexivity ..|lia].
  - unfold next_index, index_after.
    destruct (Nat.ltb_spec n 3); [lia|]. destruct (Nat.ltb_spec (S n) 3); [lia|].
    pose proof (Nat.mod_upper_bound n 3 ltac:(lia)) as Hm.
    pose proof (Nat.div_mod_eq n 3) as Hd. pose proof (Nat.div_mod_eq (S n) 3) as Hs.
    pose proof (Nat.mod_upper_bound (S n) 3 ltac:(lia)) as Hm'.
    destruct (Z.leb_spec 3 (Z.of_nat (n mod 3) + 1)); nia.
Qed.

Lemma index_after_position (n : nat) : position 3 (index_after n) = (n mod 3)%nat.
Proof.
  unfold position, index_after. destruct (Nat.ltb_spec n 3).
  - destruct (Z.ltb_spec (Z.of_nat n - 3) 0); [|lia].
    rewrite Nat.mod_small by lia. simpl Z.of_nat. lia.
  - destruct (Z.ltb_spec (Z.of_nat (n mod 3)) 0); lia.
Qed.

Lemma index_after_range (n : nat) : - 3 <= index_after n < 3.
Proof.
  unfold index_after. destruct (Nat.ltb_spec n 3); [lia|].
  pose proof (Nat.mod_upper_bound n 3 ltac:(lia)). lia.
Qed.

Lemma index_ok_lookup {A : Type} (l : list A) (i : Z) (x : A) :
  index l i = Ok x -> l !! position (length l) i = Some x.
Proof.
  unfold index, position.
  destruct ((_ <? 0) || (_ <=? _)); [discriminate|].
  destruct (l !! _) as [y|] eqn:Hy; [|discriminate]. intros [= <-]. reflexivity.
Qed.

(** What [drain] leaves in the ring: frame number [k] has gone to slot
    [k mod 3]; and the change flag is raised unless every frame repeated
    its slot. *)
Lemma drain_stored (frames : list string) (r : usb_reader) (changed : bool) (n : nat) :
  data_history_depth r = 3 -> length (data_history r) = 3%nat ->
  data_history_i r = index_after n ->
  exists changed' r',
    drain frames changed r = (Ok changed', r')
    /\ data_history r' = stored (data_history r) n frames
    /\ data_history_i r' = index_after (n + length frames)
    /\ (frames <> [] -> queue r' = [])
    /\ frame_only r r'
    /\ (changed' = false -> data_history r' = data_history r)
    /\ (changed = true -> changed' = true).
Proof.
  revert r changed n. induction frames as [|data rest IH]; intros r changed n Hd Hl Hi.
  - exists changed, r. simpl. rewrite Nat.add_0_r.
    repeat split; try reflexivity; try assumption; auto. contradiction.
  - rewrite drain_cons.
    pose proof (index_after_range n) as Hrange.
    destruct (index_in_range (data_history r) (data_history_i r) ltac:(lia)) as [old Hold].
    rewrite (store_frame_run (set_queue rest r) data changed old Hold).
    pose proof (index_ok_lookup _ _ _ Hold) as Hslot.
    rewrite Hl, Hi, index_after_position in Hslot.
    simpl data_history. simpl data_history_depth. simpl data_history_i.
    rewrite Hd, Hl, Hi, index_after_next, index_after_position.
    destruct (decide (old ≠ Some data)) as [Hnew|Hsame].
    + destruct (IH (set_data_history_i (index_after (S n))
                      (set_data_history (<[(n mod 3)%nat := Some data]> (data_history r))
                         (set_queue rest r))) true (S n))
        as (c' & r' & Hrun & Hhist & Hidx & Hq & Hframe & Hsame' & Hchanged);
        [exact Hd | simpl; rewrite length_insert; exact Hl | reflexivity |].
      exists c', r'. split; [exact Hrun|]. simpl in Hhist, Hidx.
      split; [exact Hhist|]. split; [rewrite Hidx; f_equal; simpl; lia|].
      split.
      { intros _. destruct rest as [|x rest]; [|apply Hq; discriminate].
        simpl in Hrun. injection Hrun as _ <-. reflexivity. }
      split.
      { etransitivity; [|exact Hframe]. unfold frame_only. simpl. repeat split. }
      split; [|intros _; apply Hchanged; reflexivity].
      intros Hc'. rewrite Hchanged in Hc' by reflexivity. discriminate Hc'.
    + assert (Hold' : old = Some data) by (destruct (decide (old = Some data)); [assumption|contradiction]).
      subst old.
      destruct (IH (set_data_history_i (index_after (S n)) (set_queue rest r)) changed (S n))
        as (c' & r' & Hrun & Hhist & Hidx & Hq & Hframe & Hsame' & Hchanged);
        [exact Hd | exact Hl | reflexivity |].
      exists c', r'. split; [exact Hrun|]. simpl in Hhist, Hidx, Hsame'.
      split; [simpl; rewrite list_insert_id by exact Hslot; exact Hhist|].
      split; [rewrite Hidx; f_equal; simpl; lia|].
      split.
      { intros _. destruct rest as [|x rest]; [|apply Hq; discriminate].
        simpl in Hrun. injection Hrun as _ <-. reflexivity. }
      split.
      { etransitivity; [|exact Hframe]. unfold frame_only. simpl. repeat split. }
      split; [exact Hsame' | exact Hchanged].
Qed.

Lemma stored_full (slots : list (option string)) (first : nat) (frames : list string) :
  (exists f0 f1 f2, slots = [Some f0; Some f1; Some f2]) ->
  exists f0 f1 f2, stored slots first frames = [Some f0; Some f1; Some f2].
Proof.
  revert slots first. induction frames as [|data rest IH]; intros slots first Hfull;
    [exact Hfull|].
  change (stored slots first (data :: rest))
    with (stored (<[(first mod 3)%nat := Some data]> slots) (S first) rest).
  apply IH. destruct Hfull as (f0 & f1 & f2 & ->).
  assert (Hm : (first mod 3 < 3)%nat) by (apply Nat.mod_upper_bound; lia).
  destruct (first mod 3)%nat as [|[|[|k]]]; [simpl; do 3 eexists; reflexivity ..|lia].
Qed.

Lemma ring_of_full (frames : list string) :
  (3 <= length frames)%nat ->
  exists f0 f1 f2, ring_of frames = [Some f0; Some f1; Some f2].
Proof.
  intros Hlen. destruct frames as [|a [|b [|c rest]]]; simpl in Hlen; try lia.
  unfold ring_of. change (stored [None; None; None] 0 (a :: b :: c :: rest))
    with (stored [Some a; Some b; Some c] 3 rest).
  apply stored_full. do 3 eexists. reflexivity.
Qed.

Lemma ring_of_short (frames : list string) :
  (length frames < 3)%nat -> ring_of frames !! 2%nat = Some None.
Proof.
  intros Hlen. destruct frames as [|a [|b [|c rest]]]; simpl in Hlen; try lia; reflexivity.
Qed.

Lemma index_after_nonneg (n : nat) : 0 <= index_after n <-> (3 <= n)%nat.
Proof.
  unfold index_after. destruct (Nat.ltb_spec n 3); lia.
Qed.

Lemma decoded_board_ext (r r' : usb_reader) (frames : list string) :
  code_mapping r' = code_mapping r -> default_missing_piece r' = default_missing_piece r ->
  decoded_board r' frames = decoded_board r frames.
Proof.
  intros Hm Hd. unfold decoded_board, symbol_of. rewrite Hm, Hd. reflexivity.
Qed.

Lemma update_polled (r0 r : usb_reader) (done pending : list string) :
  polled r0 done pending r ->
  exists r', update r = (Ok tt, r') /\ polled r0 (done ++ pending) [] r'.
Proof.
  intros (Hd & Hc & Hmap & Hdef & Hq & Hhist & Hi & Hfresh).
  rewrite update_unfold, Hq.
  destruct (drain_stored pending r false (length done) Hd
              ltac:(rewrite Hhist; apply stored_length) Hi)
    as (c' & r1 & Hrun & Hhist1 & Hi1 & Hq1 & Hframe & Hsame & _).
  rewrite Hrun.
  destruct Hframe as (Kd & Kfen & Kc & _ & _ & Kdef & Kmap & _).
  assert (Hring1 : data_history r1 = ring_of (done ++ pending))
    by (rewrite Hhist1, Hhist; unfold ring_of; rewrite stored_app; reflexivity).
  assert (Hidx1 : data_history_i r1 = index_after (length (done ++ pending)))
    by (rewrite Hi1, length_app; reflexivity).
  assert (Hqueue1 : queue r1 = []).
  { destruct pending as [|x pending]; [|apply Hq1; discriminate].
    simpl in Hrun. injection Hrun as _ <-. exact Hq. }
  destruct (c' && (0 <=? data_history_i r1)) eqn:Hdecode.
  - apply andb_true_iff in Hdecode as [-> Hpos]. apply Z.leb_le in Hpos.
    rewrite Hidx1 in Hpos. apply index_after_nonneg in Hpos.
    destruct (ring_of_full _ Hpos) as (f0 & f1 & f2 & Hfull).
    rewrite (data_to_fen_run r1 f0 f1 f2) by congruence.
    eexists. split; [reflexivity|]. unfold polled. simpl.
    repeat split; try congruence.
    intros _. exists f0, f1, f2. split; [exact Hfull|]. f_equal.
    apply decoded_board_ext; congruence.
  - exists r1. split; [reflexivity|]. unfold polled.
    repeat split; try congruence.
    intros Hlen. destruct (ring_of_full _ Hlen) as (f0 & f1 & f2 & Hfull).
    assert (Hc' : c' = false).
    { destruct c'; [|reflexivity]. simpl in Hdecode. apply Z.leb_gt in Hdecode.
      rewrite Hidx1 in Hdecode. pose proof (proj2 (index_after_nonneg _) Hlen). lia. }
    specialize (Hsame Hc'). rewrite Hring1, Hhist in Hsame.
    assert (Hdone : (3 <= length done)%nat).
    { destruct (Nat.ltb_spec (length done) 3) as [Hshort|]; [|assumption].
      pose proof (ring_of_short done Hshort) as Hnone.
      rewrite <- Hsame, Hfull in Hnone. discriminate Hnone. }
    destruct (Hfresh Hdone) as (g0 & g1 & g2 & Hg & Hfen).
    exists g0, g1, g2. split; [congruence|]. congruence.
Qed.

Lemma read_board_polled (r0 r : usb_reader) (done pending : list string)
    (rotate180 : bool) :
  polled r0 done pending r ->
  exists r', read_board rotate180 r
             = (Ok (if rotate180 then str_reverse (board_fen r') else board_fen r'), r')
             /\ polled r0 (done ++ pending) [] r'.
Proof.
  intros Hp. destruct (update_polled r0 r done pending Hp) as (r' & Hrun & Hp').
  exists r'. split; [|exact Hp']. unfold read_board, mbind. rewrite Hrun. reflexivity.
Qed.

Lemma after_all_polled (r0 : usb_reader) (events : list event) (r : usb_reader)
    (done pending : list string) :
  polled r0 done pending r -> polling events ->
  exists done' pending',
    polled r0 done' pending' (after_all events r)
    /\ done' ++ pending' = done ++ pending ++ arrivals events.
Proof.
  revert r done pending. induction events as [|e events IH]; intros r done pending Hp Hev.
  - exists done, pending. split; [exact Hp|]. simpl. rewrite app_nil_r. reflexivity.
  - apply Forall_cons in Hev as [He Hev].
    unfold after_all. simpl foldl. fold (after_all events (after e r)).
    destruct e as [frames|rot|ns|ns|b]; simpl in He; try contradiction.
    + destruct (IH (after (Arrive frames) r) done (pending ++ frames)) as (d & q & Hq & Happ).
      * destruct Hp as (H1 & H2 & H3 & H4 & H5 & H6 & H7 & H8).
        unfold polled. simpl. rewrite H5. repeat split; assumption.
      * exact Hev.
      * exists d, q. split; [exact Hq|]. rewrite Happ. simpl arrivals.
        rewrite <- !app_assoc. reflexivity.
    + destruct (read_board_polled r0 r done pending rot Hp) as (r' & Hrun & Hp').
      destruct (IH (after (ReadBoard rot) r) (done ++ pending) []) as (d & q & Hq & Happ).
      * simpl. rewrite Hrun. exact Hp'.
      * exact Hev.
      * exists d, q. split; [exact Hq|]. rewrite Happ. simpl.
        rewrite <- !app_assoc. reflexivity.
Qed.

Lemma init_polled (inbound : list string) (file : calibration_file) (r0 : usb_reader) :
  __init__ inbound file = Ok r0 -> polled r0 [] inbound r0.
Proof.
  unfold __init__, load_piece_codes, mbind, get, modify, lift. simpl.
  intros Hinit.
  destruct file as [| |[|data]]; simpl in Hinit; try discriminate Hinit;
    injection Hinit as <-; unfold polled; simpl; repeat split; auto; lia.
Qed.

Lemma mod3_next (n : nat) : (S n mod 3 <> n mod 3 /\ S (S n) mod 3 <> n mod 3)%nat.
Proof.
  pose proof (Nat.div_mod_eq n 3). pose proof (Nat.div_mod_eq (S n) 3).
  pose proof (Nat.div_mod_eq (S (S n)) 3).
  pose proof (Nat.mod_upper_bound n 3 ltac:(lia)).
  pose proof (Nat.mod_upper_bound (S n) 3 ltac:(lia)).
  pose proof (Nat.mod_upper_bound (S (S n)) 3 ltac:(lia)).
  split; intros Heq; rewrite Heq in *; lia.
Qed.

(** Each of the last three frames is in the slot of its number. *)
Lemma stored_last (frames : list string) (slots : list (option string)) (first k : nat)
    (x : string) :
  length slots = 3%nat -> frames !! k = Some x -> (length frames <= k + 3)%nat ->
  stored slots first frames !! ((first + k) mod 3)%nat = Some (Some x).
Proof.
  revert slots first k. induction frames as [|data rest IH]; intros slots first k Hl Hk Hlen;
    [discriminate Hk|].
  change (stored slots first (data :: rest))
    with (stored (<[(first mod 3)%nat := Some data]> slots) (S first) rest).
  destruct k as [|k].
  - injection Hk as ->. rewrite Nat.add_0_r.
    assert (Hm : (first mod 3 < 3)%nat) by (apply Nat.mod_upper_bound; lia).
    destruct (mod3_next first) as [H1 H2].
    destruct rest as [|a [|b [|c rest]]]; simpl in Hlen; [| | |lia].
    + simpl. apply list_lookup_insert_eq. lia.
    + simpl. rewrite list_lookup_insert_ne by exact H1.
      apply list_lookup_insert_eq. lia.
    + simpl. rewrite list_lookup_insert_ne by exact H2.
      rewrite list_lookup_insert_ne by exact H1.
      apply list_lookup_insert_eq. lia.
  - replace (first + S k)%nat with (S first + k)%nat by lia.
    apply IH; [rewrite length_insert; exact Hl | exact Hk | simpl in Hlen; lia].
Qed.

(** X7: the snapshot follows the last three frames. After the
    construction of the reader, as long as nothing happens but frames
    arriving and the board being polled, once three frames or more have
    arrived [read_board] returns the board field decoded from the three
    slots of the ring, and each of the last three frames that arrived is in
    the slot of its number modulo 3: the snapshot is never older than the
    frames received. *)
Theorem snapshot_follows_last_frames (inbound : list string) (file : calibration_file)
    (r0 : usb_reader) (events : list event) :
  __init__ inbound file = Ok r0 -> polling events ->
  let frames := inbound ++ arrivals events in
  (3 <= length frames)%nat ->
  exists r' f0 f1 f2,
    read_board false (after_all events r0)
    = (Ok (board_field_of (decoded_board r0 [f0; f1; f2])), r')
    /\ ring_of frames = [Some f0; Some f1; Some f2]
    /\ forall k x, frames !! k = Some x -> (length frames <= k + 3)%nat ->
                   [Some f0; Some f1; Some f2] !! (k mod 3)%nat = Some (Some x).
Proof.
  intros Hinit Hev frames Hlen.
  destruct (after_all_polled r0 events r0 [] inbound (init_polled _ _ _ Hinit) Hev)
    as (done & pending & Hp & Happ).
  destruct (read_board_polled r0 _ done pending false Hp) as (r' & Hrun & Hp').
  simpl in Happ. fold frames in Happ. rewrite Happ in Hp'.
  destruct Hp' as (_ & _ & _ & _ & _ & _ & _ & Hfresh).
  destruct (Hfresh Hlen) as (f0 & f1 & f2 & Hring & Hfen).
  exists r', f0, f1, f2. split; [rewrite Hrun, Hfen; reflexivity|].
  split; [exact Hring|].
  intros k x Hk Hlast. rewrite <- Hring.
  apply (stored_last frames [None; None; None] 0 k x eq_refl Hk Hlast).
Qed.

Lemma snapshot_follows_last_frames_witness :
  exists r' f0 f1 f2,
    read_board false
      (after_all [ReadBoard false; Arrive [Sample.e4_frame; Sample.e4_frame]]
         (Sample.constructed
            (__init__ [Sample.start_frame] (Stored (CalibrationData Sample.calibration_data)))))
    = (Ok (board_field_of
             (decoded_board
                (Sample.constructed
                   (__init__ [Sample.start_frame]
                      (Stored (CalibrationData Sample.calibration_data))))
                [f0; f1; f2])), r')
    /\ ring_of ([Sample.start_frame] ++ [Sample.e4_frame; Sample.e4_frame])
       = [Some f0; Some f1; Some f2]
    /\ forall k x,
         ([Sample.start_frame] ++ [Sample.e4_frame; Sample.e4_frame]) !! k = Some x ->
         (length ([Sample.start_frame] ++ [Sample.e4_frame; Sample.e4_frame]) <= k + 3)%nat ->
         [Some f0; Some f1; Some f2] !! (k mod 3)%nat = Some (Some x).
Proof.
  apply (snapshot_follows_last_frames [Sample.start_frame]
           (Stored (CalibrationData Sample.calibration_data))
           (Sample.constructed
              (__init__ [Sample.start_frame]
                 (Stored (CalibrationData Sample.calibration_data))))
           [ReadBoard false; Arrive [Sample.e4_frame; Sample.e4_frame]]).
  - reflexivity.
  - repeat constructor.
  - simpl. lia.
Defined.

End Freshness.


(** ** LED frames and the squares they light *)

Section LedFrames.
Import LedManager LedSpec.

Lemma led_cell_rotated (sq : string) (r c : Z) :
  algebraic sq ->
  led_cell true sq = (r, c) <-> led_cell false sq = (7 - r, 7 - c).
Proof.
  intros Hsq. destruct (algebraic_shape sq Hsq) as (f & k & -> & _).
  unfold led_cell. simpl. split; intros [= H1 H2]; f_equal; lia.
Qed.

Lemma byte_bits (v c : Z) : 0 <= v <= 255 -> 8 <= c -> Z.testbit v c = false.
Proof.
  intros Hv Hc. destruct (Z.eq_dec v 0) as [->|Hne]; [apply Z.testbit_0_l|].
  apply Z.bits_above_log2; [lia|].
  assert (Z.log2 v < 8); [|lia]. apply Z.log2_lt_pow2; [lia|]. change (2 ^ 8) with 256. lia.
Qed.

Lemma byte_eq (a b : Z) :
  0 <= a <= 255 -> 0 <= b <= 255 ->
  (forall c, 0 <= c < 8 -> Z.testbit a c = Z.testbit b c) -> a = b.
Proof.
  intros Ha Hb Hbits. apply Z.bits_inj'. intros n Hn.
  destruct (Z.lt_ge_cases n 8); [apply Hbits; lia|].
  rewrite !byte_bits by lia. reflexivity.
Qed.

(** X8: turning the board by 180 degrees turns the LED frame upside down
    and mirrors its rows: for a list of algebraic squares, bit [c] of row
    [r] of the frame computed with [rotate180] is bit [7 - c] of row
    [7 - r] of the frame computed without. *)
Theorem rotated_frame (l : list string) :
  Forall algebraic l ->
  exists frame frame',
    squares2led (MsgList l) false = Ok frame
    /\ squares2led (MsgList l) true = Ok frame'
    /\ forall (r : nat) (c v v' : Z),
         (r < 8)%nat -> 0 <= c < 8 ->
         frame !! (7 - r)%nat = Some v -> frame' !! r = Some v' ->
         Z.testbit v' c = Z.testbit v (7 - c).
Proof.
  intros Hl.
  destruct (squares2led_list false l Hl) as (frame & Hrun & _ & _ & Hbits).
  destruct (squares2led_list true l Hl) as (frame' & Hrun' & _ & _ & Hbits').
  exists frame, frame'. split; [exact Hrun|]. split; [exact Hrun'|].
  intros r c v v' Hr Hc Hv Hv'.
  apply Bool.eq_true_iff_eq.
  rewrite (Hbits' r c v' Hc Hv'), (Hbits (7 - r)%nat (7 - c) v ltac:(lia) Hv).
  rewrite Forall_forall in Hl.
  split; intros (sq & Hin & Hcell); exists sq; (split; [exact Hin|]).
  - apply (led_cell_rotated sq _ _ (Hl sq Hin)) in Hcell. rewrite Hcell. f_equal; lia.
  - apply (led_cell_rotated sq _ _ (Hl sq Hin)). rewrite Hcell. f_equal; lia.
Qed.

Lemma rotated_frame_witness :
  exists frame frame',
    squares2led (MsgList ["e2"; "e4"]) false = Ok frame
    /\ squares2led (MsgList ["e2"; "e4"]) true = Ok frame'
    /\ forall (r : nat) (c v v' : Z),
         (r < 8)%nat -> 0 <= c < 8 ->
         frame !! (7 - r)%nat = Some v -> frame' !! r = Some v' ->
         Z.testbit v' c = Z.testbit v (7 - c).
Proof.
  apply (rotated_frame ["e2"; "e4"]).
  constructor; [exact e2_algebraic|]. constructor; [exact e4_algebraic | constructor].
Defined.

(** X9: the frame tells which squares were requested. Two lists of
    algebraic squares give the same frame exactly when they hold the same
    squares, whatever their order and repetitions. *)
Theorem frame_determines_squares (rotate180 : bool) (l1 l2 : list string) :
  Forall algebraic l1 -> Forall algebraic l2 ->
  squares2led (MsgList l1) rotate180 = squares2led (MsgList l2) rotate180
  <-> forall sq, sq ∈ l1 <-> sq ∈ l2.
Proof.
  intros H1 H2.
  destruct (squares2led_list rotate180 l1 H1) as (f1 & Hrun1 & Hlen1 & Hrange1 & Hbits1).
  destruct (squares2led_list rotate180 l2 H2) as (f2 & Hrun2 & Hlen2 & Hrange2 & Hbits2).
  rewrite Hrun1, Hrun2. rewrite Forall_forall in H1, H2. split.
  - intros [= <-].
    assert (Hsub : forall la lb : list string,
               (forall sq, sq ∈ la -> algebraic sq) -> (forall sq, sq ∈ lb -> algebraic sq) ->
               (forall (r : nat) (c v : Z), 0 <= c < 8 -> f1 !! r = Some v ->
                  (Z.testbit v c = true
                   <-> exists sq, sq ∈ la /\ led_cell rotate180 sq = (Z.of_nat r, c))) ->
               (forall (r : nat) (c v : Z), 0 <= c < 8 -> f1 !! r = Some v ->
                  (Z.testbit v c = true
                   <-> exists sq, sq ∈ lb /\ led_cell rotate180 sq = (Z.of_nat r, c))) ->
               forall sq, sq ∈ la -> sq ∈ lb).
    { intros la lb Ha Hb Hba Hbb sq Hin.
      destruct (square2certabo_cell rotate180 sq (Ha sq Hin)) as (_ & Hr & Hc & _).
      destruct (led_cell rotate180 sq) as [r c] eqn:Hcell. simpl in Hr, Hc.
      destruct (lookup_lt_is_Some_2 f1 (Z.to_nat r) ltac:(lia)) as [v Hv].
      assert (Hset : Z.testbit v c = true).
      { apply (Hba (Z.to_nat r) c v Hc Hv). exists sq. split; [exact Hin|].
        rewrite Hcell, Z2Nat.id by lia. reflexivity. }
      apply (Hbb (Z.to_nat r) c v Hc Hv) in Hset as (sq' & Hin' & Hcell').
      rewrite Z2Nat.id in Hcell' by lia. rewrite <- Hcell in Hcell'.
      rewrite <- (led_cell_inj rotate180 sq' sq (Hb sq' Hin') (Ha sq Hin) Hcell').
      exact Hin'. }
    intros sq. split; [apply (Hsub l1 l2) | apply (Hsub l2 l1)]; assumption.
  - intros Hsame. f_equal. apply list_eq. intros r.
    destruct (f1 !! r) as [v1|] eqn:Hv1; destruct (f2 !! r) as [v2|] eqn:Hv2.
    + f_equal. rewrite Forall_forall in Hrange1, Hrange2.
      apply byte_eq;
        [apply Hrange1, (list_elem_of_lookup_2 _ _ _ Hv1)
        |apply Hrange2, (list_elem_of_lookup_2 _ _ _ Hv2)|].
      intros c Hc. apply Bool.eq_true_iff_eq.
      rewrite (Hbits1 r c v1 Hc Hv1), (Hbits2 r c v2 Hc Hv2).
      split; intros (sq & Hin & Hcell); exists sq; (split; [apply Hsame, Hin | exact Hcell]).
    + apply lookup_lt_Some in Hv1. apply lookup_ge_None in Hv2. lia.
    + apply lookup_lt_Some in Hv2. apply lookup_ge_None in Hv1. lia.
    + reflexivity.
Qed.

Lemma frame_determines_squares_witness :
  squares2led (MsgList ["e2"; "e4"; "e2"]) true = squares2led (MsgList ["e4"; "e2"]) true.
Proof.
  apply (frame_determines_squares true ["e2"; "e4"; "e2"] ["e4"; "e2"]).
  - repeat (constructor; [first [exact e2_algebraic | exact e4_algebraic]|]). constructor.
  - repeat (constructor; [first [exact e2_algebraic | exact e4_algebraic]|]). constructor.
  - intros sq. rewrite !elem_of_cons. tauto.
Defined.

End LedFrames.


(** ** Flashing *)

Section Flashing.
Import LedManager LedSpec FlashSpec.

#[local] Arguments Nat.even : simpl never.
#[local] Arguments shown : simpl never.
#[local] Arguments blink : simpl never.
#[local] Arguments toggles : simpl never.

Lemma blink_S (on : list Z) (k j : nat) :
  blink on k (S j)
  = (if Nat.even (S k) then on else replicate 8 0) :: blink on (S k) j.
Proof. reflexivity. Qed.

Lemma toggles_cons (frequency last t : Q) (times : list Q) :
  toggles frequency last (t :: times)
  = if Qlt_le_dec frequency (t - last)
    then S (toggles frequency t times)
    else toggles frequency last times.
Proof. reflexivity. Qed.

Lemma fresh_manager_flash : last_flash_message fresh_manager = None.
Proof.
  unfold fresh_manager. destruct init_table as (m0 & -> & _ & _ & _ & Hflash).
  exact Hflash.
Qed.

Lemma counter_parity (k : nat) :
  ((Z.of_nat k + 1) mod 2 =? 0) = Nat.even (S k).
Proof.
  destruct (Nat.even (S k)) eqn:Heven.
  - apply Nat.even_spec in Heven. destruct Heven as [h Hh].
    apply Z.eqb_eq. replace (Z.of_nat k + 1) with (Z.of_nat h * 2) by lia.
    apply Z.mod_mul. lia.
  - apply Z.eqb_neq. intros Hmod.
    assert (Hodd : Nat.even (S k) = true); [|congruence].
    apply Nat.even_spec. apply Z.mod_divide in Hmod; [|lia].
    destruct Hmod as [h Hh]. exists (Z.to_nat h). lia.
Qed.

Lemma shown_changes (msg : message) (k : nat) :
  msg <> MsgStr "none" -> shown msg (S k) <> shown msg k.
Proof.
  intros Hmsg. unfold shown. rewrite Nat.even_succ, <- Nat.negb_even.
  destruct (Nat.even k); simpl; congruence.
Qed.

Lemma encode_none (m : led_manager) (rotate180 : bool) :
  table_of_init m -> encode m (MsgStr "none") rotate180 = Ok (replicate 8 0).
Proof.
  intros Htab. rewrite encode_text, (table_lookup m _ Htab). reflexivity.
Qed.

(** One more call while [msg] is flashing: the LEDs toggle if more than
    the flash period has passed since the last toggle, and nothing
    happens otherwise. *)
Lemma flash_leds_toggle (w : led_world) (msg : message) (rotate180 : bool)
    (on : list Z) (k : nat) (clock : Q) :
  table_of_init (mgr w) -> encode (mgr w) msg rotate180 = Ok on ->
  msg <> MsgStr "none" ->
  last_flash_message (mgr w) = Some msg -> flash_clock (mgr w) = Some clock ->
  counter (mgr w) = Z.of_nat k -> last_message (mgr w) = Some (shown msg k) ->
  let t := time_time w (time_reads w) in
  exists w',
    flash_leds msg rotate180 w = (Ok tt, w')
    /\ time_time w' = time_time w /\ time_reads w' = S (time_reads w)
    /\ default_messages (mgr w') = default_messages (mgr w)
    /\ flash_frequency (mgr w') = flash_frequency (mgr w)
    /\ last_flash_message (mgr w') = Some msg
    /\ if Qlt_le_dec (flash_frequency (mgr w)) (t - clock)
       then flash_clock (mgr w') = Some t
            /\ counter (mgr w') = Z.of_nat (S k)
            /\ last_message (mgr w') = Some (shown msg (S k))
            /\ queue_to_usbtool (mgr w')
               = queue_to_usbtool (mgr w) ++ blink on k 1
       else flash_clock (mgr w') = Some clock
            /\ counter (mgr w') = Z.of_nat k
            /\ last_message (mgr w') = Some (shown msg k)
            /\ queue_to_usbtool (mgr w') = queue_to_usbtool (mgr w).
Proof.
  intros Htab Hon Hmsg Hflash Hclock Hcount Hlast t. subst t.
  unfold flash_leds, mbind, gets, time, mgr_do, zoom, modify, raise, ret. simpl.
  destruct (decide (last_flash_message (mgr w) ≠ Some msg)) as [Hnew|_];
    [contradiction|].
  rewrite Hclock.
  destruct (Qlt_le_dec (flash_frequency (mgr w)) (time_time w (time_reads w) - clock))
    as [Hlate|Hsoon].
  - simpl. rewrite Hcount, counter_parity, set_leds_unfold. simpl.
    fold (shown msg (S k)).
    destruct (decide (Some (shown msg (S k)) ≠ last_message (mgr w))) as [_|Hsame].
    2:{ exfalso. apply Hsame. rewrite Hlast. intros [= Heq].
        exact (shown_changes msg k Hmsg Heq). }
    assert (Hframe : encode (set_flash (last_flash_message (mgr w))
                               (Some (time_time w (time_reads w))) (Z.of_nat k + 1) (mgr w))
                       (shown msg (S k)) rotate180
                     = Ok (if Nat.even (S k) then on else replicate 8 0)).
    { unfold shown. destruct (Nat.even (S k)).
      - exact Hon.
      - apply encode_none. exact Htab. }
    rewrite Hframe. eexists. split; [reflexivity|]. simpl.
    repeat split; try assumption. f_equal. lia.
  - eexists. split; [reflexivity|]. simpl. repeat split; assumption.
Qed.

(** While [msg] is flashing, [n] more calls toggle the LEDs once for each
    reading of the clock that comes late enough. *)
Lemma flash_run_toggles (msg : message) (rotate180 : bool) (on : list Z) (n : nat) :
  forall (w : led_world) (k : nat) (clock : Q),
  table_of_init (mgr w) -> encode (mgr w) msg rotate180 = Ok on ->
  msg <> MsgStr "none" ->
  last_flash_message (mgr w) = Some msg -> flash_clock (mgr w) = Some clock ->
  counter (mgr w) = Z.of_nat k -> last_message (mgr w) = Some (shown msg k) ->
  let j := toggles (flash_frequency (mgr w)) clock (readings w n) in
  exists w',
    flash_run msg rotate180 n w = (Ok tt, w')
    /\ counter (mgr w') = Z.of_nat (k + j)
    /\ last_message (mgr w') = Some (shown msg (k + j))
    /\ queue_to_usbtool (mgr w') = queue_to_usbtool (mgr w) ++ blink on k j.
Proof.
  induction n as [|n IH]; intros w k clock Htab Hon Hmsg Hflash Hclock Hcount Hlast.
  - simpl. exists w. rewrite Nat.add_0_r, app_nil_r. repeat split; assumption.
  - destruct (flash_leds_toggle w msg rotate180 on k clock
                Htab Hon Hmsg Hflash Hclock Hcount Hlast)
      as (w1 & Hrun & Htime & Hreads & Hdef & Hfreq & Hflash1 & Hcase).
    assert (Htab1 : table_of_init (mgr w1)).
    { destruct Htab as (m0 & H0 & Hd). exists m0. split; [exact H0|]. congruence. }
    assert (Hon1 : encode (mgr w1) msg rotate180 = Ok on).
    { rewrite <- Hon. unfold encode, lookup_default. rewrite Hdef. reflexivity. }
    assert (Hrest : readings w1 n = map (time_time w) (seq (S (time_reads w)) n)).
    { unfold readings. rewrite Htime, Hreads. reflexivity. }
    unfold readings. cbn [seq map flash_run]. rewrite toggles_cons.
    unfold mbind. rewrite Hrun.
    destruct (Qlt_le_dec (flash_frequency (mgr w)) (time_time w (time_reads w) - clock))
      as [Hlate|Hsoon].
    + destruct Hcase as (Hclock1 & Hcount1 & Hlast1 & Hqueue1).
      destruct (IH w1 (S k) _ Htab1 Hon1 Hmsg Hflash1 Hclock1 Hcount1 Hlast1)
        as (w' & Hrun' & Hcount' & Hlast' & Hqueue').
      rewrite Hfreq, Hrest in *. exists w'. split; [exact Hrun'|].
      replace (k + S _)%nat with (S k + toggles (flash_frequency (mgr w))
                                          (time_time w (time_reads w))
                                          (map (time_time w) (seq (S (time_reads w)) n)))%nat
        by lia.
      split; [exact Hcount'|]. split; [exact Hlast'|].
      rewrite Hqueue', Hqueue1, <- app_assoc. f_equal.
    + destruct Hcase as (Hclock1 & Hcount1 & Hlast1 & Hqueue1).
      destruct (IH w1 k _ Htab1 Hon1 Hmsg Hflash1 Hclock1 Hcount1 Hlast1)
        as (w' & Hrun' & Hcount' & Hlast' & Hqueue').
      rewrite Hfreq, Hrest in *. exists w'. split; [exact Hrun'|].
      split; [exact Hcount'|]. split; [exact Hlast'|].
      rewrite Hqueue', Hqueue1. reflexivity.
Qed.

(** X10: flashing alternates the message and the dark frame. When a
    message that [set_leds] can encode (other than ['none'], and neither
    flashing nor shown already) is passed to [flash_leds] in [n + 1]
    consecutive calls, the first call queues the frame of the message in
    the default orientation, and every later call whose reading of the
    clock comes more than [flash_frequency] after the reading of the last
    toggle (the first call counting as one) queues one frame: the dark
    frame, then the frame of the message in the requested orientation, and
    so on in turn. No other frame is queued, [counter] is the number of
    toggles, and the message last shown is the message itself after an
    even number of toggles and ['none'] after an odd number. The readings
    of the clock are taken to be whole numbers of steps of 2^-22 seconds
    below 2^31 seconds, on which the subtraction of doubles is exact. *)
Theorem flash_alternates (w : led_world) (msg : message) (rotate180 : bool)
    (first on : list Z) (n : nat) :
  table_of_init (mgr w) ->
  encode (mgr w) msg false = Ok first -> encode (mgr w) msg rotate180 = Ok on ->
  msg <> MsgStr "none" ->
  last_flash_message (mgr w) <> Some msg -> last_message (mgr w) <> Some msg ->
  (forall i, (i <= n)%nat -> clock_reading (time_time w (time_reads w + i)%nat)) ->
  let k := toggles (flash_frequency (mgr w)) (time_time w (time_reads w))
             (map (time_time w) (seq (S (time_reads w)) n)) in
  exists w',
    flash_run msg rotate180 (S n) w = (Ok tt, w')
    /\ queue_to_usbtool (mgr w') = queue_to_usbtool (mgr w) ++ first :: blink on 0 k
    /\ counter (mgr w') = Z.of_nat k
    /\ last_message (mgr w') = Some (shown msg k).
Proof.
  intros Htab Hfirst Hon Hmsg Hflash Hlast _ k.
  cbn [flash_run]. unfold mbind at 1.
  unfold flash_leds, mbind, gets, time, mgr_do, zoom, modify, raise, ret. simpl.
  destruct (decide (last_flash_message (mgr w) ≠ Some msg)) as [_|Hsame];
    [|contradiction].
  simpl. rewrite set_leds_unfold. simpl.
  destruct (decide (Some msg ≠ last_message (mgr w))) as [_|Hsame];
    [|exfalso; apply Hsame; congruence].
  change (encode (set_flash (Some msg) (Some (time_time w (time_reads w))) 0 (mgr w))
            msg false) with (encode (mgr w) msg false).
  rewrite Hfirst.
  match goal with |- context [flash_run msg rotate180 n ?w1] => set (w0 := w1) end.
  destruct (flash_run_toggles msg rotate180 on n w0 0 (time_time w (time_reads w)))
    as (w' & Hrun & Hcount & Hlast' & Hqueue); try reflexivity; try assumption.
  exists w'. split; [exact Hrun|].
  split; [|split]; [| exact Hcount | exact Hlast'].
  rewrite Hqueue. simpl. rewrite <- app_assoc. reflexivity.
Qed.

Lemma flash_alternates_witness :
  exists w',
    flash_run (MsgList ["e2"]) true 5 (fresh_world second_clock) = (Ok tt, w')
    /\ queue_to_usbtool (mgr w')
       = [[0; 0; 0; 0; 0; 0; 16; 0]; replicate 8 0; [0; 8; 0; 0; 0; 0; 0; 0]]
    /\ counter (mgr w') = 2
    /\ last_message (mgr w') = Some (MsgList ["e2"]).
Proof.
  apply (flash_alternates (fresh_world second_clock) (MsgList ["e2"]) true
           [0; 0; 0; 0; 0; 0; 16; 0] [0; 8; 0; 0; 0; 0; 0; 0] 4).
  - exact fresh_manager_table.
  - reflexivity.
  - reflexivity.
  - discriminate.
  - simpl. rewrite fresh_manager_flash. discriminate.
  - simpl. rewrite fresh_manager_last_message. discriminate.
  - intros i Hi. exists (Z.of_nat i * 2 ^ 22). split; [lia|].
    unfold second_clock, inject_Z, Qeq. simpl. lia.
Defined.

End Flashing.


(** ** A frame on its way from the board to the decoder *)

Section Wire.
Import Usbtool UsbReader CalibrationSpec WireSpec.

Lemma slice_strip_two {A : Type} (l : list A) (x y : A) :
  slice (l ++ [x; y]) None (Some (- 2)) = l.
Proof.
  unfold slice, clamp. rewrite length_app. cbn [length].
  destruct (Z.ltb_spec (- 2) 0); [|lia].
  rewrite Z.max_r by lia. change (Z.to_nat 0) with 0%nat. rewrite drop_0.
  replace (Z.to_nat (Z.of_nat (length l + 2) + - 2 - 0)) with (length l) by lia.
  apply take_app_length.
Qed.

Lemma decimal_on_wire (c : ascii) : is_decimal c = true -> code c < 128 /\ c <> newline.
Proof.
  unfold is_decimal. intros H. apply andb_true_iff in H as [H1 H2].
  apply Z.leb_le in H1, H2. split; [lia|]. intros ->. change (code newline) with 10 in H1. lia.
Qed.

Lemma str_on_wire (n : Z) :
  Forall (fun c => code c < 128 /\ c <> newline) (chars (str n)).
Proof.
  assert (Hd : forall d, Forall (fun c => code c < 128 /\ c <> newline)
                           (chars (NilEmpty.string_of_uint d))).
  { intros d. eapply Forall_impl; [apply string_of_uint_digits|].
    intros c Hc. apply decimal_on_wire, Hc. }
  unfold str. destruct (Z.to_int n) as [d|d]; simpl.
  - apply Hd.
  - constructor; [split; [vm_compute; reflexivity | discriminate] | apply Hd].
Qed.

Lemma join_on_wire (l : list string) :
  Forall (fun w => Forall (fun c => code c < 128 /\ c <> newline) (chars w)) l ->
  Forall (fun c => code c < 128 /\ c <> newline) (chars (join " " l)).
Proof.
  induction l as [|w l IH]; intros Hl; [constructor|].
  apply Forall_cons in Hl as [Hw Hl]. rewrite join_cons.
  destruct l as [|w2 l]; [rewrite append_empty_r; exact Hw|].
  rewrite !chars_append. apply Forall_app. split; [exact Hw|].
  apply Forall_app. split; [|apply IH, Hl].
  constructor; [|constructor]. split; [vm_compute; reflexivity | discriminate].
Qed.

Lemma split_on_head (sep c : ascii) (s : string) :
  c <> sep -> length (split_on sep (String c s)) = length (split_on sep s).
Proof.
  intros Hc. cbn [split_on]. destruct (Ascii.eqb_spec c sep); [contradiction|].
  pose proof (split_on_nonempty sep s) as Hne.
  destruct (split_on sep s); [contradiction | reflexivity].
Qed.

Lemma frame_tokens (marker : ascii) (readings : list Z) :
  marker <> " "%char ->
  length (split_on " " (frame_with marker readings))
  = match readings with [] => 1%nat | _ => length readings end.
Proof.
  intros Hm. unfold frame_with. rewrite (split_on_head _ _ _ Hm).
  destruct readings as [|n readings]; [reflexivity|].
  rewrite (split_on_join " "); [apply length_map | discriminate |].
  apply Forall_map, Forall_forall. intros k _. apply str_no_space.
Qed.

(** X11: a frame crosses the transport unchanged. When the bytes waiting
    on the serial port start with a line that the board sends for a list of
    readings (a marker character, the readings in decimal separated by
    spaces, then a space, a carriage return and the newline), one pass of
    the read loop queues the frame exactly when the readings are 320, drops
    it otherwise, and discards whatever was waiting behind the line; the
    decoder then splits the queued frame into the decimal texts of the
    readings, in order. *)
Theorem frame_crosses_transport (st : usbtool) (marker : ascii) (readings : list Z)
    (behind : list ascii) :
  code marker < 128 -> marker <> newline -> marker <> " "%char ->
  message_from_board st = "" ->
  let frame := frame_with marker readings in
  let st' := read_loop (wire_line marker readings ++ behind) st in
  queue_from_usbtool st'
  = (if decide (length readings = 320%nat)
     then queue_from_usbtool st ++ [frame]
     else queue_from_usbtool st)
  /\ input_buffer st' = []
  /\ message_from_board st' = ""
  /\ serial_ok st' = serial_ok st
  /\ (readings <> [] -> tokens (Some frame) = Ok (map str readings)).
Proof.
  intros Hcode Hnl Hsp Hempty frame st'.
  assert (Hline : Forall (fun c => code c < 128 /\ c <> newline)
                    (chars frame ++ [" "%char; carriage_return])).
  { apply Forall_app. split.
    - unfold frame, frame_with. change (chars (String marker ?s)) with (marker :: chars s).
      constructor; [split; assumption|]. apply join_on_wire.
      apply Forall_map, Forall_forall. intros n _. apply str_on_wire.
    - constructor; [split; [vm_compute; reflexivity | discriminate]|].
      constructor; [split; [vm_compute; reflexivity | discriminate]|]. constructor. }
  assert (Hrun : st' = end_of_line
                         {| serial_ok := serial_ok st;
                            message_from_board :=
                              str_of (chars frame ++ [" "%char; carriage_return]);
                            input_buffer := behind;
                            queue_from_usbtool := queue_from_usbtool st |}).
  { unfold st', wire_line. fold frame.
    replace ((chars frame ++ [" "%char; carriage_return; newline]) ++ behind)
      with ((chars frame ++ [" "%char; carriage_return]) ++ newline :: behind)
      by (rewrite <- !app_assoc; reflexivity).
    rewrite (read_loop_line _ behind st Hline), Hempty. reflexivity. }
  rewrite Hrun. unfold end_of_line. cbn [queue_from_usbtool input_buffer
    message_from_board serial_ok].
  unfold str_slice. rewrite chars_str_of, slice_strip_two, str_of_chars.
  split; [|split; [reflexivity | split; [reflexivity | split; [reflexivity|]]]].
  - unfold frame. rewrite (frame_tokens marker readings Hsp).
    destruct readings as [|n readings].
    + destruct (decide _) as [Heq|_]; [discriminate Heq | reflexivity].
    + destruct (Z.eqb_spec (Z.of_nat (length (n :: readings))) 320) as [Heq|Hne];
        destruct (decide (length (n :: readings) = 320%nat)) as [Heq'|Hne'];
        try reflexivity; lia.
  - intros Hne. apply tokens_frame, Hne.
Qed.

Lemma frame_crosses_transport_witness :
  let st := {| serial_ok := true; message_from_board := ""; input_buffer := [];
               queue_from_usbtool := [] |} in
  let readings := CalibrationSample.setup_readings in
  let st' := read_loop (wire_line ":" readings ++ chars "12 7") st in
  queue_from_usbtool st'
  = (if decide (length readings = 320%nat)
     then [frame_with ":" readings] else [])
  /\ input_buffer st' = []
  /\ message_from_board st' = ""
  /\ serial_ok st' = true
  /\ (readings <> [] -> tokens (Some (frame_with ":" readings)) = Ok (map str readings)).
Proof.
  apply (frame_crosses_transport
           {| serial_ok := true; message_from_board := ""; input_buffer := [];
              queue_from_usbtool := [] |} ":" CalibrationSample.setup_readings
           (chars "12 7")).
  - vm_compute. reflexivity.
  - discriminate.
  - discriminate.
  - reflexivity.
Defined.

End Wire.


(** ** Time settings read off the kings *)

Section KingTimes.
Import PicoChess SettingsSpec TimeSpec GestureSpec.

Lemma king_square_listed (k : king_square) : on_time_square k -> k ∈ king_squares.
Proof.
  destruct k as [[rank file]|]; [|intros _; left].
  intros [Hrank Hfile].
  assert (Hr : rank ∈ [3; 4; 5; 6]%nat).
  { assert (rank = 3 \/ rank = 4 \/ rank = 5 \/ rank = 6)%nat as [->|[->|[->| ->]]] by lia;
      apply (bool_decide_unpack _); vm_compute; exact I. }
  right. apply list_elem_of_bind. exists rank. split; [|exact Hr].
  apply list_elem_of_bind. exists file. split; [left|]. apply elem_of_seq. lia.
Qed.

(** What the two scans of the ranks find, for every gesture. *)
Lemma king_values (white black : king_square) :
  time_gesture white black ->
  static_rows (kings_rows white black) <> "rnbqkbnr/pppppppp/PPPPPPPP/RNBQKBNR"
  /\ static_rows (kings_rows white black)
     ∈ ["rnbq1bnr/pppppppp/PPPPPPPP/RNBQKBNR";
        "rnbqkbnr/pppppppp/PPPPPPPP/RNBQ1BNR";
        "rnbq1bnr/pppppppp/PPPPPPPP/RNBQ1BNR"]
  /\ king_value "K" (kings_rows white black) true
     = Ok (if bool_decide (white = Some (3, 0)%nat) then (None, true)
           else (king_time <$> white, false))
  /\ king_value "k" (kings_rows white black) false = Ok (king_time <$> black, false).
Proof.
  assert (H : Forall (fun white => Forall (fun black =>
            time_gesture white black ->
            static_rows (kings_rows white black) <> "rnbqkbnr/pppppppp/PPPPPPPP/RNBQKBNR"
            /\ static_rows (kings_rows white black)
               ∈ ["rnbq1bnr/pppppppp/PPPPPPPP/RNBQKBNR";
                  "rnbqkbnr/pppppppp/PPPPPPPP/RNBQ1BNR";
                  "rnbq1bnr/pppppppp/PPPPPPPP/RNBQ1BNR"]
            /\ king_value "K" (kings_rows white black) true
               = Ok (if bool_decide (white = Some (3, 0)%nat) then (None, true)
                     else (king_time <$> white, false))
            /\ king_value "k" (kings_rows white black) false
               = Ok (king_time <$> black, false))
          king_squares) king_squares)
    by (apply (bool_decide_unpack _); vm_compute; exact I).
  intros Hg. pose proof Hg as (Hw & Hb & _).
  rewrite Forall_forall in H. specialize (H white (king_square_listed _ Hw)).
  rewrite Forall_forall in H. exact (H black (king_square_listed _ Hb) Hg).
Qed.

(** X12: the time gesture. With every piece at home but the kings, and
    a king that is out standing alone on its rank among ranks 3 to 6, the
    settings read off the board are: the time constraint ['custom'], the
    number of the white king's square as minutes and the number of the
    black king's square as seconds (0 to 7 along rank 3, 8 to 15 along
    rank 4, 16 to 30 along rank 5, 40 to 100 and then 120 along rank 6).
    The white king on a3 gives no minutes: alone it selects
    ['unlimited'], and with the black king out the constraint is
    ['custom'] with the minutes left as they were. The game is not
    started. *)
Theorem king_time_gesture (p : pico_chess) (settings : gmap string setting)
    (white black : king_square) :
  time_gesture white black ->
  decode_settings p (kings_rows white black) settings
  = Ok (time_settings white black settings, false).
Proof.
  intros Hg. destruct (king_values white black Hg) as (Hnormal & Hkings & HK & Hk).
  unfold decode_settings. fold (static_rows (kings_rows white black)). cbv zeta.
  rewrite bool_decide_eq_false_2 by exact Hnormal.
  rewrite bool_decide_eq_true_2 by exact Hkings.
  unfold kings_settings, time_settings. rewrite HK.
  destruct (bool_decide (white = Some (3, 0)%nat)) eqn:Hun; simpl; rewrite Hk; simpl.
  - destruct black as [b|]; reflexivity.
  - destruct white as [w|], black as [b|]; reflexivity.
Qed.

Lemma king_time_gesture_witness :
  decode_settings (fresh millisecond_clock)
    (split_on "/" "rnbq1bnr/pppppppp/8/8/4K3/6k1/PPPPPPPP/RNBQ1BNR") ∅
  = Ok (<["time_increment_seconds" := SInt 6]>
          (<["time_total_minutes" := SInt 12]>
             (<["time_constraint" := SStr "custom"]> ∅)), false).
Proof.
  apply (king_time_gesture (fresh millisecond_clock) ∅ (Some (4, 4)%nat) (Some (3, 6)%nat)).
  apply (bool_decide_unpack _). vm_compute. exact I.
Defined.

End KingTimes.


(** ** Settings read off one spare queen *)

Section QueenGestures.
Import PicoChess SettingsSpec QueenSpec GestureSpec.

Lemma pick_or_nonneg (l : list string) (i : Z) (fallback : string) :
  0 <= i -> pick_or l i fallback = default fallback (l !! Z.to_nat i).
Proof.
  intros Hi. unfold pick_or, index. cbv zeta.
  destruct (Z.ltb_spec i 0); [lia|]. destruct (Z.ltb_spec i 0); [lia|].
  destruct (Z.leb_spec (Z.of_nat (length l)) i) as [Hout|Hin]; simpl.
  - rewrite lookup_ge_None_2 by lia. reflexivity.
  - destruct (l !! Z.to_nat i); reflexivity.
Qed.

Lemma pick_or_nat (l : list string) (n : nat) (fallback : string) :
  pick_or l (Z.of_nat n) fallback = default fallback (l !! n).
Proof. rewrite pick_or_nonneg by lia. rewrite Nat2Z.id. reflexivity. Qed.

(** X13: the settings gestures of one spare queen. With every piece at
    home and one spare queen on ranks 3 to 6, the settings read off the
    board are the given ones with the one entry (two for the white queen
    on a4) that the queen's square stands for, and the game is not
    started. *)
Theorem queen_gesture (p : pico_chess) (settings : gmap string setting)
    (white : bool) (rank file : nat) :
  (3 <= rank <= 6)%nat -> (file < 8)%nat ->
  decode_settings p (queen_rows white rank file) settings
  = Ok (queen_setting (book_list p) (engine_list p) white rank file settings, false).
Proof.
  intros Hrank Hfile.
  assert (Hfiles : (file = 0 \/ file = 1 \/ file = 2 \/ file = 3
                    \/ file = 4 \/ file = 5 \/ file = 6 \/ file = 7)%nat) by lia.
  assert (rank = 3 \/ rank = 4 \/ rank = 5 \/ rank = 6)%nat as [->|[->|[->| ->]]] by lia.
  - destruct Hfiles as [->|[->|[->|[->|[->|[->|[->| ->]]]]]]]; destruct white;
      lazy -[pick_or insert book_list engine_list];
      first [ apply (f_equal (fun x => Ok (<["book" := SStr x]> settings, false)));
              apply pick_or_nonneg; discriminate
            | reflexivity ].
  - destruct Hfiles as [->|[->|[->|[->|[->|[->|[->| ->]]]]]]]; destruct white;
      lazy -[pick_or insert book_list engine_list]; reflexivity.
  - destruct Hfiles as [->|[->|[->|[->|[->|[->|[->| ->]]]]]]]; destruct white;
      lazy -[pick_or insert book_list engine_list]; reflexivity.
  - destruct Hfiles as [->|[->|[->|[->|[->|[->|[->| ->]]]]]]]; destruct white;
      lazy -[pick_or insert book_list engine_list];
      apply (f_equal (fun x => Ok (<["engine" := SStr x]> settings, false)));
      apply pick_or_nonneg; discriminate.
Qed.

Lemma queen_gesture_witness :
  decode_settings (__init__ millisecond_clock ["a"; "b"] ["gm.bin"; "fast.bin"]
                     (LedSpec.fresh_world (fun _ => 0%Q)) true)
    (split_on "/" "rnbqkbnr/pppppppp/8/8/8/5q2/PPPPPPPP/RNBQKBNR") ∅
  = Ok (<["book" := SStr ""]> ∅, false).
Proof.
  apply (queen_gesture (__init__ millisecond_clock ["a"; "b"] ["gm.bin"; "fast.bin"]
                          (LedSpec.fresh_world (fun _ => 0%Q)) true) ∅ false 3 5); lia.
Defined.

End QueenGestures.


(** ** The start of a game *)

Section GameStart.
Import PicoChess GestureSpec LedSpec TimeSpec StartSpec.

Lemma setting_eqb_refl (a : setting) : setting_eqb a a = true.
Proof.
  destruct a as [b|n|s]; simpl.
  - destruct b; reflexivity.
  - apply Z.eqb_refl.
  - apply bool_decide_eq_true_2. reflexivity.
Qed.

Lemma settings_differ_same (settings : gmap string setting) :
  settings_differ settings settings = false.
Proof.
  unfold settings_differ. rewrite bool_decide_eq_true_2 by reflexivity.
  replace (forallb _ (map_to_list settings)) with true; [reflexivity|].
  symmetry. apply forallb_forall. intros [k v] Hin. simpl.
  apply list_elem_of_In, elem_of_map_to_list in Hin. rewrite Hin.
  apply setting_eqb_refl.
Qed.

(** The board raises the start flag exactly on the start gesture, and
    then the settings are left as they are. *)
Lemma decode_start (p : pico_chess) (board_state : string)
    (settings settings' : gmap string setting) :
  decode_settings p (split_on "/" board_state) settings = Ok (settings', true)
  <-> start_gesture board_state /\ settings' = settings.
Proof.
  unfold decode_settings, start_gesture.
  fold (static_rows (split_on "/" board_state)). cbv zeta.
  set (rows := split_on "/" board_state).
  destruct (bool_decide_reflect (static_rows rows = "rnbqkbnr/pppppppp/PPPPPPPP/RNBQKBNR"))
    as [Hstatic|Hstatic].
  - destruct (Z.eqb_spec (Z.of_nat (length (filter (fun board_row => len board_row = 3)
                                              (slice rows (Some 2) (Some (- 2)))))) 2)
      as [Hcount|Hcount].
    + destruct (bool_decide_reflect
                  (lower (join "/" (slice rows (Some 3) (Some 5))) = "4q3/4q3"))
        as [Hqueens|Hqueens].
      * split.
        -- intros [= <-]. repeat split; [exact Hstatic | lia | exact Hqueens].
        -- intros [_ ->]. reflexivity.
      * split; [intros H; discriminate H | intros [(_ & _ & H) _]; contradiction].
    + split; [|intros [(_ & H & _) _]; lia].
      destruct (index rows 5) as [r5|e]; [|intros H; discriminate H]. simpl.
      destruct (_ || _).
      { destruct (row5_settings _ _ _); intros H; discriminate H. }
      destruct (index rows 4) as [r4|e]; [|intros H; discriminate H]. simpl.
      destruct (_ || _).
      { destruct (row4_settings _ _); intros H; discriminate H. }
      destruct (index rows 3) as [r3|e]; [|intros H; discriminate H]. simpl.
      destruct (_ || _).
      { destruct (row_0_to_71 _); intros H; discriminate H. }
      destruct (index rows 2) as [r2|e]; [|intros H; discriminate H]. simpl.
      destruct (_ || _).
      { destruct (row_0_to_71 _); intros H; discriminate H. }
      intros H; discriminate H.
  - split; [|intros [(H & _) _]; contradiction].
    destruct (bool_decide _); [|intros H; discriminate H].
    destruct (kings_settings _ _); intros H; discriminate H.
Qed.

(** The poll that sees the start gesture arms the start. *)
Lemma new_game_window_arms (p : pico_chess) (board_state : string)
    (settings : gmap string setting) (u : setting) :
  well_formed (led p) -> start_game p = false ->
  wait_between_commands p <= ticks p (ticks_read p) - last_command_time p ->
  start_gesture board_state -> settings !! "use_board_position" = Some u ->
  exists p1,
    new_game_window board_state (Some settings) p
    = (Ok (NewGame (Some settings) false), p1)
    /\ armed p1 (ticks p (S (ticks_read p))
                 + (if truthy u then 20000 - wait_between_commands p else 0))
    /\ ticks p1 = ticks p /\ ticks_read p1 = (ticks_read p + 2)%nat
    /\ wait_between_commands p1 = wait_between_commands p
    /\ well_formed (led p1).
Proof.
  intros Hwf Hstart Hlate Hgesture Hu.
  unfold new_game_window. unfold mbind at 1. unfold get_ticks at 1.
  unfold mbind at 1. unfold get at 1.
  cbn [set_ticks_read ticks ticks_read last_command_time wait_between_commands start_game].
  destruct (Z.ltb_spec (ticks p (ticks_read p) - last_command_time p)
              (wait_between_commands p)) as [Hin|_]; [lia|].
  rewrite Hstart. unfold mbind at 1.
  destruct (pico_set_leds_named (set_ticks_read (S (ticks_read p)) p) "none"
              (replicate 8 0) Hwf eq_refl) as (w' & -> & Hwf' & _).
  unfold mbind at 1. unfold get at 1. unfold mbind at 1. unfold lift at 1.
  rewrite (proj2 (decode_start _ board_state settings settings) (conj Hgesture eq_refl)).
  rewrite settings_differ_same.
  unfold mbind, modify, get_ticks, lift, get, ret, getitem. simpl. rewrite Hu. simpl.
  destruct (truthy u); simpl.
  - eexists. split; [reflexivity|]. unfold armed. simpl.
    split; [split; [reflexivity | lia]|]. split; [reflexivity|].
    split; [lia|]. split; [reflexivity | exact Hwf'].
  - eexists. split; [reflexivity|]. unfold armed. simpl.
    split; [split; [reflexivity | lia]|]. split; [reflexivity|].
    split; [lia|]. split; [reflexivity | exact Hwf'].
Qed.

(** A poll during the countdown flashes the corners and returns. *)
Lemma new_game_window_waits (p : pico_chess) (board_state : string)
    (settings : option (gmap string setting)) :
  well_formed (led p) -> start_game p = true ->
  ticks p (ticks_read p) - last_command_time p < wait_between_commands p ->
  exists w',
    new_game_window board_state settings p
    = (Ok (NewGame settings false), set_led w' (set_ticks_read (S (ticks_read p)) p))
    /\ well_formed w'.
Proof.
  intros Hwf Hstart Hdeb. apply Z.ltb_lt in Hdeb.
  unfold new_game_window, mbind, get_ticks, get, ret. simpl. rewrite Hdeb, Hstart. simpl.
  destruct (pico_flash_leds_named (set_ticks_read (S (ticks_read p)) p) "corners"
              [129; 0; 0; 0; 0; 0; 0; 129] Hwf eq_refl) as (w' & -> & Hwf').
  exists w'. split; [reflexivity | exact Hwf'].
Qed.

(** While the countdown runs, the polls change nothing but the LEDs. *)
Lemma new_game_polls_armed (clock : nat -> Z) (wait since : Z)
    (polls : list (string * option (gmap string setting))) :
  forall p : pico_chess,
  well_formed (led p) -> armed p since ->
  ticks p = clock -> wait_between_commands p = wait ->
  (forall i, (i < length polls)%nat -> clock (ticks_read p + i)%nat - since < wait) ->
  exists p2,
    new_game_polls polls p = (Ok (map (fun poll => NewGame (snd poll) false) polls), p2)
    /\ armed p2 since
    /\ ticks p2 = clock /\ ticks_read p2 = (ticks_read p + length polls)%nat
    /\ wait_between_commands p2 = wait
    /\ well_formed (led p2).
Proof.
  induction polls as [|[board settings] polls IH];
    intros p Hwf [Hstart Hsince] Hclock Hwait Hin.
  - exists p. cbn [length]. rewrite Nat.add_0_r.
    split; [reflexivity|]. split; [split; assumption|]. split; [assumption|].
    split; [reflexivity|]. split; assumption.
  - assert (Hdeb : ticks p (ticks_read p) - last_command_time p < wait_between_commands p).
    { rewrite Hclock, Hsince, Hwait. specialize (Hin 0%nat ltac:(simpl; lia)).
      rewrite Nat.add_0_r in Hin. exact Hin. }
    destruct (new_game_window_waits p board settings Hwf Hstart Hdeb) as (w' & Hpoll & Hwf').
    destruct (IH (set_led w' (set_ticks_read (S (ticks_read p)) p)))
      as (p2 & Hrun & Harmed & Hclock2 & Hreads2 & Hwait2 & Hwf2).
    + exact Hwf'.
    + split; [exact Hstart | exact Hsince].
    + exact Hclock.
    + exact Hwait.
    + intros i Hi. cbn [set_led set_ticks_read ticks_read].
      replace (S (ticks_read p) + i)%nat with (ticks_read p + S i)%nat by lia.
      apply Hin. simpl. lia.
    + unfold new_game_polls in *. cbn [mapM_st fst snd map]. unfold mbind at 1.
      rewrite Hpoll. unfold mbind. rewrite Hrun. unfold ret.
      exists p2. split; [reflexivity|]. split; [exact Harmed|].
      split; [exact Hclock2|]. split; [|split; assumption].
      rewrite Hreads2. simpl. lia.
Qed.

(** The first poll after the countdown starts the game. *)
Lemma new_game_window_starts (p : pico_chess) (board_state : string)
    (settings : gmap string setting) (u : setting) :
  start_game p = true ->
  wait_between_commands p <= ticks p (ticks_read p) - last_command_time p ->
  settings !! "use_board_position" = Some u ->
  negb (truthy u) || (contains "k" board_state && contains "K" board_state) = true ->
  new_game_window board_state (Some settings) p
  = (Ok (NewGame (Some settings) true),
     set_start_game false (set_ticks_read (S (ticks_read p)) p)).
Proof.
  intros Hstart Hlate Hu Hkings.
  unfold new_game_window, mbind, get_ticks, get, lift, modify, ret, subscript, getitem.
  simpl.
  destruct (Z.ltb_spec (ticks p (ticks_read p) - last_command_time p)
              (wait_between_commands p)) as [Hin|_]; [lia|].
  rewrite Hstart, Hu, Hkings. reflexivity.
Qed.

(** X14: the game starts after the countdown. When the new game window
    sees the start gesture outside the debounce window and with no start
    pending, it returns no start but arms it, with the command time set
    to its second reading of the clock, plus 20000 ms less the debounce
    time when the given settings use the board position. Every later poll
    whose reading comes less than the debounce time after that command
    time returns its settings and no start, whatever the board shows; and
    the first poll that comes later returns the start, provided that its
    settings do not use the board position or that both kings are on the
    board, and no start is pending any more. *)
Theorem start_after_countdown (p : pico_chess) (board_state : string)
    (settings : gmap string setting) (u : setting)
    (polls : list (string * option (gmap string setting)))
    (last_board : string) (last_settings : gmap string setting) (u' : setting) :
  well_formed (led p) -> start_game p = false ->
  wait_between_commands p <= ticks p (ticks_read p) - last_command_time p ->
  start_gesture board_state -> settings !! "use_board_position" = Some u ->
  let wait := wait_between_commands p in
  let since := ticks p (S (ticks_read p)) + (if truthy u then 20000 - wait else 0) in
  (forall i, (i < length polls)%nat -> ticks p (ticks_read p + 2 + i)%nat - since < wait) ->
  wait <= ticks p (ticks_read p + 2 + length polls)%nat - since ->
  last_settings !! "use_board_position" = Some u' ->
  negb (truthy u') || (contains "k" last_board && contains "K" last_board) = true ->
  exists p1 p2 p3,
    new_game_window board_state (Some settings) p
    = (Ok (NewGame (Some settings) false), p1)
    /\ armed p1 since
    /\ new_game_polls polls p1
       = (Ok (map (fun poll => NewGame (snd poll) false) polls), p2)
    /\ armed p2 since
    /\ new_game_window last_board (Some last_settings) p2
       = (Ok (NewGame (Some last_settings) true), p3)
    /\ start_game p3 = false.
Proof.
  intros Hwf Hstart Hlate Hgesture Hu wait since Hin Hout Hu' Hkings.
  destruct (new_game_window_arms p board_state settings u Hwf Hstart Hlate Hgesture Hu)
    as (p1 & Hrun1 & Harmed1 & Hclock1 & Hreads1 & Hwait1 & Hwf1).
  fold wait in Harmed1, Hwait1. fold since in Harmed1.
  destruct (new_game_polls_armed (ticks p) wait since polls p1 Hwf1 Harmed1 Hclock1 Hwait1)
    as (p2 & Hrun2 & Harmed2 & Hclock2 & Hreads2 & Hwait2 & Hwf2).
  { intros i Hi. rewrite Hreads1. apply Hin, Hi. }
  exists p1, p2. eexists. split; [exact Hrun1|]. split; [exact Harmed1|].
  split; [exact Hrun2|]. split; [exact Harmed2|].
  destruct Harmed2 as [Hstart2 Hsince2].
  split; [apply (new_game_window_starts p2 last_board last_settings u' Hstart2)|reflexivity].
  - rewrite Hclock2, Hreads2, Hreads1, Hsince2, Hwait2. exact Hout.
  - exact Hu'.
  - exact Hkings.
Qed.

Lemma start_after_countdown_witness :
  let settings : gmap string setting := <["use_board_position" := SBool false]> ∅ in
  let polls := [(kings_home_board, Some settings); (start_board, None)] in
  exists p1 p2 p3,
    new_game_window start_board (Some settings) (fresh second_ticks)
    = (Ok (NewGame (Some settings) false), p1)
    /\ armed p1 1000
    /\ new_game_polls polls p1
       = (Ok [NewGame (Some settings) false; NewGame None false], p2)
    /\ armed p2 1000
    /\ new_game_window kings_home_board (Some settings) p2
       = (Ok (NewGame (Some settings) true), p3)
    /\ start_game p3 = false.
Proof.
  intros settings polls.
  apply (start_after_countdown (fresh second_ticks) start_board settings (SBool false)
           polls kings_home_board settings (SBool false)).
  - apply fresh_world_well_formed.
  - reflexivity.
  - vm_compute. discriminate.
  - apply (bool_decide_unpack _). vm_compute. exact I.
  - reflexivity.
  - intros i Hi. destruct i as [|[|i]]; [vm_compute; reflexivity.. | simpl in Hi; lia].
  - vm_compute. discriminate.
  - reflexivity.
  - reflexivity.
Defined.

End GameStart.


(** ** Sessions: a start needs its gesture, and one calibration *)

Section Sessions.
Import PicoChess GestureSpec LedSpec TimeSpec StartSpec SessionSpec.
Context `{E : RuleEngine}.

#[local] Instance flags_kept_refl : Reflexive flags_kept.
Proof. intros p. split; [reflexivity | tauto]. Qed.

#[local] Instance flags_kept_trans : Transitive flags_kept.
Proof.
  intros a b c [Hs1 Hc1] [Hs2 Hc2]. split; [congruence | tauto].
Qed.

Lemma exit_only_flags {A : Type} (m : M pico_chess A) :
  keeps exit_only m -> keeps flags_kept m.
Proof.
  intros H p. destruct (H p) as (_ & _ & _ & _ & _ & Hs & Hc).
  split; [exact Hs | congruence].
Qed.

Ltac flags_leaf :=
  first [ apply exit_only_flags; first [ apply get_ticks_exit_only
                                       | apply led_call_exit_only
                                       | apply check_exit_exit_only ]
        | apply keeps_modify; intros ?; split; [reflexivity | simpl; tauto]
        | apply keeps_modify; intros ?; split; [reflexivity | simpl; congruence] ].

Lemma home_window_flags (board : string) : keeps flags_kept (home_window board).
Proof.
  unfold home_window, led_manager_set_leds. keeps_body; flags_leaf.
Qed.

Lemma game_window_flags (board : string) (settings : option (gmap string setting))
    (virtual_board : option Board) :
  keeps flags_kept (game_window board settings virtual_board).
Proof.
  unfold game_window. keeps_body; flags_leaf.
Qed.

Lemma thinking_window_flags (board : string) (virtual_board : option Board) :
  keeps flags_kept (thinking_window board virtual_board).
Proof.
  unfold thinking_window. keeps_body; flags_leaf.
Qed.

(** Case analysis of a run: the scrutinees of the matches are taken
    apart until the run is a pair of a result and a state. *)
Ltac run_cases H :=
  repeat match type of H with
         | context [match ?x with _ => _ end] =>
             lazymatch x with
             | context [match _ with _ => _ end] => fail
             | _ => destruct x eqn:?; simpl in H
             end
         end;
  try discriminate H.

Lemma game_window_outcome (board : string) (settings : option (gmap string setting))
    (virtual_board : option Board) (p p1 : pico_chess) (out : outcome) :
  game_window board settings virtual_board p = (Ok out, p1) ->
  ~ starts out /\ ~ calibrates out.
Proof.
  unfold game_window. unfold mbind at 1.
  destruct (check_exit board "game" p) as [[exit_state|e] q]; [|intros H; discriminate H].
  unfold mbind, get_ticks, get, lift, modify, ret, raise. simpl. intros H.
  run_cases H; injection H as <- _; split; intros [].
Qed.

Lemma thinking_window_outcome (board : string) (virtual_board : option Board)
    (p p1 : pico_chess) (out : outcome) :
  thinking_window board virtual_board p = (Ok out, p1) ->
  ~ starts out /\ ~ calibrates out.
Proof.
  unfold thinking_window, mbind, get_ticks, get, lift, modify, ret, raise. simpl.
  intros H. run_cases H; injection H as <- _; split; intros [].
Qed.

Lemma home_window_outcome (board : string) (p p1 : pico_chess) (out : outcome) :
  home_window board p = (Ok out, p1) ->
  ~ starts out
  /\ (calibrates out -> can_calibrate p = true /\ can_calibrate p1 = false).
Proof.
  unfold home_window, mbind, get_ticks, get, lift, modify, ret, raise. simpl.
  intros H. run_cases H; injection H as <- <-; (split; [intros []|]);
    first [ intros _; split; first [assumption | reflexivity] | intros [] ].
Qed.

(** What one poll of the new game window does to the pending start: it
    leaves it as it is and returns no start, or it returns the start that
    was pending, or it sees the start gesture and arms the start. *)
Lemma new_game_window_run (board : string) (settings : option (gmap string setting))
    (p p1 : pico_chess) (r : result outcome) :
  new_game_window board settings p = (r, p1) ->
  can_calibrate p1 = can_calibrate p
  /\ (forall out, r = Ok out -> ~ calibrates out)
  /\ ((forall out, r = Ok out -> ~ starts out) /\ start_game p1 = start_game p
      \/ start_game p = true /\ start_game p1 = false
      \/ (forall out, r = Ok out -> ~ starts out)
         /\ start_game p = false /\ start_game p1 = true /\ start_gesture board).
Proof.
  unfold new_game_window, led_manager_set_leds, led_manager_flash_leds, zoom,
    mbind, get_ticks, get, lift, modify, ret, raise. simpl.
  intros H. run_cases H; injection H as <- <-; simpl;
    (split; [reflexivity|]);
    (split; [intros out Hout; first [discriminate Hout | injection Hout as <-; intros []]|]);
    first [ left; split; [|congruence];
            intros out Hout; first [discriminate Hout | injection Hout as <-; intros []]
          | right; left; split; congruence
          | right; right;
            split; [intros out Hout;
                    first [discriminate Hout | injection Hout as <-; intros []]|];
            split; [congruence|]; split; [congruence|];
            match goal with
            | Hd : decode_settings _ _ _ = Ok (_, true) |- _ =>
                apply decode_start in Hd as [Hg _]; exact Hg
            end ].
Qed.

(** What one call of [update] does to the two flags. *)
Lemma update_run (q : poll) (p p1 : pico_chess) (out : outcome) :
  update (window q) (board_state q) (settings q) (virtual_board q) p = (Ok out, p1) ->
  (can_calibrate p = false -> can_calibrate p1 = false)
  /\ (calibrates out -> can_calibrate p = true /\ can_calibrate p1 = false)
  /\ (starts out -> start_game p = true /\ start_game p1 = false)
  /\ (start_game p = false -> start_game p1 = true ->
      window q = "new game" /\ start_gesture (board_state q)).
Proof.
  destruct q as [w board st vb]. cbn [window board_state settings virtual_board].
  unfold update. unfold mbind at 1. unfold get at 1. unfold mbind at 1. unfold lift at 1.
  destruct (exit_command p !! "application") as [flag|]; [|intros H; discriminate H].
  destruct ((flag || negb (on p))
            && bool_decide (w ∈ ["home"; "new game"; "game"; "thinking"])).
  { unfold ret. intros H.
    repeat (destruct (bool_decide _) in H);
      injection H as <- <-;
      (split; [tauto|]; split; [intros []|]; split; [intros []|]; congruence). }
  destruct (bool_decide_reflect (w = "home")) as [->|_].
  { intros H. pose proof (home_window_flags board p) as [Hs Hc]. rewrite H in Hs, Hc.
    destruct (home_window_outcome board p p1 out H) as [Hstart Hcal].
    cbn [snd] in Hs, Hc. repeat split; try tauto; congruence. }
  destruct (bool_decide_reflect (w = "new game")) as [->|_].
  { intros H. destruct (new_game_window_run board st p p1 (Ok out) H)
      as (Hc & Hcal & [[Hno Hs]|[[Hs Hs1]|(Hno & Hs & Hs1 & Hg)]]).
    - split; [congruence|]. split; [intros Hout; destruct (Hcal out eq_refl Hout)|].
      split; [intros Hout; destruct (Hno out eq_refl Hout) | congruence].
    - split; [congruence|]. split; [intros Hout; destruct (Hcal out eq_refl Hout)|].
      split; [intros _; split; assumption | congruence].
    - split; [congruence|]. split; [intros Hout; destruct (Hcal out eq_refl Hout)|].
      split; [intros Hout; destruct (Hno out eq_refl Hout)|].
      intros _ _. split; [reflexivity | exact Hg]. }
  destruct (bool_decide_reflect (w = "game")) as [->|_].
  { intros H. pose proof (game_window_flags board st vb p) as [Hs Hc]. rewrite H in Hs, Hc.
    destruct (game_window_outcome board st vb p p1 out H) as [Hstart Hcal].
    cbn [snd] in Hs, Hc. repeat split; try tauto; congruence. }
  destruct (bool_decide_reflect (w = "thinking")) as [->|_].
  { intros H. pose proof (thinking_window_flags board vb p) as [Hs Hc]. rewrite H in Hs, Hc.
    destruct (thinking_window_outcome board vb p p1 out H) as [Hstart Hcal].
    cbn [snd] in Hs, Hc. repeat split; try tauto; congruence. }
  unfold ret. intros [= <- <-].
  split; [tauto|]. split; [intros []|]. split; [intros []|]. congruence.
Qed.

Lemma session_cons (q : poll) (polls : list poll) (p p' : pico_chess)
    (outs : list outcome) :
  session (q :: polls) p = (Ok outs, p') ->
  exists out p1 outs',
    update (window q) (board_state q) (settings q) (virtual_board q) p = (Ok out, p1)
    /\ session polls p1 = (Ok outs', p')
    /\ outs = out :: outs'.
Proof.
  unfold session. cbn [mapM_st]. unfold mbind at 1.
  destruct (update _ _ _ _ p) as [[out|e] p1]; [|intros H; discriminate H].
  unfold mbind.
  destruct (mapM_st _ polls p1) as [[outs'|e] p2] eqn:Hrest; [|intros H; discriminate H].
  unfold ret. intros [= <- <-]. exists out, p1, outs'.
  split; [reflexivity|]. split; [exact Hrest | reflexivity].
Qed.

(** Once the calibration is used up, no call asks for it. *)
Lemma session_calibrated (polls : list poll) :
  forall (p p' : pico_chess) (outs : list outcome),
  session polls p = (Ok outs, p') -> can_calibrate p = false ->
  forall k out, outs !! k = Some out -> ~ calibrates out.
Proof.
  induction polls as [|q polls IH]; intros p p' outs Hrun Hcal k out Hk.
  - injection Hrun as <- _. discriminate Hk.
  - destruct (session_cons q polls p p' outs Hrun) as (out0 & p1 & outs' & Hq & Hrest & ->).
    destruct (update_run q p p1 out0 Hq) as (Hkeep & Hask & _).
    destruct k as [|k]; cbn in Hk.
    + injection Hk as <-. intros Hout. destruct (Hask Hout) as [Hcan _]. congruence.
    + exact (IH p1 p' outs' Hrest (Hkeep Hcal) k out Hk).
Qed.

(** A start was pending before the session, or a poll of the session saw
    the start gesture; no start comes between the arming and the start. *)
Lemma session_start (polls : list poll) :
  forall (p p' : pico_chess) (outs : list outcome) (k : nat) (out : outcome),
  session polls p = (Ok outs, p') -> outs !! k = Some out -> starts out ->
  (start_game p = true
   /\ forall i out', (i < k)%nat -> outs !! i = Some out' -> ~ starts out')
  \/ exists j q,
       (j < k)%nat /\ polls !! j = Some q
       /\ window q = "new game" /\ start_gesture (board_state q)
       /\ forall i out', (j <= i < k)%nat -> outs !! i = Some out' -> ~ starts out'.
Proof.
  induction polls as [|q polls IH]; intros p p' outs k out Hrun Hk Hout.
  - injection Hrun as <- _. discriminate Hk.
  - destruct (session_cons q polls p p' outs Hrun) as (out0 & p1 & outs' & Hq & Hrest & ->).
    destruct (update_run q p p1 out0 Hq) as (_ & _ & Hstart & Harm).
    destruct k as [|k]; cbn in Hk.
    + injection Hk as <-. left. split; [apply Hstart, Hout|]. intros i out' Hi. lia.
    + destruct (IH p1 p' outs' k out Hrest Hk Hout)
        as [[Hpending Hnone]|(j & q' & Hj & Hq' & Hwin & Hgesture & Hnone)].
      * assert (Hfirst : ~ starts out0).
        { intros H0. destruct (Hstart H0) as [_ Hoff]. congruence. }
        destruct (start_game p) eqn:Hp.
        -- left. split; [reflexivity|]. intros i out' Hi Hlook.
           destruct i as [|i]; cbn in Hlook.
           ++ injection Hlook as <-. exact Hfirst.
           ++ apply (Hnone i out'); [lia | exact Hlook].
        -- right. destruct (Harm eq_refl Hpending) as [Hwin Hgesture].
           exists 0%nat, q. split; [lia|]. split; [reflexivity|].
           split; [exact Hwin|]. split; [exact Hgesture|].
           intros i out' Hi Hlook. destruct i as [|i]; cbn in Hlook.
           ++ injection Hlook as <-. exact Hfirst.
           ++ apply (Hnone i out'); [lia | exact Hlook].
      * right. exists (S j), q'. split; [lia|]. split; [exact Hq'|].
        split; [exact Hwin|]. split; [exact Hgesture|].
        intros i out' Hi Hlook. destruct i as [|i]; [lia|]. cbn in Hlook.
        apply (Hnone i out'); [lia | exact Hlook].
Qed.

(** X15: every start has its own gesture. In a session that begins with
    no start pending, whenever a call of [update] tells the main loop to
    start the game, an earlier call was made on the new game window with
    the start gesture on the board, and no call between that one and the
    start told the main loop to start: a start gesture starts at most one
    game, and no game starts without one. *)
Theorem start_needs_its_gesture (polls : list poll) (p p' : pico_chess)
    (outs : list outcome) (k : nat) (out : outcome) :
  session polls p = (Ok outs, p') -> start_game p = false ->
  outs !! k = Some out -> starts out ->
  exists j q,
    (j < k)%nat /\ polls !! j = Some q
    /\ window q = "new game" /\ start_gesture (board_state q)
    /\ forall i out', (j <= i < k)%nat -> outs !! i = Some out' -> ~ starts out'.
Proof.
  intros Hrun Hp Hk Hout.
  destruct (session_start polls p p' outs k out Hrun Hk Hout) as [[Hpending _]|H].
  - congruence.
  - exact H.
Qed.

(** X16: the calibration is asked for at most once. In a session, at most
    one call of [update] tells the main loop to calibrate the board, on
    whatever windows and boards the calls are made, and none does when
    the calibration was used up before. *)
Theorem calibration_asked_once (polls : list poll) :
  forall (p p' : pico_chess) (outs : list outcome) (j k : nat) (out_j out_k : outcome),
  session polls p = (Ok outs, p') ->
  outs !! j = Some out_j -> calibrates out_j ->
  outs !! k = Some out_k -> calibrates out_k ->
  j = k /\ can_calibrate p = true /\ can_calibrate p' = false.
Proof.
  induction polls as [|q polls IH]; intros p p' outs j k out_j out_k Hrun Hj Hcj Hk Hck.
  - injection Hrun as <- _. discriminate Hj.
  - destruct (session_cons q polls p p' outs Hrun) as (out0 & p1 & outs' & Hq & Hrest & ->).
    destruct (update_run q p p1 out0 Hq) as (Hkeep & Hask & _).
    assert (Hlast : forall ps a b os, session ps a = (Ok os, b) ->
                    can_calibrate a = false -> can_calibrate b = false).
    { clear. induction ps as [|q ps IHps]; intros a b os Hrun Ha.
      - injection Hrun as _ <-. exact Ha.
      - destruct (session_cons q ps a b os Hrun) as (o & a1 & os' & Hq & Hrest & _).
        destruct (update_run q a a1 o Hq) as (Hkeep & _).
        exact (IHps a1 b os' Hrest (Hkeep Ha)). }
    destruct j as [|j], k as [|k]; cbn in Hj, Hk.
    + injection Hj as <-. destruct (Hask Hcj) as [Hcan Hused].
      split; [reflexivity|]. split; [exact Hcan|].
      exact (Hlast polls p1 p' outs' Hrest Hused).
    + injection Hj as <-. destruct (Hask Hcj) as [_ Hused].
      destruct (session_calibrated polls p1 p' outs' Hrest Hused k out_k Hk Hck).
    + injection Hk as <-. destruct (Hask Hck) as [_ Hused].
      destruct (session_calibrated polls p1 p' outs' Hrest Hused j out_j Hj Hcj).
    + destruct (IH p1 p' outs' j k out_j out_k Hrest Hj Hcj Hk Hck) as (-> & Hcan & Hused).
      split; [reflexivity|]. split; [|exact Hused].
      destruct (can_calibrate p) eqn:Hp; [reflexivity|]. rewrite (Hkeep eq_refl) in Hcan.
      discriminate Hcan.
Qed.

End Sessions.

Section SessionExamples.
Import PicoChess GestureSpec StartSpec SessionSpec.

Lemma start_session_run :
  session start_session (fresh second_ticks)
  = (Ok start_outcomes, snd (session start_session (fresh second_ticks))).
Proof.
  assert (H : fst (session start_session (fresh second_ticks)) = Ok start_outcomes)
    by (vm_compute; reflexivity).
  rewrite <- H. apply surjective_pairing.
Qed.

Lemma start_needs_its_gesture_witness :
  exists j q,
    (j < 3)%nat /\ start_session !! j = Some q
    /\ window q = "new game" /\ start_gesture (board_state q)
    /\ forall i out', (j <= i < 3)%nat -> start_outcomes !! i = Some out' -> ~ starts out'.
Proof.
  exact (start_needs_its_gesture start_session (fresh second_ticks) _ start_outcomes 3 _
           start_session_run eq_refl eq_refl I).
Defined.

Lemma calibration_session_run :
  session calibration_polls (fresh millisecond_clock)
  = (Ok [Home "home" true; Home "home" false],
     snd (session calibration_polls (fresh millisecond_clock))).
Proof.
  assert (H : fst (session calibration_polls (fresh millisecond_clock))
              = Ok [Home "home" true; Home "home" false])
    by (vm_compute; reflexivity).
  rewrite <- H. apply surjective_pairing.
Qed.

Lemma calibration_asked_once_witness :
  0%nat = 0%nat
  /\ can_calibrate (fresh millisecond_clock) = true
  /\ can_calibrate (snd (session calibration_polls (fresh millisecond_clock))) = false.
Proof.
  exact (calibration_asked_once calibration_polls (fresh millisecond_clock) _ _
           0 0 _ _ calibration_session_run eq_refl I eq_refl I).
Defined.

End SessionExamples.


(** ** The choice of the serial port *)

Section PortChoice.
Import Ports PortSpec.

Lemma head_filter {A : Type} (f : A -> bool) (l : list A) :
  head (List.filter f l) = find f l.
Proof.
  induction l as [|x l IH]; [reflexivity|]. simpl. destruct (f x); [reflexivity | exact IH].
Qed.

Lemma head_app_cons {A : Type} (l k : list A) (x : A) :
  head ((l ++ [x]) ++ k) = head (l ++ x :: k).
Proof. rewrite <- app_assoc. reflexivity. Qed.

(** The devices that a search may open: those of the listed ports that
    have the right driver and, outside strict mode, those that are no
    Bluetooth ports. *)
Lemma scan_run (strict : bool) (ports : list (string * string)) :
  forall (wrong : list string) (w : port_world),
  exists tried,
    scan strict ports wrong w
    = (Ok (match find (usable w) ports with
           | Some port => Some (fst port)
           | None =>
               head (wrong ++ if strict then []
                              else map fst (List.filter (fallback w) ports))
           end),
       {| available := available w; opened := opened w ++ tried |})
    /\ Forall (fun device =>
                 exists port, port ∈ ports /\ fst port = device
                              /\ (right_driver port = true
                                  \/ strict = false /\ bluetooth port = false))
              tried.
Proof.
  induction ports as [|[device description] ports IH]; intros wrong w.
  - exists []. rewrite app_nil_r. split; [|constructor].
    cbn [scan find List.filter map]. destruct strict; rewrite ?app_nil_r;
      destruct w, wrong; reflexivity.
  - assert (Hmore : forall tried : list string,
              Forall (fun d => exists port, port ∈ ports /\ fst port = d
                               /\ (right_driver port = true
                                   \/ strict = false /\ bluetooth port = false)) tried ->
              Forall (fun d => exists port, port ∈ (device, description) :: ports
                               /\ fst port = d
                               /\ (right_driver port = true
                                   \/ strict = false /\ bluetooth port = false)) tried).
    { intros tried Htried. eapply Forall_impl; [exact Htried|].
      intros d (port & Hin & Hd & Hok).
      exists port. split; [right; exact Hin | split; assumption]. }
    cbn [scan find List.filter]. unfold usable at 1, fallback at 1, right_driver, bluetooth.
    cbn [fst snd].
    destruct (str_in "cp210" (lower description)) eqn:Hright; cbn [andb negb].
    + unfold mbind, test_availability.
      destruct (available w device) eqn:Hopen.
      * exists [device]. split; [reflexivity|]. constructor; [|constructor].
        exists (device, description). split; [left|]. split; [reflexivity|].
        left. exact Hright.
      * destruct (IH wrong {| available := available w; opened := opened w ++ [device] |})
          as (tried & Hrun & Htried).
        exists (device :: tried). cbn [available opened] in Hrun. rewrite Hrun.
        split; [rewrite <- app_assoc; reflexivity|].
        constructor; [|apply Hmore, Htried].
        exists (device, description). split; [left|]. split; [reflexivity|].
        left. exact Hright.
    + destruct strict; cbn [negb].
      * destruct (IH wrong w) as (tried & Hrun & Htried).
        exists tried. rewrite Hrun. split; [reflexivity | apply Hmore, Htried].
      * destruct (str_in "bluetooth" (lower device)) eqn:Hblue; cbn [andb negb].
        -- destruct (IH wrong w) as (tried & Hrun & Htried).
           exists tried. rewrite Hrun. split; [reflexivity | apply Hmore, Htried].
        -- unfold mbind, test_availability.
           destruct (available w device) eqn:Hopen.
           ++ destruct (IH (wrong ++ [device])
                          {| available := available w; opened := opened w ++ [device] |})
                as (tried & Hrun & Htried).
              exists (device :: tried). cbn [available opened] in Hrun. rewrite Hrun.
              split.
              ** cbn [map fst]. rewrite head_app_cons, <- app_assoc. reflexivity.
              ** constructor; [|apply Hmore, Htried].
                 exists (device, description). split; [left|]. split; [reflexivity|].
                 right. split; [reflexivity | exact Hblue].
           ++ destruct (IH wrong
                          {| available := available w; opened := opened w ++ [device] |})
                as (tried & Hrun & Htried).
              exists (device :: tried). cbn [available opened] in Hrun. rewrite Hrun.
              split; [rewrite <- app_assoc; reflexivity|].
              constructor; [|apply Hmore, Htried].
              exists (device, description). split; [left|]. split; [reflexivity|].
              right. split; [reflexivity | exact Hblue].
Qed.

(** X17: the port that [find_port] chooses. The search never raises and
    returns the device of the first listed port that has the CP210x
    driver in its description and opens, wherever it stands in the list;
    without such a port it returns nothing in strict mode and, outside
    strict mode, the device of the first listed port that has not the
    driver, is no Bluetooth device and opens. Every device that the search
    opens is the device of a listed port that has the driver or, outside
    strict mode, is no Bluetooth device. *)
Theorem find_port_choice (strict : bool) (ports : list (string * string))
    (w : port_world) :
  exists tried,
    find_port strict ports w
    = (Ok (choice strict w ports),
       {| available := available w; opened := opened w ++ tried |})
    /\ Forall (fun device =>
                 exists port, port ∈ ports /\ fst port = device
                              /\ (right_driver port = true
                                  \/ strict = false /\ bluetooth port = false))
              tried.
Proof.
  destruct (scan_run strict ports [] w) as (tried & Hrun & Htried).
  exists tried. split; [|exact Htried].
  unfold find_port, choice. rewrite Hrun. f_equal. f_equal.
  destruct (find (usable w) ports); [reflexivity|].
  destruct strict; [reflexivity|]. cbn [app].
  rewrite <- head_filter. destruct (List.filter (fallback w) ports); reflexivity.
Qed.

(** A CP210x port that opens wins over the ports listed before it, and
    a busy one is passed over; a Bluetooth port is told by its device
    name, not by its description. *)
Example find_port_sample :
  fst (find_port false sample_ports (only_open ["COM1"; "COM7"; "COM4"])) = Ok (Some "COM4")
  /\ opened (snd (find_port false sample_ports (only_open ["COM1"; "COM7"; "COM4"])))
     = ["COM1"; "COM7"; "COM3"; "COM4"]
  /\ fst (find_port true sample_ports (only_open ["COM1"; "COM7"])) = Ok None
  /\ fst (find_port false sample_ports (only_open ["COM1"; "COM7"])) = Ok (Some "COM1").
Proof. repeat split; vm_compute; reflexivity. Qed.

End PortChoice.


(** ** Misplaced pieces *)

Section MisplacedPieces.
Import LedManager LedSpec Misplaced.
Context `{V : BoardView}.

Lemma SQUARE_NAMES_algebraic : Forall algebraic SQUARE_NAMES.
Proof. apply (bool_decide_unpack _). vm_compute. exact I. Qed.

Lemma index_elem {A : Type} (l : list A) (i : Z) (x : A) :
  index l i = Ok x -> x ∈ l.
Proof.
  unfold index. cbv zeta. destruct (_ || _); [intros H; discriminate H|].
  destruct (l !! _) eqn:Hl; [|intros H; discriminate H].
  intros [= <-]. eapply list_elem_of_lookup_2, Hl.
Qed.

(** The squares reported are the squares on which the two boards show
    different pieces. *)
Lemma differences_squares (virtual_board temp_board : Board) (name : string) :
  name ∈ differences virtual_board temp_board
  <-> exists square, 0 <= square < 64
                     /\ index SQUARE_NAMES square = Ok name
                     /\ piece_at virtual_board square ≠ piece_at temp_board square.
Proof.
  unfold differences. rewrite list_elem_of_In, in_flat_map. split.
  - intros (square & Hin & Hname). apply list_elem_of_In in Hin.
    unfold range in Hin. apply list_elem_of_fmap in Hin as (n & -> & Hn).
    apply elem_of_seq in Hn.
    destruct (decide _) as [Hne|]; [|destruct Hname].
    destruct (index SQUARE_NAMES (Z.of_nat n)) as [x|e] eqn:Hx; [|destruct Hname].
    destruct Hname as [<-|[]]. exists (Z.of_nat n). repeat split; try lia; assumption.
  - intros (square & Hsq & Hname & Hne). exists square. split.
    + apply list_elem_of_In. unfold range. apply list_elem_of_fmap.
      exists (Z.to_nat square). split; [lia|]. apply elem_of_seq. lia.
    + destruct (decide _) as [_|Heq]; [|contradiction]. rewrite Hname. left. reflexivity.
Qed.

Lemma differences_algebraic (virtual_board temp_board : Board) :
  Forall algebraic (differences virtual_board temp_board).
Proof.
  apply Forall_forall. intros name Hin.
  apply differences_squares in Hin as (square & _ & Hname & _).
  pose proof SQUARE_NAMES_algebraic as Hall. rewrite Forall_forall in Hall.
  apply Hall. eapply index_elem, Hname.
Qed.

(** X18: misplaced pieces are highlighted after a delay. When the
    physical board field sets up a position that differs from the virtual
    board, and this pair of boards is not the one compared last, the call
    lights nothing: it records the comparison, the differing squares and
    its reading of the clock, and returns [None]. The next call with the
    same boards lights the recorded squares (in the requested orientation)
    and returns [True] if its reading of the clock comes more than
    [misplaced_wait_time] after the recorded one, and otherwise lights
    nothing and returns [None]. The recorded squares are the squares on
    which the two boards show different pieces. A board field that cannot
    be set up, or one that differs nowhere from the virtual board, changes
    nothing. *)
Theorem misplaced_highlighted_after_delay (physical_board_fen : string)
    (virtual_board temp_board : Board) (rotate180 : bool) (w : misplaced_world) :
  table_of_init (mgr (leds w)) ->
  set_board_fen physical_board_fen = Some temp_board ->
  differences virtual_board temp_board <> [] ->
  last_misplaced_comparison w <> Some (physical_board_fen +:+ fen virtual_board) ->
  last_message (mgr (leds w)) <> Some (MsgList (differences virtual_board temp_board)) ->
  let diffs := differences virtual_board temp_board in
  let t0 := time_time (leds w) (time_reads (leds w)) in
  let t1 := time_time (leds w) (S (time_reads (leds w))) in
  (exists w1,
     highlight_misplaced_pieces physical_board_fen virtual_board rotate180 w = (Ok None, w1)
     /\ mgr (leds w1) = mgr (leds w)
     /\ last_misplaced_message w1 = Some diffs
     /\ misplaced_clock w1 = Some t0
     /\ exists w2,
          if Qlt_le_dec (misplaced_wait_time w) (t1 - t0)
          then
            highlight_misplaced_pieces physical_board_fen virtual_board rotate180 w1
            = (Ok (Some true), w2)
            /\ exists frame,
                 queue_to_usbtool (mgr (leds w2))
                 = queue_to_usbtool (mgr (leds w)) ++ [frame]
                 /\ lights rotate180 diffs frame
          else
            highlight_misplaced_pieces physical_board_fen virtual_board rotate180 w1
            = (Ok None, w2)
            /\ mgr (leds w2) = mgr (leds w))
  /\ (forall name,
        name ∈ diffs
        <-> exists square, 0 <= square < 64
                           /\ index SQUARE_NAMES square = Ok name
                           /\ piece_at virtual_board square ≠ piece_at temp_board square)
  /\ (forall (other : string) (board : Board) (w' : misplaced_world),
        last_misplaced_comparison w' <> Some (other +:+ fen board) ->
        match set_board_fen other with
        | None => True
        | Some temp => differences board temp = []
        end ->
        highlight_misplaced_pieces other board rotate180 w' = (Ok None, w')).
Proof.
  intros Htab Hfen Hdiff Hnew Hlast diffs t0 t1.
  split; [|split].
  - set (w1 := record_comparison (physical_board_fen +:+ fen virtual_board) diffs t0
                 (set_leds_world {| time_time := time_time (leds w);
                                    time_reads := S (time_reads (leds w));
                                    mgr := mgr (leds w) |} w)).
    assert (Hfirst : highlight_misplaced_pieces physical_board_fen virtual_board
                       rotate180 w = (Ok None, w1)).
    { unfold highlight_misplaced_pieces, mbind, get. cbv zeta.
      destruct (decide (Some (physical_board_fen +:+ fen virtual_board)
                        = last_misplaced_comparison w)) as [Heq|_];
        [exfalso; apply Hnew; symmetry; exact Heq|].
      rewrite Hfen. fold diffs. destruct diffs as [|d ds] eqn:Hd; [contradiction|].
      reflexivity. }
    exists w1. split; [exact Hfirst|]. split; [reflexivity|].
    split; [reflexivity|]. split; [reflexivity|].
    destruct (set_leds_request (mgr (leds w)) rotate180 (MsgList diffs) (Some diffs))
      as (frame & Hsends & _ & _ & Hlights).
    { exact Htab. }
    { constructor. apply differences_algebraic. }
    { exact Hlast. }
    unfold sends in Hsends.
    set (w1' := set_leds_world {| time_time := time_time (leds w);
                                  time_reads := S (S (time_reads (leds w)));
                                  mgr := mgr (leds w) |} w1).
    assert (Htime : zoom leds set_leds_world time w1 = (Ok t1, w1')) by reflexivity.
    assert (Hsame : decide (Some (physical_board_fen +:+ fen virtual_board)
                            = last_misplaced_comparison w1) = left eq_refl).
    { destruct (decide _) as [Heq|Hne]; [|exfalso; apply Hne; reflexivity].
      f_equal. apply (proof_irrel _). }
    destruct (Qlt_le_dec (misplaced_wait_time w) (t1 - t0)) as [Hlate|Hsoon] eqn:Hcmp.
    + eexists. split.
      * unfold highlight_misplaced_pieces, mbind, get. cbv zeta.
        rewrite Hsame, Htime. cbv beta iota.
        change (misplaced_clock w1) with (Some t0).
        change (misplaced_wait_time w1) with (misplaced_wait_time w). cbv beta iota.
        rewrite Hcmp. change (last_misplaced_message w1) with (Some diffs). cbv beta iota.
        unfold zoom, mgr_do, zoom. change (mgr (leds w1')) with (mgr (leds w)).
        rewrite Hsends. unfold ret. reflexivity.
      * exists frame. split; [reflexivity | apply Hlights; reflexivity].
    + eexists. split.
      * unfold highlight_misplaced_pieces, mbind, get. cbv zeta.
        rewrite Hsame, Htime. cbv beta iota.
        change (misplaced_clock w1) with (Some t0).
        change (misplaced_wait_time w1) with (misplaced_wait_time w). cbv beta iota.
        rewrite Hcmp. unfold ret. reflexivity.
      * reflexivity.
  - intros name. apply differences_squares.
  - intros other board w' Hother Hnone.
    unfold highlight_misplaced_pieces, mbind, get. cbv zeta.
    destruct (decide (Some (other +:+ fen board) = last_misplaced_comparison w'))
      as [Heq|_]; [exfalso; apply Hother; symmetry; exact Heq|].
    destruct (set_board_fen other) as [temp|]; [|reflexivity].
    rewrite Hnone. reflexivity.
Qed.

End MisplacedPieces.

Section MisplacedExamples.
Import LedManager LedSpec Misplaced MisplacedSpec.

Lemma misplaced_highlighted_after_delay_witness :
  exists w1 w2,
    highlight_misplaced_pieces "ab" ToyEngine.nothing_played false slow_world
    = (Ok None, w1)
    /\ highlight_misplaced_pieces "ab" ToyEngine.nothing_played false w1
       = (Ok (Some true), w2)
    /\ exists frame,
         queue_to_usbtool (mgr (leds w2)) = [frame] /\ lights false ["a1"] frame.
Proof.
  destruct (proj1 (misplaced_highlighted_after_delay (V := toy_view)
                     "ab" ToyEngine.nothing_played
                     ([2] : @Board ToyEngine.toy) false slow_world
                     fresh_manager_table ltac:(vm_compute; reflexivity)
                     ltac:(vm_compute; discriminate) ltac:(discriminate)
                     ltac:(simpl; rewrite fresh_manager_last_message; discriminate)))
    as (w1 & Hfirst & _ & _ & _ & w2 & Hsecond).
  exists w1, w2. split; [exact Hfirst|].
  destruct (Qlt_le_dec _ _) as [_|Hsoon] in Hsecond.
  - destruct Hsecond as (Hrun & frame & Hqueue & Hlights).
    split; [exact Hrun|]. exists frame. split; [|exact Hlights].
    rewrite Hqueue. simpl. unfold fresh_manager.
    destruct init_table as (m0 & -> & _ & -> & _). reflexivity.
  - exfalso. revert Hsoon. vm_compute. intros H. apply H. reflexivity.
Defined.

End MisplacedExamples.


(** ** Messages on their way to the board *)

Section Writing.
Import UsbtoolWriter WriterSpec.

Lemma deque_of_one {A : Type} (held : list A) (x : A) :
  (length held <= 1)%nat -> UsbReader.deque_append 1 held x = [x].
Proof.
  intros Hheld. unfold UsbReader.deque_append.
  destruct held as [|y [|z held]]; [reflexivity | reflexivity | simpl in Hheld; lia].
Qed.

(** Characters that decode leave the connection as it is. *)
Lemma read_loop_serial_ok (waiting : list ascii) :
  decodes waiting ->
  forall u, Usbtool.serial_ok (Usbtool.read_loop waiting u) = Usbtool.serial_ok u.
Proof.
  induction 1 as [|c waiting Hc _ IH]; intros u; [reflexivity|].
  cbn [Usbtool.read_loop].
  destruct (Z.leb_spec 128 (code c)) as [Hhigh|_]; [lia|].
  destruct (negb (Ascii.eqb c Usbtool.newline)); [rewrite IH|]; reflexivity.
Qed.

Lemma read_part_writing (w : writer) (st : worker) :
  decodes (waiting st (readings st)) -> writing (read_part w st) = set_serial_ok (serial_ok w) w.
Proof.
  intros Hdec. unfold read_part, Usbtool.read_messages. cbn [writing Usbtool.input_buffer].
  rewrite (read_loop_serial_ok _ Hdec). reflexivity.
Qed.

(** A turn that comes too early takes a message off the queue, which
    replaces the message held, and sends nothing. *)
Lemma write_pass_holds (st : writer) (new_message : list Z) (rest : list (list Z)) :
  serial_ok st = true -> (length (message_to_board st) <= 1)%nat ->
  queue_to_usbtool st = new_message :: rest ->
  (time_time st (time_reads st) < time_last_message_to_board st + buffer st)%Q ->
  write_pass st
  = ({| queue_to_usbtool := rest; message_to_board := [new_message];
        time_last_message_to_board := time_last_message_to_board st;
        buffer := buffer st; serial_ok := true;
        connects := connects st; connections_tried := connections_tried st;
        write_fails := write_fails st; writes_tried := writes_tried st;
        wire := wire st; time_time := time_time st;
        time_reads := S (time_reads st) |}, true).
Proof.
  intros Hok Hheld Hqueue Hearly.
  unfold write_pass, connect. rewrite Hok. unfold store_message. rewrite Hqueue.
  rewrite (deque_of_one _ _ Hheld). unfold send_message. cbn.
  destruct (Qlt_le_dec _ _) as [_|Hlate]; [rewrite Hok; reflexivity|].
  exfalso. apply (Qlt_not_le _ _ Hearly Hlate).
Qed.

(** A turn that comes late enough sends the message it takes off the
    queue, or loses it if the write fails. *)
Lemma write_pass_sends (st : writer) (new_message : list Z) (rest : list (list Z)) :
  serial_ok st = true -> (length (message_to_board st) <= 1)%nat ->
  queue_to_usbtool st = new_message :: rest ->
  (time_last_message_to_board st + buffer st <= time_time st (time_reads st))%Q ->
  write_pass st
  = if write_fails st (writes_tried st)
    then ({| queue_to_usbtool := rest; message_to_board := [];
             time_last_message_to_board := time_last_message_to_board st;
             buffer := buffer st; serial_ok := false;
             connects := connects st; connections_tried := connections_tried st;
             write_fails := write_fails st; writes_tried := S (writes_tried st);
             wire := wire st; time_time := time_time st;
             time_reads := S (time_reads st) |}, false)
    else ({| queue_to_usbtool := rest; message_to_board := [];
             time_last_message_to_board := time_time st (S (time_reads st));
             buffer := buffer st; serial_ok := true;
             connects := connects st; connections_tried := connections_tried st;
             write_fails := write_fails st; writes_tried := S (writes_tried st);
             wire := wire st ++ [new_message]; time_time := time_time st;
             time_reads := S (S (time_reads st)) |}, true).
Proof.
  intros Hok Hheld Hqueue Hlate.
  unfold write_pass, connect. rewrite Hok. unfold store_message. rewrite Hqueue.
  rewrite (deque_of_one _ _ Hheld). unfold send_message. cbn.
  destruct (Qlt_le_dec _ _) as [Hearly|_].
  - exfalso. apply (Qlt_not_le _ _ Hearly Hlate).
  - destruct (write_fails st (writes_tried st)); rewrite ?Hok; reflexivity.
Qed.

(** Turns that come too early, one for each of [frames]: the last of
    [frames] is held, and the reading was reached in each turn. *)
Lemma turns_hold (frames : list (list Z)) :
  forall (st : worker) (rest : list (list Z)),
  serial_ok (writing st) = true -> (length (message_to_board (writing st)) <= 1)%nat ->
  frames <> [] -> queue_to_usbtool (writing st) = frames ++ rest ->
  (forall i, (i < length frames)%nat ->
     (time_time (writing st) (time_reads (writing st) + i)%nat
      < time_last_message_to_board (writing st) + buffer (writing st))%Q) ->
  (forall i, (i < length frames)%nat -> decodes (waiting st (readings st + i)%nat)) ->
  writing (turns (length frames) st)
  = {| queue_to_usbtool := rest;
       message_to_board := [List.last frames []];
       time_last_message_to_board := time_last_message_to_board (writing st);
       buffer := buffer (writing st); serial_ok := true;
       connects := connects (writing st);
       connections_tried := connections_tried (writing st);
       write_fails := write_fails (writing st);
       writes_tried := writes_tried (writing st);
       wire := wire (writing st); time_time := time_time (writing st);
       time_reads := (time_reads (writing st) + length frames)%nat |}
  /\ waiting (turns (length frames) st) = waiting st
  /\ readings (turns (length frames) st) = (readings st + length frames)%nat.
Proof.
  induction frames as [|frame frames IH];
    intros st rest Hok Hheld Hne Hqueue Hearly Hdec; [contradiction|].
  cbn [length turns].
  assert (Hturn : writing (turn st)
                  = {| queue_to_usbtool := frames ++ rest; message_to_board := [frame];
                       time_last_message_to_board := time_last_message_to_board (writing st);
                       buffer := buffer (writing st); serial_ok := true;
                       connects := connects (writing st);
                       connections_tried := connections_tried (writing st);
                       write_fails := write_fails (writing st);
                       writes_tried := writes_tried (writing st);
                       wire := wire (writing st); time_time := time_time (writing st);
                       time_reads := S (time_reads (writing st)) |}
                  /\ waiting (turn st) = waiting st
                  /\ readings (turn st) = S (readings st)).
  { unfold turn.
    rewrite (write_pass_holds (writing st) frame (frames ++ rest) Hok Hheld Hqueue).
    2:{ specialize (Hearly 0%nat ltac:(simpl; lia)). rewrite Nat.add_0_r in Hearly.
        exact Hearly. }
    split; [|split; reflexivity].
    rewrite read_part_writing; [reflexivity|].
    specialize (Hdec 0%nat ltac:(simpl; lia)). rewrite Nat.add_0_r in Hdec. exact Hdec. }
  destruct Hturn as (Hw & Hwait & Hreads).
  destruct frames as [|frame2 frames].
  - cbn [turns length List.last]. rewrite Hw, Hwait, Hreads, !Nat.add_1_r.
    repeat split.
  - destruct (IH (turn st) rest) as (IHw & IHwait & IHreads).
    + rewrite Hw. reflexivity.
    + rewrite Hw. cbn. lia.
    + discriminate.
    + rewrite Hw. reflexivity.
    + intros i Hi. rewrite Hw.
      cbn [time_time time_reads time_last_message_to_board buffer].
      replace (S (time_reads (writing st)) + i)%nat
        with (time_reads (writing st) + S i)%nat by lia.
      apply Hearly. cbn [length] in *. lia.
    + intros i Hi. rewrite Hwait, Hreads.
      replace (S (readings st) + i)%nat with (readings st + S i)%nat by lia.
      apply Hdec. cbn [length] in *. lia.
    + rewrite IHw, IHwait, IHreads, Hw, Hwait, Hreads.
      cbn [time_last_message_to_board buffer connects connections_tried write_fails
           writes_tried wire time_time time_reads length].
      split; [|split; [reflexivity|lia]].
      f_equal. lia.
Qed.

(** X19: messages to the board are coalesced. A connected worker that
    holds at most one message takes one message off the queue in each turn
    of its loop, and each replaces the one held. So when the turns that
    take the first [n] messages come less than [buffer] after the last
    write, and the turn that takes the next message comes later, that last
    message alone is written (and the time of the write recorded); the
    [n] messages before it never reach the board. If the write raises, the
    last message is lost as well, and the connection is marked broken.
    What arrives from the board in these turns is taken to decode. *)
Theorem messages_coalesced (st : worker) (skipped : list (list Z)) (sent : list Z)
    (rest : list (list Z)) :
  serial_ok (writing st) = true ->
  (length (message_to_board (writing st)) <= 1)%nat ->
  queue_to_usbtool (writing st) = skipped ++ sent :: rest ->
  let n := length skipped in
  let clock := time_time (writing st) in
  let start := time_reads (writing st) in
  let due := (time_last_message_to_board (writing st) + buffer (writing st))%Q in
  (forall i, (i < n)%nat -> (clock (start + i)%nat < due)%Q) ->
  (due <= clock (start + n)%nat)%Q ->
  (forall i, (i <= n)%nat -> decodes (waiting st (readings st + i)%nat)) ->
  let st' := writing (turns (S n) st) in
  queue_to_usbtool st' = rest
  /\ message_to_board st' = []
  /\ if write_fails (writing st) (writes_tried (writing st))
     then wire st' = wire (writing st) /\ serial_ok st' = false
     else wire st' = wire (writing st) ++ [sent] /\ serial_ok st' = true
          /\ time_last_message_to_board st' = clock (S (start + n)).
Proof.
  intros Hok Hheld Hqueue n clock start due Hearly Hlate Hdec st'.
  subst n clock start due st'.
  assert (Hsplit : forall k s, turns (S k) s = turn (turns k s)).
  { induction k as [|k IHk]; intros s; [reflexivity|].
    cbn [turns] in *. rewrite <- IHk. reflexivity. }
  rewrite Hsplit.
  assert (Hlast : forall s : worker,
             serial_ok (writing s) = true ->
             (length (message_to_board (writing s)) <= 1)%nat ->
             queue_to_usbtool (writing s) = sent :: rest ->
             (time_last_message_to_board (writing s) + buffer (writing s)
              <= time_time (writing s) (time_reads (writing s)))%Q ->
             decodes (waiting s (readings s)) ->
             queue_to_usbtool (writing (turn s)) = rest
             /\ message_to_board (writing (turn s)) = []
             /\ if write_fails (writing s) (writes_tried (writing s))
                then wire (writing (turn s)) = wire (writing s)
                     /\ serial_ok (writing (turn s)) = false
                else wire (writing (turn s)) = wire (writing s) ++ [sent]
                     /\ serial_ok (writing (turn s)) = true
                     /\ time_last_message_to_board (writing (turn s))
                        = time_time (writing s) (S (time_reads (writing s)))).
  { intros s Hs Hone Hq Hdue Hd. unfold turn.
    rewrite (write_pass_sends (writing s) sent rest Hs Hone Hq Hdue).
    destruct (write_fails (writing s) (writes_tried (writing s))).
    - repeat split.
    - rewrite read_part_writing by exact Hd. repeat split. }
  destruct skipped as [|frame skipped].
  - cbn [turns length] in *. rewrite Nat.add_0_r in *.
    apply Hlast; try assumption.
    specialize (Hdec 0%nat ltac:(lia)). rewrite Nat.add_0_r in Hdec. exact Hdec.
  - destruct (turns_hold (frame :: skipped) st (sent :: rest) Hok Hheld
                ltac:(discriminate) Hqueue Hearly) as (Hw & Hwait & Hreads).
    { intros i Hi. apply Hdec. lia. }
    specialize (Hlast (turns (length (frame :: skipped)) st)).
    rewrite Hw, Hwait, Hreads in Hlast.
    cbn [serial_ok message_to_board queue_to_usbtool time_last_message_to_board buffer
         time_time time_reads write_fails writes_tried wire] in Hlast.
    apply Hlast; [reflexivity | cbn; lia | reflexivity | exact Hlate |].
    apply Hdec. lia.
Qed.

Lemma messages_coalesced_witness :
  let st := connected [[1]; [2]; [3]; [4]; [5]] quarter_clock in
  let st' := writing (turns 4 st) in
  queue_to_usbtool st' = [[5]]
  /\ message_to_board st' = []
  /\ wire st' = [[4]] /\ serial_ok st' = true
  /\ time_last_message_to_board st' = quarter_clock 4.
Proof.
  intros st st'.
  apply (messages_coalesced st [[1]; [2]; [3]] [4] [[5]]).
  - reflexivity.
  - simpl. lia.
  - reflexivity.
  - intros i Hi. destruct i as [|[|[|i]]]; [reflexivity.. | simpl in Hi; lia].
  - vm_compute. discriminate.
  - intros i _. apply (bool_decide_unpack _). vm_compute. exact I.
Defined.

End Writing.


(** ** The calibration gesture *)

Section RankTexts.
Import PicoChess DecoderSpec HomeSpec.

Lemma run_digits_chars (e : nat) :
  (e <= 9)%nat -> Forall field_char (chars (run_digits e)).
Proof.
  intros He. do 10 (destruct e as [|e];
                    [repeat constructor; left; reflexivity|]). lia.
Qed.

Lemma piece_chars (p : string) :
  piece_symbol p -> p <> "." -> exists c, p = String c "" /\ field_char c.
Proof.
  unfold piece_symbol. rewrite elem_of_cons. intros [->|Hin] Hne; [contradiction|].
  pose proof Hin as Hp. unfold UsbReader.code_mapping_order in Hin.
  rewrite !elem_of_cons in Hin.
  destruct Hin as [->|[->|[->|[->|[->|[->|[->|[->|[->|[->|[->|[->|H]]]]]]]]]]]];
    [eexists; split; [reflexivity | right; exact Hp] ..|].
  apply elem_of_nil in H. contradiction.
Qed.

Lemma rank_field_chars (rank : list string) (e : nat) :
  Forall piece_symbol rank -> (e + length rank <= 9)%nat ->
  Forall field_char (chars (rank_field e rank)).
Proof.
  revert e. induction rank as [|p rank IH]; intros e Hsym Hlen.
  - apply run_digits_chars. simpl in Hlen. lia.
  - apply Forall_cons in Hsym as [Hp Hsym]. simpl length in Hlen. simpl rank_field.
    destruct (decide (p = ".")) as [|Hne]; [apply IH; [exact Hsym | lia]|].
    destruct (piece_chars p Hp Hne) as (c & -> & Hc).
    rewrite !chars_append. apply Forall_app. split; [apply run_digits_chars; lia|].
    apply Forall_app. split; [constructor; [exact Hc | constructor]|].
    apply IH; [exact Hsym | lia].
Qed.

Lemma letter_no_digit (c : ascii) :
  String c "" ∈ UsbReader.code_mapping_order -> isdigit c = false /\ c <> "."%char.
Proof.
  unfold UsbReader.code_mapping_order. rewrite !elem_of_cons.
  intros [H|[H|[H|[H|[H|[H|[H|[H|[H|[H|[H|[H|H]]]]]]]]]]]];
    try (injection H as ->; split; [reflexivity | discriminate]).
  apply elem_of_nil in H. contradiction.
Qed.

Lemma run_digits_numbers (e : nat) :
  (0 < e <= 9)%nat -> hasNumbers (run_digits e) = true.
Proof.
  intros He. destruct e as [|e]; [lia|].
  do 9 (destruct e as [|e]; [reflexivity|]). lia.
Qed.

Lemma hasNumbers_app (a b : string) :
  hasNumbers (a +:+ b) = hasNumbers a || hasNumbers b.
Proof. unfold hasNumbers. rewrite chars_append. apply existsb_app. Qed.

(** A rank with an empty square is written with a digit. *)
Lemma rank_field_numbers (rank : list string) (e : nat) :
  (e + length rank <= 9)%nat -> (0 < e)%nat \/ "." ∈ rank ->
  hasNumbers (rank_field e rank) = true.
Proof.
  revert e. induction rank as [|p rank IH]; intros e Hlen Hdot.
  - simpl in *. destruct Hdot as [He|Hin]; [|apply elem_of_nil in Hin; contradiction].
    apply run_digits_numbers. lia.
  - simpl length in Hlen. simpl rank_field.
    destruct (decide (p = ".")) as [->|Hne].
    + apply IH; [lia | left; lia].
    + rewrite !hasNumbers_app. destruct Hdot as [He|Hin].
      * rewrite run_digits_numbers by lia. reflexivity.
      * apply elem_of_cons in Hin as [Heq|Hin]; [congruence|].
        rewrite (IH 0%nat); [rewrite !orb_true_r; reflexivity | lia | right; exact Hin].
Qed.

(** A full rank is written with its letters. *)
Lemma rank_field_full (rank : list string) :
  Forall piece_symbol rank -> "." ∉ rank ->
  len (rank_field 0 rank) = Z.of_nat (length rank)
  /\ hasNumbers (rank_field 0 rank) = false.
Proof.
  induction rank as [|p rank IH]; intros Hsym Hfull; [split; reflexivity|].
  apply Forall_cons in Hsym as [Hp Hsym]. apply not_elem_of_cons in Hfull as [Hne Hfull].
  destruct (IH Hsym Hfull) as [Hlen Hnum].
  simpl rank_field. destruct (decide (p = ".")) as [Heq|_]; [congruence|].
  unfold piece_symbol in Hp. apply elem_of_cons in Hp as [Heq|Hletter]; [congruence|].
  assert (Hc : exists c, p = String c "").
  { destruct (piece_chars p) as (c & Hc & _); [right; exact Hletter | congruence | eauto]. }
  destruct Hc as [c ->]. destruct (letter_no_digit c Hletter) as [Hdigit _].
  change ("" +:+ String c "" +:+ rank_field 0 rank)
    with (String c (rank_field 0 rank)).
  split.
  - unfold len in *. cbn [String.length length]. lia.
  - unfold hasNumbers in *. change (chars (String c ?s)) with (c :: chars s).
    cbn [existsb]. rewrite Hdigit, Hnum. reflexivity.
Qed.

Lemma full_rank_text (rank : list string) :
  length rank = 8%nat -> Forall piece_symbol rank ->
  (len (rank_field 0 rank) =? 8) && negb (hasNumbers (rank_field 0 rank)) = true
  <-> full_rank rank.
Proof.
  intros Hlen Hsym. unfold full_rank. split.
  - intros H Hdot. apply andb_true_iff in H as [_ Hnum].
    rewrite (rank_field_numbers rank 0) in Hnum; [discriminate | lia | right; exact Hdot].
  - intros Hfull. destruct (rank_field_full rank Hsym Hfull) as [-> ->].
    rewrite Hlen. reflexivity.
Qed.

Lemma empty_rank_text (rank : list string) :
  length rank = 8%nat -> Forall piece_symbol rank ->
  rank_field 0 rank = "8" <-> empty_rank rank.
Proof.
  intros Hlen Hsym. unfold empty_rank. split.
  - intros Htext. pose proof (expand_rank_field rank 0 Hsym ltac:(lia)) as Hexp.
    rewrite Htext in Hexp. symmetry. exact Hexp.
  - intros ->. reflexivity.
Qed.

Lemma rank_field_dots (n e : nat) (rest : list string) :
  rank_field e (replicate n "." ++ rest) = rank_field (e + n) rest.
Proof.
  revert e. induction n as [|n IH]; intros e; [rewrite Nat.add_0_r; reflexivity|].
  cbn [replicate app rank_field]. destruct (decide ("." = ".")) as [_|Hne]; [|contradiction].
  rewrite IH. f_equal. lia.
Qed.

Lemma rank_field_piece (c : ascii) (e : nat) (rest : list string) :
  String c "" <> "." ->
  rank_field e (String c "" :: rest)
  = run_digits e +:+ String c (rank_field 0 rest).
Proof.
  intros Hne. cbn [rank_field]. destruct (decide (String c "" = ".")); [contradiction|].
  reflexivity.
Qed.

(** A rank written as 3, a letter and 4 holds one piece, on the d-file. *)
Lemma d_piece_text (rank : list string) :
  length rank = 8%nat -> Forall piece_symbol rank ->
  str_every_other (rank_field 0 rank) = "34" <-> piece_on_d_only rank.
Proof.
  intros Hlen Hsym. split.
  - intros Hev.
    pose proof (expand_rank_field rank 0 Hsym ltac:(lia)) as Hexp.
    change (replicate 0 "." ++ rank) with rank in Hexp.
    assert (Hc : every_other (chars (rank_field 0 rank)) = ["3"; "4"]%char).
    { unfold str_every_other in Hev. apply (f_equal chars) in Hev.
      rewrite chars_str_of in Hev. exact Hev. }
    assert (Hall : rank_field 0 (replicate 8 ".") = "8") by reflexivity.
    destruct (chars (rank_field 0 rank)) as [|c0 [|c1 [|c2 [|c3 [|c4 l]]]]] eqn:Hs;
      simpl in Hc; try discriminate Hc; injection Hc as -> ->.
    + (* three characters *)
      change (expand ["3"%char; c1; "4"%char])
        with (replicate 3 "." ++ expand (c1 :: ["4"%char])) in Hexp.
      cbn [expand] in Hexp. change (is_decimal "4") with true in Hexp. cbv iota in Hexp.
      change (Z.to_nat (code "4" - 48)) with 4%nat in Hexp.
      destruct (is_decimal c1).
      * exfalso. subst rank. rewrite !length_app, !length_replicate in Hlen.
        cbn [length] in Hlen.
        assert (Hk : Z.to_nat (code c1 - 48) = 1%nat) by lia. rewrite Hk in Hs.
        change (chars (rank_field 0 (replicate 8 "."))) with ["8"%char] in Hs.
        discriminate Hs.
      * destruct (decide (String c1 "" = ".")) as [Heq|Hne].
        -- exfalso. subst rank. rewrite Heq in Hs.
           change (chars (rank_field 0 (replicate 8 "."))) with ["8"%char] in Hs.
           discriminate Hs.
        -- exists (String c1 ""). split; [exact Hne | symmetry; exact Hexp].
    + (* four characters *)
      exfalso.
      change (expand ["3"%char; c1; "4"%char; c3])
        with (replicate 3 "." ++ expand (c1 :: "4"%char :: [c3])) in Hexp.
      cbn [expand] in Hexp. change (is_decimal "4") with true in Hexp. cbv iota in Hexp.
      change (Z.to_nat (code "4" - 48)) with 4%nat in Hexp.
      assert (Hlong : length (chars (rank_field 0 rank)) = 4%nat) by (rewrite Hs; reflexivity).
      clear Hs. subst rank.
      destruct (is_decimal c1), (is_decimal c3);
        do 3 (rewrite ?length_app, ?length_replicate in Hlen; cbn [length] in Hlen).
      * rewrite !rank_field_dots in Hlong. cbn [rank_field] in Hlong.
        replace (0 + 3 + _ + 4 + _)%nat with 8%nat in Hlong by lia. discriminate Hlong.
      * assert (Hk : Z.to_nat (code c1 - 48) = 0%nat) by lia. rewrite Hk in Hlong.
        change (replicate 3 "." ++ replicate 0 "." ++ replicate 4 "." ++ [String c3 ""])
          with (replicate 7 "." ++ [String c3 ""]) in Hlong.
        rewrite rank_field_dots in Hlong.
        destruct (decide (String c3 "" = ".")) as [Heq|Hne].
        -- rewrite Heq in Hlong. discriminate Hlong.
        -- rewrite rank_field_piece in Hlong by exact Hne. discriminate Hlong.
      * assert (Hk : Z.to_nat (code c3 - 48) = 0%nat) by lia. rewrite Hk in Hlong.
        change (replicate 3 "." ++ String c1 "" :: replicate 4 "." ++ replicate 0 "." ++ [])
          with (replicate 3 "." ++ String c1 "" :: replicate 4 ".") in Hlong.
        rewrite rank_field_dots in Hlong.
        destruct (decide (String c1 "" = ".")) as [Heq|Hne].
        -- rewrite Heq in Hlong. discriminate Hlong.
        -- rewrite rank_field_piece in Hlong by exact Hne. discriminate Hlong.
      * lia.
    + (* five characters or more *)
      exfalso.
      match goal with Hmore : _ = [] |- _ => destruct l; discriminate Hmore end.
  - intros (piece & Hne & ->). rewrite Forall_forall in Hsym.
    assert (Hp : piece_symbol piece) by (apply Hsym; set_solver).
    destruct (piece_chars piece Hp Hne) as (c & -> & _).
    change [ "."; "."; "."; String c ""; "."; "."; "."; "." ]
      with (replicate 3 "." ++ String c "" :: replicate 4 ".").
    rewrite rank_field_dots, rank_field_piece by exact Hne. reflexivity.
Qed.

End RankTexts.

Section CalibrationGesture.
Import PicoChess DecoderSpec GestureSpec LedSpec HomeSpec SessionSpec.

(** The test of [home_window] on eight rows: no index is out of range,
    and the short-circuits leave the conjunction of the tests. *)
Lemma calibration_pattern_rows (s8 s7 s6 s5 s4 s3 s2 s1 : string) :
  calibration_pattern [s8; s7; s6; s5; s4; s3; s2; s1]
  = Ok (((len s8 =? 8) && negb (hasNumbers s8))
        && ((len s7 =? 8) && negb (hasNumbers s7))
        && ((len s2 =? 8) && negb (hasNumbers s2))
        && ((len s1 =? 8) && negb (hasNumbers s1))
        && bool_decide (s5 = "8") && bool_decide (s4 = "8")
        && bool_decide (str_every_other s6 = "34")
        && bool_decide (str_every_other s3 = "34")).
Proof.
  lazy -[len hasNumbers str_every_other Z.eqb negb andb bool_decide].
  destruct ((len s8 =? 8) && negb (hasNumbers s8)); [|reflexivity].
  destruct ((len s7 =? 8) && negb (hasNumbers s7)); [|reflexivity].
  destruct ((len s2 =? 8) && negb (hasNumbers s2)); [|reflexivity].
  destruct ((len s1 =? 8) && negb (hasNumbers s1)); [|reflexivity].
  destruct (bool_decide (s5 = "8")); [|reflexivity].
  destruct (bool_decide (s4 = "8")); [|reflexivity].
  destruct (bool_decide (str_every_other s6 = "34")); reflexivity.
Qed.

Lemma board_field_rows (board : list string) :
  length board = 64%nat -> Forall piece_symbol board ->
  split_on "/" (board_field_of board) = map (rank_field 0) (ranks_of 8 board).
Proof.
  intros Hlen Hsym. unfold board_field_of. apply (split_on_join "/").
  - discriminate.
  - apply Forall_map. pose proof (ranks_of_full 8 board Hlen Hsym) as Hranks.
    eapply Forall_impl; [exact Hranks|]. intros rank [Hl Hs]. cbn beta.
    pose proof (rank_field_chars rank 0 Hs ltac:(lia)) as Hchars.
    intros Hin. rewrite Forall_forall in Hchars. destruct (Hchars _ Hin) as [H|H].
    + discriminate H.
    + revert H. apply (bool_decide_unpack _). vm_compute. exact I.
Qed.

(** X20: the calibration gesture. On a board field written from 64
    piece symbols, and as long as the calibration was not asked for
    before, the home window asks for the calibration exactly when ranks
    8, 7, 2 and 1 are full, of whatever pieces, ranks 5 and 4 are empty,
    and ranks 6 and 3 hold one piece each, on d6 and on d3. It then
    records its reading of the clock as the command time and uses the
    calibration up. *)
Theorem calibration_gesture_recognized (board : list string) (p : pico_chess) :
  length board = 64%nat -> Forall piece_symbol board ->
  well_formed (led p) -> can_calibrate p = true ->
  exists out p',
    home_window (board_field_of board) p = (Ok out, p')
    /\ (calibrates out <-> calibration_gesture board)
    /\ (calibrates out ->
        can_calibrate p' = false /\ last_command_time p' = ticks p (ticks_read p)).
Proof.
  intros Hlen Hsym Hwf Hcan.
  pose proof (board_field_rows board Hlen Hsym) as Hrows.
  pose proof (ranks_of_full 8 board Hlen Hsym) as Hranks.
  unfold calibration_gesture.
  assert (Hshape : exists r8 r7 r6 r5 r4 r3 r2 r1,
             ranks_of 8 board = [r8; r7; r6; r5; r4; r3; r2; r1])
    by (cbn [ranks_of]; repeat eexists).
  destruct Hshape as (r8 & r7 & r6 & r5 & r4 & r3 & r2 & r1 & Heq).
  rewrite Heq in *. cbn [map] in Hrows.
  repeat match goal with
         | H : Forall _ (_ :: _) |- _ => apply Forall_cons in H as [[? ?] H]
         end.
  clear Hranks.
  assert (Hgesture :
            ((len (rank_field 0 r8) =? 8) && negb (hasNumbers (rank_field 0 r8)))
            && ((len (rank_field 0 r7) =? 8) && negb (hasNumbers (rank_field 0 r7)))
            && ((len (rank_field 0 r2) =? 8) && negb (hasNumbers (rank_field 0 r2)))
            && ((len (rank_field 0 r1) =? 8) && negb (hasNumbers (rank_field 0 r1)))
            && bool_decide (rank_field 0 r5 = "8") && bool_decide (rank_field 0 r4 = "8")
            && bool_decide (str_every_other (rank_field 0 r6) = "34")
            && bool_decide (str_every_other (rank_field 0 r3) = "34") = true
            <-> full_rank r8 /\ full_rank r7 /\ full_rank r2 /\ full_rank r1
                /\ empty_rank r5 /\ empty_rank r4
                /\ piece_on_d_only r6 /\ piece_on_d_only r3).
  { rewrite <- (full_rank_text r8), <- (full_rank_text r7), <- (full_rank_text r2),
      <- (full_rank_text r1), <- (empty_rank_text r5), <- (empty_rank_text r4),
      <- (d_piece_text r6), <- (d_piece_text r3) by assumption.
    rewrite !andb_true_iff, !bool_decide_eq_true. tauto. }
  unfold home_window.
  destruct (bool_decide_reflect
              (board_field_of board
               ∈ ["rnbqkbnr/pppppppp/8/3q4/3Q4/8/PPPPPPPP/RNBQKBNR";
                  "rnbqkbnr/pppppppp/8/3Q4/3q4/8/PPPPPPPP/RNBQKBNR"])) as [Hnew|_].
  - unfold mbind, get_ticks, modify, ret. cbn.
    destruct (pico_set_leds_named
                (set_last_command_time (ticks p (ticks_read p))
                   (set_ticks_read (S (ticks_read p)) p)) "corners"
                [129; 0; 0; 0; 0; 0; 0; 129] Hwf eq_refl) as (w' & -> & _).
    eexists. eexists. split; [reflexivity|]. split; [|intros []].
    split; [intros []|]. intros (_ & _ & _ & _ & Hempty & _).
    apply empty_rank_text in Hempty; [|assumption..].
    rewrite !elem_of_cons in Hnew. destruct Hnew as [Hb|[Hb|Hb]];
      [| |apply elem_of_nil in Hb; contradiction];
      rewrite Hb in Hrows; injection Hrows as _ _ _ Hr5 _ _ _ _;
      rewrite Hempty in Hr5; discriminate Hr5.
  - unfold mbind at 1. unfold get at 1. rewrite Hcan. rewrite Hrows.
    unfold mbind at 1. unfold lift at 1. rewrite calibration_pattern_rows.
    destruct (_ && _) eqn:Hpattern in |- *.
    + unfold mbind, get_ticks, modify, ret. cbn.
      destruct (pico_set_leds_named
                  (set_last_command_time (ticks p (ticks_read p))
                     (set_ticks_read (S (ticks_read p)) p)) "corners"
                  [129; 0; 0; 0; 0; 0; 0; 129] Hwf eq_refl) as (w' & -> & _).
      eexists. eexists. split; [reflexivity|]. split.
      * split; [intros _; apply Hgesture; exact Hpattern | intros _; exact I].
      * intros _. split; reflexivity.
    + unfold ret. eexists. eexists. split; [reflexivity|]. split; [|intros []].
      split; [intros []|]. intros Hg. apply Hgesture in Hg. congruence.
Qed.

Lemma calibration_gesture_recognized_witness :
  exists out p',
    home_window (board_field_of gesture_squares) (fresh millisecond_clock)
    = (Ok out, p')
    /\ (calibrates out <-> calibration_gesture gesture_squares)
    /\ (calibrates out ->
        can_calibrate p' = false
        /\ last_command_time p'
           = ticks (fresh millisecond_clock) (ticks_read (fresh millisecond_clock))).
Proof.
  apply (calibration_gesture_recognized gesture_squares (fresh millisecond_clock)).
  - reflexivity.
  - apply (bool_decide_unpack _). vm_compute. exact I.
  - apply fresh_world_well_formed.
  - reflexivity.
Defined.

End CalibrationGesture.
